(* ===== verification/_CoqProject ===== *)
-Q . S2P
Prelude.v
Address.v
WriteMask.v
DataBlock.v
HTM.v
IsolationManager.v
LazyVM.v
CommitArbiter.v
EagerVM.v
XactProfiler.v
CacheMemory.v
XactIsolationChecker.v
XactValueChecker.v
TxState.v
ConflictManager.v
Forwarding.v
TxProfile.v
InterfaceManager.v
Frame.v
Chain.v
FwdInv.v
Lifecycle.v
Validation.v
RubyHTM.v
RequestTable.v
Sequencer.v
SeqInv.v
SeqProps.v
AbortStatus.v
Runtime.v
RuntimeInv.v
RuntimeProps.v
