(* ===== verification/Prelude.v ===== *)
(** * Hardware transactional memory with chained speculative forwarding

    A model of the hardware transactional memory (HTM) of this repository's
    gem5 tree, with the theorems that make it correct.  The sources are under
    [src/gem5/src]; a path such as [mem/ruby/htm/X.cc] below is relative to
    that directory.

    ** The program

    A processor's memory accesses and transaction commands enter its
    _sequencer_ ([mem/ruby/system/Sequencer.cc] and
    [TransactionalSequencer.cc]), which keeps the table of outstanding
    requests and talks to the first-level cache.  The sequencer drives the
    _transaction interface manager_
    ([mem/ruby/htm/TransactionInterfaceManager.cc]), which begins, commits and
    aborts transactions and owns the other managers: read and write sets
    (_isolation manager_), resolution of conflicts (_conflict manager_), the
    write buffer of lazy versioning and its _commit arbiter_, and the undo log
    of eager versioning (LogTM).  An abort delivers a status word to the
    _abort handler_ of the runtime library, which retries the critical
    section or takes a fallback lock.  The coherence protocol asks the interface
    manager whether a remote request is nacked.  In the CHATS configurations a
    transaction may answer a conflicting request with uncommitted data: it
    becomes a _producer_, the requester a _consumer_ that has to _validate_
    the data before it commits; small integer priorities order the chains.
    Two checkers and a profiler watch the execution.

    ** Files

    - [Prelude] (this file): outcomes of C++ operations ([res]: normal return,
      failed [assert], [panic], exception, undefined behaviour), the state and
      error monad [M] with its notations, record update, weakest
      preconditions, integers at their width, [std::map] as [gmap] with its
      iteration order, and the framework [keeps] with the hint database and
      the tactics that prove that an operation preserves a relation.
    - [Address], [WriteMask], [DataBlock]: [mem/ruby/common].
    - [HTM]: [mem/htm.cc], [mem/htm.hh], [mem/HTM.py]; [RubyHTM]:
      [mem/ruby/htm/htm.cc], the commands of the runtime library.
    - [IsolationManager], [LazyVM], [CommitArbiter], [EagerVM]: the managers
      of [mem/ruby/htm] of the corresponding names; [EagerVM] also has the log
      layout and the unroll loop of
      [gem5_path/benchmarks/libs/htmrt/logtm.h].
    - [XactProfiler]: [mem/ruby/profiler]; [XactIsolationChecker],
      [XactValueChecker]: the checkers of [mem/ruby/htm].
    - [CacheMemory]: [mem/ruby/structures/CacheMemory.cc], and the class
      [DataCache] with [DataCacheLaws], the interface through which every
      other file uses the cache.
    - [TxState]: the record [World], everything the code of one processor can
      reach, with the queries, [setAbortFlag] and the priorities;
      [ConflictManager]: [TransactionConflictManager.cc]; [Forwarding],
      [TxProfile], [InterfaceManager]: the forwarding, the statistics and the
      life cycle in [TransactionInterfaceManager.cc].
    - [Frame], [Chain], [FwdInv], [Lifecycle], [Validation]: theorems about
      the composed system.  [Chain] composes the actions of
      [mem/ruby/protocol/MESI_Three_Level_HTM_umu-L0cache.sm] that send and
      receive forwarded data into a transition system of processors and
      messages.
    - [RequestTable], [Sequencer]: [mem/ruby/system/Sequencer.cc] and
      [TransactionalSequencer.cc]; [SeqInv], [SeqProps]: their invariants and
      theorems.
    - [AbortStatus]: the register checkpoint and the status word of an abort
      ([arch/x86/htm.cc], [sim/faults.cc], [cpu/thread_context.cc]) and the
      macros with which the software decodes it.
    - [Runtime]: the abort handlers of the transactional runtime library,
      [gem5_path/benchmarks/benchmarks-htm/libs/handlers], as interleaved
      threads; [RuntimeInv], [RuntimeProps]: their invariants and theorems.

    A definition has the name of the function it translates; an overloaded or
    overridden function gets a prefix ([base_makeRequest] is
    [Sequencer::makeRequest]).  A class is a record with its fields, a member
    function that changes state an element of [M], a query a function to
    [res].  Tracing and printing are left out.

    ** Theorems

    - Forwarding chains ([Chain], [FwdInv]): in the configurations of CHATS
      ([chats_config]), from any initial state no chain of forwardings ever
      closes a cycle, some producer of every chain waits for nobody, and the
      registers of producers and consumers agree.
    - Life cycle ([Lifecycle]): begin, commit and abort return on every state
      that satisfies their preconditions, with the exact final state; an abort
      removes exactly the speculative lines.  LogTM's retry after an abort
      fails an assertion of the code.
    - Validation ([Validation]): what the comparison of consumed data decides,
      the bytes it leaves in the cache, the order in which blocks are
      validated, and when a consumer stops being one.
    - Conflicts ([ConflictManager]): the answer to a remote load under every
      policy, and to a remote store under all but the plain requester-stalls
      ones, with its side effects; order of ages; no stall cycle stays
      unbroken under the plain requester-stalls policies; a power transaction
      wins, apart from the one option that overrides it.
    - Versioning ([LazyVM], [EagerVM]): a flushed write buffer publishes
      exactly the buffered bytes, whichever requests the sequencer refuses in
      between, loads see their own stores, a cancelled
      flush drains; the unroll restores memory, and the hardware writes the
      log where the unroll reads it.
    - Commit arbitration ([CommitArbiter]): committers do not conflict (magic
      policy), at most one commits (token policy).
    - Cache ([CacheMemory]): the tag index and the ways refine a finite map;
      a victim always makes room.
    - Checkers and profiler: the checkers accept exactly the executions they
      are meant to; when the cycles of the current regions can be charged,
      and that every cycle is then charged to one region.
    - Sequencer ([SeqProps]): over all sequences of operations and all
      interference of the ports the request table is consistent with its
      counter and its limit; completion loops end; the log writes of a store
      are always admitted; an abort cuts the transaction off; a commit that
      has to wait is retried; a nacked non-transactional access fails an
      assertion of the code.
    - Abort status ([AbortStatus]): an abort restores the registers and
      reports its cause, code and log size so that the handler decodes them;
      an abort because the lock is taken is reported as a conflict.
    - Recovery ([RuntimeProps]): the fault, the status word and the handler's
      unroll together undo a LogTM transaction, registers and memory.
    - Runtime library ([RuntimeProps]): critical sections exclude each other,
      speculative or not; power mode is exclusive; waiting threads are
      released; the retry loop ends after the configured number of aborts,
      neither earlier nor later;
      the assertions hold, except when a power transaction cancels itself.

    Each property with hypotheses has a witness on a concrete state, evaluated
    in the kernel; the states named [demo_...] belong to the witnesses.

    ** Parameters, bounds and fuel

    What a component reads of the simulator during a call (clock, tick
    conversion, the value of an uninitialised field, whether signed overflow
    wraps) is the class [Env]; the line size is the class [RubySystem], the
    options of a configuration the class [Config].  The replacement policy is
    an argument of [cacheProbe].  The sequencer's answer to a flush request of
    the write buffer is [seq_makeRequest] of [Env].

    Loops over containers are structural.  Four loops have a bound: the
    candidate loop of [cacheProbe] (its fuel is an argument; two rounds are
    enough, the second one excludes nothing but lines that are being logged,
    so a third one repeats it);
    [write_loop] and [read_loop] ([loop_bound]: the requests in the table and
    the packets the ports can still send; [SeqProps] proves that the bound is
    never reached); and [send_retries] (the number of scripted retries, each
    call consumes one).  The loops of the runtime library are steps of a
    transition system and need no bound.

    ** Not modelled

    The coherence protocols beyond the actions named above are SLICC state
    machines whose meaning is generated code; the network, the memory
    controllers, the processors and instruction sets, and the event queue are
    the simulator around the HTM: processors and protocol appear as the
    operations they call, a scheduled event as the field that holds it.  The
    registration of statistics, checkpointing, warm-up, functional accesses,
    the text visualizer and the scripts that run experiments are left out.
    [HTMSequencer.cc] is the upstream implementation, which these
    configurations do not use.  Of the runtime library the start-up (thread
    contexts, environment variables) and the ARM locks are left out, and
    [libs/htmrt], a second copy of the handlers.  Percentages that the statistics compute in
    floating point are kept as their two integer terms. *)

From stdpp Require Export prelude gmap strings sorting.
From Stdlib Require Export ZArith Lia.

#[global] Set Default Goal Selector "!".
#[global] Open Scope Z_scope.

(** ** Outcomes

    A C++ operation of the simulator returns normally, stops at a failing
    [assert], stops in [panic], throws (an out-of-range [at]), or executes
    undefined behaviour (signed overflow, an out-of-range access, the use of
    an erased iterator). *)

Inductive err :=
| EAssert
| EPanic
| EThrow
| EUndef.

#[global] Instance err_eq_dec : EqDecision err.
Proof. solve_decision. Defined.

Inductive res (A : Type) :=
| Ok (a : A)
| Err (e : err).
Arguments Ok {A} a.
Arguments Err {A} e.

Definition is_ok {A} (r : res A) : bool :=
  match r with Ok _ => true | Err _ => false end.

Definition rbind {A B} (r : res A) (f : A -> res B) : res B :=
  match r with Ok a => f a | Err e => Err e end.

Definition rassert (b : bool) : res unit :=
  if b then Ok tt else Err EAssert.

(** [for (x : l) acc = body(acc, x)], with the accumulator the locals of
    the function. *)
Fixpoint foldR {A B} (f : B -> A -> res B) (b : B) (l : list A) : res B :=
  match l with
  | [] => Ok b
  | x :: l => rbind (f b x) (fun b' => foldR f b' l)
  end.

(** [for (x : l) if (!p(x)) return false;  return true;] *)
Fixpoint allR {A} (p : A -> res bool) (l : list A) : res bool :=
  match l with
  | [] => Ok true
  | x :: l => rbind (p x) (fun b => if b then allR p l else Ok false)
  end.

(** ** Stateful operations

    A method of a class whose fields are the record [S]: explicit state
    passing, with the error outcomes above. *)

Definition M (S A : Type) : Type := S -> res (A * S).

Section monad.
Context {S : Type}.

Definition ret {A} (a : A) : M S A := fun s => Ok (a, s).

Definition bind {A B} (m : M S A) (f : A -> M S B) : M S B :=
  fun s => match m s with
           | Ok (a, s') => f a s'
           | Err e => Err e
           end.

Definition throw {A} (e : err) : M S A := fun _ => Err e.

(** [assert(b)]. *)
Definition massert (b : bool) : M S unit :=
  fun s => if b then Ok (tt, s) else Err EAssert.

(** [panic(...)]. *)
Definition panic {A} : M S A := throw EPanic.

Definition get : M S S := fun s => Ok (s, s).
Definition gets {A} (f : S -> A) : M S A := fun s => Ok (f s, s).
Definition modify (f : S -> S) : M S unit := fun s => Ok (tt, f s).

(** A computation that does not touch the state. *)
Definition lift {A} (r : res A) : M S A :=
  fun s => match r with Ok a => Ok (a, s) | Err e => Err e end.

Definition unless (b : bool) (m : M S unit) : M S unit :=
  if b then ret tt else m.

Definition when (b : bool) (m : M S unit) : M S unit :=
  if b then m else ret tt.

(** [for (x : l) body(x)]. *)
Fixpoint forM {A} (l : list A) (f : A -> M S unit) : M S unit :=
  match l with
  | [] => ret tt
  | x :: l => bind (f x) (fun _ => forM l f)
  end.
End monad.

(** A call on a member object: the callee's state [S] is a field of the
    caller's state [T]. *)
Definition zoom {S T A} (pr : T -> S) (put : S -> T -> T) (m : M S A) : M T A :=
  fun t => match m (pr t) with
           | Ok (a, s) => Ok (a, put s t)
           | Err e => Err e
           end.

Declare Scope htm_scope.
Delimit Scope htm_scope with htm.
#[global] Open Scope htm_scope.

Notation "'let*' x := m 'in' k" := (bind m (fun x => k))
  (at level 10, x pattern, m at level 100, k at level 200,
   format "'[v' 'let*'  x  :=  m  'in' '/' k ']'") : htm_scope.
Notation "'do*' m ; k" := (bind m (fun _ => k))
  (at level 10, m at level 100, k at level 200,
   format "'[v' 'do*'  m ; '/' k ']'") : htm_scope.

Notation "'let?' x := m 'in' k" := (rbind m (fun x => k))
  (at level 10, x pattern, m at level 100, k at level 200,
   format "'[v' 'let?'  x  :=  m  'in' '/' k ']'") : htm_scope.

(** ** Loops over [int] ranges and [std::vector] accesses *)

(** [v.at(i)] throws out of range, [v[i]] is undefined there. *)
Definition vec_at {A} (e : err) (l : list A) (i : Z) : res A :=
  if i <? 0 then Err e
  else match l !! Z.to_nat i with Some a => Ok a | None => Err e end.

Definition vec_set {A} (l : list A) (i : Z) (a : A) : res (list A) :=
  if (0 <=? i) && (i <? Z.of_nat (length l)) then Ok (<[Z.to_nat i := a]> l)
  else Err EUndef.

Lemma vec_at_ok {A} e (l : list A) (i : Z) a :
  0 <= i -> l !! Z.to_nat i = Some a -> vec_at e l i = Ok a.
Proof.
  intros Hi Ha. unfold vec_at. by rewrite (proj2 (Z.ltb_ge _ _) Hi), Ha.
Qed.

Lemma vec_set_ok {A} (l : list A) (i : Z) a :
  0 <= i < Z.of_nat (length l) -> vec_set l i a = Ok (<[Z.to_nat i := a]> l).
Proof.
  intros [H1 H2]. unfold vec_set.
  by rewrite (proj2 (Z.leb_le _ _) H1), (proj2 (Z.ltb_lt _ _) H2).
Qed.

Lemma vec_at_inv {A} e (l : list A) i a :
  vec_at e l i = Ok a -> 0 <= i /\ l !! Z.to_nat i = Some a.
Proof.
  unfold vec_at. destruct (Z.ltb_spec i 0); [done|].
  destruct (l !! Z.to_nat i) eqn:E; [|done]. intros [= ->]. done.
Qed.

Lemma vec_set_inv {A} (l l' : list A) i a :
  vec_set l i a = Ok l' -> l' = <[Z.to_nat i := a]> l.
Proof. unfold vec_set. destruct (_ && _); congruence. Qed.

(** The counting loop [for (int i = a; i < a + n; i++)]: an invariant
    indexed by the counter. *)
Lemma foldR_range {B} (f : B -> Z -> res B) (I : Z -> B -> Prop) a n b :
  0 <= n -> I a b ->
  (forall i b, a <= i < a + n -> I i b ->
     exists b', f b i = Ok b' /\ I (i + 1) b') ->
  exists b', foldR f b (seqZ a n) = Ok b' /\ I (a + n) b'.
Proof.
  intros Hn. revert a b. pattern n. apply natlike_ind; [|clear n Hn|done].
  - intros a b HI _. exists b. rewrite Z.add_0_r. done.
  - intros n Hn IH a b HI Hstep. rewrite seqZ_cons by lia. cbn [foldR].
    destruct (Hstep a b) as (b1 & -> & HI1); [lia|done|]. cbn [rbind].
    rewrite Z.pred_succ. destruct (IH (Z.succ a) b1) as (b2 & -> & HI2).
    + by rewrite <- Z.add_1_r.
    + intros i b' Hi HI'. apply Hstep; [lia|done].
    + exists b2. split; [done|]. by replace (a + Z.succ n) with (Z.succ a + n) by lia.
Qed.

Lemma allR_range (p : Z -> res bool) (q : Z -> bool) a n :
  0 <= n -> (forall i, a <= i < a + n -> p i = Ok (q i)) ->
  exists b, allR p (seqZ a n) = Ok b /\
    (b = true <-> forall i, a <= i < a + n -> q i = true).
Proof.
  intros Hn. revert a. pattern n. apply natlike_ind; [|clear n Hn|done].
  - intros a _. exists true. split; [done|]. split; [lia|done].
  - intros n Hn IH a Hp. rewrite seqZ_cons by lia. cbn [allR].
    rewrite Hp by lia. cbn [rbind]. destruct (q a) eqn:Eq.
    + rewrite Z.pred_succ. destruct (IH (Z.succ a)) as (b & -> & Hb).
      { intros i Hi. apply Hp. lia. }
      exists b. split; [done|]. rewrite Hb. split; intros H i Hi.
      * destruct (decide (i = a)) as [->|]; [done|]. apply H. lia.
      * apply H. lia.
    + exists false. split; [done|]. split; [done|].
      intros H. rewrite <- Eq. apply H. lia.
Qed.

(** ** Record update

    [r <| f := v |>] is the assignment [f = v] on the object [r].  A record
    gets its setters from one eta-expansion. *)

Class Eta (R : Type) := eta : R -> R.
Class Setter {R T : Type} (proj : R -> T) := upd : (T -> T) -> R -> R.
Arguments upd {R T} proj {_} _ _.

Ltac find_setter :=
  match goal with
  | |- @Setter ?R ?T ?proj =>
      let inst := constr:(_ : Eta R) in
      let e := eval cbv beta delta [eta] in (@eta R inst) in
      let e := eval hnf in e in
      match eval pattern proj in e with
      | ?s _ => exact (fun f => s (fun r => f (proj r)))
      end
  end.

#[export] Hint Extern 1 (Setter _) => find_setter : typeclass_instances.

Notation "x <| p ::= f |>" := (upd p f x)
  (at level 1, p at level 0, f at level 200, left associativity) : htm_scope.
Notation "x <| p := v |>" := (upd p (fun _ => v) x)
  (at level 1, p at level 0, v at level 200, left associativity) : htm_scope.

(** [this->f = v] and [this->f = g(this->f)]. *)
Notation "'set!' p := v" := (modify (upd p (fun _ => v)))
  (at level 60, p at level 0, v at level 59) : htm_scope.
Notation "'upd!' p ::= g" := (modify (upd p g))
  (at level 60, p at level 0, g at level 59) : htm_scope.

(** ** Total correctness

    [wp m Q s]: run from [s], [m] returns (no assertion fails, no panic, no
    undefined behaviour) and its value and final state satisfy [Q]. *)

Definition wp {S A} (m : M S A) (Q : A -> S -> Prop) (s : S) : Prop :=
  match m s with
  | Ok (a, s') => Q a s'
  | Err _ => False
  end.

Section wp.
Context {S : Type}.
Implicit Types s : S.

Lemma wp_ok {A} (m : M S A) Q s :
  wp m Q s <-> exists a s', m s = Ok (a, s') /\ Q a s'.
Proof.
  unfold wp. destruct (m s) as [[a s']|e]; naive_solver.
Qed.

Lemma wp_call {A} (m : M S A) a s' (Q : A -> S -> Prop) s : m s = Ok (a, s') -> Q a s' -> wp m Q s.
Proof. unfold wp. by intros ->. Qed.

Lemma wp_mono {A} (m : M S A) (P Q : A -> S -> Prop) s :
  (forall a s', P a s' -> Q a s') -> wp m P s -> wp m Q s.
Proof. unfold wp. destruct (m s) as [[a s']|e]; auto. Qed.

Lemma wp_ret {A} (a : A) Q s : wp (ret a) Q s <-> Q a s.
Proof. done. Qed.

Lemma wp_bind {A B} (m : M S A) (f : A -> M S B) Q s :
  wp (bind m f) Q s <-> wp m (fun a => wp (f a) Q) s.
Proof. unfold wp, bind. destruct (m s) as [[a s']|e]; done. Qed.

Lemma wp_massert b (Q : unit -> S -> Prop) s :
  wp (massert b) Q s <-> b = true /\ Q tt s.
Proof. unfold wp, massert. destruct b; naive_solver. Qed.

Lemma wp_gets {A} (f : S -> A) Q s : wp (gets f) Q s <-> Q (f s) s.
Proof. done. Qed.

Lemma wp_get Q s : wp get Q s <-> Q s s.
Proof. done. Qed.

Lemma wp_modify (f : S -> S) Q s : wp (modify f) Q s <-> Q tt (f s).
Proof. done. Qed.

Lemma wp_lift_ok {A} (a : A) Q s : wp (lift (Ok a)) Q s <-> Q a s.
Proof. done. Qed.

Lemma wp_if {A} (b : bool) (m1 m2 : M S A) Q s :
  wp (if b then m1 else m2) Q s <->
  (b = true -> wp m1 Q s) /\ (b = false -> wp m2 Q s).
Proof. destruct b; naive_solver. Qed.

(** A loop with an invariant over the elements still to be visited. *)
(** An invariant of a loop over a range that returned. *)
Lemma forM_range_inv (f : Z -> M S unit) (I : Z -> S -> Prop) a n s u s' :
  0 <= n -> forM (seqZ a n) f s = Ok (u, s') -> I a s ->
  (forall i s1 v s2, a <= i < a + n -> I i s1 -> f i s1 = Ok (v, s2) -> I (i + 1) s2) ->
  I (a + n) s'.
Proof.
  intros Hn. revert a s. pattern n. apply natlike_ind; [| |done].
  - intros a s H HI _. injection H as _ <-. by rewrite Z.add_0_r.
  - intros m Hm IH a s H HI Hstep. rewrite seqZ_cons in H by lia. cbn [forM] in H.
    unfold bind in H. destruct (f a s) as [[v s1]|] eqn:E; [|done].
    replace (Z.pred (Z.succ m)) with m in H by lia.
    replace (a + Z.succ m) with (Z.succ a + m) by lia.
    apply (IH (Z.succ a) s1 H); [apply (Hstep a s v s1); [lia|done..]|].
    intros i s2 w s3 Hi. apply Hstep. lia.
Qed.

Lemma wp_forM {A} (f : A -> M S unit) (I : list A -> S -> Prop) l s :
  I l s ->
  (forall x l' s', I (x :: l') s' -> wp (f x) (fun _ => I l') s') ->
  wp (forM l f) (fun _ => I []) s.
Proof.
  intros HI Hstep. revert s HI.
  induction l as [|x l IH]; intros s HI; cbn [forM].
  - by apply wp_ret.
  - apply wp_bind. eapply wp_mono; [|by apply Hstep].
    intros [] s' HI'. by apply IH.
Qed.

(** The counting loop, with an invariant indexed by the counter. *)
Lemma wp_range (f : Z -> M S unit) (I : Z -> S -> Prop) a n s :
  0 <= n -> I a s ->
  (forall i s', a <= i < a + n -> I i s' -> wp (f i) (fun _ => I (i + 1)) s') ->
  wp (forM (seqZ a n) f) (fun _ => I (a + n)) s.
Proof.
  intros Hn. revert a s. pattern n. apply natlike_ind; [|clear n Hn|done].
  - intros a s HI _. by rewrite Z.add_0_r.
  - intros n Hn IH a s HI Hstep. rewrite seqZ_cons by lia. cbn [forM].
    apply wp_bind. eapply wp_mono; [|apply Hstep; [lia|done]].
    intros [] s' HI'. rewrite Z.pred_succ.
    replace (a + Z.succ n) with (Z.succ a + n) by lia. apply IH.
    + by rewrite <- Z.add_1_r.
    + intros i s1 Hi HI1. apply Hstep; [lia|done].
Qed.

(** Inversion of a computation that returned. *)
Lemma bind_ok {A B} (m : M S A) (f : A -> M S B) s b s' :
  bind m f s = Ok (b, s') <->
  exists a s1, m s = Ok (a, s1) /\ f a s1 = Ok (b, s').
Proof. unfold bind. destruct (m s) as [[a s1]|e]; naive_solver. Qed.

Lemma massert_ok b s (u : unit) s' :
  massert b s = Ok (u, s') <-> b = true /\ s' = s.
Proof. unfold massert. destruct b, u; naive_solver. Qed.

Lemma gets_ok {A} (f : S -> A) s a s' :
  gets f s = Ok (a, s') <-> a = f s /\ s' = s.
Proof. unfold gets. naive_solver. Qed.

Lemma modify_ok (f : S -> S) s (u : unit) s' :
  modify f s = Ok (u, s') <-> s' = f s.
Proof. unfold modify. destruct u; naive_solver. Qed.

Lemma ret_ok {A} (a b : A) s s' :
  ret (S := S) a s = Ok (b, s') <-> b = a /\ s' = s.
Proof. unfold ret. naive_solver. Qed.

Lemma lift_ok {A} (x : res A) s a s' :
  lift x s = Ok (a, s') <-> x = Ok a /\ s' = s.
Proof. unfold lift. destruct x; naive_solver. Qed.

Lemma get_ok s a s' : get s = Ok (a, s') <-> a = s /\ s' = s.
Proof. unfold get. naive_solver. Qed.
End wp.

Lemma wp_zoom {S T A} (pr : T -> S) put (m : M S A) Q t :
  wp (zoom pr put m) Q t <-> wp m (fun a s => Q a (put s t)) (pr t).
Proof. unfold wp, zoom. destruct (m (pr t)) as [[a s]|e]; done. Qed.

Create HintDb htm.
Create HintDb wp.
Create HintDb mok.
#[export] Hint Rewrite @wp_ret @wp_bind @wp_massert @wp_gets @wp_get
  @wp_modify @wp_lift_ok @wp_zoom : wp.
#[export] Hint Rewrite @bind_ok @massert_ok @gets_ok @modify_ok @ret_ok : mok.

(** ** Running a computation

    Equations for the state after each primitive, used to run a composed
    operation from left to right. *)

Lemma bind_run {S A B} (m : M S A) (k : A -> M S B) s a s' :
  m s = Ok (a, s') -> bind m k s = k a s'.
Proof. intros Hm. unfold bind. by rewrite Hm. Qed.

Lemma massert_run {S} b (s : S) : b = true -> massert b s = Ok (tt, s).
Proof. by intros ->. Qed.

Lemma zoom_run {S T A} (pr : T -> S) put (m : M S A) t a s :
  m (pr t) = Ok (a, s) -> zoom pr put m t = Ok (a, put s t).
Proof. intros Hm. unfold zoom. by rewrite Hm. Qed.

Lemma bind_err {S A B} (m : M S A) (k : A -> M S B) s e :
  m s = Err e -> bind m k s = Err e.
Proof. intros Hm. unfold bind. by rewrite Hm. Qed.

Lemma run_assoc {S A B D} (m : M S A) (f : A -> M S B) (k : B -> M S D) s :
  bind (bind m f) k s = bind m (fun a => bind (f a) k) s.
Proof. unfold bind. by destruct (m s) as [[]|]. Qed.

Lemma run_ret {S A B} (a : A) (k : A -> M S B) s : bind (ret a) k s = k a s.
Proof. done. Qed.

Lemma run_get {S B} (k : S -> M S B) s : bind get k s = k s s.
Proof. done. Qed.

Lemma run_massert {S B} (k : unit -> M S B) s : bind (massert true) k s = k tt s.
Proof. done. Qed.

Lemma run_lift {S A B} (a : A) (k : A -> M S B) s : bind (lift (Ok a)) k s = k a s.
Proof. done. Qed.

Lemma run_modify {S B} f (k : unit -> M S B) s : bind (modify f) k s = k tt (f s).
Proof. done. Qed.

Lemma run_zoom_modify {S T B} (pr : T -> S) put f (k : unit -> M T B) t :
  bind (zoom pr put (modify f)) k t = k tt (put (f (pr t)) t).
Proof. done. Qed.

Create HintDb run.
#[export] Hint Rewrite @run_assoc @run_ret @run_get @run_massert @run_lift
  @run_modify @run_zoom_modify : run.

(** Run the goal as far as the primitives go; [run_with H] uses the result
    [H] of the next operation. *)
Ltac run := cbn beta iota; repeat (progress autorewrite with run; cbn beta iota).
Ltac run_with H := rewrite (bind_run _ _ _ _ _ H); run.

(** One symbolic execution of the goal. *)
Ltac wp_simpl := autorewrite with wp; cbn beta iota.

(** Decompose [m s = Ok r] hypotheses. *)
Ltac m_inv :=
  repeat match goal with
  | H : bind _ _ _ = Ok _ |- _ =>
      apply bind_ok in H; destruct H as (? & ? & ? & ?)
  | H : massert _ _ = Ok (?u, _) |- _ =>
      apply massert_ok in H; destruct H as [? ->]
  | H : gets _ _ = Ok _ |- _ => apply gets_ok in H; destruct H as [-> ->]
  | H : modify _ _ = Ok _ |- _ => apply modify_ok in H; subst
  | H : ret _ _ = Ok _ |- _ =>
      apply ret_ok in H; destruct H as [H ->];
      first [discriminate H|(revert H; intros ->)|idtac]
  | H : get _ = Ok _ |- _ => apply get_ok in H; destruct H as [-> ->]
  | H : lift _ _ = Ok _ |- _ => apply lift_ok in H; destruct H as [H ->]
  | H : throw _ _ = Ok _ |- _ => discriminate H
  | H : panic _ = Ok _ |- _ => discriminate H
  end.

(** Split on the branch an operation that returned took. *)
Ltac m_case :=
  match goal with
  | H : (if ?b then _ else _) _ = Ok _ |- _ => destruct b eqn:?
  | H : (match ?x with _ => _ end) _ = Ok _ |- _ => destruct x eqn:?
  end; m_inv; try done.

(** ** Machine integers *)

Definition INT_MAX : Z := 2 ^ 31 - 1.
Definition INT_MIN : Z := - 2 ^ 31.

Definition in_int (z : Z) : bool := (INT_MIN <=? z) && (z <=? INT_MAX).

(** [int] arithmetic: the result is the mathematical one, and undefined
    outside the range of the type. *)
Definition int_of (z : Z) : res Z :=
  if in_int z then Ok z else Err EUndef.

Definition int_add (a b : Z) : res Z := int_of (a + b).
Definition int_sub (a b : Z) : res Z := int_of (a - b).

Lemma int_of_ok z : INT_MIN <= z <= INT_MAX -> int_of z = Ok z.
Proof.
  intros [H1 H2]. unfold int_of, in_int.
  by rewrite (proj2 (Z.leb_le _ _) H1), (proj2 (Z.leb_le _ _) H2).
Qed.

(** Two's complement: the [int] with the same low 32 bits. *)
Definition int_wrap (z : Z) : Z := (z - INT_MIN) mod 2 ^ 32 + INT_MIN.

(** [unsigned int] arithmetic wraps. *)
Definition u32 (z : Z) : Z := z mod 2 ^ 32.

(** [uint64_t] arithmetic wraps. *)
Definition u64 (z : Z) : Z := z mod 2 ^ 64.

Definition is_u64 (z : Z) : bool := (0 <=? z) && (z <? 2 ^ 64).

(** [size_t] arithmetic on container sizes stays far below the width. *)

(** ** [std::map] iteration

    A [std::map] is a [gmap]; its iterators visit the keys in increasing
    order. *)

Section std_map.
Context {A : Type}.
Implicit Types m : gmap Z A.

Definition std_keys m : list Z := merge_sort Z.le (elements (dom m)).

Definition std_list m : list (Z * A) :=
  omap (fun k => pair k <$> m !! k) (std_keys m).

Lemma elem_of_std_keys m k : k ∈ std_keys m <-> is_Some (m !! k).
Proof.
  unfold std_keys. rewrite merge_sort_Permutation, elem_of_elements.
  apply elem_of_dom.
Qed.

Lemma NoDup_std_keys m : NoDup (std_keys m).
Proof.
  unfold std_keys. rewrite merge_sort_Permutation. apply NoDup_elements.
Qed.

Lemma sorted_std_keys m : StronglySorted Z.le (std_keys m).
Proof. unfold std_keys. apply (StronglySorted_merge_sort Z.le). Qed.

Lemma elem_of_std_list m k a : (k, a) ∈ std_list m <-> m !! k = Some a.
Proof.
  unfold std_list. rewrite list_elem_of_omap. split.
  - intros (k' & _ & H). apply fmap_Some in H as (a' & H & [= -> ->]). done.
  - intros H. exists k. rewrite H. split; [|done]. apply elem_of_std_keys. eauto.
Qed.

Lemma std_list_keys m : (std_list m).*1 = std_keys m.
Proof.
  unfold std_list.
  assert (Forall (fun k => is_Some (m !! k)) (std_keys m)) as Hk.
  { apply Forall_forall. intros k. apply elem_of_std_keys. }
  induction Hk as [|k l [a Ha] Hl IH]; [done|]. cbn. rewrite Ha. cbn. by rewrite IH.
Qed.

Lemma NoDup_std_list m : NoDup (std_list m).*1.
Proof. rewrite std_list_keys. apply NoDup_std_keys. Qed.

Lemma std_list_to_map m : list_to_map (std_list m) = m.
Proof.
  apply map_eq. intros k. apply option_eq. intros a.
  by rewrite <- elem_of_list_to_map, elem_of_std_list by apply NoDup_std_list.
Qed.

Lemma std_keys_empty : std_keys (∅ : gmap Z A) = [].
Proof. unfold std_keys. rewrite dom_empty_L, elements_empty. done. Qed.

Lemma std_keys_nil m : std_keys m = [] -> m = ∅.
Proof.
  intros H. apply map_empty. intros k.
  destruct (m !! k) as [a|] eqn:E; [|done].
  assert (k ∈ std_keys m) as Hk by (apply elem_of_std_keys; eauto).
  rewrite H in Hk. by apply elem_of_nil in Hk.
Qed.

(** [begin()->first] and the key of the iterator after [find(k)]. *)
Definition std_begin m : option Z := head (std_keys m).

Definition std_next m (k : Z) : option Z :=
  head (filter (fun j => k < j) (std_keys m)).

Lemma std_begin_Some m : m <> ∅ -> is_Some (std_begin m).
Proof.
  intros H. unfold std_begin.
  destruct (std_keys m) eqn:E; [by apply std_keys_nil in E|eauto].
Qed.

Lemma std_begin_in m k : std_begin m = Some k -> is_Some (m !! k).
Proof.
  unfold std_begin. intros H%head_Some_elem_of.
  by apply elem_of_std_keys.
Qed.

Lemma std_next_in m k j : std_next m k = Some j -> is_Some (m !! j) /\ k < j.
Proof.
  unfold std_next. intros H%head_Some_elem_of.
  apply list_elem_of_filter in H as [H1 H2].
  split; [by apply elem_of_std_keys|done].
Qed.
End std_map.

(** [m.find(k) != m.end()]. *)
Definition has {A} (k : Z) (m : gmap Z A) : bool :=
  match m !! k with Some _ => true | None => false end.

Lemma has_true {A} k (m : gmap Z A) : has k m = true <-> is_Some (m !! k).
Proof. unfold has. destruct (m !! k); naive_solver. Qed.

Lemma has_dom {A} k (m : gmap Z A) : has k m = bool_decide (k ∈ dom m).
Proof.
  unfold has. destruct (m !! k) eqn:E; symmetry.
  - apply bool_decide_eq_true, elem_of_dom. by eexists.
  - apply bool_decide_eq_false, not_elem_of_dom. done.
Qed.

Lemma has_false {A} k (m : gmap Z A) : has k m = false <-> m !! k = None.
Proof. unfold has. destruct (m !! k); naive_solver. Qed.

(** [m.insert(pair(k, v))]: an existing entry is kept. *)
Definition std_insert {A} (k : Z) (v : A) (m : gmap Z A) : gmap Z A :=
  match m !! k with Some _ => m | None => <[k := v]> m end.

Lemma lookup_std_insert {A} k (v : A) m j :
  std_insert k v m !! j =
  if decide (k = j) then Some (default v (m !! k)) else m !! j.
Proof.
  unfold std_insert. destruct (m !! k) eqn:E; case_decide; subst;
    rewrite ?E; simplify_map_eq; done.
Qed.

Lemma lookup_std_insert_Some {A} k (v : A) m j x :
  std_insert k v m !! j = Some x ->
  m !! j = Some x \/ (j = k /\ x = v /\ m !! k = None).
Proof.
  unfold std_insert. destruct (m !! k) eqn:E; [by left|].
  destruct (decide (j = k)) as [->|]; intros; simplify_map_eq; auto.
Qed.

Lemma has_std_insert {A} k (v : A) m j :
  has j (std_insert k v m) = bool_decide (j = k) || has j m.
Proof.
  unfold has at 1. rewrite lookup_std_insert. case_decide; subst.
  - by rewrite bool_decide_eq_true_2.
  - rewrite bool_decide_eq_false_2 by congruence. done.
Qed.

Lemma dom_std_insert {A} k (v : A) m : dom (std_insert k v m) = {[k]} ∪ dom m.
Proof.
  unfold std_insert. destruct (m !! k) eqn:E; [|apply dom_insert_L].
  apply elem_of_dom_2 in E. set_solver.
Qed.

(** [m.empty()]. *)
Definition emptyb {A} (m : gmap Z A) : bool := bool_decide (m = ∅).

(** ** Invariants of transition systems *)

Lemma rtc_inv {A} (R : A -> A -> Prop) (P : A -> Prop) x y :
  rtc R x y -> P x -> (forall a b, P a -> R a b -> P b) -> P y.
Proof. intros H Hx Hstep. induction H; eauto. Qed.

(** ** Frames

    [keeps R m]: whenever [m] returns, the states before and after are
    related by [R].  With a preorder for [R] this composes, so that what a
    long operation leaves alone follows from its leaves. *)

Definition keeps {S A} (R : relation S) (m : M S A) : Prop :=
  forall s a s', m s = Ok (a, s') -> R s s'.

Create HintDb keeps.

Section keeps.
Context {S : Type} (R : relation S) `{!PreOrder R}.

Lemma keeps_same {A} (m : M S A) :
  (forall s a s', m s = Ok (a, s') -> s' = s) -> keeps R m.
Proof. intros H s a s' E. by rewrite (H s a s' E). Qed.

Lemma keeps_ret {A} (a : A) : keeps R (ret a).
Proof. apply keeps_same. unfold ret. congruence. Qed.

Lemma keeps_get : keeps R get.
Proof. apply keeps_same. unfold get. congruence. Qed.

Lemma keeps_gets {A} (f : S -> A) : keeps R (gets f).
Proof. apply keeps_same. unfold gets. congruence. Qed.

Lemma keeps_throw {A} e : keeps R (throw (A := A) e).
Proof. by intros ?. Qed.

Lemma keeps_massert b : keeps R (massert b).
Proof. apply keeps_same. intros s [] s'. unfold massert. destruct b; congruence. Qed.

Lemma keeps_lift {A} (r : res A) : keeps R (lift r).
Proof. apply keeps_same. intros s a s'. unfold lift. destruct r; congruence. Qed.

Lemma keeps_modify f : (forall s, R s (f s)) -> keeps R (modify f).
Proof. intros H s a s' [= _ <-]. apply H. Qed.

Lemma keeps_bind {A B} (m : M S A) (k : A -> M S B) :
  keeps R m -> (forall a, keeps R (k a)) -> keeps R (bind m k).
Proof.
  intros Hm Hk s b s'' H. apply bind_ok in H as (a & s' & H1 & H2).
  etrans; [by eapply Hm|by eapply Hk].
Qed.

Lemma keeps_forM {A} (l : list A) f : (forall x, keeps R (f x)) -> keeps R (forM l f).
Proof.
  intros Hf. induction l as [|x l IH]; cbn [forM]; [apply keeps_ret|].
  apply keeps_bind; [apply Hf|done].
Qed.

Lemma keeps_mono {A} (R' : relation S) (m : M S A) :
  (forall s s', R s s' -> R' s s') -> keeps R m -> keeps R' m.
Proof. intros H Hm s a s' E. by eapply H, Hm. Qed.

(** From one state: what was read of it can be used until it changes. *)
Definition keeps_at {A} (m : M S A) (s : S) : Prop := forall a s', m s = Ok (a, s') -> R s s'.

Lemma keeps_of_at {A} (m : M S A) : (forall s, keeps_at m s) -> keeps R m.
Proof. intros H s. apply H. Qed.

Lemma keeps_at_of {A} (m : M S A) s : keeps R m -> keeps_at m s.
Proof. intros H a s'. apply H. Qed.

Lemma keeps_at_get {A} (k : S -> M S A) s : keeps_at (k s) s -> keeps_at (bind get k) s.
Proof. done. Qed.

Lemma keeps_at_ret {A B} (b : B) (k : B -> M S A) s :
  keeps_at (k b) s -> keeps_at (bind (ret b) k) s.
Proof. done. Qed.

Lemma keeps_at_massert {A} b (k : unit -> M S A) s :
  (b = true -> keeps_at (k tt) s) -> keeps_at (bind (massert b) k) s.
Proof. intros H a s' E. unfold bind, massert in E. destruct b; [by eapply H|done]. Qed.

Lemma keeps_at_lift {A B} (r : res B) (k : B -> M S A) s :
  (forall b, r = Ok b -> keeps_at (k b) s) -> keeps_at (bind (lift r) k) s.
Proof. intros H a s' E. unfold bind, lift in E. destruct r; [by eapply H|done]. Qed.

Lemma keeps_at_seq {A B} (m : M S A) (k : A -> M S B) s :
  keeps_at m s -> (forall a s', m s = Ok (a, s') -> keeps_at (k a) s') ->
  keeps_at (bind m k) s.
Proof.
  intros Hm Hk b s'' H. apply bind_ok in H as (a & s' & H1 & H2).
  etrans; [by eapply Hm|by eapply Hk].
Qed.

Lemma keeps_at_bind {A B} (m : M S A) (k : A -> M S B) s :
  keeps_at m s -> (forall a, keeps R (k a)) -> keeps_at (bind m k) s.
Proof.
  intros Hm Hk b s'' H. apply bind_ok in H as (a & s' & H1 & H2).
  etrans; [by eapply Hm|by eapply Hk].
Qed.

(** A call on a member object. *)
Lemma keeps_zoom {T A} (pr : S -> T) put (R' : relation T) (m : M T A) :
  keeps R' m -> (forall s t, R' (pr s) t -> R s (put t s)) -> keeps R (zoom pr put m).
Proof.
  intros Hm HR s a s' H. unfold zoom in H. destruct (m (pr s)) as [[b t]|e] eqn:E; [|done].
  injection H as <- <-. apply HR. by eapply Hm.
Qed.

(** A member object [R] does not look at. *)
Lemma keeps_zoom_any {T A} (pr : S -> T) put (m : M T A) :
  (forall s t, R s (put t s)) -> keeps R (zoom pr put m).
Proof. intros HR. by apply (keeps_zoom _ _ (fun _ _ => True)). Qed.
End keeps.

(** Operations that leave a field alone. *)
Definition same_field {S T} (f : S -> T) : relation S := fun s s' => f s' = f s.

#[export] Instance same_field_preorder {S T} (f : S -> T) : PreOrder (same_field f).
Proof. split; [done|]. unfold same_field. intros x y z H1 H2. congruence. Qed.

Lemma same_field_zoom {S T U A} (f : S -> U) (pr : S -> T) put (m : M T A) :
  (forall s t, f (put t s) = f s) -> keeps (same_field f) (zoom pr put m).
Proof. intros H. by apply keeps_zoom_any. Qed.

Lemma same_field_modify {S U} (f : S -> U) g :
  (forall s, f (g s) = f s) -> keeps (same_field f) (modify g).
Proof. intros H. by apply keeps_modify. Qed.

Lemma same_field_zoom_modify {S T U} (f : S -> U) (pr : S -> T) put g :
  (forall s, f (put (g (pr s)) s) = f s) -> keeps (same_field f) (zoom pr put (modify g)).
Proof. intros H s a s' [= _ <-]. apply H. Qed.

#[export] Hint Extern 1 (keeps (same_field _) _) =>
  (apply same_field_zoom; intros ? ?; reflexivity) : keeps.
#[export] Hint Extern 1 (keeps (same_field _) _) =>
  (apply same_field_modify; intros ?; reflexivity) : keeps.
#[export] Hint Extern 2 (keeps (same_field _) _) =>
  (apply same_field_zoom_modify; intros ?; reflexivity) : keeps.

Ltac keeps_step :=
  match goal with
  | |- keeps _ (bind _ _) => apply keeps_bind; [typeclasses eauto| |intros ?]
  | |- keeps _ (ret _) => apply keeps_ret; typeclasses eauto
  | |- keeps _ get => apply keeps_get; typeclasses eauto
  | |- keeps _ (gets _) => apply keeps_gets; typeclasses eauto
  | |- keeps _ (throw _) => apply keeps_throw
  | |- keeps _ panic => apply keeps_throw
  | |- keeps _ (massert _) => apply keeps_massert; typeclasses eauto
  | |- keeps _ (lift _) => apply keeps_lift; typeclasses eauto
  | |- keeps _ (forM _ _) => apply keeps_forM; [typeclasses eauto|intros ?]
  | |- keeps _ (unless ?b _) => unfold unless at 1; destruct b
  | |- keeps _ (when ?b _) => unfold when at 1; destruct b
  | |- keeps _ (if ?b then _ else _) => destruct b
  | |- keeps _ (match ?x with _ => _ end) => destruct x
  | |- _ => solve [eauto with keeps]
  end.

(** Walk through an operation to its leaves. *)
Ltac keeps := repeat keeps_step.

(** Replace a run of an operation by what it keeps. *)
Tactic Notation "kept" constr(R) "in" hyp(H) "by" tactic3(t) :=
  match type of H with ?m _ = Ok _ =>
    let K := fresh in assert (keeps R m) as K by t; apply K in H; clear K end.
