(* ===== verification/Address.v ===== *)
(** * Addresses and node names

    [mem/ruby/common/Address.cc] (line addresses and offsets of 64-bit
    addresses), the bit-field helpers of [base/bitfield.hh] it uses, and
    [mem/ruby/common/MachineID.hh].  The cache-line size is a parameter of
    the Ruby system, fixed at start-up. *)

From S2P Require Import Prelude.

(** [RubySystem::getBlockSizeBits] / [getBlockSizeBytes]: start-up
    parameters.  The size in bytes is stored next to its logarithm. *)
Class RubySystem := {
  m_block_size_bits : Z;
  block_size_bits_range : 0 < m_block_size_bits < 31
}.

Definition getBlockSizeBits `{RubySystem} : Z := m_block_size_bits.
Definition getBlockSizeBytes `{RubySystem} : Z := 2 ^ m_block_size_bits.

(** ** [base/bitfield.hh] *)

Definition mask (nbits : Z) : Z :=
  if 64 <=? nbits then 2 ^ 64 - 1 else Z.shiftl 1 nbits - 1.

(** [~x] on [uint64_t]. *)
Definition u64_not (x : Z) : Z := Z.lxor x (2 ^ 64 - 1).

Definition bits (val first last : Z) : res Z :=
  let? _ := rassert (last <=? first) in
  let nbits := first - last + 1 in
  Ok (Z.land (Z.shiftr val last) (mask nbits)).

Definition mbits (val first last : Z) : Z :=
  Z.land val (Z.land (mask (first + 1)) (u64_not (mask last))).

(** ** [mem/ruby/common/Address.cc] *)

Definition bitSelect (addr small big : Z) : res Z :=
  let? _ := rassert (small <=? big) in
  bits addr big small.

Definition maskLowOrderBits (addr number : Z) : Z := mbits addr 63 number.

Definition getOffset `{RubySystem} (addr : Z) : res Z :=
  bitSelect addr 0 (getBlockSizeBits - 1).

Definition makeLineAddress `{RubySystem} (addr : Z) : Z :=
  mbits addr 63 getBlockSizeBits.

Definition makeLineAddress_bits (addr cacheLineBits : Z) : Z :=
  maskLowOrderBits addr cacheLineBits.

(** The product is an [int]; the sum wraps at 64 bits. *)
Definition makeNextStrideAddress `{RubySystem} (addr stride : Z) : res Z :=
  let? d := int_of (getBlockSizeBytes * stride) in
  Ok (u64 (makeLineAddress addr + d)).

(** ** [mem/ruby/common/MachineID.hh]

    Machine types are numbered by the protocol; [MachineType_NUM] is the
    number of them and marks an invalid name. *)

Record MachineID := MkMachineID { mtype : Z; mnum : Z }.

#[global] Instance MachineID_eq_dec : EqDecision MachineID.
Proof. solve_decision. Defined.

#[export] Instance MachineID_countable : Countable MachineID.
Proof.
  apply (inj_countable' (fun m => (mtype m, mnum m))
           (fun p => MkMachineID p.1 p.2)).
  by intros [].
Defined.

Definition isValid (MachineType_NUM : Z) (m : MachineID) : bool :=
  negb (mtype m =? MachineType_NUM).

Definition machine_eqb (a b : MachineID) : bool :=
  (mtype a =? mtype b) && (mnum a =? mnum b).

Definition machine_ltb (a b : MachineID) : bool :=
  (mtype a =? mtype b) && (mnum a <? mnum b).

(** ** Lemmas *)

Lemma mask_ones n : 0 <= n <= 64 -> mask n = Z.ones n.
Proof.
  intros Hn. unfold mask, Z.ones. destruct (Z.leb_spec 64 n).
  - replace n with 64 by lia. reflexivity.
  - by rewrite !Z.shiftl_1_l, Z.sub_1_r.
Qed.

Lemma mbits_high a n :
  0 <= a < 2 ^ 64 -> 0 <= n <= 64 -> mbits a 63 n = a - a mod 2 ^ n.
Proof.
  intros Ha Hn. unfold mbits, u64_not. rewrite !mask_ones by lia.
  assert (2 ^ 64 - 1 = Z.ones 64) as -> by reflexivity.
  transitivity (Z.ldiff a (Z.ones n)).
  - apply Z.bits_inj'. intros i Hi.
    rewrite Z.ldiff_spec, !Z.land_spec, Z.lxor_spec.
    change (63 + 1) with 64. rewrite !Z.testbit_ones_nonneg by lia.
    destruct (Z.ltb_spec i 64); destruct (Z.ltb_spec i n); try lia;
      rewrite ?andb_true_r, ?andb_false_r; try done.
    replace (Z.testbit a i) with false; [done|].
    symmetry. rewrite <- (Z.mod_small a (2 ^ 64)) by lia.
    by apply Z.mod_pow2_bits_high.
  - rewrite Z.ldiff_ones_r, Z.shiftl_mul_pow2, Z.shiftr_div_pow2 by lia.
    rewrite (Z.mod_eq a (2 ^ n)) by (apply Z.pow_nonzero; lia). lia.
Qed.

Section address.
Context `{RS : RubySystem}.

Lemma block_bytes_pos : 0 < getBlockSizeBytes.
Proof.
  pose proof block_size_bits_range. unfold getBlockSizeBytes.
  apply Z.pow_pos_nonneg; lia.
Qed.

Lemma block_bytes_divides : exists k, 2 ^ 64 = k * getBlockSizeBytes /\ 0 < k.
Proof.
  pose proof block_size_bits_range. unfold getBlockSizeBytes.
  exists (2 ^ (64 - m_block_size_bits)). split.
  - rewrite <- Z.pow_add_r by lia. f_equal. lia.
  - apply Z.pow_pos_nonneg; lia.
Qed.

Lemma makeLineAddress_eq a :
  0 <= a < 2 ^ 64 -> makeLineAddress a = a - a mod getBlockSizeBytes.
Proof.
  intros Ha. pose proof block_size_bits_range.
  apply mbits_high; unfold getBlockSizeBits; lia.
Qed.

Lemma getOffset_eq a : 0 <= a < 2 ^ 64 -> getOffset a = Ok (a mod getBlockSizeBytes).
Proof.
  intros Ha. pose proof block_size_bits_range.
  unfold getOffset, bitSelect, bits, getBlockSizeBits, rassert.
  rewrite (proj2 (Z.leb_le 0 _)) by lia. cbn [rbind].
  rewrite Z.shiftr_0_r, mask_ones, Z.land_ones by lia.
  unfold getBlockSizeBytes. do 3 f_equal. lia.
Qed.

Lemma makeLineAddress_range a :
  0 <= a < 2 ^ 64 -> 0 <= makeLineAddress a <= a.
Proof.
  intros Ha. rewrite makeLineAddress_eq by done.
  pose proof block_bytes_pos.
  pose proof (Z.mod_pos_bound a _ H). pose proof (Z.mod_le a _ (proj1 Ha) H). lia.
Qed.

Lemma makeLineAddress_aligned a :
  0 <= a < 2 ^ 64 -> makeLineAddress a mod getBlockSizeBytes = 0.
Proof.
  intros Ha. rewrite makeLineAddress_eq by done.
  pose proof block_bytes_pos. rewrite Zminus_mod_idemp_r. 
  rewrite Z.sub_diag. apply Z.mod_0_l. lia.
Qed.

Lemma makeLineAddress_idem a :
  0 <= a < 2 ^ 64 -> makeLineAddress (makeLineAddress a) = makeLineAddress a.
Proof.
  intros Ha. pose proof (makeLineAddress_range a Ha).
  rewrite (makeLineAddress_eq (makeLineAddress a)) by lia.
  rewrite makeLineAddress_aligned by done. lia.
Qed.

(** A byte lies in the line that its line address names, at its offset. *)
Lemma makeLineAddress_unique a l :
  0 <= a < 2 ^ 64 -> l mod getBlockSizeBytes = 0 ->
  l <= a < l + getBlockSizeBytes -> makeLineAddress a = l.
Proof.
  intros Ha Hl Hr. rewrite makeLineAddress_eq by done.
  pose proof block_bytes_pos as Hb.
  assert (a mod getBlockSizeBytes = a - l) as ->; [|lia].
  apply Z.div_exact in Hl; [|lia].
  symmetry. apply (Z.mod_unique_pos _ _ (l / getBlockSizeBytes)); lia.
Qed.
(** The line addresses. *)
Definition is_line (a : Z) : Prop := 0 <= a < 2 ^ 64 /\ makeLineAddress a = a.

Lemma makeLineAddress_is_line a :
  0 <= a < 2 ^ 64 -> is_line (makeLineAddress a).
Proof.
  intros Ha. pose proof (makeLineAddress_range a Ha). split; [lia|].
  by apply makeLineAddress_idem.
Qed.

Lemma is_line_aligned a : is_line a -> a mod getBlockSizeBytes = 0.
Proof.
  intros [Ha E]. rewrite <- E. by apply makeLineAddress_aligned.
Qed.

(** A line does not wrap around the address space. *)
Lemma is_line_end a : is_line a -> a + getBlockSizeBytes <= 2 ^ 64.
Proof.
  intros Hl. pose proof (is_line_aligned a Hl) as Hm. destruct Hl as [Ha _].
  destruct block_bytes_divides as (k & Hk & Hk0). pose proof block_bytes_pos.
  apply Z.div_exact in Hm; [|lia]. rewrite Hk in *.
  generalize dependent (a / getBlockSizeBytes). intros q Hm.
  assert (q < k) by nia. nia.
Qed.

Lemma line_byte a i :
  is_line a -> 0 <= i < getBlockSizeBytes ->
  u64 (a + i) = a + i /\ makeLineAddress (a + i) = a /\ getOffset (a + i) = Ok i.
Proof.
  intros Hl Hi. pose proof (is_line_end a Hl). pose proof (is_line_aligned a Hl) as Hm.
  destruct Hl as [Ha E]. split; [apply Z.mod_small; lia|]. split.
  - apply makeLineAddress_unique; [lia|done|lia].
  - rewrite getOffset_eq by lia. f_equal.
    rewrite Z.add_mod, Hm, Z.add_0_l, Z.mod_mod by (pose proof block_bytes_pos; lia).
    apply Z.mod_small. lia.
Qed.
End address.

(** The 64-byte lines of the evaluated configuration. *)
Definition ruby64 : RubySystem := {| m_block_size_bits := 6;
  block_size_bits_range := conj eq_refl eq_refl |}.

(** [operator<] orders the machines of one type and leaves two machines of
    different types unordered although they differ: the equivalence
    [!(a < b) && !(b < a)] used by the ordered containers is not transitive. *)
Lemma machine_ltb_not_strict_weak :
  exists a b c : MachineID,
    (machine_ltb a b || machine_ltb b a = false) /\
    (machine_ltb b c || machine_ltb c b = false) /\
    machine_ltb a c = true.
Proof.
  exists (MkMachineID 0 0), (MkMachineID 1 0), (MkMachineID 0 1). done.
Qed.

(** An address is its line address plus its offset in the line; the line
    address is aligned and is its own line, and an address inside the line
    has the same line address. *)
Theorem makeLineAddress_offset_split `{RubySystem} (a : Z) :
  0 <= a < 2 ^ 64 ->
  exists off, getOffset a = Ok off /\ 0 <= off < getBlockSizeBytes /\
    a = makeLineAddress a + off /\
    makeLineAddress (makeLineAddress a) = makeLineAddress a /\
    forall b, 0 <= b < 2 ^ 64 ->
      (makeLineAddress b = makeLineAddress a <->
       makeLineAddress a <= b < makeLineAddress a + getBlockSizeBytes).
Proof.
  intros Ha. pose proof block_bytes_pos as Hb.
  exists (a mod getBlockSizeBytes). split; [by apply getOffset_eq|].
  split; [by apply Z.mod_pos_bound|].
  split; [rewrite makeLineAddress_eq by done; lia|].
  split; [by apply makeLineAddress_idem|]. intros b Hb'. split.
  - intros <-. rewrite (makeLineAddress_eq b) by done.
    pose proof (Z.mod_pos_bound b _ Hb). lia.
  - intros Hr. apply makeLineAddress_unique; [done| |done].
    by apply makeLineAddress_aligned.
Qed.

Lemma makeLineAddress_offset_split_witness :
  exists off, getOffset (H := ruby64) 1000 = Ok off /\
    1000 = makeLineAddress (H := ruby64) 1000 + off.
Proof.
  destruct (makeLineAddress_offset_split (H := ruby64) 1000)
    as (off & H1 & _ & H2 & _); [lia|]. by exists off.
Defined.
