(* ===== verification/WriteMask.v ===== *)
(** * Byte masks of a cache line

    [mem/ruby/common/WriteMask.hh]: which bytes of a line a store wrote, as
    the write buffer and the data blocks use it. *)

From S2P Require Import Prelude Address.

(** An atomic functor updates the bytes from the address it is given. *)
Definition AtomicOpFunctor : Type := list Z -> list Z.
Definition AtomicOpVector : Type := list (Z * AtomicOpFunctor).

Record WriteMask := MkWriteMask {
  mSize : Z;
  mMask : list bool;
  mAtomic : bool;
  mAtomicOp : AtomicOpVector
}.

#[global] Instance eta_WriteMask : Eta WriteMask :=
  fun m => MkWriteMask (mSize m) (mMask m) (mAtomic m) (mAtomicOp m).

(** ** Operations *)

(** [WriteMask(int size)]. *)
Definition new_sized (size : Z) : WriteMask :=
  MkWriteMask size (replicate (Z.to_nat size) false) false [].

(** [WriteMask()]. *)
Definition new `{RubySystem} : WriteMask :=
  MkWriteMask getBlockSizeBytes
    (replicate (Z.to_nat getBlockSizeBytes) false) false [].

Definition clear (m : WriteMask) : WriteMask :=
  m <| mMask := replicate (Z.to_nat (mSize m)) false |>.

Definition test (m : WriteMask) (offset : Z) : res bool :=
  let? _ := rassert (offset <? mSize m) in
  vec_at EUndef (mMask m) offset.

Definition setMask (m : WriteMask) (offset len : Z) (val : bool)
    : res WriteMask :=
  let? _ := rassert (offset + len <=? mSize m) in
  let? v := foldR (fun v i => vec_set v (offset + i) val)
              (mMask m) (seqZ 0 len) in
  Ok (m <| mMask := v |>).

Definition fillMask (m : WriteMask) : res WriteMask :=
  let? v := foldR (fun v i => vec_set v i true) (mMask m) (seqZ 0 (mSize m)) in
  Ok (m <| mMask := v |>).

Definition getMask (m : WriteMask) (offset len : Z) : res bool :=
  let? _ := rassert (offset + len <=? mSize m) in
  foldR (fun tmp i => let? b := vec_at EThrow (mMask m) (offset + i) in
                      Ok (tmp && b)) true (seqZ 0 len).

Definition isOverlap (m readMask : WriteMask) : res bool :=
  let? _ := rassert (mSize m =? mSize readMask) in
  foldR (fun tmp i =>
           let? r := vec_at EThrow (mMask readMask) i in
           if r then let? b := vec_at EThrow (mMask m) i in Ok (tmp || b)
           else Ok tmp) false (seqZ 0 (mSize m)).

Definition containsMask (m readMask : WriteMask) : res bool :=
  let? _ := rassert (mSize m =? mSize readMask) in
  foldR (fun tmp i =>
           let? r := vec_at EThrow (mMask readMask) i in
           if r then let? b := vec_at EThrow (mMask m) i in Ok (tmp && b)
           else Ok tmp) true (seqZ 0 (mSize m)).

Definition isEmpty (m : WriteMask) : res bool :=
  allR (fun i => let? b := vec_at EThrow (mMask m) i in Ok (negb b))
    (seqZ 0 (mSize m)).

Definition isFull (m : WriteMask) : res bool :=
  allR (fun i => vec_at EThrow (mMask m) i) (seqZ 0 (mSize m)).

(** The element-wise update of [andMask], [orMask] and [setInvertedMask]. *)
Definition zipMask (f : bool -> bool -> bool) (m w : WriteMask)
    : res (list bool) :=
  foldR (fun v i => let? a := vec_at EThrow v i in
                    let? b := vec_at EThrow (mMask w) i in
                    vec_set v i (f a b)) (mMask m) (seqZ 0 (mSize m)).

Definition takeAtomic (m w : WriteMask) : WriteMask :=
  if mAtomic w then m <| mAtomic := true |> <| mAtomicOp := mAtomicOp w |>
  else m.

Definition andMask (m writeMask : WriteMask) : res WriteMask :=
  let? _ := rassert (mSize m =? mSize writeMask) in
  let? v := zipMask andb m writeMask in
  Ok (takeAtomic (m <| mMask := v |>) writeMask).

Definition orMask (m writeMask : WriteMask) : res WriteMask :=
  let? _ := rassert (mSize m =? mSize writeMask) in
  let? v := zipMask orb m writeMask in
  Ok (takeAtomic (m <| mMask := v |>) writeMask).

Definition setInvertedMask (m writeMask : WriteMask) : res WriteMask :=
  let? _ := rassert (mSize m =? mSize writeMask) in
  let? v := foldR (fun v i => let? b := vec_at EThrow (mMask writeMask) i in
                              vec_set v i (negb b))
              (mMask m) (seqZ 0 (mSize m)) in
  Ok (m <| mMask := v |>).

(** The scan of [firstBitSet] from the index [i]. *)
Fixpoint firstBitSet_from (v : list bool) (val : bool) (l : list Z) (dflt : Z)
    : res Z :=
  match l with
  | [] => Ok dflt
  | i :: l => let? b := vec_at EUndef v i in
              if Bool.eqb b val then Ok i else firstBitSet_from v val l dflt
  end.

Definition firstBitSet (m : WriteMask) (val : bool) (offset : Z) : res Z :=
  firstBitSet_from (mMask m) val (seqZ offset (mSize m - offset)) (mSize m).

Definition count (m : WriteMask) (offset : Z) : res Z :=
  foldR (fun n i => let? b := vec_at EUndef (mMask m) i in
                    Ok (n + (if b : bool then 1 else 0)))
    0 (seqZ offset (mSize m - offset)).

(** The functors run in order, each on the bytes from its offset on. *)
Definition performAtomic (m : WriteMask) (p : list Z) : list Z :=
  fold_left (fun p '(offset, fnctr) =>
               take (Z.to_nat offset) p ++ fnctr (drop (Z.to_nat offset) p))
    (mAtomicOp m) p.

Definition setAtomicOps (m : WriteMask) (ops : AtomicOpVector) : WriteMask :=
  m <| mAtomic := true |> <| mAtomicOp := ops |>.

(** ** Well-formedness and the abstraction to sets of offsets *)

Definition wf (m : WriteMask) : Prop := Z.of_nat (length (mMask m)) = mSize m.

(** Byte [i] is in the mask. *)
Definition bit (m : WriteMask) (i : Z) : bool :=
  (0 <=? i) && default false (mMask m !! Z.to_nat i).

Section lemmas.
Implicit Types m w : WriteMask.

Lemma vec_at_bit e m i :
  wf m -> 0 <= i < mSize m -> vec_at e (mMask m) i = Ok (bit m i).
Proof.
  unfold wf. intros Hwf Hi. unfold bit.
  rewrite (proj2 (Z.leb_le 0 i)) by lia. cbn [andb].
  destruct (lookup_lt_is_Some_2 (mMask m) (Z.to_nat i)) as [b Hb]; [lia|].
  rewrite Hb. apply vec_at_ok; [lia|done].
Qed.

Lemma bit_false_out m i : wf m -> mSize m <= i -> bit m i = false.
Proof.
  unfold wf, bit. intros Hwf Hi.
  rewrite lookup_ge_None_2 by lia. apply andb_false_r.
Qed.

Lemma wf_new_sized n : 0 <= n -> wf (new_sized n).
Proof. intros. unfold wf. cbn. rewrite length_replicate. lia. Qed.

Lemma wf_clear m : wf m -> wf (clear m).
Proof. unfold wf. cbn. intros. rewrite length_replicate. lia. Qed.

Lemma bit_insert m i j b :
  wf m -> 0 <= j < mSize m ->
  bit (m <| mMask := <[Z.to_nat j := b]> (mMask m) |>) i =
  if i =? j then b else bit m i.
Proof.
  unfold wf, bit. intros Hwf Hj. cbn.
  destruct (Z.leb_spec 0 i); cbn.
  - destruct (Z.eqb_spec i j) as [->|].
    + rewrite list_lookup_insert_eq by lia. done.
    + rewrite list_lookup_insert_ne by lia. done.
  - destruct (Z.eqb_spec i j); [lia|done].
Qed.

(** Every mask-valued loop writes one entry per iteration: the entry [i]
    gets [g i], the others keep their value. *)
Lemma foldR_update (f : list bool -> Z -> res (list bool)) (g : Z -> bool)
    m a n :
  wf m -> 0 <= n -> 0 <= a -> a + n <= mSize m ->
  (forall m' i, wf m' -> mSize m' = mSize m -> a <= i < a + n ->
     (forall j, i <= j -> bit m' j = bit m j) ->
     f (mMask m') i = vec_set (mMask m') i (g i)) ->
  exists v, foldR f (mMask m) (seqZ a n) = Ok v /\
    wf (m <| mMask := v |>) /\
    forall i, bit (m <| mMask := v |>) i =
              if (a <=? i) && (i <? a + n) then g i else bit m i.
Proof.
  intros Hwf Hn Ha Hsz Hf.
  destruct (foldR_range f (fun k v => wf (m <| mMask := v |>) /\
    forall i, bit (m <| mMask := v |>) i =
              if (a <=? i) && (i <? k) then g i else bit m i) a n (mMask m))
    as (v & Hv & HI); eauto.
  - split; [done|]. intros i.
    destruct (Z.leb_spec a i), (Z.ltb_spec i a); cbn; try lia; done.
  - intros i v Hi [Hwfv Hbit].
    assert (Z.of_nat (length v) = mSize m) as Hlen by exact Hwfv.
    assert (f v i = vec_set v i (g i)) as ->.
    { refine (Hf (m <| mMask := v |>) i _ _ _ _); [done|done|lia|].
      intros j Hj. rewrite Hbit. destruct (Z.ltb_spec j i); [lia|].
      by rewrite andb_false_r. }
    rewrite vec_set_ok by lia. eexists. split; [done|]. split.
    + unfold wf. cbn. by rewrite length_insert.
    + intros j. 
      etransitivity.
      { refine (bit_insert (m <| mMask := v |>) j i (g i) Hwfv _). cbn. lia. }
      rewrite Hbit.
      destruct (Z.eqb_spec j i) as [->|];
        destruct (Z.leb_spec a j) || destruct (Z.leb_spec a i); cbn;
        repeat match goal with |- context [?x <? ?y] =>
          destruct (Z.ltb_spec x y) end; try lia; try done.
Qed.

Lemma setMask_ok m offset len val :
  wf m -> 0 <= offset -> 0 <= len -> offset + len <= mSize m ->
  exists m', setMask m offset len val = Ok m' /\ wf m' /\
    mSize m' = mSize m /\
    forall i, bit m' i =
      if (offset <=? i) && (i <? offset + len) then val else bit m i.
Proof.
  intros Hwf Ho Hl Hs. unfold setMask, rassert.
  rewrite (proj2 (Z.leb_le _ _) Hs). cbn [rbind].
  assert (foldR (fun v i => vec_set v (offset + i) val) (mMask m) (seqZ 0 len)
    = foldR (fun v i => vec_set v i val) (mMask m) (seqZ offset len)) as ->.
  { replace (seqZ offset len) with (Z.add offset <$> seqZ 0 len)
      by by rewrite fmap_add_seqZ, Z.add_0_r.
    generalize (seqZ 0 len) (mMask m). clear.
    intros l. induction l as [|i l IH]; intros v; cbn; [done|].
    destruct (vec_set v (offset + i) val); cbn; [apply IH|done]. }
  destruct (foldR_update (fun v i => vec_set v i val) (fun _ => val)
              m offset len) as (v & -> & Hwf' & Hb); auto.
  cbn. eexists. split; [done|]. done.
Qed.

Lemma zipMask_ok f m w :
  wf m -> wf w -> mSize m = mSize w ->
  exists v, zipMask f m w = Ok v /\ wf (m <| mMask := v |>) /\
    forall i, bit (m <| mMask := v |>) i =
              if (0 <=? i) && (i <? mSize m) then f (bit m i) (bit w i)
              else bit m i.
Proof.
  intros Hm Hw Hs. unfold zipMask.
  assert (0 <= mSize m) by (unfold wf in Hm; lia).
  destruct (foldR_update
    (fun v i => let? a := vec_at EThrow v i in
                let? b := vec_at EThrow (mMask w) i in vec_set v i (f a b))
    (fun i => f (bit m i) (bit w i)) m 0 (mSize m)) as (v & -> & Hwf & Hb);
    auto; try lia.
  - intros m' i Hm' Hsz Hi Hj.
    rewrite (vec_at_bit EThrow m' i) by (auto; lia). cbn [rbind].
    rewrite (vec_at_bit EThrow w i) by (auto; lia). cbn [rbind].
    by rewrite Hj by lia.
  - rewrite Z.add_0_l in Hb. eauto.
Qed.

Lemma orMask_ok m w :
  wf m -> wf w -> mSize m = mSize w ->
  exists m', orMask m w = Ok m' /\ wf m' /\ mSize m' = mSize m /\
    forall i, bit m' i = bit m i || bit w i.
Proof.
  intros Hm Hw Hs. unfold orMask, rassert.
  rewrite (proj2 (Z.eqb_eq _ _) Hs). cbn [rbind].
  destruct (zipMask_ok orb m w) as (v & -> & Hwf & Hb); auto.
  cbn [rbind]. eexists. split; [done|]. unfold takeAtomic.
  assert (forall i, bit (m <| mMask := v |>) i = bit m i || bit w i) as E.
  { intros i. rewrite Hb.
    destruct (Z.leb_spec 0 i), (Z.ltb_spec i (mSize m)); cbn; try done.
    - by rewrite (bit_false_out w i), orb_false_r by (auto; lia).
    - unfold bit. rewrite (proj2 (Z.leb_gt 0 i)) by lia. done.
    - unfold bit. rewrite (proj2 (Z.leb_gt 0 i)) by lia. done. }
  destruct (mAtomic w); done.
Qed.

Lemma getMask_ok m offset len :
  wf m -> 0 <= offset -> 0 <= len -> offset + len <= mSize m ->
  exists b, getMask m offset len = Ok b /\
    (b = true <-> forall i, offset <= i < offset + len -> bit m i = true).
Proof.
  intros Hwf Ho Hl Hs. unfold getMask, rassert.
  rewrite (proj2 (Z.leb_le _ _) Hs). cbn [rbind].
  edestruct (foldR_range (fun tmp i =>
      let? b := vec_at EThrow (mMask m) (offset + i) in Ok (tmp && b))
    (fun k (tmp : bool) => tmp = true <->
       forall i, offset <= i < offset + k -> bit m i = true) 0 len true)
    as (b & Hb & HI); [done| | |exists b; split; [exact Hb|exact HI]].
  - split; [lia|done].
  - intros i tmp Hi HI. rewrite vec_at_bit by (auto; lia). cbn [rbind].
    eexists. split; [done|]. rewrite andb_true_iff, HI. split.
    + intros [H1 H2] j Hj. destruct (decide (j = offset + i)) as [->|]; [done|].
      apply H1. lia.
    + intros H. split; [intros j Hj|]; apply H; lia.
Qed.

Lemma getMask_1 m i :
  wf m -> 0 <= i < mSize m -> getMask m i 1 = Ok (bit m i).
Proof.
  intros Hwf Hi.
  destruct (getMask_ok m i 1) as (b & -> & Hb); auto; try lia.
  f_equal. apply eq_true_iff_eq. rewrite Hb. split.
  - intros H. apply H. lia.
  - intros H j Hj. by replace j with i by lia.
Qed.

Lemma containsMask_ok m w :
  wf m -> wf w -> mSize m = mSize w ->
  exists b, containsMask m w = Ok b /\
    (b = true <-> forall i, bit w i = true -> bit m i = true).
Proof.
  intros Hm Hw Hs. unfold containsMask, rassert.
  rewrite (proj2 (Z.eqb_eq _ _) Hs). cbn [rbind].
  assert (0 <= mSize m) by (unfold wf in Hm; lia).
  edestruct (foldR_range (fun tmp i =>
      let? r := vec_at EThrow (mMask w) i in
      if r then let? b := vec_at EThrow (mMask m) i in Ok (tmp && b)
      else Ok tmp)
    (fun k (tmp : bool) => tmp = true <->
       forall i, 0 <= i < k -> bit w i = true -> bit m i = true)
    0 (mSize m) true) as (b & Hb & HI); [done| | |].
  - split; [lia|done].
  - intros i tmp Hi HI. rewrite vec_at_bit by (auto; lia). cbn [rbind].
    destruct (bit w i) eqn:Ew.
    + rewrite vec_at_bit by (auto; lia). cbn [rbind].
      eexists. split; [done|]. rewrite andb_true_iff, HI. split.
      * intros [H1 H2] j Hj. destruct (decide (j = i)) as [->|]; [done|].
        apply H1. lia.
      * intros H'. split; [intros j Hj|]; [apply H'|apply H'; [|done]]; lia.
    + eexists. split; [done|]. rewrite HI. split.
      * intros H1 j Hj. destruct (decide (j = i)) as [->|]; [congruence|].
        apply H1. lia.
      * intros H' j Hj. apply H'. lia.
  - exists b. split; [exact Hb|]. rewrite HI. rewrite Z.add_0_l. split.
    + intros H' i Hi. apply H'; [|done]. split.
      * unfold bit in Hi. apply andb_true_iff in Hi as [Hi _]. lia.
      * destruct (Z.lt_ge_cases i (mSize m)); [done|].
        rewrite bit_false_out in Hi by (auto; lia). done.
    + intros H' i _. apply H'.
Qed.
End lemmas.
