(* ===== verification/DataBlock.v ===== *)
(** * Cache-line contents

    [mem/ruby/common/DataBlock.cc]: a line as an array of
    [getBlockSizeBytes] bytes.  The merges with a byte mask are what the
    write buffer and the forwarding of speculative data rely on. *)

From S2P Require Import Prelude Address.
From S2P Require WriteMask.
Import WriteMask (WriteMask).

Record DataBlock := MkDataBlock { m_data : list Z; m_alloc : bool }.

#[global] Instance eta_DataBlock : Eta DataBlock :=
  fun d => MkDataBlock (m_data d) (m_alloc d).

#[global] Instance DataBlock_eq_dec : EqDecision DataBlock.
Proof. solve_decision. Defined.

Section ops.
Context `{RS : RubySystem}.

(** The bytes of a block. *)
Definition block_offsets : list Z := seqZ 0 getBlockSizeBytes.

Definition nbytes : nat := Z.to_nat getBlockSizeBytes.

Definition clear (d : DataBlock) : DataBlock :=
  d <| m_data := replicate nbytes 0 |>.

(** [DataBlock()] and [alloc()]. *)
Definition alloc : DataBlock := MkDataBlock (replicate nbytes 0) true.

(** [memcpy(dst, src, n)] into the bytes of a block from [offset]. *)
Definition memcpy (dst : list Z) (offset : Z) (src : list Z) (len : Z)
    : res (list Z) :=
  if (0 <=? offset) && (0 <=? len) &&
     (offset + len <=? Z.of_nat (length dst)) &&
     (len <=? Z.of_nat (length src))
  then Ok (take (Z.to_nat offset) dst ++ take (Z.to_nat len) src ++
           drop (Z.to_nat (offset + len)) dst)
  else Err EUndef.

(** [DataBlock(const DataBlock &cp)]. *)
Definition copy (cp : DataBlock) : res DataBlock :=
  let? v := memcpy (replicate nbytes 0) 0 (m_data cp) getBlockSizeBytes in
  Ok (MkDataBlock v true).

(** [operator=]. *)
Definition assign_op (d obj : DataBlock) : res DataBlock :=
  let? v := memcpy (m_data d) 0 (m_data obj) getBlockSizeBytes in
  Ok (d <| m_data := v |>).

Definition copyFrom (d cp : DataBlock) : res DataBlock :=
  let? _ := rassert (m_alloc d) in
  let? v := memcpy (m_data d) 0 (m_data cp) getBlockSizeBytes in
  Ok (d <| m_data := v |>).

Definition getByte (d : DataBlock) (whichByte : Z) : res Z :=
  vec_at EUndef (m_data d) whichByte.

Definition setByte (d : DataBlock) (whichByte data : Z) : res DataBlock :=
  let? v := vec_set (m_data d) whichByte data in
  Ok (d <| m_data := v |>).

(** [!memcmp(...)]. *)
Definition equal (d obj : DataBlock) : bool :=
  bool_decide (take nbytes (m_data d) = take nbytes (m_data obj)).

Definition comparePartial (d dblk : DataBlock) (mask : WriteMask) : res bool :=
  allR (fun i =>
          let? g := WriteMask.getMask mask i 1 in
          if g then
            let? a := vec_at EUndef (m_data d) i in
            let? b := vec_at EUndef (m_data dblk) i in
            Ok (a =? b)
          else Ok true) block_offsets.

(** [copyPartial(dblk, mask)]. *)
Definition copyPartial (d dblk : DataBlock) (mask : WriteMask)
    : res DataBlock :=
  let? v := foldR (fun v i =>
                     let? g := WriteMask.getMask mask i 1 in
                     if g then
                       let? b := vec_at EUndef (m_data dblk) i in
                       vec_set v i b
                     else Ok v) (m_data d) block_offsets in
  Ok (d <| m_data := v |>).

Definition atomicPartial (d dblk : DataBlock) (mask : WriteMask)
    : res DataBlock :=
  let? v := foldR (fun v i => let? b := vec_at EUndef (m_data dblk) i in
                              vec_set v i b) (m_data d) block_offsets in
  Ok (d <| m_data := WriteMask.performAtomic mask v |>).

(** The bytes the returned pointer gives access to. *)
Definition getData (d : DataBlock) (offset len : Z) : res (list Z) :=
  let? _ := rassert (offset + len <=? getBlockSizeBytes) in
  Ok (take (Z.to_nat len) (drop (Z.to_nat offset) (m_data d))).

Definition setData (d : DataBlock) (data : list Z) (offset len : Z)
    : res DataBlock :=
  let? v := memcpy (m_data d) offset data len in
  Ok (d <| m_data := v |>).

(** [copyPartial(dblk, offset, len)]. *)
Definition copyPartial_range (d dblk : DataBlock) (offset len : Z)
    : res DataBlock :=
  setData d (drop (Z.to_nat offset) (m_data dblk)) offset len.

(** ** Lemmas *)

Definition wf (d : DataBlock) : Prop := length (m_data d) = nbytes.

Definition byte (d : DataBlock) (i : Z) : Z :=
  default 0 (m_data d !! Z.to_nat i).

Definition mask_wf (m : WriteMask) : Prop :=
  WriteMask.wf m /\ WriteMask.mSize m = getBlockSizeBytes.

Lemma nbytes_Z : Z.of_nat nbytes = getBlockSizeBytes.
Proof. unfold nbytes. pose proof block_bytes_pos. lia. Qed.

Lemma vec_at_byte e d i :
  wf d -> 0 <= i < getBlockSizeBytes -> vec_at e (m_data d) i = Ok (byte d i).
Proof.
  unfold wf, byte. intros Hwf Hi. pose proof nbytes_Z.
  destruct (lookup_lt_is_Some_2 (m_data d) (Z.to_nat i)) as [b Hb]; [lia|].
  rewrite Hb. apply vec_at_ok; [lia|done].
Qed.

Lemma wf_alloc : wf alloc.
Proof. unfold wf, alloc. cbn. apply length_replicate. Qed.

Lemma byte_ext d e :
  wf d -> wf e -> (forall i, 0 <= i < getBlockSizeBytes -> byte d i = byte e i) ->
  m_data d = m_data e.
Proof.
  unfold wf, byte. intros Hd He Hb. pose proof nbytes_Z.
  apply (list_eq_same_length _ _ nbytes); [done|done|].
  intros i x y Hi Hx Hy. specialize (Hb (Z.of_nat i)).
  rewrite Nat2Z.id, Hx, Hy in Hb. apply Hb. lia.
Qed.

Lemma comparePartial_ok d dblk mask :
  wf d -> wf dblk -> mask_wf mask ->
  exists b, comparePartial d dblk mask = Ok b /\
    (b = true <-> forall i, 0 <= i < getBlockSizeBytes ->
                  WriteMask.bit mask i = true -> byte d i = byte dblk i).
Proof.
  intros Hd Hb [Hm Hsz]. unfold comparePartial, block_offsets.
  pose proof block_bytes_pos.
  destruct (allR_range (fun i =>
          let? g := WriteMask.getMask mask i 1 in
          if g then
            let? a := vec_at EUndef (m_data d) i in
            let? b := vec_at EUndef (m_data dblk) i in
            Ok (a =? b)
          else Ok true)
    (fun i => negb (WriteMask.bit mask i) || (byte d i =? byte dblk i))
    0 getBlockSizeBytes) as (b & Hr & Hiff); [lia| |].
  - intros i Hi. rewrite WriteMask.getMask_1 by (auto; lia). cbn [rbind].
    destruct (WriteMask.bit mask i); [|done].
    rewrite !vec_at_byte by (auto; lia). done.
  - exists b. split; [exact Hr|]. rewrite Hiff.
    split; intros H' i Hi; specialize (H' i Hi).
    + intros Hm'. rewrite Hm' in H'. cbn in H'. lia.
    + destruct (WriteMask.bit mask i); [|done]. cbn. rewrite H' by done.
      apply Z.eqb_refl.
Qed.

Lemma byte_insert d i j b :
  wf d -> 0 <= i < getBlockSizeBytes -> 0 <= j < getBlockSizeBytes ->
  byte (d <| m_data := <[Z.to_nat j := b]> (m_data d) |>) i =
  if i =? j then b else byte d i.
Proof.
  unfold wf, byte. intros Hd Hi Hj. pose proof nbytes_Z. cbn.
  destruct (Z.eqb_spec i j) as [->|].
  - rewrite list_lookup_insert_eq by lia. done.
  - rewrite list_lookup_insert_ne by lia. done.
Qed.

Lemma copyPartial_ok d dblk mask :
  wf d -> wf dblk -> mask_wf mask ->
  exists d', copyPartial d dblk mask = Ok d' /\ wf d' /\
    m_alloc d' = m_alloc d /\
    forall i, 0 <= i < getBlockSizeBytes ->
      byte d' i = if WriteMask.bit mask i then byte dblk i else byte d i.
Proof.
  intros Hd Hb [Hm Hsz]. unfold copyPartial, block_offsets.
  pose proof block_bytes_pos. pose proof nbytes_Z.
  edestruct (foldR_range (fun v i =>
                     let? g := WriteMask.getMask mask i 1 in
                     if g then
                       let? b := vec_at EUndef (m_data dblk) i in
                       vec_set v i b
                     else Ok v)
    (fun k v => wf (d <| m_data := v |>) /\
       forall i, 0 <= i < getBlockSizeBytes ->
         byte (d <| m_data := v |>) i =
         if (i <? k) && WriteMask.bit mask i then byte dblk i else byte d i)
    0 getBlockSizeBytes (m_data d)) as (v & Hv & HI); [lia| | |].
  - split; [done|]. intros i Hi. by rewrite (proj2 (Z.ltb_ge i 0)) by lia.
  - intros i v Hi [Hwf Hby]. rewrite WriteMask.getMask_1 by (auto; lia).
    cbn [rbind]. destruct (WriteMask.bit mask i) eqn:Ebit.
    + rewrite vec_at_byte by (auto; lia). cbn [rbind].
      assert (length v = nbytes) by exact Hwf.
      rewrite vec_set_ok by lia. eexists. split; [done|]. split.
      * unfold wf. cbn. by rewrite length_insert.
      * intros j Hj. etransitivity.
        { refine (byte_insert (d <| m_data := v |>) j i _ Hwf Hj _). lia. }
        rewrite Hby by lia. destruct (Z.eqb_spec j i) as [->|].
        -- by rewrite (proj2 (Z.ltb_lt i (i + 1))), Ebit by lia.
        -- destruct (Z.ltb_spec j i), (Z.ltb_spec j (i + 1)); try lia; done.
    + eexists. split; [done|]. split; [done|]. intros j Hj.
      rewrite Hby by lia. destruct (decide (j = i)) as [->|].
      * by rewrite Ebit, !andb_false_r.
      * destruct (Z.ltb_spec j i), (Z.ltb_spec j (i + 1)); try lia; done.
  - destruct HI as [Hwf Hby]. eexists. split; [by rewrite Hv|].
    split; [done|]. split; [done|]. intros i Hi. rewrite Hby by done.
    by rewrite (proj2 (Z.ltb_lt i _)) by lia.
Qed.

Lemma memcpy_byte dst i v :
  0 <= i < Z.of_nat (length dst) ->
  memcpy dst i [v] 1 = Ok (<[Z.to_nat i := v]> dst).
Proof.
  intros Hi. unfold memcpy.
  rewrite (proj2 (Z.leb_le 0 i)), (proj2 (Z.leb_le (i + 1) _)) by lia. cbn.
  rewrite insert_take_drop by lia. do 2 f_equal.
  by replace (Z.to_nat (i + 1)) with (S (Z.to_nat i)) by lia.
Qed.

Lemma setData_byte d i v :
  wf d -> 0 <= i < getBlockSizeBytes ->
  exists d', setData d [v] i 1 = Ok d' /\ wf d' /\
    forall j, 0 <= j < getBlockSizeBytes ->
      byte d' j = if j =? i then v else byte d j.
Proof.
  intros Hd Hi. assert (length (m_data d) = nbytes) as Hlen by exact Hd.
  pose proof nbytes_Z. unfold setData.
  rewrite memcpy_byte by lia. cbn [rbind]. eexists. split; [done|]. split.
  - unfold wf. cbn. by rewrite length_insert.
  - intros j Hj. by apply byte_insert.
Qed.

Lemma getData_byte d i :
  wf d -> 0 <= i < getBlockSizeBytes ->
  getData d i 1 = Ok [byte d i].
Proof.
  unfold wf. intros Hd Hi. pose proof nbytes_Z. unfold getData, rassert, byte.
  rewrite (proj2 (Z.leb_le _ _)) by lia. cbn [rbind].
  destruct (lookup_lt_is_Some_2 (m_data d) (Z.to_nat i)) as [b Hb]; [lia|].
  rewrite Hb, (drop_S _ _ _ Hb). done.
Qed.

(** After a masked copy the masked comparison with the source succeeds,
    and no byte outside the mask has changed. *)
Lemma copyPartial_compare d dblk mask :
  wf d -> wf dblk -> mask_wf mask ->
  exists d', copyPartial d dblk mask = Ok d' /\
    comparePartial d' dblk mask = Ok true.
Proof.
  intros Hd Hb Hm.
  destruct (copyPartial_ok d dblk mask Hd Hb Hm) as (d' & -> & Hwf & _ & Hby).
  exists d'. split; [done|].
  destruct (comparePartial_ok d' dblk mask Hwf Hb Hm) as (b & -> & Hiff).
  f_equal. apply Hiff. intros i Hi Hbit. by rewrite Hby, Hbit by lia.
Qed.
End ops.
