(* ===== verification/HTM.v ===== *)
(** * The HTM object: causes, policies and the commit token

    [mem/htm.hh], [mem/htm.cc] and the options of [mem/HTM.py]: the abort
    causes and their ISA-visible projection, the configuration strings and
    their decoding, and the queue of commit-token requests that lazy
    conflict detection arbitrates with. *)

From S2P Require Import Prelude.
#[local] Open Scope string_scope.
#[local] Open Scope Z_scope.
#[local] Open Scope list_scope.

(** ** Abort causes *)

(** [HTMStats::AbortCause]; the constructors keep the source's names after
    the prefix. *)
Inductive AbortCause :=
| Conflict | L0Capacity | L1Capacity | L2Capacity | PageFault | Syscall
| Interrupt | Explicit | FallbackLock | ExplicitFallbackLock | WrongL0
| ConflictStale | SpecValidation | SpecDepthOverflow
| SpecMaxCapacityOverflow | SpecWriteInFlight | SpecReadConflict
| IllegalData | Undefined | ConflictPower | NumAbortCauses.

#[global] Instance AbortCause_eq_dec : EqDecision AbortCause.
Proof. solve_decision. Defined.

Inductive HtmFailureFaultCause :=
| INVALID | EXPLICIT | NEST | SIZE | EXCEPTION | MEMORY | OTHER | DISABLED
| INTERRUPT | LSQ | SIZE_RSET | SIZE_WSET | SIZE_L1PRIV | SIZE_LLC
| SIZE_WRONG_CACHE | EXPLICIT_FALLBACKLOCK | MEMORY_FALLBACKLOCK
| MEMORY_STALEDATA | MEMORY_FALSESHARING | MEMORY_POWER | SPEC_ILLEGAL
| SPEC_VALIDATION | SPEC_MAX_CAPACITY | SPEC_DEPTH | SPEC_WRITE_IN_FLIGHT
| SPEC_READ_CONFLICT | NUM_CAUSES.

#[global] Instance HtmFailureFaultCause_eq_dec : EqDecision HtmFailureFaultCause.
Proof. solve_decision. Defined.

Inductive HtmCacheFailure :=
| NO_FAIL | FAIL_SELF | FAIL_REMOTE | FAIL_REMOTE_POWER | FAIL_SPEC
| FAIL_OTHER.

#[global] Instance HtmCacheFailure_eq_dec : EqDecision HtmCacheFailure.
Proof. solve_decision. Defined.

Definition to_stats_xid (MaxXidStats xid : Z) : res Z :=
  if xid <? MaxXidStats then Ok xid else int_sub MaxXidStats 1.

Definition AbortCause_to_string (cause : AbortCause) : res string :=
  match cause with
  | Conflict => Ok "Conflict"
  | L0Capacity => Ok "L0Capacity"
  | L1Capacity => Ok "L1Capacity"
  | L2Capacity => Ok "L2Capacity"
  | PageFault => Ok "PageFault"
  | Syscall => Ok "Syscall"
  | Interrupt => Ok "Interrupt"
  | Explicit => Ok "Explicit"
  | FallbackLock => Ok "FallbackLock"
  | ExplicitFallbackLock => Ok "ExplicitFallbackLock"
  | WrongL0 => Ok "WrongL0"
  | ConflictStale => Ok "ConflictStale"
  | ConflictPower => Ok "ConflictPower"
  | SpecValidation => Ok "SpecValidation"
  | SpecDepthOverflow => Ok "SpecDepthOverflow"
  | SpecMaxCapacityOverflow => Ok "SpecMaxCapacityOverflow"
  | SpecWriteInFlight => Ok "SpecWriteInFlight"
  | SpecReadConflict => Ok "SpecReadConflict"
  | IllegalData => Ok "IllegalData"
  | Undefined => Ok "Undefined"
  | NumAbortCauses => Err EAssert
  end.

Definition getIsaVisibleHtmFailureCause (cause : HtmFailureFaultCause)
    : res HtmFailureFaultCause :=
  match cause with
  | EXPLICIT | NEST | SIZE | EXCEPTION | MEMORY | OTHER | DISABLED => Ok cause
  | INTERRUPT => Ok OTHER
  | LSQ | EXPLICIT_FALLBACKLOCK | MEMORY_FALLBACKLOCK | MEMORY_STALEDATA
  | MEMORY_FALSESHARING | MEMORY_POWER | SPEC_VALIDATION | SPEC_DEPTH
  | SPEC_MAX_CAPACITY | SPEC_WRITE_IN_FLIGHT | SPEC_READ_CONFLICT
  | SPEC_ILLEGAL => Ok MEMORY
  | SIZE_RSET | SIZE_WSET | SIZE_L1PRIV | SIZE_LLC => Ok SIZE
  | SIZE_WRONG_CACHE => Ok OTHER
  | INVALID | NUM_CAUSES => Err EPanic
  end.

Definition htmFailureToStr (cause : HtmFailureFaultCause) : string :=
  match cause with
  | EXPLICIT => "explicit"
  | NEST => "nesting_limit"
  | SIZE => "transaction_size"
  | EXCEPTION => "exception"
  | INTERRUPT => "interrupt"
  | DISABLED => "htm_disabled"
  | MEMORY => "memory_conflict"
  | LSQ => "lsq_conflict"
  | SIZE_RSET => "transaction_size_rset"
  | SIZE_WSET => "transaction_size_wset"
  | SIZE_LLC => "transaction_size_llc"
  | SIZE_L1PRIV => "transaction_size_l1priv"
  | SIZE_WRONG_CACHE => "transaction_size_wrongcache"
  | EXPLICIT_FALLBACKLOCK => "explicit_fallbacklock"
  | MEMORY_FALLBACKLOCK => "memory_conflict_fallbacklock"
  | MEMORY_STALEDATA => "memory_conflict_staledata"
  | MEMORY_FALSESHARING => "memory_conflict_falsesharing"
  | SPEC_VALIDATION => "spec_validation_failure"
  | SPEC_DEPTH => "spec_depth_failure"
  | SPEC_MAX_CAPACITY => "spec_max_capacity"
  | SPEC_WRITE_IN_FLIGHT => "spec_write_in_flight"
  | SPEC_READ_CONFLICT => "spec_read_conflict"
  | SPEC_ILLEGAL => "spec_illegal"
  | MEMORY_POWER => "memory_conflict_power"
  | OTHER => "other"
  | INVALID | NUM_CAUSES => "Unrecognized Failure"
  end.

Definition htmCacheFailureToStr (rc : HtmCacheFailure) : string :=
  match rc with
  | NO_FAIL => "NO_FAIL"
  | FAIL_SELF => "FAIL_SELF"
  | FAIL_REMOTE => "FAIL_REMOTE"
  | FAIL_SPEC => "FAIL_SPEC"
  | FAIL_OTHER => "FAIL_OTHER"
  | FAIL_REMOTE_POWER => "Unrecognized Failure"
  end.

(** ** Configuration *)

(** [HtmPolicyStrings]. *)
Module Policy.
Definition requester_wins := "requester_wins".
Definition requester_loses := "requester_loses".
Definition power_tm := "requester_wins_power".
Definition woper_tm := "requester_loses_power".
Definition power_tm_consumer_wins := "requester_wins_power_consumer".
Definition woper_tm_consumer_wins := "requester_loses_power_consumer".
Definition committer_wins := "committer_wins".
Definition requester_stalls := "requester_stalls".
Definition requester_stalls_pic_base := "requester_stalls_pic_base".
Definition magic := "magic".
Definition token := "token".
Definition requester_stalls_cda_base := "requester_stalls_cda_base".
Definition requester_stalls_cda_base_ntx := "requester_stalls_cda_base_ntx".
Definition requester_stalls_cda_hybrid := "requester_stalls_cda_hybrid".
Definition requester_stalls_cda_hybrid_ntx :=
  "requester_stalls_cda_hybrid_ntx".
End Policy.

(** The options of [mem/HTM.py] the modelled code reads. *)
Record HTMParams := MkHTMParams {
  lazy_vm : bool;
  eager_cd : bool;
  conflict_resolution : string;
  lazy_arbitration : string;
  lazy_commit_width : Z;
  precise_read_set_tracking : bool;
  trans_aware_l0_replacements : bool;
  reload_if_stale : bool;
  reload_if_stale_max_retries : Z;
  max_consumed_blocks : Z;
  remove_false_sharing_forward : bool;
  cycles_to_validate : Z;
  fwd_mechanism : string;
  prio_mechanism : string;
  fwd_cycle_solve_strategy : string;
  allowed_data_fwd : string;
  NC_not_producer : bool;
  n_val_fwd : Z;
  max_prio_diff : Z;
  max_consumers : Z;
  no_produce_on_retry : bool;
  value_checker : bool;
  isolation_checker : bool;
  allow_read_set_l0_cache_evictions : bool;
  allow_write_set_l0_cache_evictions : bool;
  allow_read_set_l1_cache_evictions : bool;
  allow_write_set_l1_cache_evictions : bool;
  allow_read_set_l2_cache_evictions : bool;
  allow_write_set_l2_cache_evictions : bool
}.

#[global] Instance eta_HTMParams : Eta HTMParams := fun p =>
  MkHTMParams (lazy_vm p) (eager_cd p) (conflict_resolution p)
    (lazy_arbitration p) (lazy_commit_width p) (precise_read_set_tracking p)
    (trans_aware_l0_replacements p) (reload_if_stale p)
    (reload_if_stale_max_retries p) (max_consumed_blocks p)
    (remove_false_sharing_forward p) (cycles_to_validate p) (fwd_mechanism p)
    (prio_mechanism p) (fwd_cycle_solve_strategy p) (allowed_data_fwd p)
    (NC_not_producer p) (n_val_fwd p) (max_prio_diff p) (max_consumers p)
    (no_produce_on_retry p) (value_checker p) (isolation_checker p)
    (allow_read_set_l0_cache_evictions p)
    (allow_write_set_l0_cache_evictions p)
    (allow_read_set_l1_cache_evictions p)
    (allow_write_set_l1_cache_evictions p)
    (allow_read_set_l2_cache_evictions p)
    (allow_write_set_l2_cache_evictions p).

(** The configuration is fixed at start-up: an implicit argument of the
    operations. *)
Class Config := params : HTMParams.

(** The defaults of [mem/HTM.py]. *)
Definition default_params : HTMParams :=
  MkHTMParams false false "requester_wins" "magic" 4 false false false 10 4
    false 100 "no_fwd" "no_prio" "no_strategy" "all_data" false 40 1 1 false
    false false false false false false false false.

Inductive ResolutionPolicy :=
| RequesterWins | RequesterLoses | RequesterStalls | RequesterStallsPiCBased
| UndefinedPolicy.

Inductive HtmFwdMechanism :=
| no_fwd | naive | simple | W1_D1 | WN_D1 | W1_DN | WN_DM | WX_DX.

Inductive HtmHwPrioMechanism := no_prio | numeric.

Inductive HtmFwdCycleSolveStrategy := no_strategy | strategy_abort | retry.

Inductive HtmAllowedDataFwd := all_data | only_written | no_write_in_flight.

#[global] Instance ResolutionPolicy_eq_dec : EqDecision ResolutionPolicy.
Proof. solve_decision. Defined.
#[global] Instance HtmFwdMechanism_eq_dec : EqDecision HtmFwdMechanism.
Proof. solve_decision. Defined.
#[global] Instance HtmHwPrioMechanism_eq_dec : EqDecision HtmHwPrioMechanism.
Proof. solve_decision. Defined.
#[global] Instance HtmFwdCycleSolveStrategy_eq_dec :
  EqDecision HtmFwdCycleSolveStrategy.
Proof. solve_decision. Defined.
#[global] Instance HtmAllowedDataFwd_eq_dec : EqDecision HtmAllowedDataFwd.
Proof. solve_decision. Defined.

(** [s.rfind(p, 0) == 0]: [p] is a prefix of [s]. *)
Definition starts_with (s p : string) : bool := String.prefix p s.

Definition getResolutionPolicy (p : HTMParams) : ResolutionPolicy :=
  let policy := conflict_resolution p in
  if starts_with policy "requester_wins" then RequesterWins
  else if starts_with policy "requester_loses" then RequesterLoses
  else if starts_with policy "requester_stalls" then RequesterStalls
  else UndefinedPolicy.

Definition getHwPrioMechanism (p : HTMParams) : HtmHwPrioMechanism :=
  let mechanism := prio_mechanism p in
  if (mechanism =? "no_prio")%string then no_prio
  else if (mechanism =? "numeric")%string then numeric
  else no_prio.

Definition getFwdMechanism (p : HTMParams) : HtmFwdMechanism :=
  let mechanism := fwd_mechanism p in
  if (mechanism =? "no_fwd")%string then no_fwd
  else if (mechanism =? "simple")%string then simple
  else if (mechanism =? "naive")%string then naive
  else if (mechanism =? "W1_D1")%string then W1_D1
  else if (mechanism =? "WN_D1")%string then WN_D1
  else if (mechanism =? "W1_DN")%string then W1_DN
  else if (mechanism =? "WN_DM")%string then WN_DM
  else if (mechanism =? "WX_DX")%string then WX_DX
  else no_fwd.

Definition getFwdCycleSolveStrategy (p : HTMParams) : HtmFwdCycleSolveStrategy :=
  let strategy := fwd_cycle_solve_strategy p in
  if (strategy =? "no_strategy")%string then no_strategy
  else if (strategy =? "abort")%string then strategy_abort
  else if (strategy =? "retry")%string then retry
  else no_strategy.

Definition getAllowedDataFwd (p : HTMParams) : HtmAllowedDataFwd :=
  let strategy := allowed_data_fwd p in
  if (strategy =? "all_data")%string then all_data
  else if (strategy =? "only_written")%string then only_written
  else if (strategy =? "no_write_in_flight")%string then no_write_in_flight
  else all_data.

(** ** The object *)

Record HTM := MkHTM {
  m_fallbackLockPhysicalAddress : Z;
  m_fallbackLockVirtualAddress : Z;
  m_commitTokenRequestList : list Z
}.

#[global] Instance eta_HTM : Eta HTM := fun h =>
  MkHTM (m_fallbackLockPhysicalAddress h) (m_fallbackLockVirtualAddress h)
    (m_commitTokenRequestList h).

(** [HTM::HTM]; the parsed virtual address of the fallback lock is given. *)
Definition HTM_init (vaddr : Z) : HTM := MkHTM 0 vaddr [].

Definition setFallbackLockPAddr (addr : Z) : M HTM unit :=
  let* cur := gets m_fallbackLockPhysicalAddress in
  if cur =? 0 then set! m_fallbackLockPhysicalAddress := addr
  else massert (cur =? addr).

(** ** Commit-token queue *)

Definition requestCommitToken (proc_no : Z) : M HTM unit :=
  let* l := gets m_commitTokenRequestList in
  do* forM l (fun p => massert (negb (p =? proc_no)));
  upd! m_commitTokenRequestList ::= (fun l => l ++ [proc_no]).

Definition releaseCommitToken (proc_no : Z) : M HTM unit :=
  let* l := gets m_commitTokenRequestList in
  do* massert (Nat.ltb 0 (length l));
  match l with
  | [] => throw EUndef
  | owner :: rest =>
      do* massert (proc_no =? owner);
      set! m_commitTokenRequestList := rest
  end.

Definition getTokenOwner (h : HTM) : Z :=
  match m_commitTokenRequestList h with
  | [] => -1
  | owner :: _ => owner
  end.

(** The scan of [removeCommitTokenRequest]: the first occurrence goes. *)
Fixpoint erase_first (p : Z) (l : list Z) : option (list Z) :=
  match l with
  | [] => None
  | x :: l => if x =? p then Some l else cons x <$> erase_first p l
  end.

Definition removeCommitTokenRequest (proc_no : Z) : M HTM unit :=
  let* owner := gets getTokenOwner in
  if owner =? proc_no then releaseCommitToken proc_no
  else
    let* l := gets m_commitTokenRequestList in
    match erase_first proc_no l with
    | Some l' => set! m_commitTokenRequestList := l'
    | None => massert false
    end.

Definition existCommitTokenRequest (proc_no : Z) (h : HTM) : bool :=
  existsb (fun p => p =? proc_no) (m_commitTokenRequestList h).

Definition getNumTokenRequests (h : HTM) : Z :=
  Z.of_nat (length (m_commitTokenRequestList h)).

(** ** Lemmas *)

Lemma isa_visible_cases c c' :
  getIsaVisibleHtmFailureCause c = Ok c' ->
  c' ∈ [EXPLICIT; NEST; SIZE; EXCEPTION; MEMORY; OTHER; DISABLED] /\
  getIsaVisibleHtmFailureCause c' = Ok c'.
Proof. destruct c; intros [= <-]; (split; [|done]); repeat constructor. Qed.

Lemma existCommitTokenRequest_spec p h :
  existCommitTokenRequest p h = true <-> p ∈ m_commitTokenRequestList h.
Proof.
  unfold existCommitTokenRequest. rewrite existsb_exists. split.
  - intros (x & Hx & E). apply list_elem_of_In. by apply Z.eqb_eq in E as ->.
  - intros H. exists p. split; [by apply list_elem_of_In|apply Z.eqb_refl].
Qed.

(** Every processor waits at most once, and processor numbers are not the
    [-1] that stands for no owner. *)
Definition token_wf (h : HTM) : Prop :=
  NoDup (m_commitTokenRequestList h) /\
  Forall (fun p => 0 <= p) (m_commitTokenRequestList h).

Lemma forM_massert {S A} (f : A -> bool) (l : list A) (s : S) :
  forM l (fun x => massert (f x)) s =
  if forallb f l then Ok (tt, s) else Err EAssert.
Proof.
  induction l as [|x l IH]; [done|]. cbn [forM forallb]. unfold bind, massert at 1.
  destruct (f x); [apply IH|done].
Qed.

Lemma forallb_neqb p l : p ∉ l -> forallb (fun x => negb (x =? p)) l = true.
Proof.
  intros H. apply forallb_forall. intros x Hx. apply negb_true_iff, Z.eqb_neq.
  intros ->. by apply H, list_elem_of_In.
Qed.

Lemma requestCommitToken_ok p h :
  p ∉ m_commitTokenRequestList h ->
  requestCommitToken p h =
  Ok (tt, h <| m_commitTokenRequestList ::= fun l => l ++ [p] |>).
Proof.
  intros Hp. unfold requestCommitToken, bind, gets.
  by rewrite forM_massert, forallb_neqb by done.
Qed.

Lemma erase_first_Some p l :
  p ∈ l -> NoDup l ->
  exists l1 l2, l = l1 ++ p :: l2 /\ erase_first p l = Some (l1 ++ l2).
Proof.
  induction l as [|x l IH]; [by intros ?%elem_of_nil|].
  intros Hp Hnd. apply NoDup_cons in Hnd as [Hx Hnd]. cbn [erase_first].
  destruct (Z.eqb_spec x p) as [->|Hne].
  - by exists [], l.
  - apply elem_of_cons in Hp as [->|Hp]; [done|].
    destruct (IH Hp Hnd) as (l1 & l2 & -> & ->).
    by exists (x :: l1), l2.
Qed.

(** Leaving the queue returns and takes out exactly the caller, keeping the
    order of the others. *)
Lemma removeCommitTokenRequest_ok p h :
  token_wf h -> p ∈ m_commitTokenRequestList h ->
  exists l1 l2, m_commitTokenRequestList h = l1 ++ p :: l2 /\
    removeCommitTokenRequest p h =
    Ok (tt, h <| m_commitTokenRequestList := l1 ++ l2 |>).
Proof.
  intros [Hnd _] Hp.
  unfold removeCommitTokenRequest, bind, gets, getTokenOwner.
  destruct (m_commitTokenRequestList h) as [|owner rest] eqn:E;
    [by apply elem_of_nil in Hp|].
  destruct (Z.eqb_spec owner p) as [->|Hne].
  - exists [], rest. split; [done|].
    unfold releaseCommitToken, bind, gets. rewrite E. cbn.
    unfold massert. rewrite Z.eqb_refl. done.
  - destruct (erase_first_Some p (owner :: rest)) as (l1 & l2 & El & Ef);
      [done|done|].
    cbv beta iota. rewrite E, Ef. exists l1, l2. split; [exact El|done].
Qed.

Lemma token_wf_sub h l1 p l2 :
  token_wf h -> m_commitTokenRequestList h = l1 ++ p :: l2 ->
  token_wf (h <| m_commitTokenRequestList := l1 ++ l2 |>) /\ p ∉ l1 ++ l2.
Proof.
  unfold token_wf. intros [Hnd Hpos] E. rewrite E in Hnd, Hpos. cbn.
  assert (l1 ++ p :: l2 ≡ₚ p :: l1 ++ l2) as HP by solve_Permutation.
  rewrite HP in Hnd, Hpos. apply NoDup_cons in Hnd as [Hn Hnd].
  by inversion Hpos.
Qed.

(** The policy names of the source, decoded. *)
Lemma getResolutionPolicy_names p :
  getResolutionPolicy (p <| conflict_resolution := Policy.power_tm |>)
    = RequesterWins /\
  getResolutionPolicy (p <| conflict_resolution := Policy.woper_tm |>)
    = RequesterLoses /\
  getResolutionPolicy
    (p <| conflict_resolution := Policy.requester_stalls_pic_base |>)
    = RequesterStalls.
Proof. done. Qed.
