(* ===== verification/IsolationManager.v ===== *)
(** * Read and write sets of a transaction

    [mem/ruby/htm/TransactionIsolationManager.cc]: the perfect filters that
    record which lines a transaction has read and written.  The nesting level
    and the read-set tracking option of the owning interface manager are
    arguments of the operations that ask for them. *)

From S2P Require Import Prelude Address.

(** The [char] stored with a line. *)
Inductive LineState :=
| EXECUTED_LOAD    (* 'x' *)
| RETIRED_LOAD     (* 'r' *)
| OVERTAKING_LOAD  (* 'o' *)
| RETIRED_STORE.   (* 'w' *)

#[global] Instance LineState_eq_dec : EqDecision LineState.
Proof. solve_decision. Defined.

Record IsolationManager := MkIsolationManager {
  m_readSet : gmap Z LineState;
  m_writeSet : gmap Z LineState;
  m_writeSetInWriteBuffer : gmap Z LineState
}.

#[global] Instance eta_IsolationManager : Eta IsolationManager := fun i =>
  MkIsolationManager (m_readSet i) (m_writeSet i) (m_writeSetInWriteBuffer i).

Definition IsolationManager_init : IsolationManager :=
  MkIsolationManager ∅ ∅ ∅.

Section ops.
Context `{RS : RubySystem}.

(** The read set survives: loads of the transaction may have overtaken its
    [xbegin]. *)
Definition beginTransaction : M IsolationManager unit :=
  set! m_writeSet := ∅.

Definition clearReadSetPerfectFilter : M IsolationManager unit :=
  do* set! m_readSet := ∅;
  let* s := get in
  massert (Nat.eqb (size (m_readSet s)) 0).

Definition clearWriteSetPerfectFilter : M IsolationManager unit :=
  do* set! m_writeSet := ∅;
  let* s := get in
  do* massert (Nat.eqb (size (m_writeSet s)) 0);
  set! m_writeSetInWriteBuffer := ∅.

Definition commitTransaction (precise : bool) : M IsolationManager unit :=
  let* rset := gets m_readSet in
  do* forM (std_list rset) (fun '(_, st) =>
        when precise (massert (bool_decide (st = RETIRED_LOAD))));
  do* clearReadSetPerfectFilter;
  clearWriteSetPerfectFilter.

Definition abortTransaction : M IsolationManager unit :=
  do* clearReadSetPerfectFilter;
  clearWriteSetPerfectFilter.

Definition releaseIsolation : M IsolationManager unit :=
  do* clearReadSetPerfectFilter;
  clearWriteSetPerfectFilter.

Definition releaseReadIsolation : M IsolationManager unit :=
  clearReadSetPerfectFilter.

Definition isInReadSetPerfectFilter (level : Z) (precise : bool) (addr : Z)
    (s : IsolationManager) : res bool :=
  match m_readSet s !! makeLineAddress addr with
  | Some st =>
      let? _ := if level =? 0 then rassert (negb (bool_decide (st = RETIRED_LOAD)))
                else Ok tt in
      let? _ := if precise then rassert (bool_decide (st = RETIRED_LOAD))
                else Ok tt in
      Ok true
  | None => Ok false
  end.

Definition isInWriteSetPerfectFilter (addr : Z) (s : IsolationManager)
    : res bool :=
  match m_writeSet s !! makeLineAddress addr with
  | Some st => let? _ := rassert (bool_decide (st = RETIRED_STORE)) in Ok true
  | None => Ok false
  end.

Definition addToReadSetPerfectFilter (level : Z) (address : Z)
    : M IsolationManager unit :=
  let addr := makeLineAddress address in
  let value := if level =? 0 then OVERTAKING_LOAD else EXECUTED_LOAD in
  let* rset := gets m_readSet in
  do* unless (has addr rset) (upd! m_readSet ::= (std_insert addr value));
  let* rset := gets m_readSet in
  massert (has addr rset).

Definition addToRetiredReadSet (addr : Z) : M IsolationManager unit :=
  let line := makeLineAddress addr in
  let* rset := gets m_readSet in
  match rset !! line with
  | None => massert false
  | Some st =>
      do* unless (bool_decide (st = OVERTAKING_LOAD))
            (massert (bool_decide (st = EXECUTED_LOAD)));
      upd! m_readSet ::= (<[line := RETIRED_LOAD]>)
  end.

Definition inRetiredReadSet (addr : Z) (s : IsolationManager) : res bool :=
  match m_readSet s !! makeLineAddress addr with
  | None => Err EAssert
  | Some st => Ok (bool_decide (st = RETIRED_LOAD))
  end.

Definition wasOvertakingRead (addr : Z) (s : IsolationManager) : res bool :=
  match m_readSet s !! addr with
  | None => Err EAssert
  | Some st => Ok (bool_decide (st = OVERTAKING_LOAD))
  end.

Definition removeFromReadSetPerfectFilter (address : Z)
    : M IsolationManager unit :=
  let addr := makeLineAddress address in
  let* rset := gets m_readSet in
  do* if has addr rset then upd! m_readSet ::= (delete addr)
      else massert false;
  let* rset := gets m_readSet in
  massert (negb (has addr rset)).

Definition removeFromWriteSetPerfectFilter (address : Z)
    : M IsolationManager unit :=
  let addr := makeLineAddress address in
  let* wset := gets m_writeSet in
  do* if has addr wset then upd! m_writeSet ::= (delete addr)
      else massert false;
  let* wset := gets m_writeSet in
  massert (negb (has addr wset)).

Definition addToWriteSetPerfectFilter (address : Z) : M IsolationManager unit :=
  let addr := makeLineAddress address in
  let* wset := gets m_writeSet in
  do* unless (has addr wset)
        (upd! m_writeSet ::= (std_insert addr RETIRED_STORE));
  let* wset := gets m_writeSet in
  massert (has addr wset).

Definition getReadSetSize (s : IsolationManager) : Z :=
  Z.of_nat (size (m_readSet s)).

Definition getWriteSetSize (s : IsolationManager) : Z :=
  Z.of_nat (size (m_writeSet s)).

Definition getWriteSet (s : IsolationManager) : list Z :=
  std_keys (m_writeSet s).

Definition getReadSet (s : IsolationManager) : list Z :=
  std_keys (m_readSet s).

Definition redirectedStoreToWriteBuffer (addr : Z) : M IsolationManager unit :=
  upd! m_writeSetInWriteBuffer ::= (std_insert addr RETIRED_STORE).

Definition isRedirectedStoreToWriteBuffer (addr : Z) (s : IsolationManager)
    : bool :=
  has addr (m_writeSetInWriteBuffer s).

(** [this->hasConflictWith(new_committer)]: the buffered write set of the
    ongoing committer against the read and write sets of the new one, whose
    nesting level and tracking option are given. *)
Fixpoint conflict_scan (level : Z) (precise : bool) (l : list Z)
    (new_committer : IsolationManager) : res bool :=
  match l with
  | [] => Ok false
  | waddr :: l =>
      let? r := isInReadSetPerfectFilter level precise waddr new_committer in
      if r then Ok true
      else if isRedirectedStoreToWriteBuffer waddr new_committer then Ok true
      else conflict_scan level precise l new_committer
  end.

Definition hasConflictWith (level : Z) (precise : bool)
    (self new_committer : IsolationManager) : res bool :=
  conflict_scan level precise (std_keys (m_writeSetInWriteBuffer self))
    new_committer.

(** ** Well-formedness

    Sets hold line addresses; a retired load is only recorded inside a
    transaction; with precise tracking only retired loads are recorded. *)

Record wf (level : Z) (precise : bool) (s : IsolationManager) : Prop := {
  wf_read_line : forall a st, m_readSet s !! a = Some st -> is_line a;
  wf_read_kind : forall a st, m_readSet s !! a = Some st -> st <> RETIRED_STORE;
  wf_read_idle : level = 0 ->
    forall a st, m_readSet s !! a = Some st -> st <> RETIRED_LOAD;
  wf_read_precise : precise = true ->
    forall a st, m_readSet s !! a = Some st -> st = RETIRED_LOAD;
  wf_write_line : forall a st, m_writeSet s !! a = Some st -> is_line a;
  wf_write_kind : forall a st, m_writeSet s !! a = Some st -> st = RETIRED_STORE;
  wf_buffer_line :
    forall a st, m_writeSetInWriteBuffer s !! a = Some st -> is_line a
}.

Lemma isInReadSet_ok level precise addr s :
  wf level precise s ->
  isInReadSetPerfectFilter level precise addr s =
  Ok (has (makeLineAddress addr) (m_readSet s)).
Proof.
  intros Hwf. unfold isInReadSetPerfectFilter, has.
  destruct (m_readSet s !! makeLineAddress addr) as [st|] eqn:E; [|done].
  destruct (Z.eqb_spec level 0) as [Hl|Hl].
  - pose proof (wf_read_idle _ _ _ Hwf Hl _ _ E) as Hni. destruct precise.
    + by pose proof (wf_read_precise _ _ _ Hwf eq_refl _ _ E).
    + by rewrite bool_decide_eq_false_2.
  - cbn. destruct precise; [|done].
    assert (st = RETIRED_LOAD) as -> by by eapply wf_read_precise.
    done.
Qed.

Lemma isInWriteSet_ok level precise addr s :
  wf level precise s ->
  isInWriteSetPerfectFilter addr s =
  Ok (has (makeLineAddress addr) (m_writeSet s)).
Proof.
  intros Hwf. unfold isInWriteSetPerfectFilter, has.
  destruct (m_writeSet s !! makeLineAddress addr) as [st|] eqn:E; [|done].
  by rewrite (wf_write_kind _ _ _ Hwf _ _ E).
Qed.

Lemma add_read_ok level addr s :
  addToReadSetPerfectFilter level addr s =
  Ok (tt, s <| m_readSet ::=
        std_insert (makeLineAddress addr)
          (if level =? 0 then OVERTAKING_LOAD else EXECUTED_LOAD) |>).
Proof.
  unfold addToReadSetPerfectFilter, bind, gets, unless, ret, modify, massert.
  unfold upd. cbn. destruct s as [r w b]. cbn. unfold std_insert.
  destruct (has (makeLineAddress addr) r) eqn:E.
  - cbn. rewrite E. apply has_true in E as [st ->]. done.
  - cbn. apply has_false in E. rewrite E. cbn.
    unfold has. by rewrite lookup_insert_eq.
Qed.

Lemma add_write_ok addr s :
  addToWriteSetPerfectFilter addr s =
  Ok (tt, s <| m_writeSet ::=
        std_insert (makeLineAddress addr) RETIRED_STORE |>).
Proof.
  unfold addToWriteSetPerfectFilter, bind, gets, unless, ret, modify, massert.
  unfold upd. cbn. destruct s as [r w b]. cbn. unfold std_insert.
  destruct (has (makeLineAddress addr) w) eqn:E.
  - cbn. rewrite E. apply has_true in E as [st ->]. done.
  - cbn. apply has_false in E. rewrite E. cbn.
    unfold has. by rewrite lookup_insert_eq.
Qed.

Lemma retire_ok addr s st :
  m_readSet s !! makeLineAddress addr = Some st ->
  st <> RETIRED_LOAD -> st <> RETIRED_STORE ->
  addToRetiredReadSet addr s =
  Ok (tt, s <| m_readSet ::= <[makeLineAddress addr := RETIRED_LOAD]> |>).
Proof.
  intros E H1 H2. unfold addToRetiredReadSet, bind, gets. rewrite E.
  by destruct st.
Qed.

Lemma clear_ok s :
  abortTransaction s = Ok (tt, IsolationManager_init).
Proof. done. Qed.

Lemma wf_init level precise : wf level precise IsolationManager_init.
Proof. split; cbn; try intros; simplify_map_eq. Qed.

Lemma wf_add_read level addr s :
  0 <= addr < 2 ^ 64 -> wf level false s ->
  wf level false (s <| m_readSet ::=
    std_insert (makeLineAddress addr)
      (if level =? 0 then OVERTAKING_LOAD else EXECUTED_LOAD) |>).
Proof.
  intros Ha Hwf. destruct Hwf.
  split; cbn; eauto; try done; [| |intros Hl];
    intros a st [?|(-> & -> & ?)]%lookup_std_insert_Some;
    eauto using makeLineAddress_is_line; by case_match.
Qed.

Lemma wf_add_write level precise addr s :
  0 <= addr < 2 ^ 64 -> wf level precise s ->
  wf level precise (s <| m_writeSet ::=
    std_insert (makeLineAddress addr) RETIRED_STORE |>).
Proof.
  intros Ha Hwf. destruct Hwf.
  split; cbn; eauto; intros a st [?|(-> & -> & ?)]%lookup_std_insert_Some;
    eauto using makeLineAddress_is_line.
Qed.

Lemma conflict_scan_ok level precise l s :
  wf level precise s -> (forall a, a ∈ l -> is_line a) ->
  exists b, conflict_scan level precise l s = Ok b /\
    (b = true <-> exists a, a ∈ l /\
       (is_Some (m_readSet s !! a) \/
        is_Some (m_writeSetInWriteBuffer s !! a))).
Proof.
  intros Hwf. induction l as [|x l IH]; intros Hl; cbn.
  - exists false. split; [done|]. split; [done|].
    by intros (a & []%elem_of_nil & _).
  - rewrite (isInReadSet_ok _ _ _ _ Hwf). cbn.
    assert (makeLineAddress x = x) as -> by (apply Hl; set_solver).
    unfold isRedirectedStoreToWriteBuffer.
    destruct (has x (m_readSet s)) eqn:E1.
    { apply has_true in E1. exists true. split; [done|]. set_solver. }
    destruct (has x (m_writeSetInWriteBuffer s)) eqn:E2.
    { apply has_true in E2. exists true. split; [done|]. set_solver. }
    destruct IH as (b & -> & Hb); [set_solver|]. exists b. split; [done|].
    rewrite Hb. apply has_false in E1, E2. split.
    + set_solver.
    + intros (a & [->|Ha]%elem_of_cons & H); [|by eauto].
      rewrite E1, E2 in H. by destruct H as [[]|[]].
Qed.

(** The conflict test returns and is exact: it answers whether some line
    buffered for writing by the ongoing committer is in the read set or in
    the buffered write set of the new one. *)
Lemma hasConflictWith_spec level precise self other :
  wf level precise other ->
  (forall a st, m_writeSetInWriteBuffer self !! a = Some st -> is_line a) ->
  exists b, hasConflictWith level precise self other = Ok b /\
    (b = true <-> exists a, is_Some (m_writeSetInWriteBuffer self !! a) /\
       (is_Some (m_readSet other !! a) \/
        is_Some (m_writeSetInWriteBuffer other !! a))).
Proof.
  intros Hwf Hl. unfold hasConflictWith.
  destruct (conflict_scan_ok level precise
              (std_keys (m_writeSetInWriteBuffer self)) other Hwf)
    as (b & -> & Hb).
  - intros a [st Ha]%elem_of_std_keys. eauto.
  - exists b. split; [done|]. rewrite Hb. by setoid_rewrite elem_of_std_keys.
Qed.
(** Committing clears the sets whenever the retirement check passes. *)
Lemma commit_ok precise s :
  (precise = true -> forall a st, m_readSet s !! a = Some st -> st = RETIRED_LOAD) ->
  commitTransaction precise s = Ok (tt, IsolationManager_init).
Proof.
  intros Hp. unfold commitTransaction, bind at 1, gets, bind at 1.
  assert (forM (std_list (m_readSet s)) (fun '(_, st) =>
          when precise (massert (bool_decide (st = RETIRED_LOAD)))) s = Ok (tt, s))
    as ->; [|done].
  assert (Forall (fun x : Z * LineState => precise = true -> x.2 = RETIRED_LOAD)
            (std_list (m_readSet s))) as Hall.
  { apply Forall_forall. intros [a st] Hx Hpr. unfold std_list in Hx.
    apply list_elem_of_omap in Hx as (k & _ & Hk).
    destruct (m_readSet s !! k) eqn:E; [|done]. cbn in Hk. simplify_eq.
    cbn. by eapply Hp. }
  induction (std_list (m_readSet s)) as [|[a st] l IH]; [done|].
  apply Forall_cons in Hall as [H1 H2]. cbn [forM]. unfold bind.
  destruct precise; [|by apply IH]. cbn in H1. rewrite H1 by done. by apply IH.
Qed.

End ops.
