(* ===== verification/LazyVM.v ===== *)
(** * Lazy version management: the write buffer

    [mem/ruby/htm/LazyTransactionVersionManager.cc]: transactional stores go
    to a byte-granular write buffer, loads are served from it first, and a
    commit flushes it block by block through the sequencer, at most
    [lazy_commit_width] requests at a time.

    The nesting level of the interface manager is an argument.  One call of
    the sequencer's [makeRequest] per block and flush decides whether the
    request was issued; the decision is the argument [makeRequest], a
    function of the block. *)

From S2P Require Import Prelude Address.
From S2P Require DataBlock.
Import DataBlock (DataBlock).

Inductive WriteBufferBlockStatus := Pending | Issued | Cancelled.

#[global] Instance WriteBufferBlockStatus_eq_dec :
  EqDecision WriteBufferBlockStatus.
Proof. solve_decision. Defined.

(** [Request::invldRequestorId], the largest 16-bit id. *)
Definition invldRequestorId : Z := 65535.

Record LazyVM := MkLazyVM {
  m_readBytes : gmap Z bool;
  m_writtenBytes : gmap Z bool;
  m_numReadBytesWrittenRemotely : Z;
  m_numWrittenBytesWrittenRemotely : Z;
  m_writeBuffer : gmap Z Z;
  m_writeBufferBlocks : gmap Z WriteBufferBlockStatus;
  m_committed : bool;
  m_committing : bool;
  m_flushPending : bool;
  m_aborting : bool;
  m_issuedWriteBufferRequest : Z;
  m_requestorID : Z;
  m_currentHtmUid : Z
}.

#[global] Instance eta_LazyVM : Eta LazyVM := fun s =>
  MkLazyVM (m_readBytes s) (m_writtenBytes s)
    (m_numReadBytesWrittenRemotely s) (m_numWrittenBytesWrittenRemotely s)
    (m_writeBuffer s) (m_writeBufferBlocks s) (m_committed s)
    (m_committing s) (m_flushPending s) (m_aborting s)
    (m_issuedWriteBufferRequest s) (m_requestorID s) (m_currentHtmUid s).

(** The constructor leaves the two profiling counters unset: their first
    values are arguments. *)
Definition LazyVM_init (garbage_r garbage_w : Z) : LazyVM :=
  MkLazyVM ∅ ∅ garbage_r garbage_w ∅ ∅ false false false false 0
    invldRequestorId 0.

Section ops.
Context `{RS : RubySystem}.

Definition beginTransaction (requestorId uid : Z) : M LazyVM unit :=
  do* set! m_committed := false;
  do* set! m_committing := false;
  do* set! m_requestorID := requestorId;
  let* s := get in
  do* massert (m_currentHtmUid s <? uid);
  do* set! m_currentHtmUid := uid;
  let* s := get in
  massert (negb (m_aborting s)).

Definition discardWriteBuffer (level : Z) : M LazyVM unit :=
  do* massert (level =? 1);
  do* set! m_writeBuffer := ∅;
  set! m_writeBufferBlocks := ∅.

(** The profiling resets that end a transaction. *)
Definition clearProfiling : M LazyVM unit :=
  do* set! m_readBytes := ∅;
  do* set! m_writtenBytes := ∅;
  do* set! m_numReadBytesWrittenRemotely := 0;
  set! m_numWrittenBytesWrittenRemotely := 0.

Definition restartTransaction (level : Z) : M LazyVM unit :=
  do* massert (level =? 1);
  let* s := get in
  do* massert (if m_committing s then m_aborting s else negb (m_aborting s));
  do* set! m_committing := false;
  do* set! m_committed := false;
  do* set! m_aborting := false;
  let* s := get in
  do* massert (m_issuedWriteBufferRequest s =? 0);
  do* discardWriteBuffer level;
  clearProfiling.

Definition notifyCommittedTransaction (level : Z) : M LazyVM unit :=
  do* massert (level =? 1);
  let* s := get in
  do* massert (m_committed s);
  do* massert (m_committing s);
  do* massert (negb (m_aborting s));
  do* set! m_committing := false;
  do* set! m_committed := false;
  let* s := get in
  do* massert (m_issuedWriteBufferRequest s =? 0);
  do* massert (emptyb (m_writeBufferBlocks s));
  do* massert (emptyb (m_writeBuffer s));
  clearProfiling.

Definition profileRemotelyWrittenByte (addr : Z) (s : LazyVM) : LazyVM :=
  let s :=
    match m_readBytes s !! addr with
    | Some false =>
        s <| m_numReadBytesWrittenRemotely ::= Z.add 1 |>
          <| m_readBytes ::= <[addr := true]> |>
    | _ => s
    end in
  match m_writeBuffer s !! addr with
  | Some _ =>
      if default false (m_writtenBytes s !! addr) then s
      else s <| m_numWrittenBytesWrittenRemotely ::= Z.add 1 |>
             <| m_writtenBytes ::= <[addr := true]> |>
  | None => s
  end.

(** The loop of [flushWriteBuffer] over the blocks, in address order. *)
Fixpoint flush_loop (width : Z) (makeRequest : Z -> bool) (keys : list Z)
    (s : LazyVM) : res LazyVM :=
  match keys with
  | [] => Ok s
  | addr :: keys =>
      if m_issuedWriteBufferRequest s =? width
      then Ok (s <| m_flushPending := true |>)
      else
        match m_writeBufferBlocks s !! addr with
        | Some Pending =>
            let? _ := rassert (negb (m_requestorID s =? invldRequestorId)) in
            if makeRequest addr then
              flush_loop width makeRequest keys
                (s <| m_writeBufferBlocks ::= <[addr := Issued]> |>
                   <| m_issuedWriteBufferRequest ::= fun n => u64 (n + 1) |>)
            else flush_loop width makeRequest keys
                   (s <| m_flushPending := true |>)
        | _ => flush_loop width makeRequest keys s
        end
  end.

(** The scan that follows the loop only looks at the blocks. *)
Definition flushWriteBuffer (level width : Z) (makeRequest : Z -> bool)
    : M LazyVM unit :=
  do* massert (level =? 1);
  let* s := get in
  do* massert (negb (m_aborting s));
  if emptyb (m_writeBufferBlocks s) then
    do* set! m_committed := true;
    massert (m_issuedWriteBufferRequest s =? 0)
  else
    let* s' := lift (flush_loop width makeRequest
                       (std_keys (m_writeBufferBlocks s)) s) in
    modify (fun _ => s').

(** The remote managers are profiled the first time, and returned. *)
Definition commitTransaction (level width : Z) (makeRequest : Z -> bool)
    (remotes : list LazyVM) : M LazyVM (list LazyVM) :=
  do* massert (level =? 1);
  let* s := get in
  do* massert (negb (m_committed s));
  let remotes' :=
    if m_committing s then remotes
    else map (fun mgr => fold_left (fun g a => profileRemotelyWrittenByte a g)
                           (std_keys (m_writeBuffer s)) mgr) remotes in
  do* set! m_committing := true;
  do* set! m_flushPending := false;
  do* flushWriteBuffer level width makeRequest;
  ret remotes'.

Definition existInWriteBuffer (level addr : Z) (s : LazyVM) : res bool :=
  let? _ := rassert (level =? 1) in
  Ok (has addr (m_writeBuffer s)).

Definition getDataFromWriteBuffer (level addr : Z) (s : LazyVM) : res Z :=
  let? _ := rassert (level =? 1) in
  match m_writeBuffer s !! addr with
  | Some b => Ok b
  | None => Err EAssert
  end.

Definition supported_size (size : Z) : bool :=
  (size =? 1) || (size =? 2) || (size =? 4) || (size =? 8).

Definition addToWriteBuffer (level addr size : Z) (data : list Z)
    : M LazyVM unit :=
  do* massert (level =? 1);
  do* forM (seqZ 0 size) (fun i =>
        let* b := lift (vec_at EUndef data i) in
        upd! m_writeBuffer ::= (<[u64 (addr + i) := b]>));
  do* massert (makeLineAddress addr =? makeLineAddress (u64 (addr + size - 1)));
  do* upd! m_writeBufferBlocks ::= (<[makeLineAddress addr := Pending]>);
  if supported_size size then ret tt else panic.

(** The loop body of [forwardData]: byte [i] of the load. *)
Definition forward_byte (level addr : Z) (cacheBlock : DataBlock) (i : Z)
    (s : LazyVM) : res (Z * bool) :=
  let a := u64 (addr + i) in
  let? e := existInWriteBuffer level a s in
  if e then
    let? b := getDataFromWriteBuffer level a s in
    Ok (b, true)
  else
    let? off := getOffset a in
    let? p := DataBlock.getData cacheBlock off 1 in
    let? b := vec_at EUndef p 0 in
    Ok (b, false).

(** Returns the bytes and whether any came from the buffer.  The local
    [buffer] has 64 entries. *)
Definition forwardData (level addr size : Z) (cacheBlock : DataBlock)
    : M LazyVM (list Z * bool) :=
  if level =? 0 then ret ([], false)
  else
    do* massert (0 <? level);
    let* s := get in
    let* r := lift (foldR (fun '(data, fwd) i =>
                let? r := forward_byte level addr cacheBlock i s in
                if i <? 64 then Ok (data ++ [r.1], fwd || r.2)
                else Err EUndef)
                ([], false) (seqZ 0 size)) in
    do* forM (seqZ 0 size) (fun i =>
          upd! m_readBytes ::= (<[u64 (addr + i) := false]>));
    ret r.

(** The merge loop: the buffered bytes of the line overwrite the block. *)
Definition merge_bytes (wb : gmap Z Z) (address : Z) (data : DataBlock)
    : res DataBlock :=
  foldR (fun d i =>
           let byteAddr := u64 (address + i) in
           match wb !! byteAddr with
           | None => Ok d
           | Some val =>
               let? offset := getOffset byteAddr in
               DataBlock.setData d [val] offset 1
           end) data (seqZ 0 getBlockSizeBytes).

(** The end of a merge: done, cancelled, or resume the flush. *)
Definition merge_finish (level width : Z) (makeRequest : Z -> bool)
    : M LazyVM unit :=
  let* s := get in
  if emptyb (m_writeBufferBlocks s) then
    do* set! m_committed := true;
    set! m_writeBuffer := ∅
  else if m_aborting s then ret tt
  else if m_flushPending s then
    do* set! m_flushPending := false;
    flushWriteBuffer level width makeRequest
  else ret tt.

Definition mergeDataFromWriteBuffer (level width : Z) (makeRequest : Z -> bool)
    (address : Z) (data : DataBlock) : M LazyVM DataBlock :=
  do* massert (level =? 1);
  let* s := get in
  do* massert (bool_decide (m_writeBufferBlocks s !! address = Some Issued));
  do* massert (address =? makeLineAddress address);
  let* data := lift (merge_bytes (m_writeBuffer s) address data) in
  do* upd! m_writeBufferBlocks ::= (delete address);
  do* upd! m_issuedWriteBufferRequest ::= (fun n => u64 (n - 1));
  do* merge_finish level width makeRequest;
  ret data.

Definition cancelWriteBufferFlush (level : Z) : M LazyVM unit :=
  let* s := get in
  do* massert (m_committing s);
  do* massert (negb (m_aborting s));
  do* set! m_aborting := true;
  do* massert (level =? 1);
  upd! m_writeBufferBlocks ::=
    (filter (fun kv : Z * WriteBufferBlockStatus => kv.2 <> Pending)).

(** ** The buffer as an overlay of memory *)

(** The value of byte [a] seen by the transaction. *)
Definition overlay (wb : gmap Z Z) (mem : Z -> Z) (a : Z) : Z :=
  default (mem a) (wb !! a).

(** [d] holds the bytes of [mem] at the line [l]. *)
Definition line_of (mem : Z -> Z) (l : Z) (d : DataBlock) : Prop :=
  DataBlock.wf d /\
  forall i, 0 <= i < getBlockSizeBytes -> DataBlock.byte d i = mem (l + i).

(** A store that the buffer accepts: non-empty, inside one line and of a
    supported size. *)
Record storable (addr size : Z) (data : list Z) : Prop := {
  st_lo : 0 <= addr;
  st_hi : addr + size <= 2 ^ 64;
  st_size : supported_size size = true;
  st_line : makeLineAddress addr = makeLineAddress (addr + size - 1);
  st_len : size <= Z.of_nat (length data)
}.

Lemma supported_size_pos size : supported_size size = true -> 1 <= size <= 8.
Proof. unfold supported_size. lia. Qed.

Lemma addToWriteBuffer_ok addr size data s :
  storable addr size data ->
  exists wb, addToWriteBuffer 1 addr size data s =
    Ok (tt, s <| m_writeBuffer := wb |>
              <| m_writeBufferBlocks ::= <[makeLineAddress addr := Pending]> |>) /\
    forall a, wb !! a = if (addr <=? a) && (a <? addr + size)
                        then data !! Z.to_nat (a - addr)
                        else m_writeBuffer s !! a.
Proof.
  intros [Hlo Hhi Hsz Hline Hlen]. pose proof (supported_size_pos _ Hsz).
  assert (wp (addToWriteBuffer 1 addr size data) (fun _ s' => exists wb,
    s' = s <| m_writeBuffer := wb |>
           <| m_writeBufferBlocks ::= <[makeLineAddress addr := Pending]> |> /\
    forall a, wb !! a = if (addr <=? a) && (a <? addr + size)
                        then data !! Z.to_nat (a - addr)
                        else m_writeBuffer s !! a) s) as Hwp.
  2:{ apply wp_ok in Hwp as ([] & s' & E & wb & -> & Hwb). eauto. }
  unfold addToWriteBuffer. rewrite Hsz. wp_simpl. split; [done|].
  eapply wp_mono; [|apply (wp_range _ (fun k s' => exists wb,
    s' = s <| m_writeBuffer := wb |> /\
    forall a, wb !! a = if (addr <=? a) && (a <? addr + k)
                        then data !! Z.to_nat (a - addr)
                        else m_writeBuffer s !! a) 0 size)]; [|lia| |].
  - intros [] s' (wb & -> & Hwb). wp_simpl. split.
    + unfold u64. rewrite (Z.mod_small (addr + size - 1)) by lia. lia.
    + exists wb. done.
  - exists (m_writeBuffer s). split; [by destruct s|]. intros a.
    destruct (Z.leb_spec addr a), (Z.ltb_spec a (addr + 0)); try lia; done.
  - intros i s' Hi (wb & -> & Hwb). wp_simpl.
    destruct (lookup_lt_is_Some_2 data (Z.to_nat i)) as [b Hb]; [lia|].
    rewrite (vec_at_ok _ _ _ b) by (done || lia). wp_simpl.
    eexists. split; [done|]. intros a. unfold u64. rewrite Z.mod_small by lia.
    destruct (decide (a = addr + i)) as [->|Hne].
    + rewrite lookup_insert_eq.
      rewrite (proj2 (Z.leb_le _ _)), (proj2 (Z.ltb_lt _ _)) by lia. cbn.
      by replace (addr + i - addr) with i by lia.
    + rewrite lookup_insert_ne by done. rewrite Hwb.
      destruct (Z.leb_spec addr a), (Z.ltb_spec a (addr + i)),
        (Z.ltb_spec a (addr + (i + 1))); try lia; done.
Qed.

Lemma forward_byte_ok addr mem d i s :
  0 <= addr + i < 2 ^ 64 ->
  line_of mem (makeLineAddress (addr + i)) d ->
  forward_byte 1 addr d i s =
  Ok (overlay (m_writeBuffer s) mem (addr + i), has (addr + i) (m_writeBuffer s)).
Proof.
  intros Ha [Hwf Hd]. unfold forward_byte, existInWriteBuffer, overlay, has.
  unfold getDataFromWriteBuffer, has, u64. rewrite Z.mod_small by lia. cbn.
  destruct (m_writeBuffer s !! (addr + i)) eqn:E; cbn; [done|].
  rewrite getOffset_eq by done. cbn.
  pose proof (Z.mod_pos_bound (addr + i) _ block_bytes_pos) as Hm.
  rewrite DataBlock.getData_byte by done. cbn. unfold vec_at. cbn.
  rewrite Hd by done. rewrite makeLineAddress_eq by done. by rewrite Z.sub_simpl_r.
Qed.

(** A load is served byte by byte from the buffer over the cached line, and
    reports whether the buffer provided any byte. *)
Lemma forwardData_ok addr size mem d s :
  0 <= addr -> 0 < size <= 64 -> addr + size <= 2 ^ 64 ->
  makeLineAddress addr = makeLineAddress (addr + size - 1) ->
  line_of mem (makeLineAddress addr) d ->
  exists rb, forwardData 1 addr size d s =
    Ok ((map (fun i => overlay (m_writeBuffer s) mem (addr + i)) (seqZ 0 size),
         existsb (fun i => has (addr + i) (m_writeBuffer s)) (seqZ 0 size)),
        s <| m_readBytes := rb |>).
Proof.
  intros Hlo Hsz Hhi Hline Hd.
  assert (forall i, 0 <= i < size ->
    forward_byte 1 addr d i s = Ok (overlay (m_writeBuffer s) mem (addr + i),
                                    has (addr + i) (m_writeBuffer s))) as Hb.
  { intros i Hi. apply forward_byte_ok; [lia|].
    assert (makeLineAddress (addr + i) = makeLineAddress addr) as ->; [|done].
    apply makeLineAddress_unique; [lia|apply makeLineAddress_aligned; lia|].
    pose proof (makeLineAddress_range addr ltac:(lia)).
    rewrite makeLineAddress_eq with (a := addr + size - 1) in Hline by lia.
    pose proof (Z.mod_pos_bound (addr + size - 1) _ block_bytes_pos). lia. }
  assert (forall l acc f, (forall i, i ∈ l -> 0 <= i < size) ->
    foldR (fun '(data, fwd) i =>
                let? r := forward_byte 1 addr d i s in
                if i <? 64 then Ok (data ++ [r.1], fwd || r.2)
                else Err EUndef) (acc, f) l =
    Ok (acc ++ map (fun i => overlay (m_writeBuffer s) mem (addr + i)) l,
        f || existsb (fun i => has (addr + i) (m_writeBuffer s)) l)) as Hfold.
  { induction l as [|i l IH]; intros acc f Hl; cbn [foldR map existsb].
    - by rewrite app_nil_r, orb_false_r.
    - rewrite Hb by (apply Hl; set_solver). cbn [rbind fst snd].
      rewrite (proj2 (Z.ltb_lt i 64)); [|pose proof (Hl i ltac:(set_solver)); lia].
      cbn [rbind]. rewrite IH by set_solver.
      by rewrite <- app_assoc, <- orb_assoc. }
  unfold forwardData. cbn [Z.eqb]. unfold bind at 1, massert. cbn [Z.ltb Z.compare].
  unfold bind at 1, get, bind at 1, lift.
  rewrite (Hfold _ [] false) by (intros i; rewrite elem_of_seqZ; lia).
  cbn [app orb].
  assert (wp (forM (seqZ 0 size) (fun i =>
          upd! m_readBytes ::= (<[u64 (addr + i) := false]>)))
    (fun _ s' => exists rb, s' = s <| m_readBytes := rb |>) s) as Hwp.
  { apply (wp_range _ (fun _ s' => exists rb, s' = s <| m_readBytes := rb |>));
      [lia|by exists (m_readBytes s); destruct s|].
    intros i s' _ [rb ->]. wp_simpl. by eexists. }
  apply wp_ok in Hwp as ([] & s' & E & rb & ->). exists rb.
  unfold bind. rewrite E. done.
Qed.

(** ** Merging a block *)

Lemma merge_bytes_ok wb l d :
  is_line l -> DataBlock.wf d ->
  exists d', merge_bytes wb l d = Ok d' /\ DataBlock.wf d' /\
    forall i, 0 <= i < getBlockSizeBytes ->
      DataBlock.byte d' i = default (DataBlock.byte d i) (wb !! (l + i)).
Proof.
  intros Hl Hd. unfold merge_bytes. pose proof block_bytes_pos.
  edestruct (foldR_range (fun d i =>
           let byteAddr := u64 (l + i) in
           match wb !! byteAddr with
           | None => Ok d
           | Some val =>
               let? offset := getOffset byteAddr in
               DataBlock.setData d [val] offset 1
           end)
    (fun k d' => DataBlock.wf d' /\ forall i, 0 <= i < getBlockSizeBytes ->
       DataBlock.byte d' i =
       if i <? k then default (DataBlock.byte d i) (wb !! (l + i))
       else DataBlock.byte d i) 0 getBlockSizeBytes d)
    as (d' & Hr & Hwf & Hb); [lia| | |].
  - split; [done|]. intros i Hi. by rewrite (proj2 (Z.ltb_ge i 0)) by lia.
  - intros i d1 Hi [Hwf1 Hb1]. cbn zeta.
    destruct (line_byte l i Hl) as (-> & _ & Ho); [lia|].
    destruct (wb !! (l + i)) as [v|] eqn:E.
    + rewrite Ho. cbn [rbind].
      destruct (DataBlock.setData_byte d1 i v Hwf1) as (d2 & -> & Hwf2 & Hb2);
        [lia|]. eexists. split; [done|]. split; [done|]. intros j Hj.
      rewrite Hb2 by done. destruct (Z.eqb_spec j i) as [->|].
      * rewrite (proj2 (Z.ltb_lt i _)) by lia. by rewrite E.
      * rewrite Hb1 by done.
        destruct (Z.ltb_spec j i), (Z.ltb_spec j (i + 1)); try lia; done.
    + eexists. split; [done|]. split; [done|]. intros j Hj. rewrite Hb1 by done.
      destruct (Z.ltb_spec j i), (Z.ltb_spec j (i + 1)); try lia; try done.
      by replace j with i in * by lia; rewrite E.
  - exists d'. split; [exact Hr|]. split; [done|]. intros i Hi.
    rewrite Hb by done. by rewrite (proj2 (Z.ltb_lt i _)) by lia.
Qed.

(** ** Flushing *)

Definition nIssued (m : gmap Z WriteBufferBlockStatus) : Z :=
  Z.of_nat (size (filter (fun kv : Z * _ => kv.2 = Issued) m)).

Lemma nIssued_issue m a :
  m !! a = Some Pending -> nIssued (<[a := Issued]> m) = nIssued m + 1.
Proof.
  intros H. unfold nIssued. rewrite map_filter_insert_True by done.
  rewrite map_size_insert_None; [lia|].
  apply map_lookup_filter_None. right. intros st Hst. simplify_eq. done.
Qed.

Lemma nIssued_merge m a :
  m !! a = Some Issued -> nIssued (delete a m) = nIssued m - 1 /\ 0 < nIssued m.
Proof.
  intros H. unfold nIssued. rewrite map_filter_delete.
  assert (filter (fun kv : Z * _ => kv.2 = Issued) m !! a = Some Issued) as Hf
    by by apply map_lookup_filter_Some.
  rewrite map_size_delete, Hf.
  assert (size (filter (fun kv : Z * _ => kv.2 = Issued) m) <> 0%nat) as Hn.
  { intros E%map_size_empty_inv. rewrite E in Hf. done. }
  lia.
Qed.

Lemma nIssued_pos m : 0 < nIssued m -> exists a, m !! a = Some Issued.
Proof.
  unfold nIssued. intros H.
  destruct (map_choose (filter (fun kv : Z * _ => kv.2 = Issued) m)) as (a & st & E).
  { intros E. rewrite E, map_size_empty in H. lia. }
  apply map_lookup_filter_Some in E as [E1 E2]. cbn in E2. subst. eauto.
Qed.

(** What the flush keeps: the outstanding-request counter is the number of
    issued blocks and stays within the commit width. *)
Record flush_ok (width : Z) (s : LazyVM) : Prop := {
  fo_issued : m_issuedWriteBufferRequest s = nIssued (m_writeBufferBlocks s);
  fo_width : nIssued (m_writeBufferBlocks s) <= width;
  fo_requestor : m_requestorID s <> invldRequestorId
}.

Record flush_post (width : Z) (mk : Z -> bool) (keys : list Z)
    (s s' : LazyVM) : Prop := {
  fp_frame : exists b n p, s' = s <| m_writeBufferBlocks := b |>
                    <| m_issuedWriteBufferRequest := n |>
                    <| m_flushPending := p |>;
  fp_ok : flush_ok width s';
  fp_blocks : forall a, m_writeBufferBlocks s' !! a = m_writeBufferBlocks s !! a \/
    (m_writeBufferBlocks s !! a = Some Pending /\
     m_writeBufferBlocks s' !! a = Some Issued);
  fp_pending : m_flushPending s' = true \/
    forall a, a ∈ keys -> m_writeBufferBlocks s' !! a <> Some Pending;
  fp_sticky : m_flushPending s = true -> m_flushPending s' = true;
  fp_progress : 0 < nIssued (m_writeBufferBlocks s') \/
    forall a, a ∈ keys -> m_writeBufferBlocks s !! a = Some Pending -> mk a = false;
  fp_mono : nIssued (m_writeBufferBlocks s) <= nIssued (m_writeBufferBlocks s')
}.

Lemma flush_post_skip width mk a keys s s' :
  m_writeBufferBlocks s !! a <> Some Pending ->
  flush_post width mk keys s s' -> flush_post width mk (a :: keys) s s'.
Proof.
  intros Ha [Hf Hok Hb Hp Hst Hpr Hm]. split; auto.
  - destruct Hp as [|Hp]; [auto|]. right.
    intros b [->|Hb']%elem_of_cons; [|auto].
    destruct (Hb a) as [E|[]]; congruence.
  - destruct Hpr as [|Hpr]; [auto|]. right.
    intros b [->|Hb']%elem_of_cons; [congruence|auto].
Qed.

Lemma nIssued_nonneg m : 0 <= nIssued m.
Proof. unfold nIssued. lia. Qed.

Lemma flush_loop_ok width mk keys s :
  0 < width < 2 ^ 64 -> flush_ok width s ->
  exists s', flush_loop width mk keys s = Ok s' /\ flush_post width mk keys s s'.
Proof.
  intros Hw. revert s. induction keys as [|a keys IH]; intros s Hs; cbn [flush_loop].
  { exists s. split; [done|]. split; try done; auto; try set_solver.
    by destruct s; do 3 eexists. }
  pose proof (nIssued_nonneg (m_writeBufferBlocks s)).
  destruct Hs as [Hi Hle Hr].
  destruct (Z.eqb_spec (m_issuedWriteBufferRequest s) width) as [Hfull|Hnf].
  { eexists. split; [done|]. split; cbn; auto; try done.
    - by destruct s; do 3 eexists.
    - left. lia. }
  destruct (decide (m_writeBufferBlocks s !! a = Some Pending)) as [Ea|Ea].
  2:{ destruct (IH s) as (s' & Hl & Hpost); [done|]. exists s'.
      split; [|by apply flush_post_skip].
      destruct (m_writeBufferBlocks s !! a) as [[| |]|]; done. }
  rewrite Ea. unfold rassert. rewrite (proj2 (Z.eqb_neq _ _) Hr). cbn [negb rbind].
  destruct (mk a) eqn:Emk.
  - pose proof (nIssued_issue _ _ Ea) as Hn.
    destruct (IH (s <| m_writeBufferBlocks ::= <[a := Issued]> |>
                    <| m_issuedWriteBufferRequest ::= fun n => u64 (n + 1) |>))
      as (s' & -> & [Hf Hok Hb Hp Hst Hpr Hm]).
    { split; cbn; [|lia|done]. unfold u64. rewrite Z.mod_small; lia. }
    cbn in Hb, Hst, Hpr, Hm. rewrite Hn in Hm.
    assert (m_writeBufferBlocks s' !! a = Some Issued) as Ha'.
    { destruct (Hb a) as [E|[E _]]; rewrite lookup_insert_eq in E; done. }
    eexists. split; [done|]. split; auto.
    + intros b. destruct (decide (a = b)) as [<-|]; [auto|].
      specialize (Hb b). by rewrite lookup_insert_ne in Hb.
    + destruct Hp as [|Hp]; [auto|]. right.
      intros b [->|Hb']%elem_of_cons; [congruence|auto].
    + left. lia.
    + lia.
  - destruct (IH (s <| m_flushPending := true |>))
      as (s' & -> & [Hf Hok Hb Hp Hst Hpr Hm]); [done|].
    eexists. split; [done|]. split; auto.
    destruct Hpr as [|Hpr]; [auto|]. right.
    intros b [->|Hb']%elem_of_cons; [done|auto].
Qed.

(** *** A commit in progress

    The sequencer accepts at least one of the blocks that wait. *)
Definition accepts (mk : Z -> bool) (m : gmap Z WriteBufferBlockStatus) : Prop :=
  (exists a, m !! a = Some Pending) ->
  exists a, m !! a = Some Pending /\ mk a = true.

(** The lines of memory together with the manager. *)
Definition Flush : Type := LazyVM * (Z -> DataBlock).

(** The completion of the write of an issued block; the sequencer answers
    the requests that follow as it likes. *)
Inductive merge_step (width : Z) : Flush -> Flush -> Prop :=
| do_merge s mem a mk d s' :
    mergeDataFromWriteBuffer 1 width mk a (mem a) s = Ok (d, s') ->
    merge_step width (s, mem) (s', fun l => if l =? a then d else mem l).

(** A commit under way, with the number of completed writes: blocks complete
    in any order, and the event of the sequencer that checks the commit every
    cycle calls [commitTransaction] again. *)
Inductive flush_run (width : Z) : nat -> Flush -> Flush -> Prop :=
| run_nil x : flush_run width 0 x x
| run_merge n x y z :
    merge_step width x y -> flush_run width n y z -> flush_run width (S n) x z
| run_again n s mem mk remotes remotes' s' z :
    commitTransaction 1 width mk remotes s = Ok (remotes', s') ->
    flush_run width n (s', mem) z -> flush_run width n (s, mem) z.

(** The state the commit starts from: every buffered byte belongs to a
    pending block and nothing is outstanding. *)
Record ready (s : LazyVM) : Prop := {
  rd_blocks : forall a st, m_writeBufferBlocks s !! a = Some st ->
    is_line a /\ st = Pending;
  rd_covered : forall a b, m_writeBuffer s !! a = Some b ->
    0 <= a < 2 ^ 64 /\ is_Some (m_writeBufferBlocks s !! makeLineAddress a);
  rd_issued : m_issuedWriteBufferRequest s = 0;
  rd_requestor : m_requestorID s <> invldRequestorId;
  rd_flags : m_aborting s = false /\ m_committed s = false
}.

Record flushing (width : Z) (wb0 : gmap Z Z) (mem0 : Z -> DataBlock)
    (x : Flush) : Prop := {
  fl_ok : flush_ok width x.1;
  fl_aborting : m_aborting x.1 = false;
  fl_committing : m_committing x.1 = true;
  fl_lines : forall a st, m_writeBufferBlocks x.1 !! a = Some st ->
    is_line a /\ st <> Cancelled;
  fl_mem : forall l, is_line l -> DataBlock.wf (x.2 l) /\
    forall i, 0 <= i < getBlockSizeBytes ->
      DataBlock.byte (x.2 l) i =
      if has l (m_writeBufferBlocks x.1) then DataBlock.byte (mem0 l) i
      else default (DataBlock.byte (mem0 l) i) (wb0 !! (l + i));
  fl_phase :
    if m_committed x.1
    then m_writeBufferBlocks x.1 = ∅ /\ m_writeBuffer x.1 = ∅
    else m_writeBufferBlocks x.1 <> ∅ /\ m_writeBuffer x.1 = wb0 /\
         (m_flushPending x.1 = true \/
          forall a, m_writeBufferBlocks x.1 !! a <> Some Pending)
}.

(** A flush with blocks left ends with the pending flag set when some block
    still waits, and with a request outstanding unless all were refused. *)
Lemma flush_more width mk s :
  0 < width < 2 ^ 64 -> flush_ok width s -> m_aborting s = false ->
  m_writeBufferBlocks s <> ∅ ->
  (forall a st, m_writeBufferBlocks s !! a = Some st -> st <> Cancelled) ->
  exists s', flushWriteBuffer 1 width mk s = Ok (tt, s') /\
    flush_post width mk (std_keys (m_writeBufferBlocks s)) s s' /\
    (accepts mk (m_writeBufferBlocks s) -> 0 < nIssued (m_writeBufferBlocks s')) /\
    (m_flushPending s' = true \/
     forall a, m_writeBufferBlocks s' !! a <> Some Pending).
Proof.
  intros Hw Hok Hab Hne Hc.
  destruct (flush_loop_ok width mk (std_keys (m_writeBufferBlocks s)) s Hw Hok)
    as (s' & Hl & Hpost). exists s'. split_and!; [|done| |].
  - unfold flushWriteBuffer, bind, massert, get, emptyb. cbn. rewrite Hab. cbn.
    rewrite bool_decide_eq_false_2 by done. unfold lift. by rewrite Hl.
  - intros Hacc. pose proof (fp_mono _ _ _ _ _ Hpost).
    destruct (Z.lt_ge_cases 0 (nIssued (m_writeBufferBlocks s))) as [|H0]; [lia|].
    destruct (map_choose _ Hne) as (a & st & Ha).
    destruct (fp_progress _ _ _ _ _ Hpost) as [|Hno]; [done|].
    destruct Hacc as (b & Hb & Hmk).
    + exists a. pose proof (Hc a st Ha). destruct st; [done| |done].
      apply nIssued_merge in Ha. lia.
    + rewrite Hno in Hmk; [done| |done]. apply elem_of_std_keys. eauto.
  - destruct (fp_pending _ _ _ _ _ Hpost) as [|Hno]; [auto|]. right.
    intros a Ha. apply (Hno a); [|done]. apply elem_of_std_keys.
    destruct (fp_blocks _ _ _ _ _ Hpost a) as [E|[E _]]; [|eauto].
    rewrite <- E. eauto.
Qed.

(** The manager when the merged block has been taken out. *)
Definition merged (a : Z) (s : LazyVM) : LazyVM :=
  s <| m_writeBufferBlocks ::= delete a |>
    <| m_issuedWriteBufferRequest ::= fun n => u64 (n - 1) |>.

Lemma merge_exec width mk a d0 d s :
  is_line a -> m_writeBufferBlocks s !! a = Some Issued ->
  merge_bytes (m_writeBuffer s) a d0 = Ok d ->
  mergeDataFromWriteBuffer 1 width mk a d0 s =
  (do* merge_finish 1 width mk; ret d) (merged a s).
Proof.
  intros [_ Hl] Ha Hd.
  unfold mergeDataFromWriteBuffer, bind, massert, get, lift. cbn [Z.eqb Pos.eqb].
  rewrite bool_decide_eq_true_2, (proj2 (Z.eqb_eq _ _)), Hd by done. done.
Qed.

Lemma merged_ok width a s :
  flush_ok width s -> width < 2 ^ 64 ->
  m_writeBufferBlocks s !! a = Some Issued -> flush_ok width (merged a s).
Proof.
  intros [Hi Hle Hr] Hw Ha. destruct (nIssued_merge _ _ Ha) as [Hn Hpos].
  split; cbn; [|lia|done]. unfold u64. rewrite Z.mod_small; lia.
Qed.

(** The memory after the merge of line [a], for any block map that tracks
    the same lines. *)
Lemma merge_mem width wb0 mem0 s mem a d
    (blks : gmap Z WriteBufferBlockStatus) :
  flushing width wb0 mem0 (s, mem) -> m_writeBuffer s = wb0 ->
  m_writeBufferBlocks s !! a = Some Issued ->
  merge_bytes wb0 a (mem a) = Ok d ->
  (forall l, has l blks = has l (delete a (m_writeBufferBlocks s))) ->
  forall l, is_line l ->
    DataBlock.wf (if l =? a then d else mem l) /\
    forall i, 0 <= i < getBlockSizeBytes ->
      DataBlock.byte (if l =? a then d else mem l) i =
      if has l blks then DataBlock.byte (mem0 l) i
      else default (DataBlock.byte (mem0 l) i) (wb0 !! (l + i)).
Proof.
  intros [Hok Hab _ Hli Hmem Hph] Hwb Ha Hd Hbl l Hl. cbn in *.
  rewrite Hbl. unfold has in *. destruct (Z.eqb_spec l a) as [->|Hne].
  - destruct (Hmem a Hl) as [Hwf Hby]. rewrite Ha in Hby.
    destruct (merge_bytes_ok wb0 a (mem a) Hl Hwf) as (d' & Hd' & Hdwf & Hdb).
    rewrite Hd in Hd'. injection Hd' as <-. split; [done|]. intros i Hi.
    by rewrite lookup_delete_eq, Hdb, Hby by done.
  - rewrite lookup_delete_ne by done. by apply Hmem.
Qed.

Lemma flush_post_has width mk keys s s' l :
  flush_post width mk keys s s' ->
  has l (m_writeBufferBlocks s') = has l (m_writeBufferBlocks s).
Proof.
  intros H. unfold has. destruct (fp_blocks _ _ _ _ _ H l) as [->|[-> ->]]; done.
Qed.

Lemma flush_post_empty width mk keys s s' :
  flush_post width mk keys s s' ->
  m_writeBufferBlocks s' = ∅ -> m_writeBufferBlocks s = ∅.
Proof.
  intros H E. apply map_empty. intros l.
  pose proof (flush_post_has _ _ _ _ _ l H) as Hl. unfold has in Hl. rewrite E in Hl.
  cbn in Hl. by destruct (m_writeBufferBlocks s !! l).
Qed.

Lemma flush_post_size width mk keys s s' :
  flush_post width mk keys s s' ->
  size (m_writeBufferBlocks s') = size (m_writeBufferBlocks s).
Proof.
  intros H. rewrite <- !size_dom. f_equal. apply set_eq. intros l.
  by rewrite !elem_of_dom, <- !has_true, (flush_post_has _ _ _ _ _ l H).
Qed.

(** The three ways a merge can finish while nothing is being aborted. *)
Lemma merge_finish_ok width mk s :
  0 < width < 2 ^ 64 -> flush_ok width s -> m_aborting s = false ->
  (forall a st, m_writeBufferBlocks s !! a = Some st -> st <> Cancelled) ->
  (m_flushPending s = true \/ forall a, m_writeBufferBlocks s !! a <> Some Pending) ->
  exists s', merge_finish 1 width mk s = Ok (tt, s') /\ flush_ok width s' /\
    (forall l, has l (m_writeBufferBlocks s') = has l (m_writeBufferBlocks s)) /\
    (forall a st, m_writeBufferBlocks s' !! a = Some st -> st <> Cancelled) /\
    m_aborting s' = false /\ m_committing s' = m_committing s /\
    ((m_writeBufferBlocks s' = ∅ /\ m_committed s' = true /\ m_writeBuffer s' = ∅) \/
     (m_writeBufferBlocks s' <> ∅ /\ m_committed s' = m_committed s /\
      m_writeBuffer s' = m_writeBuffer s /\
      (m_flushPending s' = true \/
       forall a, m_writeBufferBlocks s' !! a <> Some Pending))).
Proof.
  intros Hw Hok Hab Hc Hp. unfold merge_finish, bind, get, emptyb.
  case_bool_decide as He.
  { eexists. split; [done|]. split; [by destruct Hok|].
    split_and!; try done. by left. }
  rewrite Hab. destruct (m_flushPending s) eqn:Hfp.
  - destruct (flush_more width mk (s <| m_flushPending := false |>))
      as (s' & Hs' & Hpost & _ & Hpend); [done|by destruct Hok|done..|].
    exists s'. split; [done|]. split_and!.
    + apply (fp_ok _ _ _ _ _ Hpost).
    + intros l. exact (flush_post_has _ _ _ _ _ l Hpost).
    + intros b st Hb. destruct (fp_blocks _ _ _ _ _ Hpost b) as [E|[_ E]].
      * rewrite E in Hb. eauto.
      * congruence.
    + by destruct (fp_frame _ _ _ _ _ Hpost) as (b & n & p & ->).
    + by destruct (fp_frame _ _ _ _ _ Hpost) as (b & n & p & ->).
    + right. split_and!; try done.
      * contradict He. exact (flush_post_empty _ _ _ _ _ Hpost He).
      * by destruct (fp_frame _ _ _ _ _ Hpost) as (b & n & p & ->).
      * by destruct (fp_frame _ _ _ _ _ Hpost) as (b & n & p & ->).
  - exists s. split; [done|]. destruct Hp as [|Hp]; [done|].
    split_and!; try done. right. split_and!; try done. auto.
Qed.

Lemma merge_step_ok width wb0 mem0 s mem a mk :
  0 < width < 2 ^ 64 -> flushing width wb0 mem0 (s, mem) ->
  m_writeBufferBlocks s !! a = Some Issued ->
  exists d s', mergeDataFromWriteBuffer 1 width mk a (mem a) s = Ok (d, s') /\
    flushing width wb0 mem0 (s', fun l => if l =? a then d else mem l) /\
    forall l, has l (m_writeBufferBlocks s') =
              has l (delete a (m_writeBufferBlocks s)).
Proof.
  intros Hw Hfl Ha. pose proof Hfl as [Hok Hab Hcm Hli Hmem Hph].
  cbn [fst snd] in *.
  destruct (Hli a _ Ha) as [Hl _]. destruct (Hmem a Hl) as [Hwf Hby].
  destruct (m_committed s) eqn:Hc; [by destruct Hph as [E _]; rewrite E in Ha|].
  destruct Hph as (Hne & Hwb & Hpend).
  destruct (merge_bytes_ok (m_writeBuffer s) a (mem a) Hl Hwf) as (d & Hd & _).
  destruct (merge_finish_ok width mk (merged a s))
    as (s' & Hs' & Hok' & Hhas & Hc' & Hab' & Hcm' & Hph'); try done.
  { apply merged_ok; [done|lia|done]. }
  { intros b st Hb. cbn in Hb. apply lookup_delete_Some in Hb as [_ Hb].
    by eapply Hli. }
  { destruct Hpend as [|Hpend]; [by left|right]. cbn.
    intros b [_ Hb]%lookup_delete_Some. by apply (Hpend b). }
  exists d, s'. split.
  { rewrite (merge_exec width mk a _ d) by done. unfold bind. by rewrite Hs'. }
  split; [|done]. split; cbn; try done.
  - by rewrite Hcm'.
  - intros b st Hb. split; [|by eapply Hc'].
    assert (has b (m_writeBufferBlocks s') = true) as Hh by (apply has_true; eauto).
    rewrite Hhas in Hh. apply has_true in Hh as [st' Hh]. cbn in Hh.
    apply lookup_delete_Some in Hh as [_ Hh]. by apply Hli in Hh as [? _].
  - eapply merge_mem; try done. by rewrite <- Hwb.
  - destruct Hph' as [(E1 & -> & E2)|(E1 & -> & E2 & E3)]; [done|].
    cbn. rewrite Hc. split_and!; try done. by rewrite E2.
Qed.

Lemma merge_needs_issued width mk a d0 s r :
  mergeDataFromWriteBuffer 1 width mk a d0 s = Ok r ->
  m_writeBufferBlocks s !! a = Some Issued.
Proof.
  unfold mergeDataFromWriteBuffer, bind at 1, massert at 1. cbn [Z.eqb Pos.eqb].
  unfold bind at 1, get, bind at 1, massert at 1. by case_bool_decide.
Qed.

Lemma size_after_merge (m m' : gmap Z WriteBufferBlockStatus) a :
  is_Some (m !! a) -> (forall l, has l m' = has l (delete a m)) ->
  S (size m') = size m.
Proof.
  intros [st Ha] H.
  assert (dom m' = dom (delete a m)) as E.
  { apply set_eq. intros l. by rewrite !elem_of_dom, <- !has_true, H. }
  rewrite <- size_dom, E, size_dom, map_size_delete, Ha.
  assert (size m <> 0%nat); [|lia].
  intros E0%map_size_empty_inv. by rewrite E0 in Ha.
Qed.

Lemma commit_exec width mk remotes s :
  m_committed s = false ->
  exists remotes', (m_committing s = true -> remotes' = remotes) /\ forall s1,
    flushWriteBuffer 1 width mk (s <| m_committing := true |>
                                   <| m_flushPending := false |>) = Ok (tt, s1) ->
    commitTransaction 1 width mk remotes s = Ok (remotes', s1).
Proof.
  intros Hc. unfold commitTransaction, bind at 1, massert. cbn [Z.eqb Pos.eqb].
  unfold bind at 1, get, bind at 1. rewrite Hc. cbn [negb].
  eexists (if m_committing s then remotes else _). split; [by intros ->|]. intros s1 Hs1. unfold bind, modify. by rewrite Hs1.
Qed.

Lemma no_buffered_outside s l i :
  ready s -> is_line l -> 0 <= i < getBlockSizeBytes ->
  has l (m_writeBufferBlocks s) = false -> m_writeBuffer s !! (l + i) = None.
Proof.
  intros Hr Hl Hi Hh. destruct (m_writeBuffer s !! (l + i)) as [b|] eqn:E; [|done].
  apply (rd_covered s Hr) in E as [_ E].
  destruct (line_byte l i Hl Hi) as (_ & El & _). rewrite El in E.
  apply has_true in E. congruence.
Qed.

Lemma nIssued_ready s : ready s -> nIssued (m_writeBufferBlocks s) = 0.
Proof.
  intros Hr. pose proof (nIssued_nonneg (m_writeBufferBlocks s)).
  destruct (Z.lt_ge_cases 0 (nIssued (m_writeBufferBlocks s))) as [Hp|]; [|lia].
  apply nIssued_pos in Hp as [a Ha]. by apply (rd_blocks s Hr) in Ha as [_ ?].
Qed.

Lemma commit_starts width mk remotes s mem0 :
  0 < width < 2 ^ 64 -> ready s ->
  (forall l, is_line l -> DataBlock.wf (mem0 l)) ->
  exists remotes' s1, commitTransaction 1 width mk remotes s = Ok (remotes', s1) /\
    flushing width (m_writeBuffer s) mem0 (s1, mem0) /\
    size (m_writeBufferBlocks s1) = size (m_writeBufferBlocks s).
Proof.
  intros Hw Hr Hmem. destruct (rd_flags s Hr) as [Hab Hc].
  destruct (commit_exec width mk remotes s Hc) as (remotes' & _ & Hex). exists remotes'.
  pose proof (nIssued_ready s Hr) as Hn.
  assert (forall blks : gmap Z WriteBufferBlockStatus,
    (forall l, has l blks = has l (m_writeBufferBlocks s)) -> forall l, is_line l ->
    DataBlock.wf (mem0 l) /\ forall i, 0 <= i < getBlockSizeBytes ->
      DataBlock.byte (mem0 l) i = if has l blks then DataBlock.byte (mem0 l) i
        else default (DataBlock.byte (mem0 l) i) (m_writeBuffer s !! (l + i))) as Hm0.
  { intros blks Hh l Hl. split; [auto|]. intros i Hi. rewrite Hh.
    destruct (has l (m_writeBufferBlocks s)) eqn:E; [done|].
    by rewrite (no_buffered_outside s l i). }
  set (s0 := s <| m_committing := true |> <| m_flushPending := false |>).
  assert (flush_ok width s0) as Hok0.
  { split; cbn; [|lia|apply Hr]. rewrite Hn. apply Hr. }
  destruct (decide (m_writeBufferBlocks s = ∅)) as [He|He].
  - exists (s0 <| m_committed := true |>). split.
    + apply Hex. unfold flushWriteBuffer, bind, massert, get, emptyb. cbn.
      rewrite Hab, He, (rd_issued s Hr). done.
    + split; [|done]. split; cbn; try done; [by destruct Hok0| |by apply Hm0|].
      * intros a st. by rewrite He.
      * split; [done|]. apply map_empty. intros a.
        destruct (m_writeBuffer s !! a) eqn:E; [|done].
        apply (rd_covered s Hr) in E as [_ E]. rewrite He in E. by destruct E.
  - destruct (flush_more width mk s0) as (s1 & Hs1 & Hpost & Hpos & Hpend); try done.
    { intros a st Ha. by apply (rd_blocks s Hr) in Ha as [_ ->]. }
    clear Hpos. exists s1. split; [by apply Hex|].
    pose proof (fun l => flush_post_has _ _ _ _ _ l Hpost) as Hhas.
    split.
    + destruct (fp_frame _ _ _ _ _ Hpost) as (b & n & p & E).
      split; cbn [fst snd].
      * apply (fp_ok _ _ _ _ _ Hpost).
      * by rewrite E.
      * by rewrite E.
      * intros a st Ha. destruct (fp_blocks _ _ _ _ _ Hpost a) as [E'|[E1 E2]].
        -- rewrite E' in Ha. by apply (rd_blocks s Hr) in Ha as [? ->].
        -- apply (rd_blocks s Hr) in E1 as [? _]. split; [done|congruence].
      * by apply Hm0.
      * replace (m_committed s1) with false by by rewrite E.
        split_and!; try done; [|by rewrite E]. contradict He. exact (flush_post_empty _ _ _ _ _ Hpost He).
    + exact (flush_post_size _ _ _ _ _ Hpost).
Qed.

(** The commit that is called again while the flush is under way. *)
Lemma commit_again width wb0 mem0 mk remotes s mem :
  0 < width < 2 ^ 64 -> flushing width wb0 mem0 (s, mem) -> m_committed s = false ->
  exists s', commitTransaction 1 width mk remotes s = Ok (remotes, s') /\
    flushing width wb0 mem0 (s', mem) /\
    size (m_writeBufferBlocks s') = size (m_writeBufferBlocks s) /\
    (accepts mk (m_writeBufferBlocks s) ->
     exists a, m_writeBufferBlocks s' !! a = Some Issued).
Proof.
  intros Hw [Hok Hab Hcm Hli Hm Hph] Hc. cbn [fst snd] in *. rewrite Hc in Hph.
  destruct Hph as (Hne & Hwb & _).
  destruct (commit_exec width mk remotes s Hc) as (r & Hr & Hex). rewrite (Hr Hcm) in Hex.
  destruct (flush_more width mk (s <| m_committing := true |> <| m_flushPending := false |>))
    as (s' & Hs' & Hpost & Hpos & Hpend); [done|by destruct Hok|done|done| |].
  { intros a st Ha. by eapply Hli. }
  exists s'. split; [by apply Hex|]. split; [|split; [exact (flush_post_size _ _ _ _ _ Hpost)|]].
  2:{ intros Hacc. by apply nIssued_pos, Hpos. }
  pose proof (fun l => flush_post_has _ _ _ _ _ l Hpost) as Hhas.
  destruct (fp_frame _ _ _ _ _ Hpost) as (b & n & p & E). split; cbn [fst snd].
  - apply (fp_ok _ _ _ _ _ Hpost).
  - by rewrite E.
  - by rewrite E.
  - intros a st Ha. destruct (fp_blocks _ _ _ _ _ Hpost a) as [E'|[E1 E2]].
    + rewrite E' in Ha. by apply Hli.
    + apply Hli in E1 as [? _]. split; [done|congruence].
  - intros l Hl. rewrite Hhas. by apply Hm.
  - replace (m_committed s') with false by by rewrite E. split_and!; [|by rewrite E|done].
    contradict Hne. exact (flush_post_empty _ _ _ _ _ Hpost Hne).
Qed.

Lemma flush_run_ok width wb0 mem0 n x y :
  0 < width < 2 ^ 64 -> flushing width wb0 mem0 x -> flush_run width n x y ->
  flushing width wb0 mem0 y /\
  (n + size (m_writeBufferBlocks y.1) = size (m_writeBufferBlocks x.1))%nat.
Proof.
  intros Hw Hx Hn. revert Hx.
  induction Hn as [x|n x y z Hxy _ IH|n s mem mk rs rs' s' z Hc _ IH]; intros Hx; [done| |].
  - destruct Hxy as [s mem a mk d s' Hm].
    pose proof (merge_needs_issued _ _ _ _ _ _ Hm) as Ha.
    destruct (merge_step_ok width wb0 mem0 s mem a mk Hw Hx Ha)
      as (d' & s'' & Hm' & Hfl & Hhas).
    rewrite Hm in Hm'. injection Hm' as <- <-.
    destruct (IH Hfl) as [Hz Hsz]. split; [done|]. cbn [fst] in *.
    assert (is_Some (m_writeBufferBlocks s !! a)) as Hs by (rewrite Ha; eauto).
    pose proof (size_after_merge _ _ _ Hs Hhas). lia.
  - assert (m_committed s = false) as Hnc.
    { unfold commitTransaction, bind at 1, massert in Hc. cbn [Z.eqb Pos.eqb] in Hc.
      unfold bind at 1, get, bind at 1 in Hc. by destruct (m_committed s). }
    destruct (commit_again width wb0 mem0 mk rs s mem Hw Hx Hnc) as (s'' & Hc' & Hfl & Hsz & _).
    rewrite Hc in Hc'. injection Hc' as _ <-. destruct (IH Hfl) as [Hz Hsz']. split; [done|].
    cbn [fst] in *. lia.
Qed.

(** C7: a lazy commit publishes exactly the buffered stores, whichever requests the
    sequencer accepts.  It starts at the outermost level with a valid requestor and a positive
    commit width, with every store in a pending block, nothing outstanding and no abort under
    way.  From then on the issued blocks complete in any order, and the commit is
    called again any number of times before it is done.  In every state reached, each
    completed write has removed one block, and no more requests are outstanding than the
    commit width.  While the commit is not done, no assertion fails: every issued block can
    be merged, and the commit can be called again, after which some block is issued unless
    the sequencer refused every block that waits.  When it is done, every byte of memory is
    the buffered byte if there is one and the old byte otherwise, with the buffer empty. *)
Theorem lazy_commit_publishes width mk remotes s mem0 :
  0 < width < 2 ^ 64 -> ready s -> (forall l, is_line l -> DataBlock.wf (mem0 l)) ->
  exists remotes' s1, commitTransaction 1 width mk remotes s = Ok (remotes', s1) /\
    forall n s2 mem2, flush_run width n (s1, mem0) (s2, mem2) ->
      (n + size (m_writeBufferBlocks s2) = size (m_writeBufferBlocks s))%nat /\
      0 <= m_issuedWriteBufferRequest s2 <= width /\
      if m_committed s2 then
        m_writeBufferBlocks s2 = ∅ /\ m_writeBuffer s2 = ∅ /\
        forall l i, is_line l -> 0 <= i < getBlockSizeBytes ->
          DataBlock.byte (mem2 l) i =
          overlay (m_writeBuffer s) (fun _ => DataBlock.byte (mem0 l) i) (l + i)
      else
        (forall a mk', m_writeBufferBlocks s2 !! a = Some Issued ->
           exists d s3, mergeDataFromWriteBuffer 1 width mk' a (mem2 a) s2 = Ok (d, s3)) /\
        forall mk' rs, exists s3, commitTransaction 1 width mk' rs s2 = Ok (rs, s3) /\
          (accepts mk' (m_writeBufferBlocks s2) ->
           exists a, m_writeBufferBlocks s3 !! a = Some Issued).
Proof.
  intros Hw Hr Hmem.
  destruct (commit_starts width mk remotes s mem0 Hw Hr Hmem)
    as (remotes' & s1 & Hc & Hfl & Hsz). exists remotes', s1. split; [done|].
  intros n s2 mem2 Hn.
  destruct (flush_run_ok _ _ _ _ _ _ Hw Hfl Hn) as [Hfl2 Hn2].
  pose proof Hfl2 as [[Hi Hle _] _ _ Hli Hm2 Hph]. cbn [fst snd] in *.
  pose proof (nIssued_nonneg (m_writeBufferBlocks s2)).
  split; [lia|]. split; [lia|]. destruct (m_committed s2) eqn:Hcd.
  - destruct Hph as [He Hwe]. split_and!; [done..|]. intros l i Hl Hi'.
    rewrite (proj2 (Hm2 l Hl) i Hi'). unfold has. by rewrite He, lookup_empty.
  - split.
    + intros a mk' Ha. destruct (merge_step_ok width _ _ s2 mem2 a mk' Hw Hfl2 Ha)
        as (d & s3 & Hm & _). eauto.
    + intros mk' rs. destruct (commit_again width _ _ mk' rs s2 mem2 Hw Hfl2 Hcd)
        as (s3 & H1 & _ & _ & H2). eauto.
Qed.

(** C30: a transaction reads its own writes.  After a store went to the write
    buffer, a load inside one line returns, byte by byte, the stored data
    where the store covers the byte and otherwise what it would have
    returned before the store. *)
Theorem read_own_writes addr size data a n mem d s :
  storable addr size data ->
  0 <= a -> 0 < n <= 64 -> a + n <= 2 ^ 64 ->
  makeLineAddress a = makeLineAddress (a + n - 1) ->
  line_of mem (makeLineAddress a) d ->
  exists s1 s2 bytes fwd,
    addToWriteBuffer 1 addr size data s = Ok (tt, s1) /\
    forwardData 1 a n d s1 = Ok ((bytes, fwd), s2) /\
    m_writeBuffer s2 = m_writeBuffer s1 /\
    bytes = map (fun i =>
      if (addr <=? a + i) && (a + i <? addr + size)
      then default 0 (data !! Z.to_nat (a + i - addr))
      else overlay (m_writeBuffer s) mem (a + i)) (seqZ 0 n).
Proof.
  intros Hst Ha Hn Hhi Hline Hd.
  destruct (addToWriteBuffer_ok addr size data s Hst) as (wb & Hadd & Hwb).
  destruct (forwardData_ok a n mem d (s <| m_writeBuffer := wb |>
    <| m_writeBufferBlocks ::= <[makeLineAddress addr := Pending]> |>))
    as (rb & Hf); try done.
  do 4 eexists. split_and!; [exact Hadd|exact Hf|done|].
  apply map_ext_in. intros i Hi%list_elem_of_In%elem_of_seqZ. unfold overlay. cbn.
  rewrite Hwb. destruct ((addr <=? a + i) && (a + i <? addr + size)) eqn:E; [|done].
  apply andb_true_iff in E as [E1 E2].
  destruct (lookup_lt_is_Some_2 data (Z.to_nat (a + i - addr))) as [b ->]; [|done].
  pose proof (st_len _ _ _ Hst). lia.
Qed.

(** *** Cancelling a flush *)

Record draining (width : Z) (x : Flush) : Prop := {
  dr_ok : flush_ok width x.1;
  dr_flags : m_aborting x.1 = true /\ m_committing x.1 = true;
  dr_blocks : forall a st, m_writeBufferBlocks x.1 !! a = Some st ->
    is_line a /\ st = Issued;
  dr_mem : forall l, is_line l -> DataBlock.wf (x.2 l)
}.

Lemma drain_step_ok width s mem a mk :
  0 < width < 2 ^ 64 -> draining width (s, mem) ->
  m_writeBufferBlocks s !! a = Some Issued ->
  exists d s', mergeDataFromWriteBuffer 1 width mk a (mem a) s = Ok (d, s') /\
    draining width (s', fun l => if l =? a then d else mem l) /\
    m_writeBufferBlocks s' = delete a (m_writeBufferBlocks s).
Proof.
  intros Hw [Hok [Hab Hc] Hb Hm] Ha. cbn [fst snd] in *.
  destruct (Hb a _ Ha) as [Hl _].
  destruct (merge_bytes_ok (m_writeBuffer s) a (mem a) Hl (Hm a Hl))
    as (d & Hd & Hdwf & _).
  assert (forall l, is_line l -> DataBlock.wf (if l =? a then d else mem l)) as Hm'.
  { intros l Hll. destruct (l =? a); auto. }
  assert (forall b st, delete a (m_writeBufferBlocks s) !! b = Some st ->
    is_line b /\ st = Issued) as Hb'.
  { intros b st [_ Hbs]%lookup_delete_Some. by apply Hb. }
  pose proof (merged_ok width a s Hok ltac:(lia) Ha) as Hok'.
  rewrite (merge_exec width mk a _ d) by done. unfold merge_finish, bind, get, emptyb.
  destruct (bool_decide (m_writeBufferBlocks (merged a s) = ∅)).
  - do 2 eexists. split; [done|]. split; [|done]. split; try done.
    by destruct Hok'.
  - replace (m_aborting (merged a s)) with true by done.
    by do 2 eexists.
Qed.

Lemma drain_steps_ok width n x y :
  0 < width < 2 ^ 64 -> draining width x -> nsteps (merge_step width) n x y ->
  draining width y /\
  (n + size (m_writeBufferBlocks y.1) = size (m_writeBufferBlocks x.1))%nat.
Proof.
  intros Hw Hx Hn. revert Hx. induction Hn as [x|n x y z Hxy _ IH]; [done|].
  intros Hx. destruct Hxy as [s mem a mk d s' Hm].
  pose proof (merge_needs_issued _ _ _ _ _ _ Hm) as Ha.
  destruct (drain_step_ok width s mem a mk Hw Hx Ha) as (d' & s'' & Hm' & Hdr & E).
  rewrite Hm in Hm'. injection Hm' as <- <-.
  destruct (IH Hdr) as [Hz Hsz]. split; [done|]. cbn [fst] in *.
  assert (is_Some (m_writeBufferBlocks s !! a)) as Hs by (rewrite Ha; eauto).
  pose proof (size_after_merge _ (m_writeBufferBlocks s') _ Hs
                (fun l => f_equal (has l) E)). lia.
Qed.

Lemma cancel_ok width wb0 mem0 s mem :
  flushing width wb0 mem0 (s, mem) ->
  exists s1, cancelWriteBufferFlush 1 s = Ok (tt, s1) /\
    draining width (s1, mem) /\
    forall a, m_writeBufferBlocks s1 !! a = Some Issued <->
              m_writeBufferBlocks s !! a = Some Issued.
Proof.
  intros [Hok Hab Hc Hli Hm _]. cbn [fst snd] in *.
  unfold cancelWriteBufferFlush, bind, get, massert, modify. rewrite Hc, Hab.
  cbn. eexists. split; [done|].
  assert (forall a, filter (fun kv : Z * _ => kv.2 <> Pending)
            (m_writeBufferBlocks s) !! a = Some Issued <->
            m_writeBufferBlocks s !! a = Some Issued) as Hf.
  { intros a. rewrite map_lookup_filter_Some. naive_solver. }
  split; [|exact Hf]. destruct Hok as [Hi Hle Hr].
  assert (nIssued (filter (fun kv : Z * _ => kv.2 <> Pending) (m_writeBufferBlocks s))
          = nIssued (m_writeBufferBlocks s)) as Hn.
  { unfold nIssued. rewrite map_filter_filter. do 2 f_equal.
    apply map_filter_ext. intros a st _. cbn. naive_solver. }
  split; cbn; [split; cbn; rewrite ?Hn; done|done| |].
  - intros a st [Ha Hp]%map_lookup_filter_Some. destruct (Hli _ _ Ha) as [Hl Hnc].
    split; [done|]. by destruct st.
  - intros l Hl. by apply Hm.
Qed.

(** An abort during the flush leaves the manager clean.  Cancelling drops
    the blocks not yet requested and keeps exactly the issued ones; every one
    of them can complete, and once they have, restarting the transaction
    returns with an empty buffer, no outstanding request and all flags
    clear. *)
Theorem cancelled_flush_drains width wb0 mem0 s mem :
  0 < width < 2 ^ 64 -> flushing width wb0 mem0 (s, mem) ->
  exists s1, cancelWriteBufferFlush 1 s = Ok (tt, s1) /\
    (forall a, is_Some (m_writeBufferBlocks s1 !! a) <->
               m_writeBufferBlocks s !! a = Some Issued) /\
    forall n s2 mem2, nsteps (merge_step width) n (s1, mem) (s2, mem2) ->
      if decide (m_writeBufferBlocks s2 = ∅) then
        exists s3, restartTransaction 1 s2 = Ok (tt, s3) /\
          m_writeBuffer s3 = ∅ /\ m_writeBufferBlocks s3 = ∅ /\
          m_issuedWriteBufferRequest s3 = 0 /\ m_aborting s3 = false /\
          m_committing s3 = false /\ m_committed s3 = false
      else exists y, merge_step width (s2, mem2) y.
Proof.
  intros Hw Hfl.
  destruct (cancel_ok _ _ _ _ _ Hfl) as (s1 & Hs1 & Hdr & Hiff).
  exists s1. split; [done|]. split.
  { intros a. rewrite <- Hiff. split; [|by intros ->].
    intros [st Ha]. by destruct (dr_blocks _ _ Hdr a st Ha) as [_ ->]. }
  intros n s2 mem2 Hn.
  destruct (drain_steps_ok _ _ _ _ Hw Hdr Hn) as [Hdr2 _].
  pose proof Hdr2 as [[Hi _ _] [Hab Hcm] Hb _]. cbn [fst] in *.
  case_decide as He.
  - assert (m_issuedWriteBufferRequest s2 = 0) as H0.
    { rewrite Hi, He. unfold nIssued. by rewrite map_filter_empty. }
    eexists. split; [|split_and!].
    + unfold restartTransaction, bind, massert, get, modify, discardWriteBuffer,
        clearProfiling. cbn. rewrite Hcm, Hab. cbn. rewrite H0. done.
    + done.
    + done.
    + exact H0.
    + done.
    + done.
    + done.
  - destruct (map_choose _ He) as (a & st & Ha).
    destruct (Hb _ _ Ha) as [_ ->].
    destruct (drain_step_ok width s2 mem2 a (fun _ => true) Hw Hdr2 Ha)
      as (d & s3 & Hm & _). eexists. by econstructor.
Qed.

End ops.

(** ** A concrete transaction: one 2-byte store to the line 64 *)

Definition demo_lvm : LazyVM :=
  (LazyVM_init 0 0) <| m_requestorID := 7 |> <| m_currentHtmUid := 1 |>
    <| m_writeBuffer := {[ 70 := 17; 71 := 34 ]} |>
    <| m_writeBufferBlocks := {[ 64 := Pending ]} |>.

Definition demo_mem (l : Z) : DataBlock := @DataBlock.alloc ruby64.

Lemma demo_ready : @ready ruby64 demo_lvm.
Proof.
  split; cbn.
  - intros a st [<- <-]%lookup_singleton_Some. done.
  - intros a b [[<- <-]|[_ [<- <-]%lookup_singleton_Some]]%lookup_insert_Some;
      vm_compute; split; eauto; intuition congruence.
  - done.
  - done.
  - done.
Qed.

(** The sequencer first refuses the only block, and then accepts it. *)
Lemma lazy_commit_publishes_witness :
  exists remotes' s1 s2 s3 d,
    commitTransaction 1 4 (fun _ => false) [] demo_lvm = Ok (remotes', s1) /\
    m_issuedWriteBufferRequest s1 = 0 /\
    commitTransaction 1 4 (fun _ => true) [] s1 = Ok ([], s2) /\
    @mergeDataFromWriteBuffer ruby64 1 4 (fun _ => true) 64 (demo_mem 64) s2 = Ok (d, s3) /\
    m_committed s3 = true /\ DataBlock.byte d 6 = 17 /\ m_writeBuffer s3 = ∅.
Proof.
  destruct (@lazy_commit_publishes ruby64 4 (fun _ => false) [] demo_lvm demo_mem)
    as (r & s1 & H & Hall).
  - lia.
  - apply demo_ready.
  - intros l _. apply DataBlock.wf_alloc.
  - pose proof H as H'. vm_compute in H'.
    destruct (Hall 0%nat s1 demo_mem (run_nil _ _)) as (_ & _ & H1).
    replace (m_committed s1) with false in H1 by by injection H' as _ <-.
    destruct H1 as [_ H1]. destruct (H1 (fun _ => true) []) as (s2 & H2 & _).
    injection H' as _ <-. pose proof H2 as H2'. vm_compute in H2'. injection H2' as <-.
    eexists _, _, _, _, _. split; [exact H|]. split; [done|]. split; [exact H2|].
    split; [vm_compute; reflexivity|]. by vm_compute.
Defined.

Lemma read_own_writes_witness :
  exists s1 s2 bytes fwd,
    @addToWriteBuffer ruby64 1 72 1 [5] demo_lvm = Ok (tt, s1) /\
    @forwardData ruby64 1 70 4 (demo_mem 64) s1 = Ok ((bytes, fwd), s2) /\
    bytes = [17; 34; 5; 0].
Proof.
  destruct (@read_own_writes ruby64 72 1 [5] 70 4 (fun _ => 0) (demo_mem 64) demo_lvm)
    as (s1 & s2 & bytes & fwd & H1 & H2 & _ & H3); try (done || lia).
  - split; [apply DataBlock.wf_alloc|]. intros i Hi. unfold DataBlock.byte. cbn.
    rewrite lookup_replicate_2; [done|].
    change (@getBlockSizeBytes ruby64) with 64 in Hi.
    change (@DataBlock.nbytes ruby64) with 64%nat. lia.
  - exists s1, s2, bytes, fwd. split; [done|]. split; [done|]. by rewrite H3.
Defined.

Lemma cancelled_flush_drains_witness :
  exists s1, cancelWriteBufferFlush 1
    (demo_lvm <| m_committing := true |>
              <| m_writeBufferBlocks := {[ 64 := Issued ]} |>
              <| m_issuedWriteBufferRequest := 1 |>) = Ok (tt, s1) /\
    m_writeBufferBlocks s1 !! 64 = Some Issued.
Proof.
  destruct (@cancelled_flush_drains ruby64 4 (m_writeBuffer demo_lvm) demo_mem
    (demo_lvm <| m_committing := true |>
              <| m_writeBufferBlocks := {[ 64 := Issued ]} |>
              <| m_issuedWriteBufferRequest := 1 |>) demo_mem)
    as (s1 & H & _ & _).
  - lia.
  - split; cbn.
    + split; by vm_compute.
    + done.
    + done.
    + intros a st [<- <-]%lookup_singleton_Some. done.
    + intros l Hl. split; [apply DataBlock.wf_alloc|]. intros i Hi. unfold has.
      destruct (decide (l = 64)) as [->|Hne]; [done|].
      rewrite lookup_singleton_ne by done.
      pose proof (@no_buffered_outside ruby64 demo_lvm l i demo_ready Hl Hi) as E.
      cbn in E. rewrite E; [done|]. unfold has. by rewrite lookup_singleton_ne.
    + split_and!; [by apply map_non_empty_singleton|done|right].
      by intros a [_ ?]%lookup_singleton_Some.
  - exists s1. split; [exact H|]. vm_compute in H. by injection H as <-.
Defined.
