(* ===== verification/CommitArbiter.v ===== *)
(** * Arbitration of lazy commits

    [mem/ruby/htm/LazyTransactionCommitArbiter.cc]: a transaction must be
    validated before it writes its buffer back.  With the [magic] policy it
    is validated when it conflicts with no validated committer; with the
    [token] policy when it owns the commit token.  The second half of the
    file runs the arbiters of all processors together. *)

From S2P Require Import Prelude Address HTM.
From S2P Require IsolationManager.
Import IsolationManager (IsolationManager).

Record Arbiter := MkArbiter { m_validated : bool; m_validating : bool }.

#[global] Instance eta_Arbiter : Eta Arbiter := fun a =>
  MkArbiter (m_validated a) (m_validating a).

Definition Arbiter_init : Arbiter := MkArbiter false false.

(** The arbiter of one processor next to the shared HTM object. *)
Definition ArbHTM : Type := Arbiter * HTM.

Definition on_arb {A} (m : M Arbiter A) : M ArbHTM A :=
  zoom fst (fun a x => (a, x.2)) m.
Definition on_htm {A} (m : M HTM A) : M ArbHTM A :=
  zoom snd (fun h x => (x.1, h)) m.

(** What the other managers see of a processor: its arbiter, its sets and
    its nesting level. *)
Record Committer := MkCommitter {
  c_arb : Arbiter;
  c_iso : IsolationManager;
  c_level : Z
}.

#[global] Instance eta_Committer : Eta Committer := fun c =>
  MkCommitter (c_arb c) (c_iso c) (c_level c).

Section ops.
Context `{RS : RubySystem}.
(** [m_policy] and the tracking option. *)
Context (policy : string) (precise : bool).

Definition beginTransaction : M ArbHTM unit :=
  on_arb (let* a := get in
          do* massert (negb (m_validated a));
          massert (negb (m_validating a))).

(** The two flag resets that end an arbitration. *)
Definition resetFlags : M Arbiter unit :=
  do* set! m_validated := false;
  set! m_validating := false.

Definition restartTransaction (m_version : Z) : M ArbHTM unit :=
  let* a := gets fst in
  do* when (policy =? Policy.token)%string
        (if m_validating a then on_htm (removeCommitTokenRequest m_version)
         else when (m_validated a) (on_htm (releaseCommitToken m_version)));
  on_arb resetFlags.

Definition commitTransaction (m_version : Z) : M ArbHTM unit :=
  let* a := gets fst in
  do* massert (m_validated a);
  do* massert (negb (m_validating a));
  do* when (policy =? Policy.token)%string (on_htm (releaseCommitToken m_version));
  on_arb resetFlags.

Definition shouldValidateTransaction : res bool :=
  if (policy =? Policy.magic)%string then Ok true
  else if (policy =? Policy.token)%string then Ok true
  else Err EPanic.

(** The loop over all managers: does some validated committer conflict? *)
Definition existsRemoteConflictingCommitter (new_committer : Committer)
    (mgrs : list Committer) : res bool :=
  foldR (fun found ongoing_committer =>
    if m_validated (c_arb ongoing_committer) then
      let? b1 := IsolationManager.hasConflictWith (c_level new_committer) precise
                   (c_iso ongoing_committer) (c_iso new_committer) in
      let? b := if b1 then Ok true
                else IsolationManager.hasConflictWith (c_level ongoing_committer)
                       precise (c_iso new_committer) (c_iso ongoing_committer) in
      Ok (found || b)
    else Ok found) false mgrs.

(** [new_committer] is the caller's view, [mgrs] all managers. *)
Definition initiateValidateTransaction (m_version : Z)
    (new_committer : Committer) (mgrs : list Committer) : M ArbHTM unit :=
  let* a := gets fst in
  do* massert (negb (m_validated a));
  let* failed :=
    if (policy =? Policy.magic)%string then
      do* on_arb (set! m_validating := true);
      let* c := lift (existsRemoteConflictingCommitter new_committer mgrs) in
      ret c
    else if (policy =? Policy.token)%string then
      do* unless (m_validating a)
            (do* on_arb (set! m_validating := true);
             on_htm (requestCommitToken m_version));
      let* h := gets snd in
      ret (negb (getTokenOwner h =? m_version))
    else panic in
  unless failed
    (on_arb (do* set! m_validating := false;
             set! m_validated := true)).

End ops.

(** ** All processors together

    The run of the whole machine, for the read-set tracking that records a
    load when it executes. *)

Record System := MkSystem { procs : gmap Z Committer; htm : HTM }.

Definition managers (y : System) : list Committer :=
  omap (fun p => procs y !! p) (std_keys (procs y)).

Section system.
Context `{RS : RubySystem} (policy : string).

(** What the interface manager of a processor does with its arbiter and its
    sets: begin, the loads and stores of the transaction, one attempt to
    validate, the end of a validated commit, and an abort. *)
Inductive event :=
| EvBegin
| EvLoad (addr : Z)
| EvStore (addr : Z)
| EvValidate
| EvCommit
| EvAbort.

(** The new state of processor [p], given its present one. *)
Definition proc_event (y : System) (p : Z) (c : Committer) (e : event)
    : res (Committer * HTM) :=
  let arb (m : M ArbHTM unit) :=
    let? r := m (c_arb c, htm y) in Ok r.2 in
  let iso (m : M IsolationManager unit) :=
    let? r := m (c_iso c) in Ok r.2 in
  match e with
  | EvBegin =>
      let? ah := arb beginTransaction in
      let? i := iso IsolationManager.beginTransaction in
      Ok (MkCommitter ah.1 i 1, ah.2)
  | EvLoad addr =>
      let? i := iso (IsolationManager.addToReadSetPerfectFilter (c_level c) addr) in
      Ok (c <| c_iso := i |>, htm y)
  | EvStore addr =>
      let? i := iso (IsolationManager.redirectedStoreToWriteBuffer
                       (makeLineAddress addr)) in
      Ok (c <| c_iso := i |>, htm y)
  | EvValidate =>
      let? ah := arb (initiateValidateTransaction policy false p c (managers y)) in
      Ok (c <| c_arb := ah.1 |>, ah.2)
  | EvCommit =>
      let? ah := arb (commitTransaction policy p) in
      let? i := iso (IsolationManager.commitTransaction false) in
      Ok (MkCommitter ah.1 i 0, ah.2)
  | EvAbort =>
      let? ah := arb (restartTransaction policy p) in
      let? i := iso IsolationManager.abortTransaction in
      Ok (MkCommitter ah.1 i 0, ah.2)
  end.

Definition run_event (p : Z) (e : event) (y : System) : res System :=
  match procs y !! p with
  | None => Err EUndef
  | Some c =>
      let? r := proc_event y p c e in
      Ok (MkSystem (<[p := r.1]> (procs y)) r.2)
  end.

(** When the processor can do so: the accesses of a transaction precede its
    commit, which starts at level 1. *)
Definition enabled (c : Committer) (e : event) : Prop :=
  match e with
  | EvBegin => c_level c = 0
  | EvLoad addr => m_validated (c_arb c) = false /\ 0 <= addr < 2 ^ 64
  | EvStore addr =>
      m_validated (c_arb c) = false /\ c_level c = 1 /\ 0 <= addr < 2 ^ 64
  | EvValidate => m_validated (c_arb c) = false /\ c_level c = 1
  | EvCommit => m_validated (c_arb c) = true
  | EvAbort => c_level c = 1
  end.

Inductive step : System -> System -> Prop :=
| step_event y p c e y' :
    procs y !! p = Some c -> enabled c e -> run_event p e y = Ok y' -> step y y'.

(** [n] idle processors. *)
Definition init (n : Z) : System :=
  MkSystem (list_to_map (map (fun p => (p, MkCommitter Arbiter_init
                                IsolationManager.IsolationManager_init 0))
                           (seqZ 0 n)))
    (HTM_init 0).

(** No line written by [c] is read or written by [d]. *)
Definition no_conflict (c d : Committer) : Prop :=
  forall a, is_Some (IsolationManager.m_writeSetInWriteBuffer (c_iso c) !! a) ->
    IsolationManager.m_readSet (c_iso d) !! a = None /\
    IsolationManager.m_writeSetInWriteBuffer (c_iso d) !! a = None.

(** Each processor on its own. *)
Record proc_ok (p : Z) (c : Committer) : Prop := {
  po_num : 0 <= p;
  po_iso : IsolationManager.wf (c_level c) false (c_iso c);
  po_level : c_level c = 0 \/ c_level c = 1;
  po_flags : m_validated (c_arb c) = true -> m_validating (c_arb c) = false;
  po_busy : m_validated (c_arb c) || m_validating (c_arb c) = true -> c_level c = 1
}.

Definition procs_ok (y : System) : Prop :=
  forall p c, procs y !! p = Some c -> proc_ok p c.

(** [magic]: the validated committers are free of conflicts. *)
Definition magic_inv (y : System) : Prop :=
  forall p q c d, p <> q -> procs y !! p = Some c -> procs y !! q = Some d ->
    m_validated (c_arb c) = true -> m_validated (c_arb d) = true ->
    no_conflict c d.

(** [token]: exactly the processors in arbitration queue for the token, once
    each, and a validated one is at the head. *)
Definition token_inv (y : System) : Prop :=
  NoDup (m_commitTokenRequestList (htm y)) /\
  (forall p, p ∈ m_commitTokenRequestList (htm y) <->
     exists c, procs y !! p = Some c /\
               m_validated (c_arb c) || m_validating (c_arb c) = true) /\
  (forall p c, procs y !! p = Some c -> m_validated (c_arb c) = true ->
     head (m_commitTokenRequestList (htm y)) = Some p).

Definition idle : Committer :=
  MkCommitter Arbiter_init IsolationManager.IsolationManager_init 0.

Lemma proc_ok_idle p : 0 <= p -> proc_ok p idle.
Proof. intros Hp. split; cbn; auto using IsolationManager.wf_init; done. Qed.

(** *** The effect of each event *)

Lemma wf_begin level i :
  IsolationManager.wf 0 false i ->
  IsolationManager.wf level false (i <| IsolationManager.m_writeSet := ∅ |>).
Proof.
  intros []. split; cbn; eauto; try done; intros *; by rewrite lookup_empty.
Qed.

Lemma wf_redirect level i addr :
  0 <= addr < 2 ^ 64 -> IsolationManager.wf level false i ->
  IsolationManager.wf level false
    (i <| IsolationManager.m_writeSetInWriteBuffer ::=
          std_insert (makeLineAddress addr) IsolationManager.RETIRED_STORE |>).
Proof.
  intros Ha []. split; cbn; eauto.
  intros a st [?|(-> & -> & ?)]%lookup_std_insert_Some;
    eauto using makeLineAddress_is_line.
Qed.

Definition is_quiet (e : event) : bool :=
  match e with EvBegin | EvLoad _ | EvStore _ => true | _ => false end.

(** Accesses and the begin leave the arbitration alone. *)
Lemma quiet_ok y p c e :
  proc_ok p c -> enabled c e -> is_quiet e = true ->
  exists c', proc_event y p c e = Ok (c', htm y) /\ proc_ok p c' /\
    c_arb c' = c_arb c /\ m_validated (c_arb c) = false.
Proof.
  intros [Hn Hiso Hl Hf Hb] He Hq. destruct e; try done; cbn in He.
  - assert (m_validated (c_arb c) || m_validating (c_arb c) = false) as E.
    { destruct (m_validated (c_arb c) || m_validating (c_arb c)); [|done].
      rewrite Hb in He by done. lia. }
    apply orb_false_iff in E as [E1 E2]. eexists. split.
    { cbn. unfold beginTransaction, on_arb, zoom, bind, get, massert. cbn.
      rewrite E1. cbn. rewrite E2. cbn. done. }
    split; [|done]. rewrite He in Hiso.
    split; cbn; auto. by apply wf_begin.
  - destruct He as [Hv Ha]. eexists. split.
    { cbn [proc_event]. rewrite IsolationManager.add_read_ok. done. }
    split; [|done]. split; auto. by apply IsolationManager.wf_add_read.
  - destruct He as (Hv & Hl1 & Ha). eexists. split; [done|].
    split; [|done]. split; auto. by apply wf_redirect.
Qed.

Lemma conflict_false level i j b :
  IsolationManager.wf level false j ->
  (forall a st, IsolationManager.m_writeSetInWriteBuffer i !! a = Some st -> is_line a) ->
  IsolationManager.hasConflictWith level false i j = Ok b ->
  b = false ->
  forall a, is_Some (IsolationManager.m_writeSetInWriteBuffer i !! a) ->
    IsolationManager.m_readSet j !! a = None /\
    IsolationManager.m_writeSetInWriteBuffer j !! a = None.
Proof.
  intros Hj Hl Hb -> a Ha.
  destruct (IsolationManager.hasConflictWith_spec level false i j Hj Hl)
    as (b' & Hb' & Hiff). rewrite Hb in Hb'. injection Hb' as <-.
  split; apply eq_None_not_Some; intros Hs;
    assert (false = true) by (apply Hiff; eauto); done.
Qed.

(** The loop over the managers returns, and finds no conflict only if there
    is none with a validated committer. *)
Lemma existsRemote_ok new mgrs :
  IsolationManager.wf (c_level new) false (c_iso new) ->
  (forall o, o ∈ mgrs -> IsolationManager.wf (c_level o) false (c_iso o)) ->
  exists b, existsRemoteConflictingCommitter false new mgrs = Ok b /\
    (b = false -> forall o, o ∈ mgrs -> m_validated (c_arb o) = true ->
       no_conflict o new /\ no_conflict new o).
Proof.
  intros Hn Hm. unfold existsRemoteConflictingCommitter.
  assert (forall l found, (forall o, o ∈ l -> o ∈ mgrs) ->
    exists b, foldR (fun found ongoing_committer =>
    if m_validated (c_arb ongoing_committer) then
      let? b1 := IsolationManager.hasConflictWith (c_level new) false
                   (c_iso ongoing_committer) (c_iso new) in
      let? b := if b1 then Ok true
                else IsolationManager.hasConflictWith (c_level ongoing_committer)
                       false (c_iso new) (c_iso ongoing_committer) in
      Ok (found || b)
    else Ok found) found l = Ok b /\
    (b = false -> found = false /\ forall o, o ∈ l -> m_validated (c_arb o) = true ->
       no_conflict o new /\ no_conflict new o)) as Hloop.
  2:{ destruct (Hloop mgrs false) as (b & Hb & Hs); [done|].
      exists b. split; [exact Hb|]. intros E. by apply Hs. }
  induction l as [|o l IH]; intros found Hl; cbn [foldR].
  { exists found. split; [done|]. set_solver. }
  pose proof (Hm o ltac:(set_solver)) as Ho.
  destruct (m_validated (c_arb o)) eqn:Ev.
  2:{ cbn [rbind]. destruct (IH found) as (b & Hb & Hs); [set_solver|].
      exists b. split; [exact Hb|]. intros E. destruct (Hs E) as [Hf Hs'].
      split; [done|]. intros o' [->|Ho']%elem_of_cons; [congruence|auto]. }
  destruct (IsolationManager.hasConflictWith_spec (c_level new) false (c_iso o)
    (c_iso new) Hn (IsolationManager.wf_buffer_line _ _ _ Ho)) as (b1 & Hb1 & _).
  destruct (IsolationManager.hasConflictWith_spec (c_level o) false (c_iso new)
    (c_iso o) Ho (IsolationManager.wf_buffer_line _ _ _ Hn)) as (b2 & Hb2 & _).
  rewrite Hb1. cbn [rbind].
  assert ((if b1 then Ok true else IsolationManager.hasConflictWith (c_level o) false
             (c_iso new) (c_iso o)) = Ok (b1 || b2)) as ->
    by (destruct b1; [done|by rewrite Hb2]).
  cbn [rbind]. destruct (IH (found || (b1 || b2))) as (b & Hb & Hs); [set_solver|].
  exists b. split; [exact Hb|]. intros E. destruct (Hs E) as [Hf Hs'].
  apply orb_false_iff in Hf as [-> [-> ->]%orb_false_iff].
  split; [done|]. intros o' [->|Ho']%elem_of_cons; [|auto]. intros _. split.
  - intros a. eapply conflict_false; eauto. apply (IsolationManager.wf_buffer_line _ _ _ Ho).
  - intros a. eapply conflict_false; eauto. apply (IsolationManager.wf_buffer_line _ _ _ Hn).
Qed.

Lemma elem_of_managers y o :
  o ∈ managers y <-> exists p, procs y !! p = Some o.
Proof.
  unfold managers. rewrite list_elem_of_omap. split.
  - intros (p & _ & E). eauto.
  - intros (p & E). exists p. split; [|done]. apply elem_of_std_keys. eauto.
Qed.

(** *** The [magic] policy *)

Lemma magic_event_ok y p c e :
  policy = Policy.magic -> procs_ok y -> procs y !! p = Some c -> enabled c e ->
  exists c', proc_event y p c e = Ok (c', htm y) /\ proc_ok p c' /\
    (m_validated (c_arb c') = true ->
     forall q d, procs y !! q = Some d -> m_validated (c_arb d) = true ->
       no_conflict c' d /\ no_conflict d c').
Proof.
  intros Hpol Hy Hp He. pose proof (Hy p c Hp) as Hc.
  destruct (is_quiet e) eqn:Hq.
  { destruct (quiet_ok y p c e Hc He Hq) as (c' & Hr & Hc' & Ha & Hv).
    exists c'. split; [done|]. split; [done|]. congruence. }
  destruct e as [| | | | |]; try done; cbn in He.
  - destruct He as [Hv Hl].
    destruct (existsRemote_ok c (managers y)) as (b & Hb & Hs).
    { apply Hc. }
    { intros o [q Ho]%elem_of_managers. by apply (Hy q). }
    exists (c <| c_arb := if b then MkArbiter false true else MkArbiter true false |>).
    split_and!.
    + cbn [proc_event]. unfold initiateValidateTransaction, bind, gets, massert.
      cbn [fst]. rewrite Hv, Hpol, String.eqb_refl. cbn. rewrite Hb.
      destruct b; cbn; unfold upd; cbn; by rewrite ?Hv.
    + destruct Hc. split; auto; cbn; by destruct b.
    + destruct b; [done|]. cbn. intros _ q d Hd Hvd.
      destruct (Hs eq_refl d) as [H1 H2]; [apply elem_of_managers; eauto|done|done].
  - exists idle. split_and!; [|apply proc_ok_idle; apply Hc|done].
    cbn [proc_event]. unfold commitTransaction, bind, gets, massert. cbn [fst].
    rewrite He, (po_flags p c Hc He), Hpol. cbn [when negb].
    by rewrite IsolationManager.commit_ok.
  - exists idle. split_and!; [|apply proc_ok_idle; apply Hc|done].
    cbn [proc_event]. unfold restartTransaction. by rewrite Hpol.
Qed.

(** *** The [token] policy *)

Lemma token_wf_inv y : procs_ok y -> token_inv y -> token_wf (htm y).
Proof.
  intros Hy (Hnd & Hq & _). split; [done|]. apply Forall_forall. intros p Hp.
  apply Hq in Hp as (c & Hc & _). by apply (Hy p c).
Qed.

Lemma getTokenOwner_head h p : 0 <= p ->
  (getTokenOwner h =? p = true <-> head (m_commitTokenRequestList h) = Some p).
Proof.
  intros Hp. unfold getTokenOwner. rewrite Z.eqb_eq.
  destruct (m_commitTokenRequestList h); cbn.
  - split; [lia|done].
  - split; congruence.
Qed.

(** The queue after an event of [p], in terms of the queue before. *)
Record token_post (h h' : HTM) (p : Z) (c c' : Committer) : Prop := {
  tp_nodup : NoDup (m_commitTokenRequestList h');
  tp_in : forall q, q ∈ m_commitTokenRequestList h' <->
    if decide (q = p) then m_validated (c_arb c') || m_validating (c_arb c') = true
    else q ∈ m_commitTokenRequestList h;
  tp_head : m_validated (c_arb c') = true ->
    head (m_commitTokenRequestList h') = Some p;
  tp_others : forall q, q <> p -> head (m_commitTokenRequestList h) = Some q ->
    head (m_commitTokenRequestList h') = Some q
}.

Lemma token_remove_post h p c l1 l2 :
  token_wf h -> m_commitTokenRequestList h = l1 ++ p :: l2 ->
  token_post h (h <| m_commitTokenRequestList := l1 ++ l2 |>) p c idle.
Proof.
  intros Hwf E. destruct (token_wf_sub h l1 p l2 Hwf E) as [[Hnd _] Hp].
  split; cbn; [done| |done|].
  - intros q. rewrite E. case_decide; [subst; by split|]. set_solver.
  - intros q Hq. rewrite E. by destruct l1; cbn; [intros [= ->]|].
Qed.

Lemma token_same_post h p c c' :
  token_wf h -> m_validated (c_arb c') = false ->
  (p ∈ m_commitTokenRequestList h <-> m_validating (c_arb c') = true) ->
  token_post h h p c c'.
Proof.
  intros [Hnd _] Hv Hp. split; auto; [|congruence].
  intros q. case_decide; [subst; by rewrite Hp, Hv|done].
Qed.

(** A first request joins at the end; the owner is validated. *)
Lemma token_validate_ok y p c :
  policy = Policy.token -> procs_ok y -> token_inv y -> procs y !! p = Some c ->
  enabled c EvValidate ->
  exists c' h', proc_event y p c EvValidate = Ok (c', h') /\ proc_ok p c' /\
    token_post (htm y) h' p c c'.
Proof.
  intros Hpol Hy Ht Hp [Hv Hl]. pose proof (Hy p c Hp) as Hc.
  pose proof (po_num p c Hc) as Hnum.
  pose proof (token_wf_inv y Hy Ht) as Hwf. destruct Ht as (Hnd & Hq & Hh).
  set (h' := if m_validating (c_arb c) then htm y
             else (htm y) <| m_commitTokenRequestList ::= fun l => l ++ [p] |>).
  set (own := getTokenOwner h' =? p).
  assert (m_validating (c_arb c) = false -> p ∉ m_commitTokenRequestList (htm y)) as Hnew.
  { intros E Hin. apply Hq in Hin as (c0 & E0 & Hb). simplify_eq.
    by rewrite Hv, E in Hb. }
  assert (p ∈ m_commitTokenRequestList h') as Hin.
  { unfold h'. destruct (m_validating (c_arb c)) eqn:E; [|cbn; set_solver].
    apply Hq. exists c. by rewrite E, orb_true_r. }
  exists (c <| c_arb := MkArbiter own (negb own) |>), h'. split_and!.
  - cbn [proc_event]. unfold initiateValidateTransaction, bind, gets, massert.
    cbn [fst]. rewrite Hv, Hpol. change (Policy.token =? Policy.magic)%string with false.
    rewrite String.eqb_refl. cbn [negb]. unfold own, h', unless.
    destruct (m_validating (c_arb c)) eqn:E.
    + cbn. destruct (getTokenOwner (htm y) =? p); cbn; unfold upd; cbn;
        rewrite ?Hv, ?E; try done. by destruct c as [[] ? ?]; cbn in *; subst.
    + cbn -[requestCommitToken getTokenOwner]. unfold on_htm, zoom. cbn [fst snd].
      rewrite requestCommitToken_ok by auto. cbn -[getTokenOwner upd].
      destruct (getTokenOwner _ =? p); cbn; unfold upd; cbn; by rewrite ?Hv.
  - destruct Hc. split; cbn; auto. by destruct own.
  - split; cbn.
    + unfold h'. destruct (m_validating (c_arb c)); cbn; [done|].
      apply NoDup_app. split; [done|]. split; [|apply NoDup_singleton]. set_solver.
    + intros q. case_decide; [subst; by destruct own|].
      unfold h'. destruct (m_validating (c_arb c)); cbn; [done|]. set_solver.
    + unfold own. intros Ho. by apply getTokenOwner_head.
    + intros q Hqp Hhd. unfold h'. destruct (m_validating (c_arb c)); cbn; [done|].
      by destruct (m_commitTokenRequestList (htm y)).
Qed.

Lemma token_release_ok h p :
  head (m_commitTokenRequestList h) = Some p ->
  exists rest, m_commitTokenRequestList h = [] ++ p :: rest /\
    releaseCommitToken p h = Ok (tt, h <| m_commitTokenRequestList := rest |>).
Proof.
  intros E. unfold releaseCommitToken, bind, gets.
  destruct (m_commitTokenRequestList h) as [|x rest]; [done|].
  injection E as ->. exists rest. split; [done|]. cbn. unfold massert.
  by rewrite Z.eqb_refl.
Qed.

Lemma token_commit_ok y p c :
  policy = Policy.token -> procs_ok y -> token_inv y -> procs y !! p = Some c ->
  enabled c EvCommit ->
  exists h', proc_event y p c EvCommit = Ok (idle, h') /\
    token_post (htm y) h' p c idle.
Proof.
  intros Hpol Hy Ht Hp Hv. cbn in Hv. pose proof (Hy p c Hp) as Hc.
  pose proof (token_wf_inv y Hy Ht) as Hwf. destruct Ht as (_ & _ & Hh).
  destruct (token_release_ok (htm y) p (Hh _ _ Hp Hv)) as (rest & El & Er).
  eexists. split; [|by apply (token_remove_post (htm y) p c [] rest)].
  cbn [proc_event]. unfold commitTransaction, bind, gets, massert. cbn [fst].
  rewrite Hv, (po_flags p c Hc Hv), Hpol, String.eqb_refl.
  unfold when, on_htm, zoom. cbn [negb fst snd]. rewrite Er.
  by rewrite IsolationManager.commit_ok.
Qed.

Lemma token_abort_ok y p c :
  policy = Policy.token -> procs_ok y -> token_inv y -> procs y !! p = Some c ->
  exists h', proc_event y p c EvAbort = Ok (idle, h') /\
    token_post (htm y) h' p c idle.
Proof.
  intros Hpol Hy Ht Hp. pose proof (token_wf_inv y Hy Ht) as Hwf.
  destruct Ht as (_ & Hq & Hh). cbn [proc_event].
  unfold restartTransaction, bind, gets. rewrite Hpol, String.eqb_refl.
  unfold when, on_htm, zoom. cbn [fst snd].
  destruct (m_validating (c_arb c)) eqn:Eg.
  - destruct (removeCommitTokenRequest_ok p (htm y) Hwf) as (l1 & l2 & El & Er).
    { apply Hq. exists c. by rewrite Eg, orb_true_r. }
    cbn -[removeCommitTokenRequest]. rewrite Er. eexists. split; [done|].
    by apply token_remove_post.
  - destruct (m_validated (c_arb c)) eqn:Ev.
    + destruct (token_release_ok (htm y) p (Hh _ _ Hp Ev)) as (rest & El & Er).
      cbn -[releaseCommitToken]. rewrite Er. eexists. split; [done|].
      by apply (token_remove_post _ _ _ []).
    + eexists. split; [done|]. apply token_same_post; [done|done|]. split; [|done].
      intros (c0 & E0 & Hb)%Hq. simplify_eq. by rewrite Ev, Eg in Hb.
Qed.

Lemma token_event_ok y p c e :
  policy = Policy.token -> procs_ok y -> token_inv y -> procs y !! p = Some c ->
  enabled c e ->
  exists c' h', proc_event y p c e = Ok (c', h') /\ proc_ok p c' /\
    token_post (htm y) h' p c c'.
Proof.
  intros Hpol Hy Ht Hp He. pose proof (Hy p c Hp) as Hc.
  pose proof (proc_ok_idle p (po_num p c Hc)) as Hidle.
  destruct (is_quiet e) eqn:Hquiet.
  { destruct (quiet_ok y p c e Hc He Hquiet) as (c' & Hr & Hc' & Ha & Hv).
    exists c', (htm y). split_and!; [done|done|].
    pose proof (token_wf_inv y Hy Ht) as Hwf. destruct Ht as (_ & Hq & _).
    apply token_same_post; rewrite ?Ha; [done|done|]. rewrite Hq. split.
    - intros (c0 & E0 & Hb). simplify_eq. by rewrite Hv in Hb.
    - intros E. exists c. by rewrite E, orb_true_r. }
  destruct e; try done.
  - by apply token_validate_ok.
  - destruct (token_commit_ok y p c Hpol Hy Ht Hp He) as (h' & ? & ?). eauto.
  - destruct (token_abort_ok y p c Hpol Hy Ht Hp) as (h' & ? & ?). eauto.
Qed.

(** *** Preservation *)

Lemma procs_ok_insert y p c' h' :
  procs_ok y -> proc_ok p c' -> procs_ok (MkSystem (<[p := c']> (procs y)) h').
Proof.
  intros Hy Hc q d. cbn. intros [[<- <-]|[_ Hd]]%lookup_insert_Some; eauto.
Qed.

Lemma magic_run y p c e :
  policy = Policy.magic -> procs_ok y -> magic_inv y ->
  procs y !! p = Some c -> enabled c e ->
  exists y', run_event p e y = Ok y' /\ procs_ok y' /\ magic_inv y'.
Proof.
  intros Hpol Hy Hm Hp He.
  destruct (magic_event_ok y p c e Hpol Hy Hp He) as (c' & Hr & Hc' & Hno).
  eexists. unfold run_event. rewrite Hp, Hr. split; [done|].
  split; [by apply procs_ok_insert|]. intros q r d1 d2 Hqr. cbn.
  intros [[<- <-]|[Hq1 Hd1]]%lookup_insert_Some
         [[<- <-]|[Hq2 Hd2]]%lookup_insert_Some Hv1 Hv2; [done|..].
  - by apply (Hno Hv1 r d2).
  - by apply (Hno Hv2 q d1).
  - exact (Hm q r d1 d2 Hqr Hd1 Hd2 Hv1 Hv2).
Qed.

Lemma token_run y p c e :
  policy = Policy.token -> procs_ok y -> token_inv y ->
  procs y !! p = Some c -> enabled c e ->
  exists y', run_event p e y = Ok y' /\ procs_ok y' /\ token_inv y'.
Proof.
  intros Hpol Hy Ht Hp He.
  destruct (token_event_ok y p c e Hpol Hy Ht Hp He)
    as (c' & h' & Hr & Hc' & [Hnd Hin Hhd Hot]).
  eexists. unfold run_event. rewrite Hp, Hr. split; [done|].
  split; [by apply procs_ok_insert|]. destruct Ht as (_ & Hq & Hh).
  split_and!; cbn; [done| |].
  - intros q. rewrite Hin. case_decide as E.
    + subst. rewrite lookup_insert_eq. naive_solver.
    + rewrite lookup_insert_ne by done. apply Hq.
  - intros q d [[<- <-]|[Hne Hd]]%lookup_insert_Some Hv; [by apply Hhd|].
    apply Hot; [done|]. by eapply Hh.
Qed.

Lemma lookup_init n p c : procs (init n) !! p = Some c -> c = idle /\ 0 <= p < n.
Proof.
  intros H%elem_of_list_to_map_2. apply list_elem_of_fmap in H as (q & E & Hq).
  apply elem_of_seqZ in Hq. simplify_eq. split; [done|lia].
Qed.

Lemma procs_ok_init n : procs_ok (init n).
Proof. intros p c [-> Hp]%lookup_init. apply proc_ok_idle. lia. Qed.

Lemma token_inv_init n : token_inv (init n).
Proof.
  split; [constructor|]. split.
  - intros p. cbn. split; [by intros ?%elem_of_nil|].
    by intros (c & [-> _]%lookup_init & ?).
  - by intros p c [-> _]%lookup_init.
Qed.

End system.

(** C11: magic arbitration lets only conflict-free transactions commit
    together.  In every state reachable from idle processors, two validated
    committers are free of conflicts: no line buffered for writing by one is
    in the read set or the buffered write set of the other; and every event a
    processor can do runs without failing an assertion. *)
Theorem magic_commits_conflict_free `{RS : RubySystem} n y :
  rtc (step Policy.magic) (init n) y ->
  (forall p q c d, p <> q -> procs y !! p = Some c -> procs y !! q = Some d ->
     m_validated (c_arb c) = true -> m_validated (c_arb d) = true ->
     no_conflict c d) /\
  (forall p c e, procs y !! p = Some c -> enabled c e ->
     exists y', run_event Policy.magic p e y = Ok y').
Proof.
  intros Hr.
  assert (procs_ok y /\ magic_inv y) as [Hy Hm].
  { apply (rtc_inv _ (fun y => procs_ok y /\ magic_inv y) _ _ Hr); clear.
    - split; [apply procs_ok_init|].
      by intros p q c d _ [-> _]%lookup_init [-> _]%lookup_init.
    - intros y z [Hy Hm] Hyz. destruct Hyz as [y p c e z Hp He Hz].
      destruct (magic_run Policy.magic y p c e) as (z' & Hz' & ?); try done.
      rewrite Hz in Hz'. by injection Hz' as <-. }
  split; [exact Hm|]. intros p c e Hp He.
  destruct (magic_run Policy.magic y p c e) as (y' & Hy' & _); eauto.
Qed.

(** C12: the commit token serialises commits.  In every state reachable from
    idle processors at most one processor is validated, it is the owner of
    the token, the queue holds every processor in arbitration exactly once,
    and every event a processor can do runs without failing an assertion. *)
Theorem token_commits_exclusive `{RS : RubySystem} n y :
  rtc (step Policy.token) (init n) y ->
  (forall p q c d, procs y !! p = Some c -> procs y !! q = Some d ->
     m_validated (c_arb c) = true -> m_validated (c_arb d) = true -> p = q) /\
  (forall p c, procs y !! p = Some c -> m_validated (c_arb c) = true ->
     getTokenOwner (htm y) = p) /\
  NoDup (m_commitTokenRequestList (htm y)) /\
  (forall p c, procs y !! p = Some c ->
     existCommitTokenRequest p (htm y) =
     m_validated (c_arb c) || m_validating (c_arb c)) /\
  (forall p c e, procs y !! p = Some c -> enabled c e ->
     exists y', run_event Policy.token p e y = Ok y').
Proof.
  intros Hr.
  assert (procs_ok y /\ token_inv y) as [Hy Ht].
  { apply (rtc_inv _ (fun y => procs_ok y /\ token_inv y) _ _ Hr); clear.
    - split; [apply procs_ok_init|apply token_inv_init].
    - intros y z [Hy Hm] Hyz. destruct Hyz as [y p c e z Hp He Hz].
      destruct (token_run Policy.token y p c e) as (z' & Hz' & ?); try done.
      rewrite Hz in Hz'. by injection Hz' as <-. }
  pose proof Ht as (Hnd & Hq & Hh). split_and!.
  - intros p q c d Hp Hd Hv1 Hv2. pose proof (Hh _ _ Hp Hv1).
    pose proof (Hh _ _ Hd Hv2). congruence.
  - intros p c Hp Hv. apply Z.eqb_eq, getTokenOwner_head; eauto. by apply (Hy p c).
  - done.
  - intros p c Hp. apply eq_true_iff_eq. rewrite existCommitTokenRequest_spec, Hq.
    split; [|eauto]. intros (c' & E & ?). by simplify_eq.
  - intros p c e Hp He.
    destruct (token_run Policy.token y p c e) as (y' & Hy' & _); eauto.
Qed.

(** ** A run of two processors *)

(** Runs the events in order, each one of the given processor. *)
Fixpoint run_events `{RubySystem} (policy : string) (l : list (Z * event))
    (y : System) : res System :=
  match l with
  | [] => Ok y
  | (p, e) :: l => let? y := run_event policy p e y in run_events policy l y
  end.

(** Whether the event is enabled, as a computation. *)
Definition enabledb (c : Committer) (e : event) : bool :=
  match e with
  | EvBegin => c_level c =? 0
  | EvLoad addr => negb (m_validated (c_arb c)) && is_u64 addr
  | EvStore addr =>
      negb (m_validated (c_arb c)) && (c_level c =? 1) && is_u64 addr
  | EvValidate => negb (m_validated (c_arb c)) && (c_level c =? 1)
  | EvCommit => m_validated (c_arb c)
  | EvAbort => c_level c =? 1
  end.

Fixpoint all_enabled `{RubySystem} (policy : string) (l : list (Z * event))
    (y : System) : bool :=
  match l with
  | [] => true
  | (p, e) :: l =>
      match procs y !! p with
      | None => false
      | Some c => enabledb c e &&
          match run_event policy p e y with
          | Ok y => all_enabled policy l y
          | Err _ => false
          end
      end
  end.

Lemma enabledb_spec c e : enabledb c e = true -> enabled c e.
Proof.
  unfold enabledb, enabled, is_u64.
  destruct e; rewrite ?andb_true_iff, ?negb_true_iff; try lia; intuition lia.
Qed.

Lemma run_events_rtc `{RubySystem} policy l y y' :
  all_enabled policy l y = true -> run_events policy l y = Ok y' ->
  rtc (step policy) y y'.
Proof.
  revert y. induction l as [|[p e] l IH]; intros y; cbn.
  - by intros _ [= ->].
  - destruct (procs y !! p) as [c|] eqn:Hp; [|done].
    intros [He Hl]%andb_true_iff.
    destruct (run_event policy p e y) as [y1|] eqn:E; [|done]. cbn. intros Hr.
    apply rtc_l with y1; [|auto]. econstructor; eauto using enabledb_spec.
Qed.

(** Both begin; 0 writes line 64 and reads 128, 1 writes 192; both validate. *)
Definition demo_run : list (Z * event) :=
  [(0, EvBegin); (1, EvBegin); (0, EvStore 70); (0, EvLoad 130);
   (1, EvStore 200); (0, EvValidate); (1, EvValidate)].

Definition demo_final (policy : string) : System :=
  match run_events (H := ruby64) policy demo_run (init 2) with
  | Ok y => y
  | Err _ => init 0
  end.

Definition demo_proc (policy : string) (p : Z) : Committer :=
  default idle (procs (demo_final policy) !! p).

Lemma magic_commits_conflict_free_witness :
  m_validated (c_arb (demo_proc Policy.magic 0)) = true /\
  m_validated (c_arb (demo_proc Policy.magic 1)) = true /\
  no_conflict (demo_proc Policy.magic 0) (demo_proc Policy.magic 1).
Proof.
  split; [vm_compute; reflexivity|]. split; [vm_compute; reflexivity|].
  apply (proj1 (magic_commits_conflict_free (RS := ruby64) 2
    (demo_final Policy.magic)
    (run_events_rtc (H := ruby64) Policy.magic demo_run (init 2)
       (demo_final Policy.magic) ltac:(vm_compute; reflexivity)
       ltac:(vm_compute; reflexivity))) 0 1);
    [discriminate|vm_compute; reflexivity..].
Defined.

Lemma token_commits_exclusive_witness :
  m_validated (c_arb (demo_proc Policy.token 0)) = true /\
  m_validating (c_arb (demo_proc Policy.token 1)) = true /\
  getTokenOwner (htm (demo_final Policy.token)) = 0.
Proof.
  split; [vm_compute; reflexivity|]. split; [vm_compute; reflexivity|].
  apply (proj1 (proj2 (token_commits_exclusive (RS := ruby64) 2
    (demo_final Policy.token)
    (run_events_rtc (H := ruby64) Policy.token demo_run (init 2)
       (demo_final Policy.token) ltac:(vm_compute; reflexivity)
       ltac:(vm_compute; reflexivity)))) 0 (demo_proc Policy.token 0));
    vm_compute; reflexivity.
Defined.
