(* ===== verification/EagerVM.v ===== *)
(** * Eager version management: the undo log

    [mem/ruby/htm/EagerTransactionVersionManager.cc] (log set-up, translation
    and indexing), the log layout and the software unroll of
    [gem5_path/benchmarks/libs/htmrt/logtm.h], and the two log writes that
    [TransactionalSequencer::buildLogPackets] creates for a logged block. *)

From S2P Require Import Prelude Address.
From S2P Require DataBlock.
Import DataBlock (DataBlock).

(** ** Log layout ([logtm.h]) *)

Definition LOG_PAGE_SIZE_BYTES : Z := 4096.
Definition LOG_CACHE_BLOCK_SIZE : Z := 64.
Definition LOG_ENTRIES_PER_PAGE : Z := 56.
Definition MAX_LOG_SIZE_PAGES : Z := Z.shiftl 1 8.
Definition MAX_LOG_SIZE_BYTES : Z := LOG_PAGE_SIZE_BYTES * MAX_LOG_SIZE_PAGES.
Definition PAGE_MASK : Z := u64_not (LOG_PAGE_SIZE_BYTES - 1).
Definition PAGE_OFFSET_MASK : Z := LOG_PAGE_SIZE_BYTES - 1.
Definition GET_PAGE_OFFSET (addr : Z) : Z := Z.land addr PAGE_OFFSET_MASK.

Definition logtm_compute_addr_ptr_from_data_ptr (dataLogPtr : Z) : res Z :=
  let pageAddr := Z.land dataLogPtr PAGE_MASK in
  let pageOffset := Z.land dataLogPtr PAGE_OFFSET_MASK in
  let entryIndex := pageOffset / LOG_CACHE_BLOCK_SIZE in
  let? _ := rassert (pageOffset <? LOG_ENTRIES_PER_PAGE * LOG_CACHE_BLOCK_SIZE) in
  let? _ := rassert (pageOffset mod LOG_CACHE_BLOCK_SIZE =? 0) in
  Ok (Z.lor pageAddr (LOG_PAGE_SIZE_BYTES - (entryIndex + 1) * 8)).

(** [LOGTM_COMPUTE_DATA_LOG_POINTER_OFFSET] and its address twin. *)
Definition data_log_offset (numEntries : Z) : Z :=
  numEntries / LOG_ENTRIES_PER_PAGE * LOG_PAGE_SIZE_BYTES +
  numEntries mod LOG_ENTRIES_PER_PAGE * LOG_CACHE_BLOCK_SIZE.

Definition addr_log_offset (numEntries : Z) : Z :=
  numEntries / LOG_ENTRIES_PER_PAGE * LOG_PAGE_SIZE_BYTES +
  LOG_PAGE_SIZE_BYTES - (numEntries mod LOG_ENTRIES_PER_PAGE + 1) * 8.

Definition logtm_compute_data_log_pointer (logBase numEntries : Z) : Z :=
  let pageIndex := numEntries / LOG_ENTRIES_PER_PAGE in
  let entryIndex := numEntries mod LOG_ENTRIES_PER_PAGE in
  u64 (logBase + pageIndex * LOG_PAGE_SIZE_BYTES +
       entryIndex * LOG_CACHE_BLOCK_SIZE).

Definition logtm_compute_addr_log_pointer (logBase numEntries : Z) : Z :=
  let pageIndex := numEntries / LOG_ENTRIES_PER_PAGE in
  let entryIndex := numEntries mod LOG_ENTRIES_PER_PAGE in
  u64 (logBase + pageIndex * LOG_PAGE_SIZE_BYTES +
       (LOG_PAGE_SIZE_BYTES - (entryIndex + 1) * 8)).

(** Memory as 64-bit words at byte addresses. *)
Notation Mem := (gmap Z Z).
Definition mread (m : Mem) (a : Z) : Z := default 0 (m !! a).

(** The inner loop: the eight words of a logged block go back. *)
Definition restore_block (m : Mem) (address data_log_ptr : Z) : Mem :=
  fold_left (fun m k => <[address + 8 * k := mread m (data_log_ptr + 8 * k)]> m)
    (seqZ 0 (LOG_CACHE_BLOCK_SIZE / 8)) m.

(** The [while (1)] of [logtm_log_unroll], with [log_size = n]. *)
Fixpoint unroll_loop (n : nat) (log_base data_log_ptr addr_log_ptr : Z) (m : Mem)
    : Mem :=
  let address := mread m addr_log_ptr in
  let m := restore_block m address data_log_ptr in
  match n with
  | O => m
  | S n' =>
      if GET_PAGE_OFFSET data_log_ptr =? 0 then
        unroll_loop n' log_base (log_base + data_log_offset (Z.of_nat n'))
          (log_base + addr_log_offset (Z.of_nat n')) m
      else
        unroll_loop n' log_base (data_log_ptr - LOG_CACHE_BLOCK_SIZE)
          (addr_log_ptr + 8) m
  end.

Definition logtm_log_unroll (log_base : Z) (log_size : nat) (m : Mem) : Mem :=
  match log_size with
  | O => m
  | S n =>
      unroll_loop n log_base (log_base + data_log_offset (Z.of_nat n))
        (log_base + addr_log_offset (Z.of_nat n)) m
  end.

(** ** The version manager *)

Inductive LogInitStatus := Invalid | BaseAddress | V2PTranslations | Ready.

#[global] Instance LogInitStatus_eq_dec : EqDecision LogInitStatus.
Proof. solve_decision. Defined.

Record EagerVM := MkEagerVM {
  m_initStatus : LogInitStatus;
  m_logBaseVAddr : Z;
  m_logTLB : gmap Z Z;
  m_logNumEntries : Z
}.

#[global] Instance eta_EagerVM : Eta EagerVM := fun s =>
  MkEagerVM (m_initStatus s) (m_logBaseVAddr s) (m_logTLB s) (m_logNumEntries s).

(** The base address is not set by the constructor. *)
Definition EagerVM_init (garbage : Z) : EagerVM := MkEagerVM Invalid garbage ∅ 0.

Definition beginTransaction : M EagerVM unit :=
  let* s := get in
  do* massert (m_logNumEntries s =? 0);
  do* massert (bool_decide (m_initStatus s = Ready));
  massert (negb (emptyb (m_logTLB s))).

Definition restartTransaction : M EagerVM unit := set! m_logNumEntries := 0.

Definition commitTransaction : M EagerVM unit := set! m_logNumEntries := 0.

Definition isReady (s : EagerVM) : bool := bool_decide (m_initStatus s = Ready).

Definition isAccessToLog (addr : Z) (s : EagerVM) : bool :=
  if decide (m_initStatus s = Invalid) then false
  else (m_logBaseVAddr s <=? addr) &&
       (addr <? u64 (m_logBaseVAddr s + MAX_LOG_SIZE_BYTES)).

Definition setupLogTranslation (vaddr paddr : Z) : M EagerVM unit :=
  let* s := get in
  do* (if decide (m_initStatus s = BaseAddress) then
         do* massert (emptyb (m_logTLB s));
         massert (m_logBaseVAddr s =? vaddr)
       else massert (bool_decide (m_initStatus s = V2PTranslations)));
  do* set! m_initStatus := V2PTranslations;
  do* (match m_logTLB s !! vaddr with
       | Some p => massert (p =? paddr)
       | None => ret tt
       end);
  do* upd! m_logTLB ::= (<[vaddr := paddr]>);
  when (u64 (vaddr + LOG_PAGE_SIZE_BYTES) =?
        u64 (m_logBaseVAddr s + MAX_LOG_SIZE_BYTES))
    (set! m_initStatus := Ready).

Definition setLogBaseVirtualAddress (addr : Z) : M EagerVM unit :=
  let* s := get in
  if decide (m_initStatus s = Invalid) then
    do* set! m_initStatus := BaseAddress;
    set! m_logBaseVAddr := addr
  else massert (m_logBaseVAddr s =? addr).

Definition computeLogDataPointer (numEntries : Z) (s : EagerVM) : res Z :=
  let? _ := rassert ((0 <=? numEntries) &&
                     (numEntries <? MAX_LOG_SIZE_PAGES * LOG_ENTRIES_PER_PAGE)) in
  Ok (logtm_compute_data_log_pointer (m_logBaseVAddr s) numEntries).

Definition translateLogAddress (vaddr : Z) (s : EagerVM) : res Z :=
  let vpageAddr := Z.land vaddr PAGE_MASK in
  let pageOffset := Z.land vaddr (u64_not PAGE_MASK) in
  match m_logTLB s !! vpageAddr with
  | None => Err EAssert
  | Some ppageAddr => Ok (Z.lor ppageAddr pageOffset)
  end.

(** Post-increment: returns the index of the new entry. *)
Definition addLogEntry : M EagerVM Z :=
  let* s := get in
  do* massert (bool_decide (m_initStatus s = Ready));
  let* n := lift (int_add (m_logNumEntries s) 1) in
  do* set! m_logNumEntries := n;
  ret (m_logNumEntries s).

Definition getLogNumEntries (s : EagerVM) : res Z :=
  let? _ := rassert (bool_decide (m_initStatus s = Ready)) in
  Ok (m_logNumEntries s).

Definition LOG_UNROLL_END_SIGNAL : Z := 0xDEADC0DEBAADCAFE.

(** The packet's virtual address, whether it writes, and its first word. *)
Definition isEndLogUnrollSignal (vaddr : option Z) (isWrite : bool) (data : Z)
    (s : EagerVM) : res bool :=
  match vaddr with
  | None => Err EAssert
  | Some v =>
      if v =? m_logBaseVAddr s then
        if isWrite then
          let? _ := rassert (data =? LOG_UNROLL_END_SIGNAL) in Ok true
        else Ok false
      else Ok false
  end.

Definition shutdownLog : M EagerVM unit :=
  let* s := get in
  do* massert (bool_decide (m_initStatus s = Ready));
  do* set! m_initStatus := Invalid;
  set! m_logTLB := ∅.

(** ** The two log writes of a block
    ([TransactionalSequencer::buildLogPackets]) *)

Record LogRequestInfo := MkLogRequestInfo {
  logAddressPtr : Z;      (* physical address of the address entry *)
  logAddressValue : Z;    (* virtual line address stored there *)
  logDataPtr : Z;         (* physical address of the data entry *)
  logDataValue : list Z;  (* old contents of the line *)
  logIndex : Z
}.

Definition buildLogPackets `{RubySystem} (req_vaddr : Z) (datablock : DataBlock)
    : M EagerVM LogRequestInfo :=
  let* idx := addLogEntry in
  let* s := get in
  let* vptr := lift (computeLogDataPointer idx s) in
  let* dptr := lift (translateLogAddress vptr s) in
  do* massert (dptr =? makeLineAddress dptr);
  let* aptr := lift (logtm_compute_addr_ptr_from_data_ptr dptr) in
  if makeLineAddress dptr =? makeLineAddress aptr then panic
  else
    do* massert (makeLineAddress dptr =? dptr);
    let* d := lift (DataBlock.getData datablock 0 getBlockSizeBytes) in
    ret (MkLogRequestInfo aptr (makeLineAddress req_vaddr) dptr d idx).

(** ** Pages *)

Lemma page_addr v : 0 <= v < 2 ^ 64 -> Z.land v PAGE_MASK = v - v mod 4096.
Proof.
  intros Hv. change 4096 with (2 ^ 12). rewrite <- mbits_high by lia.
  unfold mbits. f_equal.
Qed.

Lemma page_offset v : Z.land v PAGE_OFFSET_MASK = v mod 4096.
Proof.
  change PAGE_OFFSET_MASK with (Z.ones 12). by rewrite Z.land_ones.
Qed.

Lemma page_offset' v : Z.land v (u64_not PAGE_MASK) = v mod 4096.
Proof. rewrite <- page_offset. f_equal. Qed.

Lemma lor_page p o : p mod 4096 = 0 -> 0 <= o < 4096 -> Z.lor p o = p + o.
Proof.
  intros Hp Ho. rewrite <- Z.lxor_lor; [rewrite <- Z.add_nocarry_lxor; [done|]|];
    (apply Z.bits_inj'; intros i Hi; rewrite Z.land_spec, Z.bits_0;
     destruct (Z.lt_ge_cases i 12);
     [rewrite <- (Z.mod_pow2_bits_low p 12) by lia;
      change (2 ^ 12) with 4096; by rewrite Hp, Z.bits_0
     |rewrite <- (Z.mod_small o (2 ^ 12)) by (change (2 ^ 12) with 4096; lia);
      rewrite Z.mod_pow2_bits_high by lia; apply andb_false_r]).
Qed.

(** ** Where the entries lie *)

Definition MAX_ENTRIES : Z := MAX_LOG_SIZE_PAGES * LOG_ENTRIES_PER_PAGE.

Lemma offsets_eq i :
  data_log_offset i = i / 56 * 4096 + i mod 56 * 64 /\
  addr_log_offset i = i / 56 * 4096 + 4096 - (i mod 56 + 1) * 8.
Proof. done. Qed.

Lemma index_bounds i :
  0 <= i < MAX_ENTRIES -> 0 <= i / 56 < 256 /\ 0 <= i mod 56 < 56.
Proof.
  intros Hi. change MAX_ENTRIES with 14336 in Hi.
  split; [|apply Z.mod_pos_bound; lia].
  split; [apply Z.div_pos; lia|apply Z.div_lt_upper_bound; lia].
Qed.

Lemma index_neq i j : i <> j -> i / 56 <> j / 56 \/ i mod 56 <> j mod 56.
Proof.
  intros Hne. destruct (decide (i / 56 = j / 56)); [right|by left].
  intros E. apply Hne. rewrite (Z.div_mod i 56), (Z.div_mod j 56) by lia. lia.
Qed.

(** Data entries, address entries and both lie in the log and never
    overlap. *)
Lemma entries_disjoint i j :
  0 <= i < MAX_ENTRIES -> 0 <= j < MAX_ENTRIES ->
  (0 <= data_log_offset i /\ data_log_offset i + 64 <= addr_log_offset i /\
   addr_log_offset i + 8 <= MAX_LOG_SIZE_BYTES) /\
  (i <> j ->
   (data_log_offset i + 64 <= data_log_offset j \/
    data_log_offset j + 64 <= data_log_offset i) /\
   (addr_log_offset i + 8 <= addr_log_offset j \/
    addr_log_offset j + 8 <= addr_log_offset i)) /\
  (data_log_offset i + 64 <= addr_log_offset j \/
   addr_log_offset j + 8 <= data_log_offset i).
Proof.
  intros Hi Hj. destruct (offsets_eq i) as [-> ->], (offsets_eq j) as [-> ->].
  pose proof (index_bounds i Hi). pose proof (index_bounds j Hj).
  change MAX_LOG_SIZE_BYTES with 1048576.
  split; [lia|]. split; [intros Hne; apply index_neq in Hne; lia|lia].
Qed.

Lemma entries_aligned i :
  data_log_offset i mod 64 = 0 /\ addr_log_offset i mod 8 = 0.
Proof.
  destruct (offsets_eq i) as [-> ->]. split.
  - replace (i / 56 * 4096 + i mod 56 * 64) with ((i / 56 * 64 + i mod 56) * 64) by lia.
    apply Z.mod_mul. lia.
  - replace (i / 56 * 4096 + 4096 - (i mod 56 + 1) * 8)
      with ((i / 56 * 512 + 512 - (i mod 56 + 1)) * 8) by lia.
    apply Z.mod_mul. lia.
Qed.

(** ** The unroll restores memory *)

Definition block (w : Z) : Z := w - w mod 64.

Definition in_log (base w : Z) : Prop := base <= w < base + MAX_LOG_SIZE_BYTES.

(** A logged block: its address and its eight old words. *)
Notation entry := (Z * (Z -> Z))%type.

(** The value a word gets back: that of the oldest entry of its block. *)
Definition restored (es : list entry) (m : Mem) (w : Z) : Z :=
  match find (fun e : entry => e.1 =? block w) es with
  | Some e => e.2 ((w - e.1) / 8)
  | None => mread m w
  end.

(** The log cells of [m] hold the entries [es]. *)
Definition holds (base : Z) (es : list entry) (m : Mem) : Prop :=
  forall i e, es !! i = Some e ->
    mread m (base + addr_log_offset (Z.of_nat i)) = e.1 /\
    forall k, 0 <= k < 8 ->
      mread m (base + data_log_offset (Z.of_nat i) + 8 * k) = e.2 k.

(** The blocks of the program: aligned and outside the log. *)
Definition target (base a : Z) : Prop := a mod 64 = 0 /\ ~ in_log base a.

Lemma block_words a w :
  a mod 64 = 0 -> w mod 8 = 0 ->
  (a = block w <-> exists k, 0 <= k < 8 /\ w = a + 8 * k).
Proof.
  intros Ha Hw. unfold block.
  pose proof (Z.mod_pos_bound w 64 ltac:(lia)).
  apply Z.div_exact in Ha; [|lia]. apply Z.div_exact in Hw; [|lia]. split.
  - intros E. exists ((w - a) / 8).
    assert (w - a = 8 * (w / 8 - 8 * (a / 64))) as E' by lia.
    rewrite E', Z.mul_comm, Z.div_mul by lia. lia.
  - intros (k & Hk & E). assert (w mod 64 = 8 * k); [|lia].
    symmetry. apply (Z.mod_unique_pos w 64 (a / 64)); lia.
Qed.

Lemma restore_words_ok a d l m w :
  (forall j k, 0 <= j < 8 -> 0 <= k < 8 -> a + 8 * j <> d + 8 * k) ->
  (forall k, k ∈ l -> 0 <= k < 8) -> NoDup l ->
  let m' := fold_left (fun m k => <[a + 8 * k := mread m (d + 8 * k)]> m) l m in
  (forall k, k ∈ l -> w = a + 8 * k -> mread m' w = mread m (d + 8 * k)) /\
  ((forall k, k ∈ l -> w <> a + 8 * k) -> mread m' w = mread m w).
Proof.
  intros Hd. revert m. induction l as [|j l IH]; intros m Hl Hnd; cbn.
  { split; [set_solver|done]. }
  apply NoDup_cons in Hnd as [Hj Hnd].
  destruct (IH (<[a + 8 * j := mread m (d + 8 * j)]> m)) as [H1 H2];
    [set_solver|done|].
  pose proof (Hl j ltac:(set_solver)) as Hjr. split.
  - intros k [->|Hk]%elem_of_cons Hw.
    + rewrite H2.
      * unfold mread. subst w. by rewrite lookup_insert_eq.
      * intros k Hk. subst w. intros E. assert (j = k) as -> by lia. done.
    + rewrite (H1 k Hk Hw). unfold mread. rewrite lookup_insert_ne; [done|].
      apply Hd; [done|]. apply Hl. set_solver.
  - intros Hne. rewrite H2 by set_solver. unfold mread.
    rewrite lookup_insert_ne; [done|]. apply not_eq_sym, Hne. set_solver.
Qed.

Lemma restore_block_ok m a d w :
  a mod 64 = 0 -> w mod 8 = 0 -> (a + 64 <= d \/ d + 64 <= a) ->
  mread (restore_block m a d) w =
  if a =? block w then mread m (d + (w - a)) else mread m w.
Proof.
  intros Ha Hw Hd. unfold restore_block.
  destruct (restore_words_ok a d (seqZ 0 (LOG_CACHE_BLOCK_SIZE / 8)) m w)
    as [H1 H2].
  - intros j k ? ?. lia.
  - intros k. rewrite elem_of_seqZ. change (LOG_CACHE_BLOCK_SIZE / 8) with 8. lia.
  - apply NoDup_seqZ.
  - pose proof (block_words a w Ha Hw) as Hb. destruct (Z.eqb_spec a (block w)) as [E|E].
    + apply Hb in E as (k & Hk & Hwk). rewrite (H1 k); [| |done].
      2:{ apply elem_of_seqZ. change (LOG_CACHE_BLOCK_SIZE / 8) with 8. lia. }
     
      f_equal. lia.
    + apply H2. intros k Hk%elem_of_seqZ Hwk. apply E, Hb. exists k.
      split; [|done]. change (LOG_CACHE_BLOCK_SIZE / 8) with 8 in Hk. lia.
Qed.

Section unroll.
Context (base : Z) (base_aligned : base mod 4096 = 0).

Lemma base_mod d : d ∈ [8; 64] -> base mod d = 0.
Proof.
  intros Hd. apply Z.div_exact in base_aligned; [|lia]. rewrite base_aligned.
  apply elem_of_cons in Hd as [->|[->|[]%elem_of_nil]%elem_of_cons].
  - replace (4096 * (base / 4096)) with (512 * (base / 4096) * 8) by lia.
    by apply Z.mod_mul.
  - replace (4096 * (base / 4096)) with (64 * (base / 4096) * 64) by lia.
    by apply Z.mod_mul.
Qed.

Lemma target_apart a w : target base a -> in_log base w -> a <> block w.
Proof.
  intros [_ Ha] [Hw1 Hw2] ->. apply Ha. unfold in_log, block in *.
  pose proof (Z.mod_pos_bound w 64 ltac:(lia)).
  pose proof (base_mod 64 ltac:(set_solver)) as Hb.
  apply Z.div_exact in Hb; [|lia].
  pose proof (Z.div_mod w 64 ltac:(lia)).
  assert (base / 64 <= w / 64) by (apply Z.div_le_mono; lia). lia.
Qed.

Lemma target_data a i :
  target base a -> 0 <= i < MAX_ENTRIES ->
  a + 64 <= base + data_log_offset i \/ base + data_log_offset i + 64 <= a.
Proof.
  intros [Ha Hn] Hi. unfold in_log in Hn.
  destruct (entries_disjoint i i Hi Hi) as [(? & ? & ?) _].
  destruct (entries_aligned i) as [Hd _].
  pose proof (base_mod 64 ltac:(set_solver)) as Hb.
  apply Z.div_exact in Ha; [|lia]. apply Z.div_exact in Hb; [|lia].
  apply Z.div_exact in Hd; [|lia]. lia.
Qed.

Lemma cell_aligned i k :
  (base + data_log_offset i + 8 * k) mod 8 = 0 /\ (base + addr_log_offset i) mod 8 = 0.
Proof.
  destruct (entries_aligned i) as [H1 H2].
  pose proof (base_mod 8 ltac:(set_solver)) as Hb.
  apply Z.div_exact in H1; [|lia]. apply Z.div_exact in H2; [|lia].
  apply Z.div_exact in Hb; [|lia]. split.
  - replace (base + data_log_offset i + 8 * k)
      with ((base / 8 + 8 * (data_log_offset i / 64) + k) * 8) by lia.
    by apply Z.mod_mul.
  - replace (base + addr_log_offset i)
      with ((base / 8 + addr_log_offset i / 8) * 8) by lia.
    by apply Z.mod_mul.
Qed.

Lemma cell_in_log i k :
  0 <= i < MAX_ENTRIES -> 0 <= k < 8 ->
  in_log base (base + data_log_offset i + 8 * k) /\
  in_log base (base + addr_log_offset i).
Proof.
  intros Hi Hk. destruct (entries_disjoint i i Hi Hi) as [(? & ? & ?) _].
  unfold in_log. lia.
Qed.

(** Restoring one entry. *)
Lemma restore_entry_ok es m i e :
  holds base es m -> es !! i = Some e -> target base e.1 ->
  Z.of_nat (length es) <= MAX_ENTRIES ->
  let m' := restore_block m e.1 (base + data_log_offset (Z.of_nat i)) in
  holds base es m' /\
  forall w, w mod 8 = 0 ->
    mread m' w = if e.1 =? block w then e.2 ((w - e.1) / 8) else mread m w.
Proof.
  intros Hh He Ht Hlen m'. pose proof (lookup_lt_Some _ _ _ He) as Hi.
  assert (forall w, w mod 8 = 0 -> mread m' w =
    if e.1 =? block w then mread m (base + data_log_offset (Z.of_nat i) + (w - e.1))
    else mread m w) as Hm'.
  { intros w Hw. apply restore_block_ok; [apply Ht|done|].
    apply target_data; [done|]. lia. }
  split.
  - intros j f Hf. pose proof (lookup_lt_Some _ _ _ Hf) as Hj.
    destruct (Hh j f Hf) as [H1 H2]. split.
    + destruct (cell_aligned (Z.of_nat j) 0) as [_ Ha]. rewrite Hm' by done.
      destruct (cell_in_log (Z.of_nat j) 0) as [_ Hl]; [lia|lia|].
      by rewrite (proj2 (Z.eqb_neq _ _) (target_apart _ _ Ht Hl)).
    + intros k Hk. destruct (cell_aligned (Z.of_nat j) k) as [Ha _].
      rewrite Hm' by done.
      destruct (cell_in_log (Z.of_nat j) k) as [Hl _]; [lia|lia|].
      rewrite (proj2 (Z.eqb_neq _ _) (target_apart _ _ Ht Hl)). auto.
  - intros w Hw. rewrite Hm' by done. destruct (Z.eqb_spec e.1 (block w)) as [E|]; [|done].
    apply (block_words e.1 w (proj1 Ht) Hw) in E as (k & Hk & ->).
    replace (e.1 + 8 * k - e.1) with (k * 8) by lia.
    rewrite Z.div_mul by lia. destruct (Hh i e He) as [_ H2].
    rewrite <- H2 by done. f_equal. lia.
Qed.

Lemma restored_snoc es e m w :
  restored (es ++ [e]) m w =
  match find (fun e : entry => e.1 =? block w) es with
  | Some f => f.2 ((w - f.1) / 8)
  | None => if e.1 =? block w then e.2 ((w - e.1) / 8) else mread m w
  end.
Proof.
  unfold restored. induction es as [|f es IH]; cbn.
  - by destruct (e.1 =? block w).
  - by destruct (f.1 =? block w).
Qed.

(** The pointers that the loop steps are those of the previous entry. *)
Lemma previous_entry n :
  0 <= n -> n + 1 < MAX_ENTRIES ->
  GET_PAGE_OFFSET (base + data_log_offset (n + 1)) <> 0 ->
  data_log_offset (n + 1) - 64 = data_log_offset n /\
  addr_log_offset (n + 1) + 8 = addr_log_offset n.
Proof.
  intros Hn Hmax Hp. unfold GET_PAGE_OFFSET in Hp. rewrite page_offset in Hp.
  destruct (offsets_eq (n + 1)) as [E1 E2], (offsets_eq n) as [E3 E4].
  rewrite E1, E2, E3, E4 in *. clear E1 E2 E3 E4.
  assert ((n + 1) mod 56 <> 0) as Hr.
  { intros E. apply Hp. rewrite E.
    replace (base + ((n + 1) / 56 * 4096 + 0 * 64))
      with (base + (n + 1) / 56 * 4096) by lia.
    by rewrite Z.mod_add. }
  assert ((n + 1) / 56 = n / 56 /\ (n + 1) mod 56 = n mod 56 + 1) as [-> ->]; [|lia].
  pose proof (Z.div_mod n 56 ltac:(lia)). pose proof (Z.div_mod (n + 1) 56 ltac:(lia)).
  pose proof (Z.mod_pos_bound n 56 ltac:(lia)).
  pose proof (Z.mod_pos_bound (n + 1) 56 ltac:(lia)). lia.
Qed.

Lemma unroll_loop_ok n es m w :
  (n < length es)%nat -> Z.of_nat (length es) <= MAX_ENTRIES -> holds base es m ->
  Forall (fun e : entry => target base e.1) es -> w mod 8 = 0 ->
  mread (unroll_loop n base (base + data_log_offset (Z.of_nat n))
           (base + addr_log_offset (Z.of_nat n)) m) w
  = restored (take (S n) es) m w.
Proof.
  intros Hn Hlen Hh Ht Hw. revert m Hh. induction n as [|n IH]; intros m Hh;
    (destruct (lookup_lt_is_Some_2 es _ Hn) as [e He];
     assert (target base e.1) as Hte by (by eapply Forall_lookup_1 in Ht);
     destruct (restore_entry_ok es m _ e Hh He Hte Hlen) as [Hh' Hm'];
     cbn [unroll_loop]; destruct (Hh _ _ He) as [Ea _]; rewrite Ea;
     rewrite (take_S_r _ _ _ He), restored_snoc).
  - rewrite Hm' by done. by rewrite take_0.
  - set (m' := restore_block _ _ _) in *.
    replace (Z.of_nat (S n)) with (Z.of_nat n + 1) in * by lia.
    assert (mread (unroll_loop n base (base + data_log_offset (Z.of_nat n))
           (base + addr_log_offset (Z.of_nat n)) m') w = restored (take (S n) es) m' w)
      as IH' by (apply IH; [lia|done]).
    assert (restored (take (S n) es) m' w =
      match find (fun e : entry => e.1 =? block w) (take (S n) es) with
      | Some f => f.2 ((w - f.1) / 8)
      | None => if e.1 =? block w then e.2 ((w - e.1) / 8) else mread m w
      end) as <- by (unfold restored; by rewrite Hm').
    destruct (Z.eqb_spec (GET_PAGE_OFFSET (base + data_log_offset (Z.of_nat n + 1))) 0)
      as [Hp|Hp]; [exact IH'|].
    destruct (previous_entry (Z.of_nat n)) as [E1 E2]; [lia|lia|done|].
    rewrite <- E1, <- E2 in IH'. unfold LOG_CACHE_BLOCK_SIZE.
    rewrite <- IH'. do 2 f_equal; lia.
Qed.

(** ** A transaction with its log

    The effect on memory of the two log writes of block [a] as entry [n]. *)
Definition log_write (n a : Z) (m : Mem) : Mem :=
  <[base + addr_log_offset n := a]> (restore_block m (base + data_log_offset n) a).

Inductive xop :=
| XLog (a : Z)        (* first store to the block [a]: log it *)
| XStore (w v : Z).   (* a store to a logged block *)

(** Memory and the blocks logged so far. *)
Definition xstep (x : Mem * list Z) (o : xop) : Mem * list Z :=
  match o with
  | XLog a => (log_write (Z.of_nat (length x.2)) a x.1, x.2 ++ [a])
  | XStore w v => (<[w := v]> x.1, x.2)
  end.

Definition xlegal (l : list Z) (o : xop) : Prop :=
  match o with
  | XLog a => target base a /\ Z.of_nat (length l) < MAX_ENTRIES
  | XStore w _ => w mod 8 = 0 /\ block w ∈ l
  end.

Inductive xrun : Mem * list Z -> list xop -> Mem * list Z -> Prop :=
| xrun_nil x : xrun x [] x
| xrun_cons x o os y :
    xlegal x.2 o -> xrun (xstep x o) os y -> xrun x (o :: os) y.

Record xinv (m0 : Mem) (x : Mem * list Z) (es : list entry) : Prop := {
  xi_addrs : map fst es = x.2;
  xi_room : Z.of_nat (length es) <= MAX_ENTRIES;
  xi_holds : holds base es x.1;
  xi_targets : Forall (fun e : entry => target base e.1) es;
  xi_old : forall w, w mod 8 = 0 -> ~ in_log base w ->
    restored es x.1 w = mread m0 w
}.

Lemma data_cell_block i k :
  0 <= k < 8 -> block (base + data_log_offset i + 8 * k) = base + data_log_offset i.
Proof.
  intros Hk. symmetry. apply block_words.
  - destruct (entries_aligned i) as [Hd _].
    pose proof (base_mod 64 ltac:(set_solver)) as Hb.
    by rewrite Z.add_mod, Hd, Hb.
  - apply cell_aligned.
  - by exists k.
Qed.

Lemma log_write_read n a m w :
  0 <= n < MAX_ENTRIES -> target base a -> w mod 8 = 0 ->
  mread (log_write n a m) w =
  if w =? base + addr_log_offset n then a
  else if base + data_log_offset n =? block w
       then mread m (a + (w - (base + data_log_offset n))) else mread m w.
Proof.
  intros Hn Ha Hw. unfold log_write. unfold mread at 1.
  destruct (Z.eqb_spec w (base + addr_log_offset n)) as [->|Hne].
  - by rewrite lookup_insert_eq.
  - rewrite lookup_insert_ne by done. apply restore_block_ok; [|done|].
    + destruct (entries_aligned n) as [Hd _].
      pose proof (base_mod 64 ltac:(set_solver)) as Hb.
      by rewrite Z.add_mod, Hd, Hb.
    + destruct (target_data a n Ha Hn); auto.
Qed.

Lemma log_write_holds es a m :
  holds base es m -> target base a -> Z.of_nat (length es) < MAX_ENTRIES ->
  holds base (es ++ [(a, fun k => mread m (a + 8 * k))])
    (log_write (Z.of_nat (length es)) a m).
Proof.
  intros Hh Ha Hlen i e He. set (n := Z.of_nat (length es)) in *.
  assert (0 <= Z.of_nat i <= n) as Hi.
  { apply lookup_lt_Some in He. rewrite length_app in He. cbn in He. lia. }
  assert (0 <= Z.of_nat i < MAX_ENTRIES) as Hi' by lia.
  assert (0 <= n < MAX_ENTRIES) as Hn by lia.
  destruct (entries_disjoint (Z.of_nat i) n Hi' Hn) as (Hb1 & Hd & Hx1).
  destruct (entries_disjoint n (Z.of_nat i) Hn Hi') as (_ & _ & Hx2).
  assert (forall k, 0 <= k < 8 ->
    base + data_log_offset (Z.of_nat i) + 8 * k <> base + addr_log_offset n) as Hne1 by lia.
  assert (base + data_log_offset n <> block (base + addr_log_offset (Z.of_nat i))) as Hne2.
  { intros E. apply block_words in E as (k & Hk & E); [lia| |].
    - destruct (entries_aligned n) as [Hd' _].
      pose proof (base_mod 64 ltac:(set_solver)) as Hb.
      by rewrite Z.add_mod, Hd', Hb.
    - by apply (cell_aligned _ 0). }
  split.
  - rewrite log_write_read; [|done|done|by apply (cell_aligned _ 0)].
    rewrite (proj2 (Z.eqb_neq (base + data_log_offset n) _) Hne2).
    apply lookup_app_Some in He as [He|[Hge He]].
    + apply lookup_lt_Some in He as Hlt.
      rewrite (proj2 (Z.eqb_neq _ _)) by (destruct Hd; lia). by apply (Hh i e).
    + assert (Z.of_nat i = n) as Ein by lia. rewrite Ein, Z.eqb_refl.
      replace (i - length es)%nat with 0%nat in He by lia. by injection He as <-.
  - intros k Hk. rewrite log_write_read; [|done|done|by apply cell_aligned].
    rewrite (proj2 (Z.eqb_neq _ _) (Hne1 k Hk)), data_cell_block by done.
    apply lookup_app_Some in He as [He|[Hge He]].
    + apply lookup_lt_Some in He as Hlt.
      rewrite (proj2 (Z.eqb_neq _ _)) by (destruct Hd; lia). by apply (Hh i e).
    + assert (Z.of_nat i = n) as Ein by lia. rewrite Ein, Z.eqb_refl.
      replace (i - length es)%nat with 0%nat in He by lia. injection He as <-.
      cbn. f_equal. lia.
Qed.

Lemma log_write_outside n a m w :
  0 <= n < MAX_ENTRIES -> target base a -> w mod 8 = 0 -> ~ in_log base w ->
  mread (log_write n a m) w = mread m w.
Proof.
  intros Hn Ha Hw Hout. rewrite log_write_read by done.
  destruct (Z.eqb_spec w (base + addr_log_offset n)) as [->|].
  { destruct Hout. by apply (cell_in_log n 0). }
  destruct (Z.eqb_spec (base + data_log_offset n) (block w)) as [E|]; [|done].
  destruct Hout. apply block_words in E as (k & Hk & ->).
  - by apply cell_in_log.
  - destruct (entries_aligned n) as [Hd _].
    pose proof (base_mod 64 ltac:(set_solver)) as Hb.
    by rewrite Z.add_mod, Hd, Hb.
  - done.
Qed.

Lemma find_block_Some (es : list entry) w :
  block w ∈ map fst es ->
  exists f, find (fun e : entry => e.1 =? block w) es = Some f.
Proof.
  intros H. destruct (find _ es) as [f|] eqn:E; [by eauto|].
  apply list_elem_of_fmap in H as (e & Ee & He). exfalso.
  apply list_elem_of_In in He. apply (find_none _ _ E) in He.
  rewrite Ee in He. cbn in He. by rewrite Z.eqb_refl in He.
Qed.

Lemma xinv_log m0 x es a :
  xinv m0 x es -> xlegal x.2 (XLog a) ->
  xinv m0 (xstep x (XLog a)) (es ++ [(a, fun k => mread x.1 (a + 8 * k))]).
Proof.
  intros [Had Hroom Hh Ht Hold] [Ha Hlen]. rewrite <- Had, length_map in Hlen.
  split; cbn.
  - by rewrite map_app, Had.
  - rewrite length_app. cbn. lia.
  - rewrite <- Had, length_map. by apply log_write_holds.
  - apply Forall_app. split; [done|]. by apply Forall_singleton.
  - intros w Hw Hout. rewrite restored_snoc. rewrite <- Hold by done.
    unfold restored. destruct (find _ es); [done|]. cbn.
    rewrite <- Had, length_map, log_write_outside by (done || lia).
    destruct (Z.eqb_spec a (block w)) as [E|]; [|done].
    apply (block_words a w (proj1 Ha) Hw) in E as (k & Hk & ->).
    replace (a + 8 * k - a) with (k * 8) by lia. rewrite Z.div_mul by lia. done.
Qed.

Lemma xinv_store m0 x es w v :
  xinv m0 x es -> xlegal x.2 (XStore w v) -> xinv m0 (xstep x (XStore w v)) es.
Proof.
  intros [Had Hroom Hh Ht Hold] [Hw Hb].
  assert (~ in_log base w) as Hnl.
  { rewrite <- Had in Hb. apply list_elem_of_fmap in Hb as (e & Ee & He).
    rewrite Forall_forall in Ht. intros Hl.
    destruct (target_apart e.1 w (Ht e He) Hl). done. }
  split; cbn; auto.
  - intros i e He. destruct (Hh i e He) as [H1 H2].
    apply lookup_lt_Some in He.
    assert (forall c, in_log base c -> mread (<[w := v]> x.1) c = mread x.1 c) as Hc.
    { intros c Hc. unfold mread. rewrite lookup_insert_ne; [done|]. by intros ->. }
    split.
    + rewrite Hc; [done|]. apply (cell_in_log _ 0); lia.
    + intros k Hk. rewrite Hc; [auto|]. apply cell_in_log; lia.
  - intros u Hu Hout. rewrite <- Hold by done. unfold restored.
    destruct (decide (block u = block w)) as [E|E].
    + rewrite <- Had, <- E in Hb. by destruct (find_block_Some es u Hb) as [f ->].
    + destruct (find _ es); [done|]. unfold mread.
      rewrite lookup_insert_ne; [done|]. by intros ->.
Qed.

Lemma xrun_inv m0 x os y es :
  xrun x os y -> xinv m0 x es -> exists es', xinv m0 y es'.
Proof.
  intros Hr. revert es. induction Hr as [x|x [a|w v] os y Hl Hr IH]; intros es Hx.
  - eauto.
  - eapply IH, xinv_log; done.
  - eapply IH, xinv_store; done.
Qed.

(** An abort of an eager transaction restores memory.  Whatever blocks
    were logged before being stored to, in whatever order, unrolling the log
    puts back every word outside the log to its value at the start of the
    transaction. *)
Theorem log_unroll_restores m0 os m l w :
  xrun (m0, []) os (m, l) -> w mod 8 = 0 -> ~ in_log base w ->
  mread (logtm_log_unroll base (length l) m) w = mread m0 w.
Proof.
  intros Hr Hw Hout.
  destruct (xrun_inv m0 _ _ _ [] Hr) as (es & [Had Hroom Hh Ht Hold]).
  { split; cbn; try done; lia. }
  cbn in *. rewrite <- Hold by done. rewrite <- Had, length_map. clear Had.
  unfold logtm_log_unroll. destruct (length es) as [|n] eqn:El.
  - by apply nil_length_inv in El as ->.
  - rewrite unroll_loop_ok with (es := es); try done; [|lia|lia].
    by rewrite firstn_all2 by lia.
Qed.

Lemma xrun_room m0 os m l :
  xrun (m0, []) os (m, l) -> Z.of_nat (length l) <= MAX_ENTRIES.
Proof.
  intros Hr. destruct (xrun_inv m0 _ _ _ [] Hr) as (es & [Had Hroom _ _ _]).
  { split; cbn; try done; lia. }
  cbn in Had. by rewrite <- Had, length_map.
Qed.
End unroll.

(** The unroll written with the functions that compute an entry's pointers
    from its index. *)
Fixpoint unroll_reference (log_base : Z) (log_size : nat) (m : Mem) : Mem :=
  match log_size with
  | O => m
  | S n =>
      let address := mread m (logtm_compute_addr_log_pointer log_base (Z.of_nat n)) in
      unroll_reference log_base n
        (restore_block m address (logtm_compute_data_log_pointer log_base (Z.of_nat n)))
  end.

Lemma unroll_reference_S base n m :
  unroll_reference base (S n) m =
  unroll_reference base n
    (restore_block m (mread m (logtm_compute_addr_log_pointer base (Z.of_nat n)))
       (logtm_compute_data_log_pointer base (Z.of_nat n))).
Proof. done. Qed.

Lemma compute_pointers base n :
  0 <= base -> base + MAX_LOG_SIZE_BYTES <= 2 ^ 64 -> 0 <= n < MAX_ENTRIES ->
  logtm_compute_data_log_pointer base n = base + data_log_offset n /\
  logtm_compute_addr_log_pointer base n = base + addr_log_offset n.
Proof.
  intros H0 Hb Hn. destruct (entries_disjoint n n Hn Hn) as [(H1 & H2 & H3) _].
  unfold logtm_compute_data_log_pointer, logtm_compute_addr_log_pointer, u64.
  destruct (offsets_eq n) as [E1 E2]. rewrite E1, E2 in *.
  split; rewrite Z.mod_small; change LOG_PAGE_SIZE_BYTES with 4096;
    change LOG_ENTRIES_PER_PAGE with 56; change LOG_CACHE_BLOCK_SIZE with 64; lia.
Qed.

(** C32: The unroll that moves its pointers along the log, and only computes
    them anew at the start of a page, is equivalent to the one that computes
    the pointers of every entry from its index: from every memory, for every
    number of entries that fits, the memories afterwards are equal. *)
Theorem unroll_equals_reference base n m :
  base mod 4096 = 0 -> 0 <= base -> base + MAX_LOG_SIZE_BYTES <= 2 ^ 64 ->
  Z.of_nat n <= MAX_ENTRIES ->
  logtm_log_unroll base n m = unroll_reference base n m.
Proof.
  intros Ha H0 Hb Hn. destruct n as [|n]; [done|]. unfold logtm_log_unroll. revert m.
  induction n as [|n IH]; intros m.
  - destruct (compute_pointers base (Z.of_nat 0)) as [E1 E2]; [done..|].
    cbn [unroll_loop unroll_reference]. by rewrite E1, E2.
  - destruct (compute_pointers base (Z.of_nat (S n))) as [E1 E2]; [done..|lia|].
    cbn [unroll_loop]. rewrite (unroll_reference_S base (S n)), E1, E2.
    rewrite <- IH by lia.
    destruct (Z.eqb_spec (GET_PAGE_OFFSET (base + data_log_offset (Z.of_nat (S n)))) 0)
      as [Hp|Hp]; [done|].
    replace (Z.of_nat (S n)) with (Z.of_nat n + 1) in * by lia.
    destruct (previous_entry base Ha (Z.of_nat n)) as [D1 D2]; [lia..|done|].
    change LOG_CACHE_BLOCK_SIZE with 64. rewrite <- D1, <- D2. f_equal; lia.
Qed.

(** ** Setting the log up *)

Section setup.
Context (base : Z) (base_aligned : base mod 4096 = 0).
Context (base_range : 0 <= base /\ base + MAX_LOG_SIZE_BYTES <= 2 ^ 64).
(** The physical page of each log page. *)
Context (pa : Z -> Z).

(** [simSetLogBase]: the base, then one store per page, in order. *)
Definition setupLog : M EagerVM unit :=
  do* setLogBaseVirtualAddress base;
  forM (seqZ 0 MAX_LOG_SIZE_PAGES)
    (fun i => setupLogTranslation (base + 4096 * i) (pa i)).

(** The first [k] pages are translated. *)
Definition translated (k : Z) (s : EagerVM) : Prop :=
  forall v p, m_logTLB s !! v = Some p <->
    exists i, 0 <= i < k /\ v = base + 4096 * i /\ p = pa i.

Definition setup_status (k : Z) : LogInitStatus :=
  if k =? 0 then BaseAddress else if k <? 256 then V2PTranslations else Ready.

Lemma setup_step k s :
  0 <= k < 256 -> m_initStatus s = setup_status k -> m_logBaseVAddr s = base ->
  translated k s ->
  wp (setupLogTranslation (base + 4096 * k) (pa k)) (fun _ s' =>
    m_initStatus s' = setup_status (k + 1) /\ m_logBaseVAddr s' = base /\
    translated (k + 1) s' /\ m_logNumEntries s' = m_logNumEntries s) s.
Proof.
  intros Hk Hst Hb Ht. change MAX_LOG_SIZE_BYTES with 1048576 in base_range.
  unfold setupLogTranslation. wp_simpl.
  assert (m_logTLB s !! (base + 4096 * k) = None) as Hnew.
  { destruct (m_logTLB s !! (base + 4096 * k)) as [p|] eqn:E; [|done].
    apply Ht in E as (i & ? & ? & ?). lia. }
  assert (wp (if decide (m_initStatus s = BaseAddress) then
         do* massert (emptyb (m_logTLB s));
         massert (m_logBaseVAddr s =? base + 4096 * k)
       else massert (bool_decide (m_initStatus s = V2PTranslations)))
       (fun _ s' => s' = s) s) as Hguard.
  { rewrite Hst. unfold setup_status. destruct (Z.eqb_spec k 0) as [->|].
    - cbn [decide]. wp_simpl. rewrite decide_True by done. wp_simpl. split_and!; [|lia|done].
      apply bool_decide_eq_true_2, map_empty. intros v.
      destruct (m_logTLB s !! v) as [p|] eqn:E; [|done].
      apply Ht in E as (i & ? & _). lia.
    - rewrite (proj2 (Z.ltb_lt _ _)) by lia. rewrite decide_False by done.
      wp_simpl. by rewrite bool_decide_eq_true_2. }
  eapply wp_mono; [|exact Hguard]. intros [] s' ->. wp_simpl. rewrite Hnew. wp_simpl.
  assert (translated (k + 1) (s <| m_initStatus := V2PTranslations |>
            <| m_logTLB ::= <[base + 4096 * k := pa k]> |>)) as Ht'.
  { intros v p. cbn. rewrite lookup_insert_Some, (Ht v p). split.
    - intros [[<- <-]|[_ (i & ? & ? & ?)]]; [exists k|exists i]; split_and!; auto; lia.
    - intros (i & Hi & -> & ->). destruct (decide (i = k)) as [->|]; [by left|].
      right. split; [lia|]. exists i. split_and!; auto; lia. }
  unfold when, u64. change LOG_PAGE_SIZE_BYTES with 4096.
  change MAX_LOG_SIZE_BYTES with 1048576. rewrite Hb.
  destruct (decide (k = 255)) as [->|Hne].
  - replace (base + 4096 * 255 + 4096) with (base + 1048576) by lia.
    rewrite Z.eqb_refl. wp_simpl. done.
  - rewrite (proj2 (Z.eqb_neq _ _)).
    + wp_simpl. split_and!; try done. cbn. unfold setup_status.
      rewrite (proj2 (Z.eqb_neq (k + 1) 0)), (proj2 (Z.ltb_lt (k + 1) 256)) by lia. done.
    + rewrite (Z.mod_small (base + 4096 * k + 4096)) by lia.
      destruct (decide (base + 1048576 = 2 ^ 64)) as [->|].
      * rewrite Z.mod_same by lia. lia.
      * rewrite Z.mod_small by lia. lia.
Qed.

Lemma setupLog_ok s :
  m_initStatus s = Invalid -> m_logTLB s = ∅ ->
  wp setupLog (fun _ s' => m_initStatus s' = Ready /\ m_logBaseVAddr s' = base /\
    translated 256 s' /\ m_logNumEntries s' = m_logNumEntries s) s.
Proof.
  intros Hst Hem. unfold setupLog, setLogBaseVirtualAddress. wp_simpl.
  rewrite decide_True by done. wp_simpl.
  eapply wp_mono; [|apply (wp_range _ (fun k s' =>
    m_initStatus s' = setup_status k /\ m_logBaseVAddr s' = base /\
    translated k s' /\ m_logNumEntries s' = m_logNumEntries s) 0 256)].
  - intros [] s'. cbn. done.
  - lia.
  - split_and!; try done. intros v p. cbn. rewrite Hem, lookup_empty.
    split; [done|]. intros (i & ? & _). lia.
  - intros i s' Hi (H1 & H2 & H3 & H4). rewrite <- H4. by apply setup_step.
Qed.

Lemma translate_ok s v :
  translated 256 s -> (forall i, 0 <= i < 256 -> pa i mod 4096 = 0) ->
  in_log base v ->
  translateLogAddress v s = Ok (pa ((v - base) / 4096) + v mod 4096).
Proof.
  intros Ht Hpa [Hv1 Hv2]. change MAX_LOG_SIZE_BYTES with 1048576 in *.
  unfold translateLogAddress. rewrite page_addr, page_offset' by lia.
  assert (0 <= (v - base) / 4096 < 256) as Hi.
  { split; [apply Z.div_pos; lia|apply Z.div_lt_upper_bound; lia]. }
  assert (v - v mod 4096 = base + 4096 * ((v - base) / 4096)) as Ev.
  { pose proof (Z.div_mod (v - base) 4096 ltac:(lia)).
    assert ((v - base) mod 4096 = v mod 4096) as E; [|lia].
    rewrite Zminus_mod, base_aligned, Z.sub_0_r. apply Z.mod_mod. lia. }
  assert (m_logTLB s !! (v - v mod 4096) = Some (pa ((v - base) / 4096))) as ->.
  { apply Ht. eauto. }
  f_equal. apply lor_page; [auto|]. apply Z.mod_pos_bound. lia.
Qed.

Lemma log_ptr_parts i :
  0 <= i < MAX_ENTRIES ->
  logtm_compute_data_log_pointer base i = base + data_log_offset i /\
  logtm_compute_addr_log_pointer base i = base + addr_log_offset i.
Proof.
  intros Hi. destruct (entries_disjoint i i Hi Hi) as [(? & ? & ?) _].
  unfold logtm_compute_data_log_pointer, logtm_compute_addr_log_pointer, u64.
  unfold data_log_offset, addr_log_offset in *. split; rewrite Z.mod_small; lia.
Qed.

Lemma data_ptr_page i :
  0 <= i < MAX_ENTRIES ->
  (base + data_log_offset i - base) / 4096 = i / 56 /\
  (base + data_log_offset i) mod 4096 = i mod 56 * 64 /\
  (base + addr_log_offset i - base) / 4096 = i / 56 /\
  (base + addr_log_offset i) mod 4096 = 4096 - (i mod 56 + 1) * 8.
Proof.
  intros Hi. pose proof (index_bounds i Hi).
  destruct (offsets_eq i) as [-> ->]. apply Z.div_exact in base_aligned; [|lia].
  split_and!.
  - symmetry. apply (Z.div_unique_pos _ _ _ (i mod 56 * 64)); lia.
  - symmetry. apply (Z.mod_unique_pos _ _ (base / 4096 + i / 56)); lia.
  - symmetry. apply (Z.div_unique_pos _ _ _ (4096 - (i mod 56 + 1) * 8)); lia.
  - symmetry. apply (Z.mod_unique_pos _ _ (base / 4096 + i / 56)); lia.
Qed.

Lemma addr_ptr_from_data p r :
  0 <= p -> p + 4096 <= 2 ^ 64 -> p mod 4096 = 0 -> 0 <= r < 56 ->
  logtm_compute_addr_ptr_from_data_ptr (p + r * 64) = Ok (p + (4096 - (r + 1) * 8)).
Proof.
  intros Hp0 Hp1 Hp Hr. unfold logtm_compute_addr_ptr_from_data_ptr.
  assert ((p + r * 64) mod 4096 = r * 64) as Em.
  { apply Z.div_exact in Hp; [|lia].
    symmetry. apply (Z.mod_unique_pos _ _ (p / 4096)); lia. }
  rewrite page_offset, page_addr, Em by lia.
  change LOG_CACHE_BLOCK_SIZE with 64. change (LOG_ENTRIES_PER_PAGE * 64) with 3584.
  unfold rassert. rewrite (proj2 (Z.ltb_lt _ _)) by lia. cbn [rbind].
  rewrite Z.mod_mul, Z.eqb_refl, Z.div_mul by lia. cbn [rbind].
  change LOG_PAGE_SIZE_BYTES with 4096. f_equal.
  replace (p + r * 64 - r * 64) with p by lia. apply lor_page; [done|lia].
Qed.

Lemma addLogEntry_ok n s :
  m_initStatus s = Ready -> 0 <= n <= MAX_ENTRIES ->
  addLogEntry (s <| m_logNumEntries := n |>) =
  Ok (n, s <| m_logNumEntries := n + 1 |>).
Proof.
  intros Hr Hn. unfold addLogEntry, bind, get, massert. cbn. rewrite Hr. cbn.
  unfold lift, int_add. change MAX_ENTRIES with 14336 in Hn.
  rewrite int_of_ok; [done|].
  change INT_MIN with (-2147483648). change INT_MAX with 2147483647. lia.
Qed.

(** The data entry and its address entry are in different lines. *)
Lemma entry_lines p r :
  p mod 4096 = 0 -> 0 <= p -> p + 4096 <= 2 ^ 64 -> 0 <= r < 56 ->
  @makeLineAddress ruby64 (p + r * 64) = p + r * 64 /\
  @makeLineAddress ruby64 (p + (4096 - (r + 1) * 8)) <> p + r * 64.
Proof.
  intros Hm Hp0 Hp1 Hr. rewrite !makeLineAddress_eq by lia.
  change (@getBlockSizeBytes ruby64) with 64. apply Z.div_exact in Hm; [|lia]. split.
  - replace (p + r * 64) with ((64 * (p / 4096) + r) * 64) at 2 by lia.
    rewrite Z.mod_mul by lia. lia.
  - pose proof (Z.mod_pos_bound (p + (4096 - (r + 1) * 8)) 64 ltac:(lia)). lia.
Qed.

Lemma build_full vaddr blk s :
  m_initStatus s = Ready ->
  buildLogPackets (H := ruby64) vaddr blk (s <| m_logNumEntries := MAX_ENTRIES |>)
  = Err EAssert.
Proof.
  intros Hr. unfold buildLogPackets, bind at 1.
  rewrite addLogEntry_ok by (done || change MAX_ENTRIES with 14336; lia). done.
Qed.

Lemma build_room vaddr blk s n :
  m_initStatus s = Ready -> m_logBaseVAddr s = base -> translated 256 s ->
  (forall i, 0 <= i < 256 ->
     pa i mod 4096 = 0 /\ 0 <= pa i /\ pa i + 4096 <= 2 ^ 64) ->
  0 <= n < MAX_ENTRIES ->
  exists d, buildLogPackets (H := ruby64) vaddr blk (s <| m_logNumEntries := n |>) =
    Ok (MkLogRequestInfo (pa (n / 56) + (4096 - (n mod 56 + 1) * 8))
          (makeLineAddress (H := ruby64) vaddr)
          (pa (n / 56) + n mod 56 * 64) d n,
        s <| m_logNumEntries := n + 1 |>).
Proof.
  intros Hr Hb Ht Hpa Hn. unfold buildLogPackets.
  unfold bind at 1. rewrite addLogEntry_ok by (done || lia). unfold bind at 1, get.
  unfold bind at 1, lift at 1, computeLogDataPointer, rassert.
  change (MAX_LOG_SIZE_PAGES * LOG_ENTRIES_PER_PAGE) with MAX_ENTRIES.
  rewrite (proj2 (Z.leb_le 0 n)), (proj2 (Z.ltb_lt n _)) by lia. cbn [andb rbind].
  replace (m_logBaseVAddr (s <| m_logNumEntries := n + 1 |>)) with base by done.
  destruct (index_bounds n Hn) as [Hq Hrr].
  rewrite (proj1 (log_ptr_parts n Hn)).
  destruct (data_ptr_page n Hn) as (E1 & E2 & _ & _).
  destruct (cell_in_log base n 0 Hn ltac:(lia)) as [Hl1 _].
  rewrite Z.mul_0_r, Z.add_0_r in Hl1.
  assert (forall i, 0 <= i < 256 -> pa i mod 4096 = 0) as Hpa' by (intros; by apply Hpa).
  unfold bind at 1, lift at 1.
  replace (translateLogAddress (base + data_log_offset n)
             (s <| m_logNumEntries := n + 1 |>))
    with (translateLogAddress (base + data_log_offset n) s) by done.
  rewrite (translate_ok s _ Ht Hpa' Hl1), E1, E2.
  destruct (Hpa _ Hq) as (Hm & Hp0 & Hp1).
  destruct (entry_lines (pa (n / 56)) (n mod 56)) as [El Ed]; try done.
  unfold bind at 1, massert at 1. rewrite El, Z.eqb_refl.
  unfold bind at 1, lift at 1. rewrite addr_ptr_from_data by (done || lia).
  rewrite (proj2 (Z.eqb_neq (pa (n / 56) + n mod 56 * 64) _)) by auto.
  by eexists.
Qed.

(** C31: the hardware logs a block exactly where the software unroll looks
    for it.  Once the log is set up, logging a store returns as long as the
    log has room, takes the next index, and its two physical addresses are
    the translations of the data and address pointers that the unroll uses
    for that index; with the log full, the store is refused by an
    assertion. *)
Theorem log_write_where_unroll_reads (vaddr : Z) (blk : DataBlock) (s0 : EagerVM) :
  m_initStatus s0 = Invalid -> m_logTLB s0 = ∅ ->
  (forall i, 0 <= i < 256 ->
     pa i mod 4096 = 0 /\ 0 <= pa i /\ pa i + 4096 <= 2 ^ 64) ->
  exists s, setupLog s0 = Ok (tt, s) /\
    forall n, 0 <= n <= MAX_ENTRIES ->
      if n =? MAX_ENTRIES
      then buildLogPackets (H := ruby64) vaddr blk (s <| m_logNumEntries := n |>)
           = Err EAssert
      else exists info,
        buildLogPackets (H := ruby64) vaddr blk (s <| m_logNumEntries := n |>)
          = Ok (info, s <| m_logNumEntries := n + 1 |>) /\
        logIndex info = n /\
        translateLogAddress (base + data_log_offset n) s = Ok (logDataPtr info) /\
        translateLogAddress (base + addr_log_offset n) s = Ok (logAddressPtr info) /\
        logAddressValue info = makeLineAddress (H := ruby64) vaddr.
Proof.
  intros Hst Hem Hpa. pose proof (setupLog_ok s0 Hst Hem) as Hwp.
  apply wp_ok in Hwp as ([] & s & Hs & Hr & Hb & Ht & _). exists s.
  split; [done|]. intros n Hn.
  destruct (Z.eqb_spec n MAX_ENTRIES) as [->|Hne]; [by apply build_full|].
  assert (0 <= n < MAX_ENTRIES) as Hn' by lia.
  destruct (build_room vaddr blk s n Hr Hb Ht Hpa Hn') as [d Hd].
  destruct (data_ptr_page n Hn') as (E1 & E2 & E3 & E4).
  destruct (cell_in_log base n 0 Hn' ltac:(lia)) as [Hl1 Hl2].
  rewrite Z.mul_0_r, Z.add_0_r in Hl1.
  assert (forall i, 0 <= i < 256 -> pa i mod 4096 = 0) as Hpa' by (intros; by apply Hpa).
  rewrite (translate_ok s _ Ht Hpa' Hl1), (translate_ok s _ Ht Hpa' Hl2), E1, E2, E3, E4.
  eexists. split; [exact Hd|]. done.
Qed.
End setup.

(** ** Concrete logs *)

(** Log at 1 MiB; a block is logged, overwritten, and restored. *)
Definition demo_ops : list xop :=
  [XLog 4096; XStore 4104 99; XLog 4160; XStore 4160 7; XStore 4096 5].

Definition demo_x : gmap Z Z * list Z :=
  fold_left (xstep 1048576) demo_ops ({[ 4104 := 1; 4160 := 2 ]}, []).

(** The legality of a run, as a computation. *)
Fixpoint xrunb (base : Z) (x : gmap Z Z * list Z) (os : list xop) : bool :=
  match os with
  | [] => true
  | o :: os =>
      match o with
      | XLog a => (a mod 64 =? 0) &&
          ((a <? base) || (base + MAX_LOG_SIZE_BYTES <=? a)) &&
          (Z.of_nat (length x.2) <? MAX_ENTRIES)
      | XStore w _ => (w mod 8 =? 0) && bool_decide (block w ∈ x.2)
      end && xrunb base (xstep base x o) os
  end.

Lemma xrunb_run base os x :
  xrunb base x os = true -> xrun base x os (fold_left (xstep base) os x).
Proof.
  revert x. induction os as [|o os IH]; intros x; [constructor|].
  cbn [xrunb]. intros [Ho Hos]%andb_true_iff. constructor; [|by apply IH].
  destruct o as [a|w v]; cbn; unfold target, in_log.
  - lia.
  - apply andb_true_iff in Ho as [H1 H2]. apply bool_decide_eq_true_1 in H2.
    split; [lia|done].
Qed.

Lemma log_unroll_restores_witness :
  mread (fst demo_x) 4104 = 99 /\
  mread (logtm_log_unroll 1048576 (length (snd demo_x)) (fst demo_x)) 4104 = 1.
Proof.
  split; [by vm_compute|].
  rewrite (log_unroll_restores 1048576 ltac:(done) {[ 4104 := 1; 4160 := 2 ]}
             demo_ops (fst demo_x) (snd demo_x) 4104).
  - by vm_compute.
  - rewrite <- (surjective_pairing demo_x).
    apply (xrunb_run 1048576 demo_ops ({[ 4104 := 1; 4160 := 2 ]}, [])).
    by vm_compute.
  - done.
  - unfold in_log. change MAX_LOG_SIZE_BYTES with 1048576. lia.
Defined.

Lemma unroll_equals_reference_witness :
  logtm_log_unroll 1048576 (length (snd demo_x)) (fst demo_x) =
    unroll_reference 1048576 (length (snd demo_x)) (fst demo_x) /\
  (0 < length (snd demo_x))%nat.
Proof.
  split; [|vm_compute; lia].
  apply (unroll_equals_reference 1048576 (length (snd demo_x)) (fst demo_x)).
  - done.
  - lia.
  - vm_compute. congruence.
  - vm_compute. congruence.
Defined.

Lemma log_write_where_unroll_reads_witness :
  exists s, setupLog 1048576 (fun i => 16777216 + 4096 * i) (EagerVM_init 0)
            = Ok (tt, s).
Proof.
  destruct (log_write_where_unroll_reads 1048576 ltac:(done)
    ltac:(vm_compute; split; congruence)
    (fun i => 16777216 + 4096 * i) 4096 (@DataBlock.alloc ruby64) (EagerVM_init 0))
    as (s & Hs & _).
  - done.
  - done.
  - intros i Hi. split; [|lia].
    replace (16777216 + 4096 * i) with ((4096 + i) * 4096) by lia. by apply Z.mod_mul.
  - by exists s.
Defined.
