(* ===== verification/XactProfiler.v ===== *)
(** * The transaction profiler

    [mem/ruby/profiler/annotated_regions.h] and
    [mem/ruby/profiler/XactProfiler.cc]: every processor is in one annotated
    region at a time, and its cycles are charged to the region it is leaving.
    Inside a hardware transaction the cycles are held back in a second table
    until the outcome is known.  The parallel vectors of the source, indexed
    by processor, are one list of rows; the two statistics vectors of
    [RubyHTM] that [profile_region] updates are part of the state.  The
    visualizer is not modelled (it only prints). *)

From S2P Require Import Prelude.

#[local] Open Scope Z_scope.

(** ** Annotated regions *)

Inductive AnnotatedRegion :=
| DEFAULT
| BARRIER
| BACKOFF
| TRANSACTIONAL
| TRANSACTIONAL_COMMITTED
| TRANSACTIONAL_ABORTED
| TRANSACTIONAL_POWER
| TRANSACTIONAL_SPECULATING
| COMMITTING
| ABORTING
| ABORT_HANDLER_HASLOCK
| ABORT_HANDLER
| ABORT_HANDLER_WAITFORRETRY_THRESHOLD
| ABORT_HANDLER_WAITFORRETRY_EXCEPTION
| ABORT_HANDLER_WAITFORRETRY_SIZE
| KERNEL
| KERNEL_HASLOCK
| STALLED
| STALLED_COMMITTED
| STALLED_ABORTED
| STALLED_NONTRANS
| ARBITRATION
| ARBITRATION_COMMITTED
| ARBITRATION_ABORTED
| INVALID.

#[global] Instance AnnotatedRegion_eq_dec : EqDecision AnnotatedRegion.
Proof. solve_decision. Defined.

(** The regions from [AnnotatedRegion_FIRST], in the order of the enum. *)
Definition regions : list AnnotatedRegion :=
  [DEFAULT; BARRIER; BACKOFF; TRANSACTIONAL; TRANSACTIONAL_COMMITTED;
   TRANSACTIONAL_ABORTED; TRANSACTIONAL_POWER; TRANSACTIONAL_SPECULATING;
   COMMITTING; ABORTING; ABORT_HANDLER_HASLOCK; ABORT_HANDLER;
   ABORT_HANDLER_WAITFORRETRY_THRESHOLD; ABORT_HANDLER_WAITFORRETRY_EXCEPTION;
   ABORT_HANDLER_WAITFORRETRY_SIZE; KERNEL; KERNEL_HASLOCK; STALLED;
   STALLED_COMMITTED; STALLED_ABORTED; STALLED_NONTRANS; ARBITRATION;
   ARBITRATION_COMMITTED; ARBITRATION_ABORTED; INVALID].

Definition AnnotatedRegion_NUM : nat := 25.

(** The enum value of a region. *)
Definition region_idx (r : AnnotatedRegion) : nat :=
  match r with
  | DEFAULT => 0 | BARRIER => 1 | BACKOFF => 2 | TRANSACTIONAL => 3
  | TRANSACTIONAL_COMMITTED => 4 | TRANSACTIONAL_ABORTED => 5
  | TRANSACTIONAL_POWER => 6 | TRANSACTIONAL_SPECULATING => 7
  | COMMITTING => 8 | ABORTING => 9 | ABORT_HANDLER_HASLOCK => 10
  | ABORT_HANDLER => 11 | ABORT_HANDLER_WAITFORRETRY_THRESHOLD => 12
  | ABORT_HANDLER_WAITFORRETRY_EXCEPTION => 13
  | ABORT_HANDLER_WAITFORRETRY_SIZE => 14 | KERNEL => 15
  | KERNEL_HASLOCK => 16 | STALLED => 17 | STALLED_COMMITTED => 18
  | STALLED_ABORTED => 19 | STALLED_NONTRANS => 20 | ARBITRATION => 21
  | ARBITRATION_COMMITTED => 22 | ARBITRATION_ABORTED => 23 | INVALID => 24
  end%nat.

Definition AnnotatedRegion_hasDualOutcome (region : AnnotatedRegion) : bool :=
  match region with
  | TRANSACTIONAL | STALLED | ARBITRATION => true
  | _ => false
  end.

Definition AnnotatedRegion_getOutcome (region : AnnotatedRegion)
    (commit hasCycles : bool) : res AnnotatedRegion :=
  match region with
  | TRANSACTIONAL =>
      let? _ := rassert (AnnotatedRegion_hasDualOutcome region) in
      Ok (if commit then TRANSACTIONAL_COMMITTED else TRANSACTIONAL_ABORTED)
  | STALLED =>
      let? _ := rassert (AnnotatedRegion_hasDualOutcome region) in
      Ok (if commit then STALLED_COMMITTED else STALLED_ABORTED)
  | ARBITRATION =>
      let? _ := rassert (AnnotatedRegion_hasDualOutcome region) in
      Ok (if commit then ARBITRATION_COMMITTED else ARBITRATION_ABORTED)
  | COMMITTING | ABORTING =>
      let? _ := rassert (negb (AnnotatedRegion_hasDualOutcome region)) in
      Ok region
  | ABORT_HANDLER_HASLOCK | ABORT_HANDLER
  | ABORT_HANDLER_WAITFORRETRY_THRESHOLD | ABORT_HANDLER_WAITFORRETRY_EXCEPTION
  | ABORT_HANDLER_WAITFORRETRY_SIZE =>
      let? _ := rassert (negb hasCycles) in
      let? _ := rassert (negb (AnnotatedRegion_hasDualOutcome region)) in
      Ok region
  | _ =>
      let? _ := rassert (negb (AnnotatedRegion_hasDualOutcome region)) in
      Ok region
  end.

Definition AnnotatedRegion_isHardwareTransaction (region : AnnotatedRegion) : bool :=
  match region with
  | TRANSACTIONAL | TRANSACTIONAL_POWER | TRANSACTIONAL_SPECULATING
  | COMMITTING | ABORTING => true
  | _ => false
  end.

Definition AnnotatedRegion_isAbortHandlerRegion (region : AnnotatedRegion) : bool :=
  match region with
  | ABORT_HANDLER | ABORT_HANDLER_WAITFORRETRY_THRESHOLD
  | ABORT_HANDLER_WAITFORRETRY_EXCEPTION | ABORT_HANDLER_WAITFORRETRY_SIZE => true
  | _ => false
  end.

Definition region_eqb (a b : AnnotatedRegion) : bool := bool_decide (a = b).

(** ** State *)

(** Entry [proc_no] of the per-processor vectors. *)
Record ProcRegions := MkProcRegions {
  m_state_cycle_count : list Z;
  m_annotatedRegion : AnnotatedRegion;
  m_xactLastRegionProfile : Z;
  m_xactLastRegionChange : Z;
  m_inTransaction : bool;
  m_inHardwareTransaction : bool;
  m_currentXactCyclesPerRegion : list Z
}.

#[global] Instance eta_ProcRegions : Eta ProcRegions := fun x =>
  MkProcRegions (m_state_cycle_count x) (m_annotatedRegion x)
    (m_xactLastRegionProfile x) (m_xactLastRegionChange x)
    (m_inTransaction x) (m_inHardwareTransaction x)
    (m_currentXactCyclesPerRegion x).

Record XactProfiler := MkXactProfiler {
  m_procs : list ProcRegions;
  m_currentWaitForRetryRegion : AnnotatedRegion;
  cyclesInRegion : list Z;
  regionChanges : list Z
}.

#[global] Instance eta_XactProfiler : Eta XactProfiler := fun x =>
  MkXactProfiler (m_procs x) (m_currentWaitForRetryRegion x)
    (cyclesInRegion x) (regionChanges x).

Definition zeroes : list Z := replicate AnnotatedRegion_NUM 0.

(** [XactProfiler::XactProfiler], at cycle [curCycle]. *)
Definition XactProfiler_init (num_sequencers : nat) (curCycle : Z) : XactProfiler :=
  MkXactProfiler
    (replicate num_sequencers
       (MkProcRegions zeroes INVALID curCycle curCycle false false zeroes))
    INVALID zeroes zeroes.

Notation P := (M XactProfiler).

(** Element [proc_no] of the per-processor vectors. *)
Definition proc (proc_no : Z) : P ProcRegions :=
  let* s := get in lift (vec_at EUndef (m_procs s) proc_no).

Definition on_proc (proc_no : Z) (f : ProcRegions -> ProcRegions) : P unit :=
  let* r := proc proc_no in
  let* s := get in
  let* ps := lift (vec_set (m_procs s) proc_no (f r)) in
  set! m_procs := ps.

(** [v[region] += cycles] on a vector of [uint64_t]. *)
Definition add_cycles (region : AnnotatedRegion) (cycles : Z) (v : list Z) : list Z :=
  alter (fun x => u64 (x + cycles)) (region_idx region) v.

(** [RubyHTM::profileRegion]. *)
Definition profileRegion (region : AnnotatedRegion) (cycles : Z) : P unit :=
  do* upd! cyclesInRegion ::= add_cycles region cycles;
  upd! regionChanges ::= add_cycles region 1.

Section ops.
(** The clock of the Ruby system when the operation runs, and the cycle of
    the last statistics reset. *)
Context (curCycle startCycle : Z).

Definition resetStats : P unit :=
  do* massert (curCycle =? startCycle);
  upd! m_procs ::= fmap (fun r => r
    <| m_xactLastRegionChange := curCycle |>
    <| m_xactLastRegionProfile := curCycle |>
    <| m_annotatedRegion := DEFAULT |>
    <| m_inTransaction := false |>
    <| m_inHardwareTransaction := false |>
    <| m_state_cycle_count := zeroes |>
    <| m_currentXactCyclesPerRegion := zeroes |>).

Definition profile_region (region : AnnotatedRegion) (proc_num cycles : Z) : P unit :=
  do* massert (negb (AnnotatedRegion_hasDualOutcome region));
  do* on_proc proc_num (fun r => r <| m_state_cycle_count ::= add_cycles region cycles |>);
  profileRegion region cycles.

(** One iteration of the loop of [profileCurrentTransactionalRegion]. *)
Definition profileOutcome (proc_no : Z) (committing : bool) (i : AnnotatedRegion) : P unit :=
  let* r := proc proc_no in
  let* regionCycles := lift (vec_at EUndef (m_currentXactCyclesPerRegion r)
                               (Z.of_nat (region_idx i))) in
  let* outcomeRegion :=
    lift (AnnotatedRegion_getOutcome i committing (negb (regionCycles =? 0))) in
  do* profile_region outcomeRegion proc_no regionCycles;
  on_proc proc_no (fun r => r <| m_currentXactCyclesPerRegion ::= <[region_idx i := 0]> |>).

Definition profileCurrentTransactionalRegion (proc_no : Z) : P unit :=
  let* r := proc proc_no in
  let region := m_annotatedRegion r in
  if region_eqb region COMMITTING || region_eqb region ABORTING then
    forM regions (profileOutcome proc_no (region_eqb region COMMITTING))
  else panic.

(** Leaving a hardware transaction: the tail of the transactional branch of
    [profileRegionChange]. *)
Definition leaveHardwareTransaction (proc_no : Z) (region : AnnotatedRegion) : P unit :=
  do* profileCurrentTransactionalRegion proc_no;
  do* on_proc proc_no (fun r => r <| m_inHardwareTransaction := false |>);
  when (region_eqb region COMMITTING)
    (on_proc proc_no (fun r => r <| m_inTransaction := false |>)).

(** [transactionLevel] is [getTransactionInterfaceManager(proc_no)->
    getTransactionLevel()]. *)
Definition profileRegionChange (transactionLevel : Z) (proc_no : Z)
    (nextRegion : AnnotatedRegion) : P unit :=
  let* r := proc proc_no in
  do* massert (m_xactLastRegionProfile r <=? curCycle);
  let last_state_time := curCycle - m_xactLastRegionProfile r in
  let region := m_annotatedRegion r in
  do* (if m_inHardwareTransaction r then
         do* on_proc proc_no (fun r => r
               <| m_currentXactCyclesPerRegion ::= add_cycles region last_state_time |>);
         when (negb (region_eqb region nextRegion) &&
               (region_eqb nextRegion DEFAULT ||
                AnnotatedRegion_isAbortHandlerRegion nextRegion))
           (leaveHardwareTransaction proc_no region)
       else
         do* profile_region region proc_no last_state_time;
         if region_eqb region ABORT_HANDLER_HASLOCK && region_eqb nextRegion DEFAULT then
           on_proc proc_no (fun r => r <| m_inTransaction := false |>)
         else if AnnotatedRegion_isHardwareTransaction nextRegion then
           do* massert (region_eqb region DEFAULT ||
                        AnnotatedRegion_isAbortHandlerRegion region);
           do* on_proc proc_no (fun r => r <| m_inHardwareTransaction := true |>);
           do* massert (0 <? transactionLevel);
           on_proc proc_no (fun r =>
             if m_inTransaction r then r else r <| m_inTransaction := true |>)
         else ret tt);
  do* on_proc proc_no (fun r =>
        if region_eqb (m_annotatedRegion r) nextRegion then r
        else r <| m_xactLastRegionChange := curCycle |>);
  on_proc proc_no (fun r => r <| m_annotatedRegion := nextRegion |>
                              <| m_xactLastRegionProfile := curCycle |>).

Definition moveTo (transactionLevel : Z) (proc_no : Z) (newState : AnnotatedRegion) : P unit :=
  let* r := proc proc_no in
  if negb (region_eqb (m_annotatedRegion r) newState) then
    let* wait := gets m_currentWaitForRetryRegion in
    let newState :=
      if region_eqb newState ABORT_HANDLER && negb (region_eqb wait INVALID)
      then wait else newState in
    profileRegionChange transactionLevel proc_no newState
  else
    massert (negb (region_eqb newState ABORTING) && negb (region_eqb newState COMMITTING)).

Definition num_procs (s : XactProfiler) : Z := Z.of_nat (length (m_procs s)).

(** [level i] is the transaction level of processor [i], and
    [waitRegion] is [getWaitForRetryRegionFromPreviousAbortCause()] of the
    interface manager of [proc_no]. *)
Definition beginRegion (level : Z -> Z) (waitRegion : AnnotatedRegion)
    (proc_no : Z) (region : AnnotatedRegion) : P unit :=
  do* match region with
      | ABORT_HANDLER_HASLOCK =>
          let* s := get in
          let remote_has_lock := existsb (fun r =>
            region_eqb (m_annotatedRegion r) ABORT_HANDLER_HASLOCK) (m_procs s) in
          do* massert (remote_has_lock ||
                       region_eqb (m_currentWaitForRetryRegion s) INVALID);
          do* set! m_currentWaitForRetryRegion := waitRegion;
          forM (seqZ 0 (num_procs s)) (fun i =>
            let* r := proc i in
            when (negb (i =? proc_no) && region_eqb (m_annotatedRegion r) ABORT_HANDLER)
              (moveTo (level i) i waitRegion))
      | BARRIER =>
          let* r := proc proc_no in massert (region_eqb (m_annotatedRegion r) DEFAULT)
      | BACKOFF =>
          let* r := proc proc_no in
          massert (AnnotatedRegion_isAbortHandlerRegion (m_annotatedRegion r))
      | _ => panic
      end;
  moveTo (level proc_no) proc_no region.

Definition endRegion (transactionLevel : Z) (proc_no : Z) (region : AnnotatedRegion) : P unit :=
  do* match region with
      | ABORT_HANDLER_HASLOCK => set! m_currentWaitForRetryRegion := INVALID
      | BARRIER =>
          let* r := proc proc_no in
          if m_xactLastRegionChange r =? startCycle then
            massert (region_eqb (m_annotatedRegion r) DEFAULT)
          else massert (region_eqb region (m_annotatedRegion r))
      | BACKOFF =>
          let* r := proc proc_no in massert (region_eqb region (m_annotatedRegion r))
      | _ => panic
      end;
  moveTo transactionLevel proc_no DEFAULT.

(** The accumulation loop over [m_state_cycle_count[i][j]] and
    [m_currentXactCyclesPerRegion[i][j]], in [uint64_t]. *)
Definition totalRegionCycles (s : XactProfiler) : res Z :=
  foldR (fun total r =>
    foldR (fun total j =>
      let? a := vec_at EUndef (m_state_cycle_count r) (Z.of_nat (region_idx j)) in
      let? b := vec_at EUndef (m_currentXactCyclesPerRegion r) (Z.of_nat (region_idx j)) in
      Ok (u64 (u64 (total + a) + b))) total regions) 0 (m_procs s).

Definition profileCurrentAnnotatedRegion (level : Z -> Z) : P unit :=
  let* s := get in
  do* forM (seqZ 0 (num_procs s)) (fun i =>
        let* r := proc i in profileRegionChange (level i) i (m_annotatedRegion r));
  let curExecTime := u64 (curCycle - startCycle) in
  let* s' := get in
  let* total := lift (totalRegionCycles s') in
  massert (u64 (curExecTime * num_procs s') =? total).
End ops.

(** ** Cycle conservation *)

Definition zsum (l : list Z) : Z := foldr Z.add 0 l.

(** All the cycles charged to a processor, in either table. *)
Definition proc_cycles (r : ProcRegions) : Z :=
  zsum (m_state_cycle_count r) + zsum (m_currentXactCyclesPerRegion r).

Record row_ok (start : Z) (r : ProcRegions) : Prop := {
  row_count_len : length (m_state_cycle_count r) = AnnotatedRegion_NUM;
  row_cur_len : length (m_currentXactCyclesPerRegion r) = AnnotatedRegion_NUM;
  row_balance : u64 (proc_cycles r) = u64 (m_xactLastRegionProfile r - start);
  row_hw : m_inHardwareTransaction r = false ->
    AnnotatedRegion_isHardwareTransaction (m_annotatedRegion r) = false
}.

Definition profiler_ok (start now : Z) (s : XactProfiler) : Prop :=
  Forall (fun r => row_ok start r /\ m_xactLastRegionProfile r <= now) (m_procs s).

(** The runs of a profiler that was created and reset at cycle [start]. *)
Inductive reachable (start : Z) : Z -> XactProfiler -> Prop :=
| reachable_reset n c0 s :
    resetStats start start (XactProfiler_init n c0) = Ok (tt, s) ->
    reachable start start s
| reachable_moveTo now now' level p region s s' :
    reachable start now s -> now <= now' ->
    moveTo now' level p region s = Ok (tt, s') -> reachable start now' s'
| reachable_begin now now' level wait p region s s' :
    reachable start now s -> now <= now' ->
    beginRegion now' level wait p region s = Ok (tt, s') -> reachable start now' s'
| reachable_end now now' level p region s s' :
    reachable start now s -> now <= now' ->
    endRegion now' start level p region s = Ok (tt, s') -> reachable start now' s'
| reachable_profile now now' level s s' :
    reachable start now s -> now <= now' ->
    profileCurrentAnnotatedRegion now' start level s = Ok (tt, s') ->
    reachable start now' s'.

(** No processor outside a hardware transaction is in a region whose outcome
    is still open. *)
Definition outcomes_known (s : XactProfiler) : Prop :=
  Forall (fun r => m_inHardwareTransaction r = false ->
    AnnotatedRegion_hasDualOutcome (m_annotatedRegion r) = false) (m_procs s).

(** *** Sums *)

Lemma u64_cong a b : u64 (u64 a + b) = u64 (a + b).
Proof. unfold u64. by rewrite Zplus_mod_idemp_l. Qed.

Lemma u64_cong_r a b : u64 (a + u64 b) = u64 (a + b).
Proof. unfold u64. by rewrite Zplus_mod_idemp_r. Qed.

Lemma u64_add_proper a a' b b' :
  u64 a = u64 a' -> u64 b = u64 b' -> u64 (a + b) = u64 (a' + b').
Proof.
  intros Ha Hb. rewrite <- (u64_cong a), <- (u64_cong a'), Ha.
  rewrite <- (u64_cong_r _ b), <- (u64_cong_r _ b'). by rewrite Hb.
Qed.

Lemma zsum_alter f l i x :
  l !! i = Some x -> zsum (alter f i l) = zsum l - x + f x.
Proof.
  revert i. induction l as [|z l IH]; intros [|i] Hi; try done.
  - injection Hi as ->. change (f x + zsum l = x + zsum l - x + f x). lia.
  - change (z + zsum (alter f i l) = z + zsum l - x + f x).
    rewrite (IH i) by done. lia.
Qed.

Lemma zsum_insert l i x y :
  l !! i = Some x -> zsum (<[i := y]> l) = zsum l - x + y.
Proof.
  revert i. induction l as [|z l IH]; intros [|i] Hi; try done.
  - injection Hi as ->. change (y + zsum l = x + zsum l - x + y). lia.
  - change (z + zsum (<[i := y]> l) = z + zsum l - x + y).
    rewrite (IH i) by done. lia.
Qed.

Lemma zsum_zeroes n : zsum (replicate n 0) = 0.
Proof. induction n as [|n IH]; [done|]. exact IH. Qed.

Lemma region_idx_lt r : (region_idx r < AnnotatedRegion_NUM)%nat.
Proof. destruct r; cbn; unfold AnnotatedRegion_NUM; lia. Qed.

Lemma add_cycles_length region c l : length (add_cycles region c l) = length l.
Proof. apply length_alter. Qed.

Lemma add_cycles_sum region c l :
  length l = AnnotatedRegion_NUM -> u64 (zsum (add_cycles region c l)) = u64 (zsum l + c).
Proof.
  intros Hl. unfold add_cycles.
  destruct (lookup_lt_is_Some_2 l (region_idx region)) as [x Hx].
  { rewrite Hl. apply region_idx_lt. }
  rewrite (zsum_alter _ _ _ x) by done. rewrite u64_cong_r. f_equal. lia.
Qed.

(** *** One row at a time

    Every operation of the profiler changes the row of one processor. *)

Definition row_step (p : Z) (R : ProcRegions -> ProcRegions -> Prop)
    (s s' : XactProfiler) : Prop :=
  0 <= p /\
  exists r r', m_procs s !! Z.to_nat p = Some r /\ R r r' /\
    m_procs s' = <[Z.to_nat p := r']> (m_procs s).

Lemma proc_inv p s r s' :
  proc p s = Ok (r, s') -> s' = s /\ 0 <= p /\ m_procs s !! Z.to_nat p = Some r.
Proof.
  unfold proc. intros H. m_inv.
  match goal with H : vec_at _ _ _ = _ |- _ => by apply vec_at_inv in H end.
Qed.

Lemma on_proc_step p f s u s' :
  on_proc p f s = Ok (u, s') -> row_step p (fun r r' => r' = f r) s s'.
Proof.
  unfold on_proc. intros H. m_inv.
  match goal with H : proc _ _ = _ |- _ => apply proc_inv in H as (-> & Hp & Hr) end.
  match goal with H : vec_set _ _ _ = _ |- _ => apply vec_set_inv in H as -> end.
  split; [done|]. eauto.
Qed.

Lemma row_step_trans p R1 R2 s1 s2 s3 :
  row_step p R1 s1 s2 -> row_step p R2 s2 s3 ->
  row_step p (fun r r' => exists r1, R1 r r1 /\ R2 r1 r') s1 s3.
Proof.
  intros (Hp & r & r1 & Hr & HR1 & E1) (_ & r1' & r2 & Hr1 & HR2 & E2).
  split; [done|]. exists r, r2. split; [done|].
  rewrite E1 in Hr1. rewrite list_lookup_insert_eq in Hr1
    by (by eapply lookup_lt_Some). injection Hr1 as <-.
  split; [by exists r1|]. by rewrite E2, E1, list_insert_insert_eq.
Qed.

Lemma row_step_mono p (R1 R2 : ProcRegions -> ProcRegions -> Prop) s s' :
  (forall r r', m_procs s !! Z.to_nat p = Some r -> R1 r r' -> R2 r r') ->
  row_step p R1 s s' -> row_step p R2 s s'.
Proof.
  intros HR (Hp & r & r' & Hr & HR1 & E). split; [done|]. exists r, r'. eauto.
Qed.

Lemma row_step_procs p R s1 s2 s3 :
  m_procs s3 = m_procs s2 -> row_step p R s1 s2 -> row_step p R s1 s3.
Proof. intros E (Hp & r & r' & ?). split; [done|]. exists r, r'. by rewrite E. Qed.

Lemma row_step_self p s s1 r :
  row_step p (fun r0 r' => r' = r0) s s1 -> m_procs s !! Z.to_nat p = Some r ->
  m_procs s1 = m_procs s.
Proof.
  intros (Hp & r0 & r' & Hr & -> & E) _. rewrite E. by apply list_insert_id.
Qed.

Lemma profile_region_step region p c s u s' :
  profile_region region p c s = Ok (u, s') ->
  row_step p (fun r r' => r' = r <| m_state_cycle_count ::= add_cycles region c |>) s s'.
Proof.
  unfold profile_region, profileRegion. intros H. m_inv.
  match goal with H : on_proc _ _ _ = _ |- _ => apply on_proc_step in H as Hs end.
  eapply row_step_procs; [|exact Hs]. done.
Qed.

Definition sized (r : ProcRegions) : Prop :=
  length (m_state_cycle_count r) = AnnotatedRegion_NUM /\
  length (m_currentXactCyclesPerRegion r) = AnnotatedRegion_NUM.

(** [r'] is [r] with [c] more cycles charged and the control fields as they
    were. *)
Definition charged (c : Z) (r r' : ProcRegions) : Prop :=
  (sized r -> sized r' /\ u64 (proc_cycles r') = u64 (proc_cycles r + c)) /\
  m_annotatedRegion r' = m_annotatedRegion r /\
  m_xactLastRegionProfile r' = m_xactLastRegionProfile r /\
  m_inHardwareTransaction r' = m_inHardwareTransaction r.

Lemma charged_trans c1 c2 r1 r2 r3 :
  charged c1 r1 r2 -> charged c2 r2 r3 -> charged (c1 + c2) r1 r3.
Proof.
  intros (H1 & E11 & E12 & E13) (H2 & E21 & E22 & E23).
  split; [|repeat split; congruence].
  intros [H3 E3]%H1. destruct (H2 H3) as [H4 ->]. split; [done|].
  rewrite <- u64_cong, E3, u64_cong. f_equal. lia.
Qed.

Lemma charged_count region c r :
  charged c r (r <| m_state_cycle_count ::= add_cycles region c |>).
Proof.
  split; [|done]. intros [H1 H2]. split; [split; [by rewrite <- H1; apply add_cycles_length|done]|].
  unfold proc_cycles. cbn [upd m_state_cycle_count m_currentXactCyclesPerRegion].
  rewrite <- u64_cong, add_cycles_sum, u64_cong by done. f_equal. lia.
Qed.

Lemma charged_cur region c r :
  charged c r (r <| m_currentXactCyclesPerRegion ::= add_cycles region c |>).
Proof.
  split; [|done]. intros [H1 H2]. split; [split; [done|by rewrite <- H2; apply add_cycles_length]|].
  unfold proc_cycles. cbn [upd m_state_cycle_count m_currentXactCyclesPerRegion].
  rewrite <- u64_cong_r, add_cycles_sum, u64_cong_r by done. f_equal. lia.
Qed.

Lemma charged_clear i c r :
  m_currentXactCyclesPerRegion r !! i = Some c ->
  charged (- c) r (r <| m_currentXactCyclesPerRegion ::= <[i := 0]> |>).
Proof.
  intros Hc. split; [|done]. intros [H1 H2].
  split; [split; [done|by rewrite <- H2; apply length_insert]|].
  unfold proc_cycles. cbn [upd m_state_cycle_count m_currentXactCyclesPerRegion].
  rewrite (zsum_insert _ _ c) by done. f_equal. lia.
Qed.

Lemma profileOutcome_step p b i s u s' :
  profileOutcome p b i s = Ok (u, s') -> row_step p (charged 0) s s'.
Proof.
  unfold profileOutcome. intros H. m_inv.
  repeat match goal with
  | H : proc _ _ = _ |- _ => apply proc_inv in H as (-> & Hp & Hr)
  | H : profile_region _ _ _ _ = _ |- _ => apply profile_region_step in H as Hs1; clear H
  | H : on_proc _ _ _ = _ |- _ => apply on_proc_step in H as Hs2; clear H
  | H : vec_at _ _ _ = _ |- _ => apply vec_at_inv in H as [_ Hc]
  end.
  eapply row_step_mono; [|exact (row_step_trans _ _ _ _ _ _ Hs1 Hs2)].
  intros r r' Hr' (r1 & -> & ->). rewrite Hr in Hr'. injection Hr' as <-.
  rewrite Nat2Z.id in Hc.
  match type of Hc with _ = Some ?c => rewrite <- (Z.add_opp_diag_r c) at 1 end.
  eapply charged_trans; [apply charged_count|by apply charged_clear].
Qed.

Lemma forM_step {A} (f : A -> P unit) (R : ProcRegions -> ProcRegions -> Prop) p l s u s' r :
  0 <= p -> m_procs s !! Z.to_nat p = Some r ->
  (forall r, R r r) -> (forall r1 r2 r3, R r1 r2 -> R r2 r3 -> R r1 r3) ->
  (forall x s u s', f x s = Ok (u, s') -> row_step p R s s') ->
  forM l f s = Ok (u, s') -> row_step p R s s'.
Proof.
  intros Hp Hr Hrefl Htr Hf. revert s r Hr.
  induction l as [|x l IH]; intros s r Hr H; cbn [forM] in H.
  - m_inv. split; [done|]. exists r, r. by rewrite list_insert_id.
  - m_inv. destruct (Hf _ _ _ _ H) as (_ & r0 & r1 & Hr0 & HR & E).
    eapply row_step_mono; [|eapply row_step_trans; [by apply (Hf _ _ _ _ H)|]].
    2:{ eapply (IH _ r1); [|done]. rewrite E. apply list_lookup_insert_eq.
        by eapply lookup_lt_Some. }
    intros ? ? _ (? & ? & ?). eauto.
Qed.

Lemma charged_0_refl r : charged 0 r r.
Proof. split; [|done]. intros Hs. split; [done|]. by rewrite Z.add_0_r. Qed.

Lemma profileCurrentTransactionalRegion_step p s u s' :
  profileCurrentTransactionalRegion p s = Ok (u, s') -> row_step p (charged 0) s s'.
Proof.
  unfold profileCurrentTransactionalRegion. intros H. m_inv.
  match goal with H : proc _ _ = _ |- _ => apply proc_inv in H as (-> & Hp & Hr) end.
  destruct (_ || _); [|done]. eapply forM_step; eauto using charged_0_refl.
  - intros. change 0 with (0 + 0). by eapply charged_trans.
  - intros. by eapply profileOutcome_step.
Qed.

(** The effect of a region change on a row: the cycles since the last
    profile are charged, and the invariant of the hardware-transaction flag
    is kept. *)
Definition changed (now : Z) (next : AnnotatedRegion) (r r' : ProcRegions) : Prop :=
  (sized r -> sized r' /\
    u64 (proc_cycles r') = u64 (proc_cycles r + (now - m_xactLastRegionProfile r))) /\
  m_annotatedRegion r' = next /\ m_xactLastRegionProfile r' = now /\
  m_xactLastRegionProfile r <= now /\
  (m_inHardwareTransaction r' = false ->
   AnnotatedRegion_isHardwareTransaction next = false).

(** The control fields set at the two ends of [profileRegionChange]. *)
Lemma changed_finish now c r r1 r2 next :
  charged c r r1 -> c = now - m_xactLastRegionProfile r ->
  m_xactLastRegionProfile r <= now ->
  (m_inHardwareTransaction r2 = false ->
   AnnotatedRegion_isHardwareTransaction next = false) ->
  m_state_cycle_count r2 = m_state_cycle_count r1 ->
  m_currentXactCyclesPerRegion r2 = m_currentXactCyclesPerRegion r1 ->
  changed now next r
    ((if region_eqb (m_annotatedRegion r2) next then r2
      else r2 <| m_xactLastRegionChange := now |>)
     <| m_annotatedRegion := next |> <| m_xactLastRegionProfile := now |>).
Proof.
  intros (Hs & _) -> Hle Hhw E1 E2.
  unfold changed, sized, proc_cycles in *. destruct (region_eqb _ next); cbn in *;
    rewrite E1, E2; split_and!; auto.
Qed.

Ltac prof_steps :=
  repeat match goal with
  | H : proc _ _ = _ |- _ => apply proc_inv in H as (-> & ? & ?)
  | H : profile_region _ _ _ _ = _ |- _ => apply profile_region_step in H
  | H : on_proc _ _ _ = _ |- _ => apply on_proc_step in H
  | H : profileCurrentTransactionalRegion _ _ = _ |- _ =>
      apply profileCurrentTransactionalRegion_step in H
  end.

(** Compose the row steps of a straight-line body. *)
Ltac prof_compose :=
  repeat match goal with
  | H1 : row_step ?p _ ?s1 ?s2, H2 : row_step ?p _ ?s2 ?s3 |- _ =>
      pose proof (row_step_trans _ _ _ _ _ _ H1 H2); clear H1 H2
  end.

(** Read the composed steps as equations on the row. *)
Ltac prof_row :=
  eapply row_step_mono; [|eassumption]; cbn beta; intros ? ? ? ?;
  repeat match goal with
  | H : exists _, _ |- _ => destruct H as (? & ? & ?)
  end;
  match goal with
  | A : ?l !! ?i = Some _, B : ?l !! ?i = Some _ |- _ =>
      rewrite A in B; injection B as <-
  end; subst.

Lemma profileRegionChange_step now level p next s u s' :
  profileRegionChange now level p next s = Ok (u, s') ->
  row_step p (changed now next) s s'.
Proof.
  unfold profileRegionChange. intros H. m_inv. prof_steps.
  match goal with H : (_ <=? now) = true |- _ => apply Z.leb_le in H end.
  destruct (m_inHardwareTransaction x) eqn:Ehw; m_inv.
  - unfold when, leaveHardwareTransaction, when in *.
    destruct (negb (region_eqb _ next) && _) eqn:El; m_inv.
    + apply andb_true_iff in El as [_ El].
      assert (AnnotatedRegion_isHardwareTransaction next = false) as Hn.
      { destruct next; done. }
      destruct (region_eqb _ COMMITTING); m_inv; prof_steps; prof_compose; prof_row.
      all: eapply changed_finish;
        [eapply charged_trans; [apply charged_cur|eassumption]|lia|done|done|done|done].
    + prof_steps; prof_compose; prof_row.
      eapply changed_finish; [apply charged_cur|done|done| |done|done]. cbn. congruence.
  - destruct (_ && _) eqn:E1; [|destruct (AnnotatedRegion_isHardwareTransaction next) eqn:E2];
      m_inv; prof_steps; prof_compose; prof_row.
    + apply andb_true_iff in E1 as [_ E1]. apply bool_decide_eq_true in E1 as ->.
      by eapply changed_finish; [apply charged_count|..].
    + eapply changed_finish; [apply charged_count|done|done|..];
        cbn; by destruct (m_inTransaction x).
    + by eapply changed_finish; [apply charged_count|..].
Qed.

Lemma row_ok_changed start now next r r' :
  row_ok start r -> changed now next r r' ->
  row_ok start r' /\ m_xactLastRegionProfile r' <= now.
Proof.
  intros [H1 H2 H3 H4] (Hs & Hreg & Hl & Hle & Hhw). split; [|lia].
  destruct (Hs (conj H1 H2)) as [[H1' H2'] Hb]. split; [done|done| |by rewrite Hreg].
  rewrite Hb, Hl, <- u64_cong, H3, u64_cong. f_equal. lia.
Qed.

Lemma profiler_ok_step start now now' p next s s' :
  profiler_ok start now s -> now <= now' ->
  row_step p (changed now' next) s s' -> profiler_ok start now' s'.
Proof.
  unfold profiler_ok. intros Hok Hle (Hp & r & r' & Hr & Hch & E). rewrite E.
  assert (Forall (fun r => row_ok start r /\ m_xactLastRegionProfile r <= now')
            (m_procs s)) as Hok'.
  { eapply Forall_impl; [exact Hok|]. intros r0 [? ?]. split; [done|lia]. }
  apply Forall_insert; [done|].
  eapply Forall_lookup_1 in Hr; [|exact Hok]. destruct Hr as [Hr _].
  eauto using row_ok_changed.
Qed.

Lemma profiler_ok_later start now now' s :
  profiler_ok start now s -> now <= now' -> profiler_ok start now' s.
Proof.
  unfold profiler_ok. intros Hok Hle. eapply Forall_impl; [exact Hok|].
  intros r [? ?]. split; [done|lia].
Qed.

Lemma profiler_ok_change start now level p next s u s' :
  profiler_ok start now s ->
  profileRegionChange now level p next s = Ok (u, s') -> profiler_ok start now s'.
Proof.
  intros Hok H%profileRegionChange_step. by eapply profiler_ok_step.
Qed.

Lemma profiler_ok_moveTo start now level p region s u s' :
  profiler_ok start now s ->
  moveTo now level p region s = Ok (u, s') -> profiler_ok start now s'.
Proof.
  unfold moveTo. intros Hok H. m_inv. prof_steps.
  destruct (negb _); m_inv; [|done]. by eapply profiler_ok_change.
Qed.

Lemma profiler_ok_forM start now {A} (f : A -> P unit) l s u s' :
  (forall x s u s', profiler_ok start now s -> f x s = Ok (u, s') ->
     profiler_ok start now s') ->
  profiler_ok start now s -> forM l f s = Ok (u, s') -> profiler_ok start now s'.
Proof.
  intros Hf. revert s. induction l as [|x l IH]; intros s Hok H; cbn [forM] in H; m_inv.
  - done.
  - eauto.
Qed.

Lemma profiler_ok_begin start now level wait p region s u s' :
  profiler_ok start now s ->
  beginRegion now level wait p region s = Ok (u, s') -> profiler_ok start now s'.
Proof.
  unfold beginRegion. intros Hok H. m_inv.
  eapply profiler_ok_moveTo; [|eassumption].
  destruct region; m_inv; prof_steps; try done.
  eapply profiler_ok_forM; [| |eassumption]; [|exact Hok].
  cbn beta. intros. m_inv. prof_steps. unfold when in *.
  destruct (_ && _); m_inv; [|done]. by eapply profiler_ok_moveTo.
Qed.

Lemma profiler_ok_end start now level p region s u s' :
  profiler_ok start now s ->
  endRegion now start level p region s = Ok (u, s') -> profiler_ok start now s'.
Proof.
  unfold endRegion. intros Hok H. m_inv.
  eapply profiler_ok_moveTo; [|eassumption].
  destruct region; m_inv; prof_steps; try done.
  destruct (_ =? _); m_inv; done.
Qed.

Lemma profiler_ok_profile start now level s u s' :
  profiler_ok start now s ->
  profileCurrentAnnotatedRegion now start level s = Ok (u, s') -> profiler_ok start now s'.
Proof.
  unfold profileCurrentAnnotatedRegion. intros Hok H. m_inv.
  eapply profiler_ok_forM; [|exact Hok|eassumption].
  cbn beta. intros. m_inv. prof_steps. by eapply profiler_ok_change.
Qed.

Lemma reachable_ok start now s : reachable start now s -> profiler_ok start now s.
Proof.
  induction 1 as [n c0 s Hi|? ? ? ? ? ? ? _ IH ? Hs|? ? ? ? ? ? ? ? _ IH ? Hs
    |? ? ? ? ? ? ? _ IH ? Hs|? ? ? ? ? _ IH ? Hs].
  2: eapply profiler_ok_moveTo in Hs; [exact Hs|by eapply profiler_ok_later].
  2: eapply profiler_ok_begin in Hs; [exact Hs|by eapply profiler_ok_later].
  2: eapply profiler_ok_end in Hs; [exact Hs|by eapply profiler_ok_later].
  2: eapply profiler_ok_profile in Hs; [exact Hs|by eapply profiler_ok_later].
  unfold resetStats in Hi. m_inv. unfold profiler_ok, XactProfiler_init. cbn.
  rewrite fmap_replicate. apply Forall_replicate. cbn. split; [|lia].
  split; [done|done| |done]. cbn. by rewrite Z.sub_diag.
Qed.

(** *** The accumulated total *)

Lemma wp_proc p Q s r :
  0 <= p -> m_procs s !! Z.to_nat p = Some r -> Q r s -> wp (proc p) Q s.
Proof.
  intros Hp Hr HQ. unfold proc. wp_simpl. rewrite (vec_at_ok _ _ _ r) by done.
  by wp_simpl.
Qed.

Lemma wp_on_proc p f Q s r :
  0 <= p -> m_procs s !! Z.to_nat p = Some r ->
  Q tt (s <| m_procs := <[Z.to_nat p := f r]> (m_procs s) |>) -> wp (on_proc p f) Q s.
Proof.
  intros Hp Hr HQ. unfold on_proc. wp_simpl. eapply wp_proc; [done..|]. wp_simpl.
  rewrite vec_set_ok; [by wp_simpl|].
  apply lookup_lt_Some in Hr. lia.
Qed.

(** A write to a row that exists returns, and the row still exists. *)
Definition has_row (p : Z) (s : XactProfiler) : Prop :=
  0 <= p < num_procs s.

Lemma wp_on_row p f (Q : unit -> XactProfiler -> Prop) s :
  has_row p s -> (forall s', has_row p s' -> Q tt s') -> wp (on_proc p f) Q s.
Proof.
  unfold has_row, num_procs. intros [H1 H2] HQ.
  destruct (lookup_lt_is_Some_2 (m_procs s) (Z.to_nat p)) as [r Hr]; [lia|].
  eapply wp_on_proc; [done..|]. apply HQ. cbn. rewrite length_insert. lia.
Qed.

Lemma region_eqb_refl r : region_eqb r r = true.
Proof. by apply bool_decide_eq_true. Qed.

(** Profiling the current region returns when its outcome is known. *)
Lemma profile_same_region start now level p r s :
  0 <= p -> m_procs s !! Z.to_nat p = Some r ->
  row_ok start r -> m_xactLastRegionProfile r <= now ->
  (m_inHardwareTransaction r = false ->
   AnnotatedRegion_hasDualOutcome (m_annotatedRegion r) = false) ->
  wp (profileRegionChange now level p (m_annotatedRegion r)) (fun _ _ => True) s.
Proof.
  intros Hp Hr Hok Hle Hd. unfold profileRegionChange, profile_region, profileRegion.
  assert (has_row p s) as Hin.
  { split; [done|]. apply lookup_lt_Some in Hr. unfold num_procs. lia. }
  wp_simpl. eapply wp_proc; [done..|]. wp_simpl. split; [by apply Z.leb_le|].
  rewrite region_eqb_refl. cbn [negb andb when].
  destruct (m_inHardwareTransaction r) eqn:Ehw; wp_simpl.
  - apply wp_on_row; [done|intros s1 H1]. wp_simpl.
    apply wp_on_row; [done|intros s2 H2]. by apply wp_on_row.
  - rewrite Hd by done. split; [done|]. apply wp_on_row; [done|intros s1 H1]. wp_simpl.
    rewrite (row_hw _ _ Hok Ehw). destruct (_ && _) eqn:E.
    { apply andb_true_iff in E as [E1 E2]. apply bool_decide_eq_true in E1, E2. congruence. }
    wp_simpl. apply wp_on_row; [done|intros s2 H2]. by apply wp_on_row.
Qed.

(** Reading a vector region by region reads all of it. *)
Lemma zsum_regions (l : list Z) :
  length l = AnnotatedRegion_NUM -> zsum ((fun j => l !!! region_idx j) <$> regions) = zsum l.
Proof.
  intros Hl. f_equal.
  transitivity ((fun i => l !!! i) <$> seq 0 (length l)); [by rewrite Hl|].
  apply list_eq. intros i. rewrite list_lookup_fmap.
  destruct (decide (i < length l)%nat) as [Hi|Hi].
  - rewrite lookup_seq_lt by done. cbn.
    symmetry. by apply list_lookup_lookup_total_lt.
  - rewrite lookup_seq_ge by lia. cbn. symmetry. apply lookup_ge_None. lia.
Qed.

Lemma vec_at_region (l : list Z) j :
  length l = AnnotatedRegion_NUM ->
  vec_at EUndef l (Z.of_nat (region_idx j)) = Ok (l !!! region_idx j).
Proof.
  intros Hl. apply vec_at_ok; [lia|]. rewrite Nat2Z.id.
  apply list_lookup_lookup_total_lt. rewrite Hl. apply region_idx_lt.
Qed.

Lemma Ok_u64 a b : a = b -> Ok (u64 a) = Ok (u64 b).
Proof. by intros ->. Qed.

Lemma proc_total_ok r t :
  sized r ->
  foldR (fun total j =>
      let? a := vec_at EUndef (m_state_cycle_count r) (Z.of_nat (region_idx j)) in
      let? b := vec_at EUndef (m_currentXactCyclesPerRegion r) (Z.of_nat (region_idx j)) in
      Ok (u64 (u64 (total + a) + b))) (u64 t) regions = Ok (u64 (t + proc_cycles r)).
Proof.
  intros [H1 H2]. unfold proc_cycles.
  rewrite <- (zsum_regions _ H1), <- (zsum_regions _ H2).
  generalize regions as js. intros js. revert t.
  induction js as [|j js IH]; intros t.
  - apply Ok_u64. unfold zsum. cbn [fmap list_fmap foldr]. lia.
  - cbn [foldR]. rewrite !vec_at_region by done. cbn [rbind].
    rewrite u64_cong, <- Z.add_assoc, u64_cong, IH, !fmap_cons. apply Ok_u64.
    unfold zsum. cbn [foldr]. lia.
Qed.

Lemma total_ok s :
  Forall sized (m_procs s) ->
  totalRegionCycles s = Ok (u64 (zsum (proc_cycles <$> m_procs s))).
Proof.
  unfold totalRegionCycles. intros Hs. change 0 with (u64 0).
  enough (forall t l, Forall sized l -> foldR (fun total r =>
    foldR (fun total j =>
      let? a := vec_at EUndef (m_state_cycle_count r) (Z.of_nat (region_idx j)) in
      let? b := vec_at EUndef (m_currentXactCyclesPerRegion r) (Z.of_nat (region_idx j)) in
      Ok (u64 (u64 (total + a) + b))) total regions) (u64 t) l
    = Ok (u64 (t + zsum (proc_cycles <$> l)))) as Hg by (by apply Hg).
  clear. intros t l Hl. revert t. induction Hl as [|r l Hr Hl IH]; intros t.
  - cbn. by rewrite Z.add_0_r.
  - cbn [foldR]. rewrite proc_total_ok by done. cbn [rbind]. rewrite IH, fmap_cons.
    apply Ok_u64. unfold zsum. cbn [foldr]. lia.
Qed.

Lemma balanced_total start now l :
  Forall (fun r => row_ok start r /\ m_xactLastRegionProfile r = now) l ->
  u64 (zsum (proc_cycles <$> l)) = u64 ((now - start) * Z.of_nat (length l)).
Proof.
  induction 1 as [|r l [Hr Hn] Hl IH]; [by rewrite Z.mul_0_r|].
  rewrite fmap_cons. change (zsum (?x :: ?l)) with (x + zsum l).
  erewrite u64_add_proper; [|apply (row_balance _ _ Hr)|exact IH].
  rewrite Hn. cbn [length]. apply (f_equal u64). lia.
Qed.

(** The loop of [profileCurrentAnnotatedRegion] returns, and every row is
    then profiled up to the current cycle. *)
Lemma charge_all_rows start now level s :
  profiler_ok start now s -> outcomes_known s ->
  wp (forM (seqZ 0 (num_procs s)) (fun i =>
        let* r := proc i in
        profileRegionChange now (level i) i (m_annotatedRegion r)))
    (fun _ s' => length (m_procs s') = length (m_procs s) /\
       Forall (fun r => row_ok start r /\ m_xactLastRegionProfile r = now) (m_procs s')) s.
Proof.
  intros Hok Hk.
  eapply wp_mono; [|apply (wp_range _ (fun i s' =>
    length (m_procs s') = length (m_procs s) /\
    profiler_ok start now s' /\
    forall j, if (j <? Z.to_nat i)%nat
      then forall r, m_procs s' !! j = Some r -> m_xactLastRegionProfile r = now
      else m_procs s' !! j = m_procs s !! j))].
  - intros [] s' (Hlen & Hok' & Hj). split; [done|].
    apply Forall_lookup. intros j r Hjr.
    pose proof (proj1 (Forall_lookup _ _) Hok' j r Hjr) as [Hrow _]. split; [done|].
    specialize (Hj j). rewrite (proj2 (Nat.ltb_lt _ _)) in Hj; [by apply Hj|].
    apply lookup_lt_Some in Hjr. unfold num_procs. lia.
  - unfold num_procs. lia.
  - split_and!; [done|done|]. intros j. done.
  - intros i s' Hi (Hlen & Hok' & Hj). unfold num_procs in Hi.
    destruct (lookup_lt_is_Some_2 (m_procs s') (Z.to_nat i)) as [r Hr']; [lia|].
    wp_simpl. eapply wp_proc; [lia|done|].
    pose proof (proj1 (Forall_lookup _ _) Hok' _ _ Hr') as [Hrow Hlast].
    assert (m_procs s !! Z.to_nat i = Some r) as Hr0.
    { specialize (Hj (Z.to_nat i)). by rewrite Nat.ltb_irrefl, Hr' in Hj. }
    pose proof (proj1 (Forall_lookup _ _) Hk _ _ Hr0) as Hdual.
    pose proof (profile_same_region start now (level i) i r s' ltac:(lia) Hr'
                  Hrow Hlast Hdual) as Hret.
    apply wp_ok in Hret as ([] & s1 & E & _). unfold wp. rewrite E.
    pose proof (profileRegionChange_step _ _ _ _ _ _ _ E) as Hstep.
    split_and!; [|by eapply profiler_ok_change|].
    all: destruct Hstep as (Hi0 & r0 & r1 & Hr1 & (_ & _ & Hl & _) & ->).
    + by rewrite length_insert.
    + intros j. specialize (Hj j).
      destruct (decide (j = Z.to_nat i)) as [->|Hne].
      * rewrite (proj2 (Nat.ltb_lt _ _)) by lia. intros r2.
        rewrite list_lookup_insert_eq by lia. by intros [= <-].
      * rewrite list_lookup_insert_ne by done.
        destruct (Nat.ltb_spec j (Z.to_nat i)), (Nat.ltb_spec j (Z.to_nat (i + 1)));
          (done || lia).
Qed.

(** A charge outside a hardware transaction asserts that the region has one
    outcome. *)
Lemma profileRegionChange_known now level p next s u s' r :
  profileRegionChange now level p next s = Ok (u, s') -> 0 <= p ->
  m_procs s !! Z.to_nat p = Some r -> m_inHardwareTransaction r = false ->
  AnnotatedRegion_hasDualOutcome (m_annotatedRegion r) = false.
Proof.
  unfold profileRegionChange, proc. intros H Hp Hr Hhw. unfold bind at 1 2, get, lift in H.
  rewrite (vec_at_ok _ _ _ r) in H by done. unfold bind at 1, massert at 1 in H.
  destruct (_ <=? now); [|done]. unfold bind at 1 in H. rewrite Hhw in H.
  unfold bind at 1, profile_region in H. unfold bind at 1, massert at 1 in H.
  by destruct (AnnotatedRegion_hasDualOutcome (m_annotatedRegion r)).
Qed.

Lemma charge_all_known now level s u s' :
  forM (seqZ 0 (num_procs s)) (fun i =>
    let* r := proc i in
    profileRegionChange now (level i) i (m_annotatedRegion r)) s = Ok (u, s') ->
  outcomes_known s.
Proof.
  intros H. set (I := fun i s1 => forall j r, m_procs s !! j = Some r ->
    if (j <? Z.to_nat i)%nat
    then m_inHardwareTransaction r = false ->
         AnnotatedRegion_hasDualOutcome (m_annotatedRegion r) = false
    else m_procs s1 !! j = Some r).
  assert (I (0 + num_procs s) s') as Hend.
  { eapply forM_range_inv; [unfold num_procs; lia|exact H|by intros j r|].
    intros i s1 v s2 Hi HI Hf j r Hj. specialize (HI j r Hj).
    apply bind_ok in Hf as (r1 & ? & (-> & _ & _)%proc_inv & Hf).
    destruct (Nat.ltb_spec j (Z.to_nat i)).
    { by rewrite (proj2 (Nat.ltb_lt _ _)) by lia. }
    destruct (decide (j = Z.to_nat i)) as [->|Hne].
    - rewrite (proj2 (Nat.ltb_lt _ _)) by lia.
      apply (profileRegionChange_known _ _ _ _ _ _ _ r Hf); [lia|done].
    - rewrite (proj2 (Nat.ltb_ge _ _)) by lia.
      apply profileRegionChange_step in Hf as (_ & r2 & r3 & _ & _ & ->).
      by rewrite list_lookup_insert_ne. }
  apply Forall_lookup. intros j r Hj. specialize (Hend j r Hj).
  rewrite (proj2 (Nat.ltb_lt _ _)) in Hend; [done|].
  apply lookup_lt_Some in Hj. unfold num_procs. lia.
Qed.

(** C35: Cycle conservation.  On every run of the profiler after a statistics reset, with any
    interleaving of region changes, commits and aborts, charging the current regions returns
    exactly when no processor outside a hardware transaction is in a region whose outcome is
    still open (transactional, stalled or arbitrating).  When it
    returns, the assertion at its end holds: the cycles charged to all regions of all processors
    add up to the elapsed time of every processor ([uint64_t] arithmetic). *)
Theorem region_cycles_conserved start now now' level s :
  reachable start now s -> now <= now' ->
  (outcomes_known s <-> exists s', profileCurrentAnnotatedRegion now' start level s = Ok (tt, s')) /\
  forall s', profileCurrentAnnotatedRegion now' start level s = Ok (tt, s') ->
    totalRegionCycles s' = Ok (u64 ((now' - start) * num_procs s)).
Proof.
  intros Hr Hle. apply reachable_ok in Hr.
  pose proof (profiler_ok_later _ _ _ _ Hr Hle) as Hok.
  assert (forall s', profileCurrentAnnotatedRegion now' start level s = Ok (tt, s') ->
    outcomes_known s) as Hback.
  { intros s' H. apply bind_ok in H as (? & ? & [= <- <-] & H).
    apply bind_ok in H as (u & s1 & H & _). by apply charge_all_known in H. }
  assert (outcomes_known s -> exists s', profileCurrentAnnotatedRegion now' start level s =
    Ok (tt, s') /\ totalRegionCycles s' = Ok (u64 ((now' - start) * num_procs s))) as Hgo.
  { intros Hk. destruct (proj1 (wp_ok _ _ _) (charge_all_rows _ _ level _ Hok Hk))
      as ([] & s' & E & Hlen & Hrows).
    assert (totalRegionCycles s' = Ok (u64 ((now' - start) * num_procs s))) as Ht.
    { rewrite total_ok; [|eapply Forall_impl; [exact Hrows|]; intros r [[] _]; done].
      unfold num_procs. by rewrite <- Hlen, <- balanced_total. }
    exists s'. split; [|done].
    apply bind_ok. exists s, s. split; [done|].
    apply bind_ok. exists tt, s'. split; [exact E|].
    apply bind_ok. exists s', s'. split; [done|].
    apply bind_ok. exists (u64 ((now' - start) * num_procs s)), s'.
    split; [by rewrite Ht|]. apply massert_ok. split; [|done]. apply Z.eqb_eq.
    unfold num_procs. rewrite Hlen. unfold u64. by rewrite Zmult_mod_idemp_l. }
  split; [split|].
  - intros Hk. destruct (Hgo Hk) as (s' & H & _). by exists s'.
  - intros [s' H]. by apply (Hback s').
  - intros s' H. destruct (Hgo (Hback s' H)) as (s2 & H2 & Ht). rewrite H in H2.
    by injection H2 as <-.
Qed.

(** *** The rows of a hardware transaction *)

(** The regions a processor can be in inside a hardware transaction. *)
Definition tx_region (r : AnnotatedRegion) : bool :=
  match r with
  | DEFAULT | ABORT_HANDLER_HASLOCK | ABORT_HANDLER
  | ABORT_HANDLER_WAITFORRETRY_THRESHOLD | ABORT_HANDLER_WAITFORRETRY_EXCEPTION
  | ABORT_HANDLER_WAITFORRETRY_SIZE => false
  | _ => true
  end.

(** The regions [AnnotatedRegion_getOutcome] asserts to have no cycles. *)
Definition handler_region (r : AnnotatedRegion) : bool :=
  AnnotatedRegion_isAbortHandlerRegion r || region_eqb r ABORT_HANDLER_HASLOCK.

Definition no_handler_cycles (r : ProcRegions) : Prop :=
  forall region, handler_region region = true ->
    m_currentXactCyclesPerRegion r !! region_idx region = Some 0.

Record tx_row (now : Z) (r : ProcRegions) : Prop := {
  tr_sized : sized r;
  tr_hw : m_inHardwareTransaction r = true;
  tr_region : tx_region (m_annotatedRegion r) = true;
  tr_last : m_xactLastRegionProfile r <= now;
  tr_zero : no_handler_cycles r
}.

(** A processor outside of transactions: it runs, or handles an abort. *)
Record idle_row (now : Z) (r : ProcRegions) : Prop := {
  ir_sized : sized r;
  ir_hw : m_inHardwareTransaction r = false;
  ir_region : m_annotatedRegion r = DEFAULT \/
    AnnotatedRegion_isAbortHandlerRegion (m_annotatedRegion r) = true;
  ir_last : m_xactLastRegionProfile r <= now;
  ir_zero : no_handler_cycles r
}.

(** The only row an operation of processor [p] changed is its own. *)
Definition own_row (p : Z) (s s' : XactProfiler) (r' : ProcRegions) : Prop :=
  m_procs s' = <[Z.to_nat p := r']> (m_procs s) /\
  m_currentWaitForRetryRegion s' = m_currentWaitForRetryRegion s.

Lemma region_idx_inj a b : region_idx a = region_idx b -> a = b.
Proof. destruct a, b; try done; discriminate. Qed.

Lemma tr_zero_add now r region c other :
  tx_row now r -> tx_region region = true -> handler_region other = true ->
  add_cycles region c (m_currentXactCyclesPerRegion r) !! region_idx other = Some 0.
Proof.
  intros Hr Ht Ho. unfold add_cycles. rewrite list_lookup_alter_ne; [by apply (tr_zero _ _ Hr)|].
  intros E%region_idx_inj. subst. by destruct other.
Qed.

Lemma getOutcome_ok i b c :
  (handler_region i = true -> c = false) ->
  exists o, AnnotatedRegion_getOutcome i b c = Ok o /\
    AnnotatedRegion_hasDualOutcome o = false.
Proof.
  intros Hc. destruct i, b; try (eexists; split; reflexivity);
    (rewrite Hc by done; eexists; split; reflexivity).
Qed.

(** Moving inside a transaction. *)
Lemma moveTo_inside now level p next s r :
  0 <= p -> m_procs s !! Z.to_nat p = Some r -> tx_row now r ->
  tx_region next = true -> m_annotatedRegion r <> next ->
  exists s' r', moveTo now level p next s = Ok (tt, s') /\ own_row p s s' r' /\
    tx_row now r' /\ m_annotatedRegion r' = next.
Proof.
  intros Hp Hr Htx Hn Hne.
  set (r1 := r <| m_currentXactCyclesPerRegion ::=
    add_cycles (m_annotatedRegion r) (now - m_xactLastRegionProfile r) |>).
  set (r2 := r1 <| m_xactLastRegionChange := now |>).
  set (r3 := r2 <| m_annotatedRegion := next |> <| m_xactLastRegionProfile := now |>).
  assert (wp (moveTo now level p next) (fun _ s' => own_row p s s' r3) s) as Hwp.
  2:{ apply wp_ok in Hwp as ([] & s' & E & Ho). exists s', r3. split; [done|].
      split; [done|]. split; [|done]. destruct Htx as [[H1 H2] H3 H4 H5 H6].
      split; [|done|done|cbn; lia|].
      - split; [done|]. cbn. by rewrite add_cycles_length.
      - intros region Hh. cbn. by eapply tr_zero_add. }
  unfold moveTo. wp_simpl. eapply wp_proc; [done..|].
  unfold region_eqb at 1. rewrite bool_decide_eq_false_2 by done. cbn [negb]. wp_simpl.
  assert (region_eqb next ABORT_HANDLER = false) as -> by (by destruct next). cbn [andb].
  unfold profileRegionChange. wp_simpl. eapply wp_proc; [done..|]. wp_simpl.
  split; [apply Z.leb_le, Htx|]. rewrite (tr_hw _ _ Htx). wp_simpl.
  eapply wp_on_proc; [done..|]. fold r1.
  replace (region_eqb next DEFAULT || AnnotatedRegion_isAbortHandlerRegion next) with false
    by (by destruct next).
  rewrite andb_false_r. cbn [when]. wp_simpl.
  assert (forall x (l : list ProcRegions), l !! Z.to_nat p = Some r ->
    <[Z.to_nat p := x]> l !! Z.to_nat p = Some x) as Hl.
  { intros x l Hlr. apply list_lookup_insert_eq. by eapply lookup_lt_Some. }
  eapply wp_on_proc; [done|by apply Hl|].
  replace (if region_eqb (m_annotatedRegion r1) next then r1
           else r1 <| m_xactLastRegionChange := now |>) with r2.
  2:{ unfold region_eqb. by rewrite bool_decide_eq_false_2. }
  eapply wp_on_proc; [done| |].
  { cbn. rewrite list_insert_insert_eq. by apply Hl. }
  split; [|done]. cbn. by rewrite !list_insert_insert_eq.
Qed.
(** Charging the held-back cycles of one region returns. *)
Lemma profileOutcome_ok p b i s r :
  0 <= p -> m_procs s !! Z.to_nat p = Some r -> sized r ->
  no_handler_cycles r ->
  wp (profileOutcome p b i) (fun _ s' => exists r',
    own_row p s s' r' /\ sized r' /\
    m_annotatedRegion r' = m_annotatedRegion r /\
    no_handler_cycles r') s.
Proof.
  intros Hp Hr [H1 H2] Hz. unfold profileOutcome, profile_region, profileRegion.
  destruct (lookup_lt_is_Some_2 (m_currentXactCyclesPerRegion r) (region_idx i)) as [c Hc].
  { rewrite H2. apply region_idx_lt. }
  wp_simpl. eapply wp_proc; [done..|]. wp_simpl.
  rewrite (vec_at_ok _ _ _ c) by (lia || by rewrite Nat2Z.id). wp_simpl.
  destruct (getOutcome_ok i b (negb (c =? 0))) as (o & -> & Ho).
  { intros Hh. rewrite (Hz i Hh) in Hc. by injection Hc as <-. }
  wp_simpl. rewrite Ho. split; [done|]. eapply wp_on_proc; [done..|]. wp_simpl.
  eapply wp_on_proc; [done| |].
  { cbn. apply list_lookup_insert_eq. by eapply lookup_lt_Some. }
  eexists. split; [split; [cbn; apply list_insert_insert_eq|done]|].
  split; [split; cbn; [by rewrite add_cycles_length|by rewrite length_insert]|].
  split; [done|]. intros region Hh. cbn.
  destruct (decide (region_idx i = region_idx region)) as [<-|Hne].
  - apply list_lookup_insert_eq. rewrite H2. apply region_idx_lt.
  - rewrite list_lookup_insert_ne by done. by apply Hz.
Qed.

Lemma own_row_trans p s1 s2 s3 r2 r3 :
  own_row p s1 s2 r2 -> own_row p s2 s3 r3 -> own_row p s1 s3 r3.
Proof.
  intros [E1 F1] [E2 F2]. split; [|congruence].
  by rewrite E2, E1, list_insert_insert_eq.
Qed.

Lemma own_row_lookup p s s' r r' :
  m_procs s !! Z.to_nat p = Some r -> own_row p s s' r' ->
  m_procs s' !! Z.to_nat p = Some r'.
Proof.
  intros Hr [E _]. rewrite E. apply list_lookup_insert_eq. by eapply lookup_lt_Some.
Qed.

Lemma profileCurrentTransactionalRegion_ok p s r :
  0 <= p -> m_procs s !! Z.to_nat p = Some r -> sized r ->
  no_handler_cycles r ->
  m_annotatedRegion r = COMMITTING \/ m_annotatedRegion r = ABORTING ->
  wp (profileCurrentTransactionalRegion p) (fun _ s' => exists r',
    own_row p s s' r' /\ sized r' /\ m_annotatedRegion r' = m_annotatedRegion r /\
    no_handler_cycles r') s.
Proof.
  intros Hp Hr Hs Hz Hreg. unfold profileCurrentTransactionalRegion. wp_simpl.
  eapply wp_proc; [done..|].
  replace (region_eqb (m_annotatedRegion r) COMMITTING ||
           region_eqb (m_annotatedRegion r) ABORTING) with true
    by (by destruct Hreg as [-> | ->]).
  eapply wp_mono; [|apply (wp_forM _ (fun _ s' => exists r', own_row p s s' r' /\ sized r' /\
    m_annotatedRegion r' = m_annotatedRegion r /\
    no_handler_cycles r'))].
  - intros [] s' (r' & H). by exists r'.
  - exists r. split; [|done]. split; [|done]. by rewrite list_insert_id.
  - intros i l s1 (r1 & Ho & Hs1 & Hreg1 & Hz1).
    eapply wp_mono; [|eapply (profileOutcome_ok p _ i s1 r1); eauto using own_row_lookup].
    intros [] s2 (r2 & Ho2 & Hs2 & Hreg2 & Hz2). exists r2.
    split; [by eapply own_row_trans|]. split; [done|]. split; [congruence|done].
Qed.

(** Where [moveTo] takes a processor that leaves a transaction. *)
Definition exit_region (wait next : AnnotatedRegion) : AnnotatedRegion :=
  if region_eqb next ABORT_HANDLER && negb (region_eqb wait INVALID) then wait else next.

(** Leaving a transaction that is committing or aborting. *)
Lemma moveTo_outside now level p next s r :
  0 <= p -> m_procs s !! Z.to_nat p = Some r -> tx_row now r ->
  m_annotatedRegion r = COMMITTING \/ m_annotatedRegion r = ABORTING ->
  let dest := exit_region (m_currentWaitForRetryRegion s) next in
  next = DEFAULT \/ next = ABORT_HANDLER ->
  dest = DEFAULT \/ AnnotatedRegion_isAbortHandlerRegion dest = true ->
  exists s' r', moveTo now level p next s = Ok (tt, s') /\ own_row p s s' r' /\
    m_annotatedRegion r' = dest /\ idle_row now r'.
Proof.
  intros Hp Hr Htx Hreg dest Hnext Hdest.
  assert (m_annotatedRegion r <> dest) as Hrd.
  { clearbody dest. intros E.
    destruct Hreg as [Hc|Hc], Hdest as [Hd|Hd]; rewrite E in Hc; by rewrite Hc in Hd. }
  enough (wp (moveTo now level p next) (fun _ s' => exists r', own_row p s s' r' /\
    m_annotatedRegion r' = dest /\ idle_row now r') s) as Hwp.
  { apply wp_ok in Hwp as ([] & s' & E & r' & H). by exists s', r'. }
  unfold moveTo. wp_simpl. eapply wp_proc; [done..|].
  unfold region_eqb at 1. rewrite bool_decide_eq_false_2
    by (destruct Hreg, Hnext; congruence). cbn [negb]. wp_simpl.
  change (if region_eqb next ABORT_HANDLER && _ then _ else next) with dest.
  unfold profileRegionChange. wp_simpl. eapply wp_proc; [done..|]. wp_simpl.
  split; [apply Z.leb_le, Htx|]. rewrite (tr_hw _ _ Htx). wp_simpl.
  eapply wp_on_proc; [done..|].
  replace (region_eqb dest DEFAULT || AnnotatedRegion_isAbortHandlerRegion dest) with true.
  2:{ destruct Hdest as [-> | ->]; [done|]. by rewrite orb_true_r. }
  unfold region_eqb at 1. rewrite bool_decide_eq_false_2 by done. cbn [negb andb when].
  unfold leaveHardwareTransaction. wp_simpl.
  set (r1 := r <| m_currentXactCyclesPerRegion ::= _ |>).
  set (s1 := s <| m_procs := _ |>).
  assert (own_row p s s1 r1) as Ho1 by done.
  pose proof (own_row_lookup _ _ _ _ _ Hr Ho1) as Hr1.
  assert (sized r1) as Hs1.
  { destruct (tr_sized _ _ Htx). split; [done|]. cbn. by rewrite add_cycles_length. }
  eapply wp_mono; [|apply (profileCurrentTransactionalRegion_ok p s1 r1 Hp Hr1 Hs1)].
  2:{ intros region Hh. eapply tr_zero_add; [done|apply Htx|done]. }
  2:{ done. }
  intros [] s2 (r2 & Ho2 & Hs2 & Hreg2 & Hz2). wp_simpl.
  pose proof (own_row_lookup _ _ _ _ _ Hr1 Ho2) as Hr2.
  eapply wp_on_proc; [done..|].
  set (r3 := r2 <| m_inHardwareTransaction := false |>). set (s3 := s2 <| m_procs := _ |>).
  assert (own_row p s2 s3 r3) as Ho3 by done.
  pose proof (own_row_lookup _ _ _ _ _ Hr2 Ho3) as Hr3.
  assert (forall s4 r4, own_row p s3 s4 r4 -> sized r4 -> m_inHardwareTransaction r4 = false ->
    no_handler_cycles r4 ->
    wp (on_proc p (fun r => if region_eqb (m_annotatedRegion r) dest then r
                            else r <| m_xactLastRegionChange := now |>))
     (fun _ => wp (on_proc p (fun r => r <| m_annotatedRegion := dest |>
                                         <| m_xactLastRegionProfile := now |>))
     (fun _ s' => exists r', own_row p s s' r' /\
    m_annotatedRegion r' = dest /\ idle_row now r')) s4) as Hfin.
  { intros s4 r4 Ho4 Hs4 Hh4 Hz4. pose proof (own_row_lookup _ _ _ _ _ Hr3 Ho4) as Hr4.
    eapply wp_on_proc; [done..|]. eapply wp_on_proc; [done| |].
    { cbn. apply list_lookup_insert_eq. by eapply lookup_lt_Some. }
    eexists. split.
    { eapply own_row_trans; [exact Ho1|]. eapply own_row_trans; [exact Ho2|].
      eapply own_row_trans; [exact Ho3|]. eapply own_row_trans; [exact Ho4|].
      split; [cbn; apply list_insert_insert_eq|done]. }
    split; [done|]. split; try done; by destruct (region_eqb (m_annotatedRegion r4) dest). }
  unfold when. destruct (region_eqb _ COMMITTING).
  - eapply wp_on_proc; [done..|]. wp_simpl.
    by apply (Hfin _ (r3 <| m_inTransaction := false |>)).
  - wp_simpl. apply (Hfin s3 r3); [split; [|done]|done..]. by rewrite list_insert_id.
Qed.

(** Entering a transaction. *)
Lemma moveTo_enter now level p next s r :
  0 <= p -> m_procs s !! Z.to_nat p = Some r -> idle_row now r -> 0 < level ->
  next = TRANSACTIONAL \/ next = TRANSACTIONAL_POWER ->
  exists s' r', moveTo now level p next s = Ok (tt, s') /\ own_row p s s' r' /\
    tx_row now r' /\ m_annotatedRegion r' = next.
Proof.
  intros Hp Hr [Hs Hhw Hreg Hlast Hz] Hlev Hn.
  assert (m_annotatedRegion r <> next) as Hne.
  { intros E. destruct Hreg as [Hg|Hg], Hn as [Hn|Hn]; rewrite E, Hn in Hg; done. }
  set (r1 := r <| m_state_cycle_count ::= add_cycles (m_annotatedRegion r)
                    (now - m_xactLastRegionProfile r) |>).
  enough (wp (moveTo now level p next) (fun _ s' => exists r', own_row p s s' r' /\
    tx_row now r' /\ m_annotatedRegion r' = next) s) as Hwp.
  { apply wp_ok in Hwp as ([] & s' & E & r' & H). by exists s', r'. }
  assert (forall x (l : list ProcRegions), (Z.to_nat p < length l)%nat ->
    <[Z.to_nat p := x]> l !! Z.to_nat p = Some x) as Hl.
  { intros x l Hlr. by apply list_lookup_insert_eq. }
  assert (Z.to_nat p < length (m_procs s))%nat as Hlen by (by eapply lookup_lt_Some).
  unfold moveTo. wp_simpl. eapply wp_proc; [done..|].
  unfold region_eqb at 1. rewrite bool_decide_eq_false_2 by done. cbn [negb]. wp_simpl.
  replace (region_eqb next ABORT_HANDLER) with false by (by destruct Hn as [-> | ->]).
  cbn [andb]. unfold profileRegionChange, profile_region, profileRegion.
  wp_simpl. eapply wp_proc; [done..|]. wp_simpl.
  split; [by apply Z.leb_le|]. rewrite Hhw. wp_simpl.
  split. { destruct Hreg as [-> | Hg]; [done|]. by destruct (m_annotatedRegion r). }
  eapply wp_on_proc; [done..|]. fold r1. wp_simpl.
  replace (region_eqb next DEFAULT) with false by (by destruct Hn as [-> | ->]).
  rewrite andb_false_r.
  replace (AnnotatedRegion_isHardwareTransaction next) with true
    by (by destruct Hn as [-> | ->]).
  wp_simpl. split.
  { destruct Hreg as [-> | ->]; [done|]. apply orb_true_r. }
  eapply wp_on_proc; [done|by apply Hl|]. wp_simpl. split; [by apply Z.ltb_lt|].
  eapply wp_on_proc; [done| |].
  { cbn. rewrite list_insert_insert_eq. by apply Hl. }
  wp_simpl. eapply wp_on_proc; [done| |].
  { cbn. rewrite !list_insert_insert_eq. by apply Hl. }
  eapply wp_on_proc; [done| |].
  { cbn. rewrite !list_insert_insert_eq. by apply Hl. }
  eexists. split.
  { split; [cbn; by rewrite !list_insert_insert_eq|done]. }
  destruct Hs as [Hs1 Hs2]. unfold region_eqb.
  destruct (m_inTransaction r); cbn; rewrite bool_decide_eq_false_2 by done;
    (split; [|done]; split; cbn; [split; cbn; [by rewrite add_cycles_length|done]|done|
      by destruct Hn as [-> | ->]|lia|done]).
Qed.

(** Processor 0 of two runs a transaction of 20 cycles and commits it in 10. *)
Definition demo_moves : list (Z * AnnotatedRegion) :=
  [(110, TRANSACTIONAL); (130, COMMITTING); (140, DEFAULT)].

Definition demo_run (n : nat) : XactProfiler :=
  match (do* resetStats 100 100;
         forM (take n demo_moves) (fun m => moveTo m.1 1 0 m.2))
          (XactProfiler_init 2 7) with
  | Ok (_, s) => s
  | Err _ => XactProfiler_init 0 0
  end.

Lemma region_cycles_conserved_witness :
  exists s', profileCurrentAnnotatedRegion 150 100 (fun _ => 0) (demo_run 3) = Ok (tt, s') /\
    totalRegionCycles s' = Ok 100.
Proof.
  destruct (region_cycles_conserved 100 140 150 (fun _ => 0) (demo_run 3)) as [[Hk _] Ht].
  - apply (reachable_moveTo 100 130 140 1 0 DEFAULT (demo_run 2));
      [|lia|vm_compute; reflexivity].
    apply (reachable_moveTo 100 110 130 1 0 COMMITTING (demo_run 1));
      [|lia|vm_compute; reflexivity].
    apply (reachable_moveTo 100 100 110 1 0 TRANSACTIONAL (demo_run 0));
      [|lia|vm_compute; reflexivity].
    apply (reachable_reset 100 2 7). vm_compute. reflexivity.
  - lia.
  - destruct Hk as [s' Hs']; [vm_compute; repeat constructor|].
    exists s'. split; [exact Hs'|]. by rewrite (Ht s' Hs').
Defined.
