(* ===== verification/CacheMemory.v ===== *)
(** * The set-associative cache

    [mem/ruby/structures/CacheMemory.cc] and the entries of
    [mem/ruby/slicc_interface/AbstractCacheEntry.cc]: a two-dimensional array
    of nullable entries next to an index from tags to ways.  The file also
    states what the transactional layer relies on, the class [DataCache] with
    its laws, and shows that the cache provides it.  The replacement policy
    is not modelled: [cacheProbe] takes its choice of a victim as an
    argument, and [touch] only updates the tick of the last access. *)

From S2P Require Import Prelude Address DataBlock.

#[local] Open Scope Z_scope.

(** ** [RubySlicc_Exports.sm]: permissions and request types *)

Inductive AccessPermission :=
| Read_Only
| Read_Write
| Maybe_Stale
| Backing_Store
| Backing_Store_Busy
| Invalid
| NotPresent
| Busy.

#[global] Instance AccessPermission_eq_dec : EqDecision AccessPermission.
Proof. solve_decision. Defined.

Inductive RubyRequestType :=
| LD | ST | ATOMIC | ATOMIC_RETURN | ATOMIC_NO_RETURN | IFETCH | IO
| REPLACEMENT | Load_Linked | Store_Conditional | RMW_Read | RMW_Write
| Locked_RMW_Read | Locked_RMW_Write | COMMIT | NULL | FLUSH | Release
| Acquire | AcquireRelease | HTM_Start | HTM_Commit | HTM_Cancel | HTM_Abort
| HTM_Validate.

#[global] Instance RubyRequestType_eq_dec : EqDecision RubyRequestType.
Proof. solve_decision. Defined.

(** ** What the transactional layer relies on *)

(** The accesses of the transactional layer: a permission check that returns
    the block on a hit (without touching the replacement state), the
    deallocation of a line, and the LogTM sanity check. *)
Class DataCache (C : Type) := {
  dc_tryCacheAccess : Z -> RubyRequestType -> C -> res (option DataBlock);
  dc_deallocate : Z -> C -> res C;
  dc_checkHtmLogPendingClear : C -> res unit
}.

(** The permission test of [tryCacheAccess]. *)
Definition permits (perm : AccessPermission) (type : RubyRequestType) : bool :=
  match perm with
  | Read_Write => true
  | Read_Only => match type with LD | IFETCH => true | _ => false end
  | _ => false
  end.

Class DataCacheLaws `{RubySystem} (C : Type) `{DataCache C} := {
  dc_ok : C -> Prop;
  dc_line : C -> Z -> option (AccessPermission * DataBlock);
  dc_try_hit c a t perm blk :
    dc_ok c -> is_line a -> dc_line c a = Some (perm, blk) ->
    dc_tryCacheAccess a t c = Ok (if permits perm t then Some blk else None);
  dc_try_miss c a t :
    dc_ok c -> is_line a -> dc_line c a = None -> dc_tryCacheAccess a t c = Ok None;
  dc_dealloc_hit c a :
    dc_ok c -> is_line a -> dc_line c a <> None ->
    exists c', dc_deallocate a c = Ok c' /\ dc_ok c' /\ dc_line c' a = None /\
      forall b, is_line b -> b <> a -> dc_line c' b = dc_line c b
}.

(** ** Entries *)

Record Entry := MkEntry {
  m_Address : Z;
  m_Permission : AccessPermission;
  m_locked : Z;
  m_DataBlk : DataBlock;
  m_last_touch_tick : Z;
  m_htmInReadSet : bool;
  m_htmInWriteSet : bool;
  m_htmLogPending : bool;
  e_set : Z;
  e_way : Z
}.

#[global] Instance eta_Entry : Eta Entry := fun x =>
  MkEntry (m_Address x) (m_Permission x) (m_locked x) (m_DataBlk x)
    (m_last_touch_tick x) (m_htmInReadSet x) (m_htmInWriteSet x)
    (m_htmLogPending x) (e_set x) (e_way x).

Definition perm_eqb (a b : AccessPermission) : bool := bool_decide (a = b).

(** [AbstractCacheEntry::AbstractCacheEntry], with the block of the derived
    entry. *)
Definition new_entry (blk : DataBlock) : Entry :=
  MkEntry 0 NotPresent (-1) blk 0 false false false 0 0.

Definition entry_changePermission (new_perm : AccessPermission) (e : Entry) : Entry :=
  let e := e <| m_Permission := new_perm |> in
  if perm_eqb new_perm Invalid || perm_eqb new_perm NotPresent
  then e <| m_locked := -1 |> else e.

Definition entry_setLocked (context : Z) (e : Entry) : Entry := e <| m_locked := context |>.
Definition entry_clearLocked (e : Entry) : Entry := e <| m_locked := -1 |>.
Definition entry_isLocked (context : Z) (e : Entry) : bool := m_locked e =? context.

(** ** The cache *)

(** The geometry, fixed by [init]. *)
Record Geometry := MkGeometry {
  m_cache_num_sets : Z;
  m_cache_assoc : Z;
  m_cache_num_set_bits : Z;
  m_start_index_bit : Z
}.

(** [m_cache[set][way]] is null where the map has no entry; the array has
    [m_cache_num_sets] rows of [m_cache_assoc] cells. *)
Record CacheMemory := MkCacheMemory {
  geo : Geometry;
  m_cache : gmap (Z * Z) Entry;
  m_tag_index : gmap Z Z
}.

#[global] Instance eta_CacheMemory : Eta CacheMemory := fun x =>
  MkCacheMemory (geo x) (m_cache x) (m_tag_index x).

(** [CacheMemory::CacheMemory] and [init]: the number of sets from the size
    in bytes, and an array of null entries. *)
Definition init `{RubySystem} (size assoc start_index_bit : Z) : res CacheMemory :=
  let num_sets := (size / assoc) / getBlockSizeBytes in
  let? _ := rassert (1 <? num_sets) in
  let num_set_bits := Z.log2 num_sets in
  let? _ := rassert (0 <? num_set_bits) in
  Ok (MkCacheMemory (MkGeometry num_sets assoc num_set_bits start_index_bit) ∅ ∅).

Notation CM := (M CacheMemory).

Section ops.
Context `{RS : RubySystem}.

(** The array access [m_cache[set][way]]. *)
Definition cell (c : CacheMemory) (set way : Z) : res (option Entry) :=
  if (0 <=? set) && (set <? m_cache_num_sets (geo c)) &&
     (0 <=? way) && (way <? m_cache_assoc (geo c))
  then Ok (m_cache c !! (set, way)) else Err EUndef.

Definition addressToCacheSet (address : Z) (c : CacheMemory) : res Z :=
  let? _ := rassert (address =? makeLineAddress address) in
  bitSelect address (m_start_index_bit (geo c))
    (m_start_index_bit (geo c) + m_cache_num_set_bits (geo c) - 1).

(** [-1] when the tag is not found; a null entry behind the index is a null
    dereference. *)
Definition findTagInSet (cacheSet tag : Z) (c : CacheMemory) : res Z :=
  let? _ := rassert (tag =? makeLineAddress tag) in
  match m_tag_index c !! tag with
  | Some w =>
      let? e := cell c cacheSet w in
      match e with
      | Some e => Ok (if perm_eqb (m_Permission e) NotPresent then -1 else w)
      | None => Err EUndef
      end
  | None => Ok (-1)
  end.

Definition findTagInSetIgnorePermissions (cacheSet tag : Z) (c : CacheMemory) : res Z :=
  let? _ := rassert (tag =? makeLineAddress tag) in
  Ok (match m_tag_index c !! tag with Some w => w | None => -1 end).

Definition lookup (address : Z) (c : CacheMemory) : res (option Entry) :=
  let? _ := rassert (address =? makeLineAddress address) in
  let? cacheSet := addressToCacheSet address c in
  let? loc := findTagInSet cacheSet address c in
  if loc =? -1 then Ok None else cell c cacheSet loc.

Definition getAddressAtIdx (idx : Z) (c : CacheMemory) : res Z :=
  let set := Z.quot idx (m_cache_assoc (geo c)) in
  let? _ := rassert (set <? m_cache_num_sets (geo c)) in
  let way := idx - set * m_cache_assoc (geo c) in
  let? _ := rassert (way <? m_cache_assoc (geo c)) in
  let? e := cell c set way in
  match e with
  | None => Ok 0
  | Some e =>
      if perm_eqb (m_Permission e) Invalid || perm_eqb (m_Permission e) NotPresent
      then Ok 0 else Ok (m_Address e)
  end.

(** Writes through the pointer [lookup] returned. *)
Definition write_entry (e : Entry) (f : Entry -> Entry) : CM unit :=
  upd! m_cache ::= <[(e_set e, e_way e) := f e]>.

(** [Some blk] is [true] with [data_ptr = blk], [None] is [false]. *)
Definition tryCacheAccess (curTick address : Z) (type : RubyRequestType) (touch : bool)
    : CM (option DataBlock) :=
  let* c := get in
  let* entry := lift (lookup address c) in
  match entry with
  | Some e =>
      do* when touch (write_entry e (fun e => e <| m_last_touch_tick := curTick |>));
      ret (if perm_eqb (m_Permission e) Read_Write then Some (m_DataBlk e)
           else if perm_eqb (m_Permission e) Read_Only &&
                   (bool_decide (type = LD) || bool_decide (type = IFETCH))
           then Some (m_DataBlk e) else None)
  | None => ret None
  end.

Definition testCacheAccess (curTick address : Z) : CM (option DataBlock) :=
  let* c := get in
  let* entry := lift (lookup address c) in
  match entry with
  | Some e =>
      do* write_entry e (fun e => e <| m_last_touch_tick := curTick |>);
      ret (if perm_eqb (m_Permission e) NotPresent then None else Some (m_DataBlk e))
  | None => ret None
  end.

Definition isTagPresent (address : Z) (c : CacheMemory) : res bool :=
  let? entry := lookup address c in
  Ok (match entry with Some _ => true | None => false end).

(** The loop over the ways: it returns [true] at the first null, matching or
    [NotPresent] entry. *)
Definition way_avail (cacheSet address : Z) (c : CacheMemory) (i : Z) : res bool :=
  let? e := cell c cacheSet i in
  Ok (match e with
      | Some e => (m_Address e =? address) || perm_eqb (m_Permission e) NotPresent
      | None => true
      end).

Definition cacheAvail (address : Z) (c : CacheMemory) : res bool :=
  let? _ := rassert (address =? makeLineAddress address) in
  let? cacheSet := addressToCacheSet address c in
  let? full := allR (fun i => let? b := way_avail cacheSet address c i in Ok (negb b))
                 (seqZ 0 (m_cache_assoc (geo c))) in
  Ok (negb full).

(** The first open slot of a set. *)
Definition way_open (cacheSet : Z) (c : CacheMemory) (i : Z) : res bool :=
  let? e := cell c cacheSet i in
  Ok (match e with Some e => perm_eqb (m_Permission e) NotPresent | None => true end).

Fixpoint first_open (cacheSet : Z) (c : CacheMemory) (ways : list Z) : res (option Z) :=
  match ways with
  | [] => Ok None
  | i :: ways =>
      let? b := way_open cacheSet c i in
      if b then Ok (Some i) else first_open cacheSet c ways
  end.

Definition allocate (curTick address : Z) (entry : Entry) : CM unit :=
  let* c := get in
  do* massert (address =? makeLineAddress address);
  let* present := lift (isTagPresent address c) in
  do* massert (negb present);
  let* avail := lift (cacheAvail address c) in
  do* massert avail;
  let* cacheSet := lift (addressToCacheSet address c) in
  let* slot := lift (first_open cacheSet c (seqZ 0 (m_cache_assoc (geo c)))) in
  match slot with
  | Some i =>
      do* upd! m_cache ::= <[(cacheSet, i) :=
            entry <| m_Address := address |> <| m_Permission := Invalid |>
                  <| m_locked := -1 |> <| e_set := cacheSet |> <| e_way := i |>
                  <| m_last_touch_tick := curTick |>]>;
      upd! m_tag_index ::= <[address := i]>
  | None => panic
  end.

Definition deallocate (address : Z) : CM unit :=
  let* c := get in
  let* entry := lift (lookup address c) in
  match entry with
  | Some e =>
      do* upd! m_cache ::= delete (e_set e, e_way e);
      upd! m_tag_index ::= delete address
  | None => throw EAssert
  end.

(** An operation on the entry of an address that must be present. *)
Definition on_entry (address : Z) (f : Entry -> Entry) : CM unit :=
  let* c := get in
  let* entry := lift (lookup address c) in
  match entry with
  | Some e => write_entry e f
  | None => throw EAssert
  end.

(** The entry of the line is looked up, and its permission changed. *)
Definition changePermission (address : Z) (p : AccessPermission) : CM unit :=
  on_entry address (entry_changePermission p).

Definition setLocked (address context : Z) : CM unit :=
  on_entry address (entry_setLocked context).

Definition clearLocked (address : Z) : CM unit := on_entry address entry_clearLocked.

Definition clearLockedAll (context : Z) : CM unit :=
  upd! m_cache ::= fmap (fun e =>
    if entry_isLocked context e then entry_clearLocked e else e).

Definition isLocked (address context : Z) (c : CacheMemory) : res bool :=
  let? entry := lookup address c in
  match entry with
  | Some e => Ok (entry_isLocked context e)
  | None => Err EAssert
  end.

Definition setHtmLogPending (address : Z) (val : bool) : CM unit :=
  let* c := get in
  let* entry := lift (lookup address c) in
  match entry with
  | Some e =>
      do* unless val (massert (m_htmLogPending e));
      write_entry e (fun e => e <| m_htmLogPending := val |>)
  | None => throw EAssert
  end.

Definition isHtmLogPending (address : Z) (c : CacheMemory) : res bool :=
  let? entry := lookup address c in
  Ok (match entry with Some e => m_htmLogPending e | None => false end).

(** No entry of the array is waiting for its undo-log write. *)
Definition checkHtmLogPendingClear (c : CacheMemory) : res unit :=
  rassert (bool_decide (map_Forall (fun _ e => m_htmLogPending e = false) (m_cache c))).

(** The last step of an HTM command on every line; [invalidateEntry] is the
    hook of the protocol's entry class. *)
Definition htmAbortTransaction (invalidateEntry : Entry -> Entry) : CM unit :=
  upd! m_cache ::= fmap (fun e =>
    entry_clearLocked ((if m_htmInWriteSet e then invalidateEntry e else e)
      <| m_htmInWriteSet := false |> <| m_htmInReadSet := false |>)).

Definition htmCommitTransaction : CM unit :=
  upd! m_cache ::= fmap (fun e =>
    entry_clearLocked (e <| m_htmInWriteSet := false |> <| m_htmInReadSet := false |>)).

(** What [cacheProbe] asks the interface manager of the core, if the cache
    has one. *)
Record XactView := MkXactView {
  xv_lazyVM : bool;
  xv_checkWriteSignature : Z -> bool;
  xv_checkReadSignature : Z -> bool
}.

(** One way of the loop that collects the candidates: [m_xact_mgr] is the
    member and [xact_mgr] the local, null on the later passes. *)
Definition probe_way (m_htm_aware_replacements m_htm_allowed_read_set_evictions : bool)
    (m_xact_mgr xact_mgr : option XactView) (e : Entry) : bool :=
  if match m_xact_mgr with
     | Some v => negb (xv_lazyVM v) && m_htmLogPending e
     | None => false
     end
  then false
  else match xact_mgr with
       | Some v =>
           negb (m_htm_aware_replacements &&
                 (xv_checkWriteSignature v (m_Address e) ||
                  (negb m_htm_allowed_read_set_evictions &&
                   xv_checkReadSignature v (m_Address e))))
       | None => true
       end.

(** The entries of a set, in way order; a null entry would be dereferenced. *)
Definition set_entries (cacheSet : Z) (c : CacheMemory) : res (list Entry) :=
  foldR (fun l i =>
    let? e := cell c cacheSet i in
    match e with Some e => Ok (l ++ [e]) | None => Err EUndef end)
    [] (seqZ 0 (m_cache_assoc (geo c))).

(** The [do ... while (candidates.empty())] loop, [None] out of fuel. *)
Fixpoint probe_candidates (fuel : nat) (aware allowed : bool)
    (m_xact_mgr xact_mgr : option XactView) (es : list Entry) : option (list Entry) :=
  match fuel with
  | O => None
  | S fuel =>
      let candidates := List.filter (probe_way aware allowed m_xact_mgr xact_mgr) es in
      match candidates with
      | [] => probe_candidates fuel aware allowed m_xact_mgr None es
      | _ => Some candidates
      end
  end.

(** [getVictim] is the replacement policy's choice among the candidates. *)
Definition cacheProbe (fuel : nat) (aware allowed : bool) (m_xact_mgr : option XactView)
    (getVictim : list Entry -> Entry) (address : Z) (c : CacheMemory) : res (option Z) :=
  let? _ := rassert (address =? makeLineAddress address) in
  let? avail := cacheAvail address c in
  let? _ := rassert (negb avail) in
  let? cacheSet := addressToCacheSet address c in
  let? es := set_entries cacheSet c in
  match probe_candidates fuel aware allowed m_xact_mgr m_xact_mgr es with
  | Some candidates =>
      let? e := cell c cacheSet (e_way (getVictim candidates)) in
      match e with Some e => Ok (Some (m_Address e)) | None => Err EUndef end
  | None => Ok None
  end.
End ops.

(** ** Invariant *)

Record geo_ok (g : Geometry) : Prop := {
  geo_sets : 2 ^ m_cache_num_set_bits g <= m_cache_num_sets g;
  geo_assoc : 0 < m_cache_assoc g;
  geo_bits : 0 < m_cache_num_set_bits g;
  geo_start : 0 <= m_start_index_bit g;
  geo_width : m_cache_num_set_bits g <= 64
}.

(** The set of an address, as a number. *)
Definition set_of (g : Geometry) (a : Z) : Z :=
  Z.shiftr a (m_start_index_bit g) mod 2 ^ m_cache_num_set_bits g.

Section invariant.
Context `{RS : RubySystem}.

(** The tag index names exactly the entries of the array, every entry sits
    in the set of its address, knows its position, and is present. *)
Record cache_wf (c : CacheMemory) : Prop := {
  wf_geo : geo_ok (geo c);
  wf_entry s w e : m_cache c !! (s, w) = Some e ->
    is_line (m_Address e) /\ s = set_of (geo c) (m_Address e) /\
    0 <= w < m_cache_assoc (geo c) /\ e_set e = s /\ e_way e = w /\
    m_tag_index c !! m_Address e = Some w /\ m_Permission e <> NotPresent;
  wf_index a w : m_tag_index c !! a = Some w ->
    exists e, m_cache c !! (set_of (geo c) a, w) = Some e /\ m_Address e = a
}.

(** The entry of a line, read through the index. *)
Definition entry_of (c : CacheMemory) (a : Z) : option Entry :=
  m_tag_index c !! a ≫= fun w => m_cache c !! (set_of (geo c) a, w).

Lemma set_of_range g a : geo_ok g -> 0 <= set_of g a < m_cache_num_sets g.
Proof.
  intros [H1 H2 H3 H4]. unfold set_of.
  assert (0 < 2 ^ m_cache_num_set_bits g) by (apply Z.pow_pos_nonneg; lia).
  pose proof (Z.mod_pos_bound (Z.shiftr a (m_start_index_bit g)) _ H). lia.
Qed.

Lemma line_refl a : is_line a -> (a =? makeLineAddress a) = true.
Proof. intros Ha. apply Z.eqb_eq. by destruct Ha. Qed.

Lemma addressToCacheSet_ok c a :
  geo_ok (geo c) -> is_line a -> addressToCacheSet a c = Ok (set_of (geo c) a).
Proof.
  intros [H1 H2 H3 H4 H5] Ha. unfold addressToCacheSet. rewrite line_refl by done.
  cbn [rassert rbind]. unfold bitSelect, bits, rassert.
  rewrite (proj2 (Z.leb_le _ _)) by lia. cbn [rbind].
  rewrite mask_ones, Z.land_ones by lia. unfold set_of. do 3 f_equal. lia.
Qed.

Lemma cell_ok c s w :
  geo_ok (geo c) -> 0 <= s < m_cache_num_sets (geo c) -> 0 <= w < m_cache_assoc (geo c) ->
  cell c s w = Ok (m_cache c !! (s, w)).
Proof.
  intros _ [H1 H2] [H3 H4]. unfold cell.
  by rewrite (proj2 (Z.leb_le _ _) H1), (proj2 (Z.ltb_lt _ _) H2),
    (proj2 (Z.leb_le _ _) H3), (proj2 (Z.ltb_lt _ _) H4).
Qed.

Lemma lookup_ok c a : cache_wf c -> is_line a -> lookup a c = Ok (entry_of c a).
Proof.
  intros Hwf Ha. unfold lookup, findTagInSet, entry_of. rewrite line_refl by done.
  rewrite addressToCacheSet_ok by (done || apply Hwf). cbn [rassert rbind].
  destruct (m_tag_index c !! a) as [w|] eqn:Ew; [|done]. cbn [mbind option_bind].
  destruct (wf_index c Hwf a w Ew) as (e & He & Hea).
  destruct (wf_entry c Hwf _ _ _ He) as (_ & _ & Hw & _ & _ & _ & Hp).
  pose proof (set_of_range (geo c) a (wf_geo c Hwf)).
  rewrite cell_ok by (done || apply Hwf). rewrite He. cbn [rbind].
  unfold perm_eqb. rewrite bool_decide_eq_false_2 by done.
  destruct (Z.eqb_spec w (-1)); [lia|].
  rewrite cell_ok by (done || apply Hwf). by rewrite He.
Qed.

Lemma entry_of_address c a e : cache_wf c -> entry_of c a = Some e -> m_Address e = a.
Proof.
  unfold entry_of. intros Hwf H. apply bind_Some in H as (w & Hw & He).
  destruct (wf_index c Hwf a w Hw) as (e' & He' & <-). congruence.
Qed.

Lemma entry_of_cell c a e :
  cache_wf c -> entry_of c a = Some e <-> m_cache c !! (e_set e, e_way e) = Some e /\ m_Address e = a.
Proof.
  intros Hwf. split.
  - intros H. pose proof (entry_of_address c a e Hwf H) as Hae. split; [|done].
    apply bind_Some in H as (w & Hw & He).
    destruct (wf_entry c Hwf _ _ _ He) as (_ & _ & _ & -> & -> & _). done.
  - intros [He <-]. destruct (wf_entry c Hwf _ _ _ He) as (_ & Hs & _ & _ & _ & Ht & _).
    unfold entry_of. rewrite Ht. cbn. by rewrite <- Hs.
Qed.

(** An open way holds no entry: entries of a well-formed cache are present. *)
Lemma way_open_ok c s w :
  cache_wf c -> 0 <= s < m_cache_num_sets (geo c) -> 0 <= w < m_cache_assoc (geo c) ->
  way_open s c w = Ok (bool_decide (m_cache c !! (s, w) = None)).
Proof.
  intros Hwf Hs Hw. unfold way_open. rewrite cell_ok by (done || apply Hwf). cbn [rbind].
  destruct (m_cache c !! (s, w)) as [e|] eqn:E; [|done].
  destruct (wf_entry c Hwf _ _ _ E) as (_ & _ & _ & _ & _ & _ & Hp).
  unfold perm_eqb. by rewrite bool_decide_eq_false_2.
Qed.

Lemma first_open_ok c s ws :
  cache_wf c -> 0 <= s < m_cache_num_sets (geo c) ->
  Forall (fun w => 0 <= w < m_cache_assoc (geo c)) ws ->
  exists r, first_open s c ws = Ok r /\
    match r with
    | Some w => w ∈ ws /\ m_cache c !! (s, w) = None
    | None => Forall (fun w => m_cache c !! (s, w) <> None) ws
    end.
Proof.
  intros Hwf Hs. induction 1 as [|w ws Hw Hws IH]; [by exists None|].
  cbn [first_open]. rewrite way_open_ok by done. cbn [rbind].
  destruct (m_cache c !! (s, w)) as [e|] eqn:E.
  - rewrite bool_decide_eq_false_2 by done. destruct IH as (r & -> & Hr).
    exists r. split; [done|]. destruct r as [w'|].
    + split; [set_solver|apply Hr].
    + constructor; [congruence|done].
  - rewrite bool_decide_eq_true_2 by done. exists (Some w). split; [done|].
    split; [set_solver|done].
Qed.

(** A set has room for a line that is not in it when one way is null. *)
Definition has_room (c : CacheMemory) (a : Z) : Prop :=
  exists w, 0 <= w < m_cache_assoc (geo c) /\ m_cache c !! (set_of (geo c) a, w) = None.

Lemma way_avail_ok c a w :
  cache_wf c -> 0 <= w < m_cache_assoc (geo c) ->
  way_avail (set_of (geo c) a) a c w =
    Ok (match m_cache c !! (set_of (geo c) a, w) with
        | Some e => m_Address e =? a
        | None => true
        end).
Proof.
  intros Hwf Hw. unfold way_avail.
  pose proof (set_of_range (geo c) a (wf_geo c Hwf)).
  rewrite cell_ok by (done || apply Hwf). cbn [rbind].
  destruct (m_cache c !! _) as [e|] eqn:E; [|done].
  destruct (wf_entry c Hwf _ _ _ E) as (_ & _ & _ & _ & _ & _ & Hp).
  unfold perm_eqb. by rewrite bool_decide_eq_false_2, orb_false_r.
Qed.

Lemma cacheAvail_ok c a :
  cache_wf c -> is_line a ->
  exists b, cacheAvail a c = Ok b /\
    (b = true <-> entry_of c a <> None \/ has_room c a).
Proof.
  intros Hwf Ha. unfold cacheAvail. rewrite line_refl by done. cbn [rassert rbind].
  rewrite addressToCacheSet_ok by (done || apply Hwf). cbn [rbind].
  destruct (allR_range (fun i =>
      let? b := way_avail (set_of (geo c) a) a c i in Ok (negb b))
      (fun w => negb (match m_cache c !! (set_of (geo c) a, w) with
        | Some e => m_Address e =? a | None => true end))
      0 (m_cache_assoc (geo c))) as (b & -> & Hb).
  { pose proof (geo_assoc _ (wf_geo c Hwf)). lia. }
  { intros i Hi. rewrite way_avail_ok by (done || lia). done. }
  cbn [rbind]. exists (negb b). split; [done|].
  rewrite negb_true_iff, <- not_true_iff_false, Hb. clear b Hb. split.
  - intros Hn. destruct (decide (entry_of c a = None)) as [E|]; [right|by left].
    destruct (decide (Exists (fun w => m_cache c !! (set_of (geo c) a, w) = None)
                (seqZ 0 (m_cache_assoc (geo c))))) as [Hx|Hx].
    + apply Exists_exists in Hx as (w & Hw & Hx). exists w. split; [|done].
      apply elem_of_seqZ in Hw. lia.
    + exfalso. apply Hn. intros i Hi.
      destruct (m_cache c !! (set_of (geo c) a, i)) as [e|] eqn:Ee.
      * destruct (Z.eqb_spec (m_Address e) a) as [<-|]; [|done]. exfalso.
        destruct (wf_entry c Hwf _ _ _ Ee) as (_ & Hs & _ & _ & _ & Ht & _).
        unfold entry_of in E. rewrite Ht in E. cbn in E. congruence.
      * exfalso. apply Hx, Exists_exists. exists i. split; [|done].
        apply elem_of_seqZ. lia.
  - intros [He|(w & Hw & Hn)] Hall.
    + destruct (entry_of c a) as [e|] eqn:E; [|done].
      pose proof (entry_of_address c a e Hwf E) as Hae.
      apply bind_Some in E as (w & Hw & Ee).
      destruct (wf_entry c Hwf _ _ _ Ee) as (_ & _ & Hr & _).
      specialize (Hall w ltac:(lia)). rewrite Ee, Hae, Z.eqb_refl in Hall. done.
    + specialize (Hall w ltac:(lia)). by rewrite Hn in Hall.
Qed.

(** Filling a null cell with a present entry of the line of that set. *)
Lemma wf_fill c a w e :
  cache_wf c -> is_line a -> entry_of c a = None ->
  0 <= w < m_cache_assoc (geo c) -> m_cache c !! (set_of (geo c) a, w) = None ->
  m_Address e = a -> e_set e = set_of (geo c) a -> e_way e = w ->
  m_Permission e <> NotPresent ->
  let c' := c <| m_cache ::= <[(set_of (geo c) a, w) := e]> |>
              <| m_tag_index ::= <[a := w]> |> in
  cache_wf c' /\ entry_of c' a = Some e /\
  forall b, b <> a -> entry_of c' b = entry_of c b.
Proof.
  intros Hwf Ha Hno Hw Hnull Hea Hes Hew Hp c'.
  assert (m_tag_index c !! a = None) as Ht.
  { destruct (m_tag_index c !! a) as [w'|] eqn:E; [|done].
    destruct (wf_index c Hwf a w' E) as (e' & He' & _).
    unfold entry_of in Hno. rewrite E in Hno. cbn in Hno. congruence. }
  split; [|split].
  - split; [apply Hwf| |].
    + intros s w' e'. cbn. rewrite lookup_insert_Some.
      intros [[[= <- <-] <-]|[Hne He']]; cbn.
      * rewrite Hea, lookup_insert_eq. auto 10.
      * destruct (wf_entry c Hwf _ _ _ He') as (H1 & H2 & H3 & H4 & H5 & H6 & H7).
        rewrite lookup_insert_ne by congruence. done.
    + intros b w'. cbn. rewrite lookup_insert_Some. intros [[<- <-]|[Hne Hb]].
      * exists e. by rewrite lookup_insert_eq.
      * destruct (wf_index c Hwf b w' Hb) as (e' & He' & <-). exists e'. split; [|done].
        rewrite lookup_insert_ne; [done|]. intros [= H1 ->]. rewrite H1 in Hnull. congruence.
  - unfold entry_of. cbn. rewrite lookup_insert_eq. cbn. by rewrite lookup_insert_eq.
  - intros b Hb. unfold entry_of. cbn. rewrite lookup_insert_ne by done.
    destruct (m_tag_index c !! b) as [w'|] eqn:E; [|done]. cbn.
    destruct (wf_index c Hwf b w' E) as (e' & He' & _).
    rewrite lookup_insert_ne; [done|]. intros [= H1 ->]. rewrite H1 in Hnull. congruence.
Qed.

Lemma allocate_ok c a t e :
  cache_wf c -> is_line a -> entry_of c a = None -> has_room c a ->
  exists w c', allocate t a e c = Ok (tt, c') /\ cache_wf c' /\
    entry_of c' a = Some (e <| m_Address := a |> <| m_Permission := Invalid |>
      <| m_locked := -1 |> <| e_set := set_of (geo c) a |> <| e_way := w |>
      <| m_last_touch_tick := t |>) /\
    (forall b, b <> a -> entry_of c' b = entry_of c b).
Proof.
  intros Hwf Ha Hno Hroom. pose proof (set_of_range (geo c) a (wf_geo c Hwf)) as Hs.
  destruct (first_open_ok c (set_of (geo c) a) (seqZ 0 (m_cache_assoc (geo c))))
    as (r & Hf & Hr); [done|done| |].
  { apply Forall_forall. intros w Hw%elem_of_seqZ. lia. }
  destruct r as [w|].
  2:{ destruct Hroom as (w & Hw & Hn). rewrite Forall_forall in Hr.
      exfalso. apply (Hr w); [apply elem_of_seqZ; lia|done]. }
  destruct Hr as [Hw%elem_of_seqZ Hnull].
  destruct (cacheAvail_ok c a Hwf Ha) as (b & Hb & Hav).
  rewrite (proj2 Hav) in Hb by (by right). exists w.
  unfold allocate, bind, get, lift, massert, isTagPresent.
  rewrite line_refl, lookup_ok, Hno by done. cbn [rbind negb].
  rewrite Hb, addressToCacheSet_ok, Hf by (done || apply Hwf).
  eexists. split; [reflexivity|]. apply (wf_fill c a w); done || lia.
Qed.

Lemma wf_drop c a e :
  cache_wf c -> entry_of c a = Some e ->
  let c' := c <| m_cache ::= delete (e_set e, e_way e) |> <| m_tag_index ::= delete a |> in
  cache_wf c' /\ entry_of c' a = None /\
  (forall b, b <> a -> entry_of c' b = entry_of c b) /\ has_room c' a.
Proof.
  intros Hwf He c'. apply (entry_of_cell c a e Hwf) in He as [He <-].
  destruct (wf_entry c Hwf _ _ _ He) as (_ & Hs & Hw & _ & _ & Ht & _).
  split; [|split; [|split]].
  - split; [apply Hwf| |].
    + intros s w e'. cbn. rewrite lookup_delete_Some. intros [Hne He'].
      destruct (wf_entry c Hwf _ _ _ He') as (H1 & H2 & H3 & H4 & H5 & H6 & H7).
      split_and!; try done; try lia. rewrite lookup_delete_ne; [done|].
      intros Heq. rewrite <- Heq, Ht in H6. congruence.
    + intros b w. cbn. rewrite lookup_delete_Some. intros [Hne Hb].
      destruct (wf_index c Hwf b w Hb) as (e' & He' & Hb').
      exists e'. split; [|done]. rewrite lookup_delete_ne; [done|].
      intros Heq. rewrite <- Heq in He'. congruence.
  - unfold entry_of. cbn. by rewrite lookup_delete_eq.
  - intros b Hb. unfold entry_of. cbn. rewrite lookup_delete_ne by done.
    destruct (m_tag_index c !! b) as [w|] eqn:E; [|done]. cbn.
    destruct (wf_index c Hwf b w E) as (e' & He' & Hb').
    rewrite lookup_delete_ne; [done|]. intros Heq. rewrite <- Heq in He'. congruence.
  - exists (e_way e). split; [exact Hw|]. cbn. rewrite <- Hs. apply lookup_delete_eq.
Qed.

Lemma deallocate_ok c a e :
  cache_wf c -> is_line a -> entry_of c a = Some e ->
  exists c', deallocate a c = Ok (tt, c') /\ cache_wf c' /\ entry_of c' a = None /\
    (forall b, b <> a -> entry_of c' b = entry_of c b) /\ has_room c' a.
Proof.
  intros Hwf Ha He. unfold deallocate, bind, get, lift. rewrite lookup_ok, He by done.
  eexists. split; [reflexivity|]. by apply wf_drop.
Qed.

(** A write through an entry pointer that keeps the tag, the position and the
    presence of the entry. *)
Lemma wf_write c a e f :
  cache_wf c -> entry_of c a = Some e ->
  m_Address (f e) = a -> e_set (f e) = e_set e -> e_way (f e) = e_way e ->
  m_Permission (f e) <> NotPresent ->
  let c' := c <| m_cache ::= <[(e_set e, e_way e) := f e]> |> in
  cache_wf c' /\ entry_of c' a = Some (f e) /\
  (forall b, b <> a -> entry_of c' b = entry_of c b).
Proof.
  intros Hwf He Ha1 Hs1 Hw1 Hp c'. apply (entry_of_cell c a e Hwf) in He as [He <-].
  destruct (wf_entry c Hwf _ _ _ He) as (Hl & Hs & Hw & _ & _ & Ht & _).
  assert (forall b w, b <> m_Address e -> m_tag_index c !! b = Some w ->
    (set_of (geo c) b, w) <> (e_set e, e_way e)) as Hother.
  { intros b w Hb Hbw Heq. destruct (wf_index c Hwf b w Hbw) as (e' & He' & Hb').
    rewrite Heq in He'. congruence. }
  split; [|split].
  - split; [apply Hwf| |].
    + intros s w e'. cbn. rewrite lookup_insert_Some.
      intros [[[= <- <-] <-]|[Hne He']]; cbn.
      * rewrite Ha1. auto 10.
      * by apply (wf_entry c Hwf).
    + intros b w Hb. cbn. destruct (decide (b = m_Address e)) as [->|Hne].
      * exists (f e). cbn in Hb. assert (w = e_way e) as -> by congruence.
        rewrite <- Hs, lookup_insert_eq. done.
      * rewrite lookup_insert_ne by (apply not_eq_sym; by apply Hother).
        by apply (wf_index c Hwf).
  - unfold entry_of. cbn. rewrite Ht. cbn. by rewrite <- Hs, lookup_insert_eq.
  - intros b Hb. unfold entry_of. cbn.
    destruct (m_tag_index c !! b) as [w|] eqn:E; [|done]. cbn.
    rewrite lookup_insert_ne; [done|]. apply not_eq_sym. by apply Hother.
Qed.

Lemma wf_init_cache size assoc start c :
  0 < assoc -> 0 <= start -> 0 < size < 2 ^ 63 ->
  init size assoc start = Ok c -> cache_wf c.
Proof.
  unfold init, rassert. intros Ha Hs Hz.
  destruct (Z.ltb_spec 1 (size / assoc / getBlockSizeBytes)) as [H1|]; [|done].
  cbn [rbind]. destruct (Z.ltb_spec 0 (Z.log2 (size / assoc / getBlockSizeBytes))) as [H2|];
    [|done].
  intros [= <-]. pose proof block_bytes_pos as Hb. split; [split; cbn; try lia| |].
  - apply Z.log2_spec. lia.
  - apply Z.lt_le_incl, Z.log2_lt_pow2; [lia|].
    pose proof (Z.div_le_upper_bound (size / assoc) getBlockSizeBytes size Hb).
    pose proof (Z.div_le_upper_bound size assoc size Ha). nia.
  - cbn [m_cache]. intros ? ? ? H. by rewrite lookup_empty in H.
  - cbn [m_tag_index]. intros ? ? H. by rewrite lookup_empty in H.
Qed.

(** *** Victims *)

Lemma set_entries_ok c s :
  cache_wf c -> 0 <= s < m_cache_num_sets (geo c) ->
  (forall w, 0 <= w < m_cache_assoc (geo c) -> m_cache c !! (s, w) <> None) ->
  exists es, set_entries s c = Ok es /\
    (forall e, e ∈ es <-> exists w, 0 <= w < m_cache_assoc (geo c) /\
                                    m_cache c !! (s, w) = Some e).
Proof.
  intros Hwf Hs Hfull. unfold set_entries.
  destruct (foldR_range (fun l i =>
      let? e := cell c s i in
      match e with Some e => Ok (l ++ [e]) | None => Err EUndef end)
    (fun i l => forall e, e ∈ l <-> exists w, 0 <= w < i /\ m_cache c !! (s, w) = Some e)
    0 (m_cache_assoc (geo c)) []) as (es & He & Hes).
  - pose proof (geo_assoc _ (wf_geo c Hwf)). lia.
  - intros e. split; [by intros ?%not_elem_of_nil|intros (w & ? & _); lia].
  - intros i l Hi Hl. rewrite cell_ok by (done || apply Hwf || lia). cbn [rbind].
    destruct (m_cache c !! (s, i)) as [e|] eqn:E; [|by destruct (Hfull i)].
    exists (l ++ [e]). split; [done|]. intros e'. rewrite elem_of_app, Hl, list_elem_of_singleton.
    split.
    + intros [(w & Hw & He)| ->]; [exists w; split; [lia|done]|exists i; split; [lia|done]].
    + intros (w & Hw & He). destruct (decide (w = i)) as [->|]; [right; congruence|].
      left. exists w. split; [lia|done].
  - by exists es.
Qed.

(** The loop ends within two passes unless every way is waiting for its
    undo-log write, and the candidates are entries of the set. *)
Lemma probe_candidates_ok fuel aware allowed v es :
  (2 <= fuel)%nat ->
  (exists e, e ∈ es /\ probe_way aware allowed v None e = true) ->
  exists cs, probe_candidates fuel aware allowed v v es = Some cs /\ cs <> [] /\
    (forall e, e ∈ cs -> e ∈ es) /\
    ((exists e, e ∈ es /\ probe_way aware allowed v v e = true) ->
     forall e, e ∈ cs -> probe_way aware allowed v v e = true).
Proof.
  intros Hf (e0 & He0 & Hp0). destruct fuel as [|[|fuel]]; [lia|lia|].
  cbn [probe_candidates].
  destruct (List.filter (probe_way aware allowed v v) es) as [|e1 l1] eqn:E1.
  - destruct (List.filter (probe_way aware allowed v None) es) as [|e2 l2] eqn:E2.
    { exfalso. assert (In e0 (List.filter (probe_way aware allowed v None) es)) as H.
      { apply filter_In. split; [by apply list_elem_of_In|done]. }
      by rewrite E2 in H. }
    exists (e2 :: l2). split_and!; [done|done| |].
    + intros e He. apply list_elem_of_In in He. rewrite <- E2 in He.
      apply filter_In in He as [He _]. by apply list_elem_of_In.
    + intros (e & He & Hp). exfalso.
      assert (In e (List.filter (probe_way aware allowed v v) es)) as H.
      { apply filter_In. split; [by apply list_elem_of_In|done]. }
      by rewrite E1 in H.
  - exists (e1 :: l1). split_and!; [done|done| |].
    + intros e He. apply list_elem_of_In in He. rewrite <- E1 in He.
      apply filter_In in He as [He _]. by apply list_elem_of_In.
    + intros _ e He. apply list_elem_of_In in He. rewrite <- E1 in He.
      by apply filter_In in He as [_ ?].
Qed.

Lemma cacheAvail_full c a :
  cache_wf c -> is_line a -> entry_of c a = None ->
  (forall w, 0 <= w < m_cache_assoc (geo c) ->
     m_cache c !! (set_of (geo c) a, w) <> None) ->
  cacheAvail a c = Ok false.
Proof.
  intros Hwf Ha Hno Hfull. destruct (cacheAvail_ok c a Hwf Ha) as (b & -> & Hav).
  f_equal. apply not_true_is_false. rewrite Hav.
  intros [?|(w & Hw & Hn)]; [done|]. by apply (Hfull w).
Qed.

(** C34: Replacement.  When the set of a line is full and one of its entries
    is not waiting for an undo-log write, [cacheProbe] terminates (two passes
    are enough) with the address of a line of that set; if some entry is
    outside the protected transactional sets, so is the victim.  Deallocating
    the victim then succeeds and makes the line allocatable. *)
Theorem victim_makes_room c a aware allowed v getVictim fuel :
  cache_wf c -> is_line a -> (2 <= fuel)%nat ->
  (forall cs, cs <> [] -> getVictim cs ∈ cs) ->
  entry_of c a = None ->
  (forall w, 0 <= w < m_cache_assoc (geo c) ->
     m_cache c !! (set_of (geo c) a, w) <> None) ->
  (exists w e, m_cache c !! (set_of (geo c) a, w) = Some e /\
     probe_way aware allowed v None e = true) ->
  exists e, cacheProbe fuel aware allowed v getVictim a c = Ok (Some (m_Address e)) /\
    entry_of c (m_Address e) = Some e /\ e_set e = set_of (geo c) a /\
    ((exists w e, m_cache c !! (set_of (geo c) a, w) = Some e /\
        probe_way aware allowed v v e = true) ->
     probe_way aware allowed v v e = true) /\
    exists c', deallocate (m_Address e) c = Ok (tt, c') /\
      cacheAvail a c' = Ok true.
Proof.
  intros Hwf Ha Hfuel Hvic Hno Hfull Hex.
  pose proof (set_of_range (geo c) a (wf_geo c Hwf)) as Hs.
  pose proof (cacheAvail_full c a Hwf Ha Hno Hfull) as Hb.
  destruct (set_entries_ok c (set_of (geo c) a) Hwf Hs Hfull) as (es & Hes & Hin).
  assert (forall w e, m_cache c !! (set_of (geo c) a, w) = Some e -> e ∈ es) as Hmem.
  { intros w e He. apply Hin. exists w. split; [|done].
    by destruct (wf_entry c Hwf _ _ _ He) as (_ & _ & ? & _). }
  destruct (probe_candidates_ok fuel aware allowed v es Hfuel) as (cs & Hcs & Hne & Hsub & Hpref).
  { destruct Hex as (w & e & He & Hp). exists e. eauto. }
  pose proof (Hvic cs Hne) as Hv. set (e := getVictim cs) in *.
  destruct (proj1 (Hin e) (Hsub e Hv)) as (w & Hw & He).
  destruct (wf_entry c Hwf _ _ _ He) as (Hl & Hset & _ & Hes' & Hew & Ht & _).
  assert (entry_of c (m_Address e) = Some e) as Heo.
  { apply entry_of_cell; [done|]. by rewrite Hes', Hew. }
  exists e. split_and!; [|done|done| |].
  - unfold cacheProbe. rewrite line_refl, Hb by done. cbn [rassert rbind negb].
    rewrite addressToCacheSet_ok by (done || apply Hwf). cbn [rbind].
    rewrite Hes. cbn [rbind]. rewrite Hcs. fold e. rewrite Hew.
    rewrite cell_ok by (done || apply Hwf). by rewrite He.
  - intros (w' & e' & He' & Hp'). apply Hpref; [|done]. exists e'. eauto.
  - destruct (deallocate_ok c (m_Address e) e Hwf Hl Heo)
      as (c' & Hd & Hwf' & _ & _ & (w' & Hw' & Hn')).
    exists c'. split; [done|].
    assert (geo c' = geo c) as Hg.
    { unfold deallocate, bind, get, lift in Hd. rewrite lookup_ok, Heo in Hd by done.
      by injection Hd as <-. }
    destruct (cacheAvail_ok c' a Hwf' Ha) as (b & -> & Hb'). f_equal. apply Hb'. right.
    exists w'. rewrite Hg in *. by rewrite Hset.
Qed.
End invariant.

(** The invariant is decidable on a concrete cache. *)
Definition cache_wfb `{RubySystem} (c : CacheMemory) : bool :=
  let g := geo c in
  (2 ^ m_cache_num_set_bits g <=? m_cache_num_sets g) && (0 <? m_cache_assoc g) &&
  (0 <? m_cache_num_set_bits g) && (0 <=? m_start_index_bit g) &&
  (m_cache_num_set_bits g <=? 64) &&
  forallb (fun p : Z * Z * Entry => let e := p.2 in
    (0 <=? m_Address e) && (m_Address e <? 2 ^ 64) &&
    (makeLineAddress (m_Address e) =? m_Address e) &&
    (p.1.1 =? set_of g (m_Address e)) && (0 <=? p.1.2) && (p.1.2 <? m_cache_assoc g) &&
    (e_set e =? p.1.1) && (e_way e =? p.1.2) &&
    bool_decide (m_tag_index c !! m_Address e = Some p.1.2) &&
    negb (perm_eqb (m_Permission e) NotPresent)) (map_to_list (m_cache c)) &&
  forallb (fun p => match m_cache c !! (set_of g p.1, p.2) with
                    | Some e => m_Address e =? p.1
                    | None => false
                    end) (map_to_list (m_tag_index c)).

Lemma cache_wfb_ok `{RubySystem} c : cache_wfb c = true -> cache_wf c.
Proof.
  unfold cache_wfb. rewrite !andb_true_iff, !Z.leb_le, !Z.ltb_lt.
  intros [[[[[[? ?] ?] ?] ?] He] Hi]. rewrite forallb_forall in He, Hi.
  split; [done| |].
  - intros s w e Hc. specialize (He (s, w, e)).
    rewrite <- list_elem_of_In, elem_of_map_to_list in He. specialize (He Hc).
    cbn in He. rewrite !andb_true_iff, !Z.leb_le, !Z.ltb_lt, !Z.eqb_eq in He.
    destruct He as [[[[[[[[[? ?] ?] ?] ?] ?] ?] ?] ?%bool_decide_eq_true] Hp].
    unfold is_line. split_and!; try done.
    intros Hn. unfold perm_eqb in Hp. by rewrite bool_decide_eq_true_2 in Hp.
  - intros a w Hc. specialize (Hi (a, w)).
    rewrite <- list_elem_of_In, elem_of_map_to_list in Hi. specialize (Hi Hc).
    cbn in Hi. destruct (m_cache c !! _) as [e|]; [|done].
    apply Z.eqb_eq in Hi. by exists e.
Qed.

(** Two sets of two ways, with both ways of set 0 taken; the entry of line
    128 is in the write set of the running transaction. *)
Definition demo_cache : CacheMemory :=
  match (let? c := init (H := ruby64) 256 2 6 in
         (do* allocate (RS := ruby64) 5 0 (new_entry (alloc (RS := ruby64)));
          allocate (RS := ruby64) 6 128 (new_entry (alloc (RS := ruby64)))) c) with
  | Ok (_, c) => c
  | Err _ => MkCacheMemory (MkGeometry 0 0 0 0) ∅ ∅
  end.

Definition demo_view : XactView := MkXactView true (Z.eqb 128) (fun _ => false).

Lemma victim_makes_room_witness :
  exists e, cacheProbe (RS := ruby64) 2 true true (Some demo_view)
      (fun cs => default (new_entry (alloc (RS := ruby64))) (head cs)) 256 demo_cache =
    Ok (Some (m_Address e)) /\ m_Address e <> 128.
Proof.
  destruct (victim_makes_room (RS := ruby64) demo_cache 256 true true (Some demo_view)
    (fun cs => default (new_entry (alloc (RS := ruby64))) (head cs)) 2)
    as (e & Hp & _ & _ & Hw & _).
  - apply cache_wfb_ok. vm_compute. reflexivity.
  - split; [lia|vm_compute; reflexivity].
  - lia.
  - intros [|e l] Hne; [done|]. cbn. set_solver.
  - vm_compute. reflexivity.
  - assert (m_cache_assoc (geo demo_cache) = 2) as -> by (vm_compute; reflexivity).
    intros w Hw. assert (w = 0 \/ w = 1) as [->| ->] by lia;
      vm_compute; discriminate.
  - exists 0. eexists. split; vm_compute; reflexivity.
  - exists e. split; [exact Hp|]. intros Heq.
    assert (probe_way true true (Some demo_view) (Some demo_view) e = true) as Hw'.
    { apply Hw. exists 0. eexists. split; vm_compute; reflexivity. }
    cbn in Hw'. by rewrite Heq in Hw'.
Defined.

(** ** Refinement to a map of lines

    The contract of the cache: a finite map from line addresses to a
    permission and a block. *)

Notation lines := (gmap Z (AccessPermission * DataBlock)).

Definition view (e : Entry) : AccessPermission * DataBlock := (m_Permission e, m_DataBlk e).

Definition abs (c : CacheMemory) : lines :=
  map_imap (fun a w => view <$> m_cache c !! (set_of (geo c) a, w)) (m_tag_index c).

Inductive cache_op :=
| OpAllocate (a : Z) (blk : DataBlock)
| OpDeallocate (a : Z)
| OpChangePermission (a : Z) (p : AccessPermission)
| OpWriteBlock (a : Z) (blk : DataBlock)
| OpTryAccess (a : Z) (t : RubyRequestType) (touch : bool).

Section refinement.
Context `{RS : RubySystem}.

Definition exec_op (tick : Z) (op : cache_op) : CM (option DataBlock) :=
  match op with
  | OpAllocate a blk => do* allocate tick a (new_entry blk); ret None
  | OpDeallocate a => do* deallocate a; ret None
  | OpChangePermission a p => do* changePermission a p; ret None
  | OpWriteBlock a blk => do* on_entry a (fun e => e <| m_DataBlk := blk |>); ret None
  | OpTryAccess a t touch => tryCacheAccess tick a t touch
  end.

Definition op_addr (op : cache_op) : Z :=
  match op with
  | OpAllocate a _ | OpDeallocate a | OpChangePermission a _ | OpWriteBlock a _
  | OpTryAccess a _ _ => a
  end.

(** When an operation is allowed, on the map (and the room in the set). *)
Definition op_pre (op : cache_op) (m : lines) (room : Prop) : Prop :=
  match op with
  | OpAllocate a _ => m !! a = None /\ room
  | OpDeallocate a | OpWriteBlock a _ => m !! a <> None
  | OpChangePermission a p => m !! a <> None /\ p <> NotPresent
  | OpTryAccess _ _ _ => True
  end.

(** What it does to the map, and what it answers. *)
Definition op_spec (op : cache_op) (m : lines) : option DataBlock * lines :=
  match op with
  | OpAllocate a blk => (None, <[a := (Invalid, blk)]> m)
  | OpDeallocate a => (None, delete a m)
  | OpChangePermission a p => (None, alter (fun pb => (p, pb.2)) a m)
  | OpWriteBlock a blk => (None, alter (fun pb => (pb.1, blk)) a m)
  | OpTryAccess a t _ =>
      (m !! a ≫= fun pb => if permits pb.1 t then Some pb.2 else None, m)
  end.

Lemma lookup_abs c a : abs c !! a = view <$> entry_of c a.
Proof.
  unfold abs, entry_of. rewrite map_lookup_imap.
  by destruct (m_tag_index c !! a).
Qed.

Lemma abs_intro c m :
  (forall a, view <$> entry_of c a = m !! a) -> abs c = m.
Proof. intros H. apply map_eq. intros a. by rewrite lookup_abs. Qed.

Lemma abs_present c a : abs c !! a <> None -> exists e, entry_of c a = Some e.
Proof.
  rewrite lookup_abs. destruct (entry_of c a) as [e|]; [by exists e|done].
Qed.

(** The entry an operation writes: the map changes at its key only. *)
Lemma abs_update c c' a e (m : lines) :
  entry_of c' a = Some e -> m !! a = Some (view e) ->
  (forall b, b <> a -> entry_of c' b = entry_of c b) ->
  (forall b, b <> a -> m !! b = abs c !! b) -> abs c' = m.
Proof.
  intros He Hm Ho Hmo. apply abs_intro. intros b.
  destruct (decide (b = a)) as [->|Hb]; [by rewrite He, Hm|].
  by rewrite Ho, Hmo, lookup_abs.
Qed.

Lemma permits_try e t :
  (if perm_eqb (m_Permission e) Read_Write then Some (m_DataBlk e)
   else if perm_eqb (m_Permission e) Read_Only &&
           (bool_decide (t = LD) || bool_decide (t = IFETCH))
   then Some (m_DataBlk e) else None) =
  (if permits (m_Permission e) t then Some (m_DataBlk e) else None).
Proof. destruct (m_Permission e), t; done. Qed.

Lemma on_entry_ok c a e f :
  cache_wf c -> is_line a -> entry_of c a = Some e ->
  m_Address (f e) = m_Address e -> e_set (f e) = e_set e -> e_way (f e) = e_way e ->
  m_Permission (f e) <> NotPresent ->
  exists c', on_entry a f c = Ok (tt, c') /\ cache_wf c' /\
    abs c' = <[a := view (f e)]> (abs c).
Proof.
  intros Hwf Ha He H1 H2 H3 H4. unfold on_entry, bind, get, lift.
  rewrite lookup_ok, He by done. eexists. split; [reflexivity|].
  pose proof (entry_of_address c a e Hwf He) as Hae.
  destruct (wf_write c a e f Hwf He) as (Hwf' & He' & Ho); [congruence|done..|].
  split; [done|]. eapply abs_update; [exact He'|by rewrite lookup_insert_eq|exact Ho|].
  intros b Hb. by rewrite lookup_insert_ne.
Qed.

Lemma alter_insert (m : lines) a pb f :
  m !! a = Some pb -> alter f a m = <[a := f pb]> m.
Proof.
  intros Hm. apply map_eq. intros b. destruct (decide (b = a)) as [->|Hb].
  - by rewrite lookup_alter_eq, lookup_insert_eq, Hm.
  - by rewrite lookup_alter_ne, lookup_insert_ne.
Qed.

(** C17: The cache refines a map of lines.  On a well-formed cache, every
    operation whose precondition holds on the map returns, keeps the cache
    well-formed, answers what the map answers, and ends in a cache whose map
    is the updated one: allocating, dropping, changing the permission,
    writing the block, and the permission-checked access (with or without a
    touch of the replacement state). *)
Theorem cache_refines_map tick op c :
  cache_wf c -> is_line (op_addr op) ->
  op_pre op (abs c) (has_room c (op_addr op)) ->
  exists c', exec_op tick op c = Ok ((op_spec op (abs c)).1, c') /\
    cache_wf c' /\ abs c' = (op_spec op (abs c)).2.
Proof.
  intros Hwf Ha Hpre. destruct op as [a blk|a|a p|a blk|a t touch]; cbn in Ha, Hpre;
    cbn [exec_op op_spec fst snd]; try unfold bind at 1.
  - destruct Hpre as [Hno Hroom]. rewrite lookup_abs in Hno. apply fmap_None in Hno.
    destruct (allocate_ok c a tick (new_entry blk)) as (w & c' & -> & Hwf' & He & Ho); [done..|].
    exists c'. split; [done|]. split; [done|].
    eapply abs_update; [exact He|by rewrite lookup_insert_eq|exact Ho|].
    intros b Hb. by rewrite lookup_insert_ne.
  - apply abs_present in Hpre as [e He].
    destruct (deallocate_ok c a e) as (c' & -> & Hwf' & Hno & Ho & _); [done..|].
    exists c'. split; [done|]. split; [done|]. apply abs_intro. intros b. cbn.
    destruct (decide (b = a)) as [->|Hb]; [by rewrite Hno, lookup_delete_eq|].
    by rewrite Ho, lookup_delete_ne, lookup_abs.
  - destruct Hpre as [[e He]%abs_present Hp]. unfold changePermission.
    destruct (on_entry_ok c a e (entry_changePermission p)) as (c' & -> & Hwf' & Habs);
      [done..| | | | |]; try by (unfold entry_changePermission; destruct (_ || _)).
    exists c'. split; [done|]. split; [done|]. rewrite Habs. cbn.
    rewrite (alter_insert _ _ (view e)) by (by rewrite lookup_abs, He).
    f_equal. unfold entry_changePermission. by destruct (_ || _).
  - apply abs_present in Hpre as [e He].
    destruct (on_entry_ok c a e (fun e => e <| m_DataBlk := blk |>))
      as (c' & -> & Hwf' & Habs); [done..| |].
    { cbn. apply entry_of_cell in He as [He _]; [|done].
      by destruct (wf_entry c Hwf _ _ _ He) as (_ & _ & _ & _ & _ & _ & Hp). }
    exists c'. split; [done|]. split; [done|]. rewrite Habs. cbn.
    by rewrite (alter_insert _ _ (view e)) by (by rewrite lookup_abs, He).
  - unfold tryCacheAccess, bind, get, lift. rewrite lookup_ok by done. cbn [op_spec].
    rewrite lookup_abs. destruct (entry_of c a) as [e|] eqn:He; [|by exists c].
    cbn. rewrite permits_try. destruct touch; cbn; [|by exists c].
    eexists. split; [reflexivity|].
    pose proof (proj1 (entry_of_cell c a e Hwf) He) as [Hc Hae].
    destruct (wf_entry c Hwf _ _ _ Hc) as (_ & _ & _ & _ & _ & _ & Hp).
    destruct (wf_write c a e (fun e => e <| m_last_touch_tick := tick |>) Hwf He)
      as (Hwf' & He' & Ho); [done..|].
    split; [exact Hwf'|]. eapply abs_update; [exact He'| |exact Ho|done].
    by rewrite lookup_abs, He.
Qed.
End refinement.

Lemma cache_refines_map_witness :
  exists c', exec_op (RS := ruby64) 9 (OpChangePermission 128 Read_Write) demo_cache =
      Ok (None, c') /\ cache_wf (RS := ruby64) c' /\
    abs c' !! 128 = Some (Read_Write, (alloc (RS := ruby64))).
Proof.
  destruct (cache_refines_map (RS := ruby64) 9 (OpChangePermission 128 Read_Write) demo_cache)
    as (c' & He & Hwf & Habs).
  - apply cache_wfb_ok. vm_compute. reflexivity.
  - split; [cbn; lia|vm_compute; reflexivity].
  - split; [vm_compute; discriminate|discriminate].
  - exists c'. split; [exact He|]. split; [exact Hwf|]. rewrite Habs. vm_compute. reflexivity.
Defined.

(** ** The cache provides the interface of the transactional layer *)

#[global] Instance CacheMemory_DataCache `{RubySystem} : DataCache CacheMemory := {|
  dc_tryCacheAccess a t c :=
    let? r := tryCacheAccess 0 a t false c in Ok r.1;
  dc_deallocate a c := let? r := deallocate a c in Ok r.2;
  dc_checkHtmLogPendingClear := checkHtmLogPendingClear
|}.

#[global] Program Instance CacheMemory_laws `{RubySystem} : DataCacheLaws CacheMemory := {|
  dc_ok := cache_wf;
  dc_line c a := view <$> entry_of c a
|}.
Next Obligation.
  intros ? c a t perm blk Hwf Ha Hl. cbn. unfold tryCacheAccess, bind, get, lift.
  rewrite lookup_ok by done. apply fmap_Some in Hl as (e & -> & [= -> ->]).
  cbn. by rewrite permits_try.
Qed.
Next Obligation.
  intros ? c a t Hwf Ha Hl. cbn. unfold tryCacheAccess, bind, get, lift.
  rewrite lookup_ok by done. by apply fmap_None in Hl as ->.
Qed.
Next Obligation.
  intros ? c a Hwf Ha Hl. cbv beta in Hl |- *.
  destruct (entry_of c a) as [e|] eqn:He; [|done].
  destruct (deallocate_ok c a e Hwf Ha He) as (c' & Hd & Hwf' & Hn & Ho & _).
  exists c'. rewrite Hn. split; [cbn -[deallocate]; by rewrite Hd|].
  split_and!; [done..|].
  intros b _ Hb. by rewrite Ho.
Qed.
