(* ===== verification/XactIsolationChecker.v ===== *)
(** * The isolation checker

    [mem/ruby/htm/XactIsolationChecker.cc]: a global shadow of the read and
    write sets of all processors, consulted on every access to detect a
    violation of transaction isolation.  Only constructed with eager conflict
    detection. *)

From S2P Require Import Prelude Address CacheMemory.

#[local] Open Scope Z_scope.

(** The maps send a line to the tick of its first access. *)
Record XactIsolationChecker := MkXactIsolationChecker {
  m_readSet : list (gmap Z Z);
  m_writeSet : list (gmap Z Z);
  m_abortingProcessor : list bool
}.

#[global] Instance eta_XactIsolationChecker : Eta XactIsolationChecker := fun x =>
  MkXactIsolationChecker (m_readSet x) (m_writeSet x) (m_abortingProcessor x).

(** The constructor panics without eager conflict detection. *)
Definition XactIsolationChecker_init (num_sequencers : nat) (eager_cd : bool)
    : res XactIsolationChecker :=
  if eager_cd then
    Ok (MkXactIsolationChecker (replicate num_sequencers ∅) (replicate num_sequencers ∅)
          (replicate num_sequencers false))
  else Err EPanic.

Definition m_num_sequencers (c : XactIsolationChecker) : Z := Z.of_nat (length (m_readSet c)).

(** [Some since] when the line is found. *)
Definition existInReadSet (proc addr : Z) (c : XactIsolationChecker) : res (option Z) :=
  let? s := vec_at EUndef (m_readSet c) proc in Ok (s !! addr).

Definition existInWriteSet (proc addr : Z) (c : XactIsolationChecker) : res (option Z) :=
  let? s := vec_at EUndef (m_writeSet c) proc in Ok (s !! addr).

Definition found {A} (o : option A) : bool :=
  match o with Some _ => true | None => false end.

Section ops.
Context `{RS : RubySystem}.

(** The iteration for processor [i]. *)
Definition checkProcessor (proc addr : Z) (trans : bool) (accessType : RubyRequestType)
    (c : XactIsolationChecker) (ok : bool) (i : Z) : res bool :=
  if i =? proc then Ok ok else
  let? aborting := vec_at EUndef (m_abortingProcessor c) i in
  if aborting then Ok ok else
  match accessType with
  | LD =>
      let? w := existInWriteSet i addr c in
      if found w then
        let? r := existInReadSet proc addr c in
        if found r then let? _ := rassert trans in Ok false else Ok ok
      else Ok ok
  | ST | ATOMIC =>
      let? r := existInReadSet i addr c in
      let ok := if found r then false else ok in
      let? w := existInWriteSet i addr c in
      Ok (if found w then false else ok)
  | _ => Ok ok
  end.

Definition checkXACTIsolation (proc addr : Z) (trans : bool) (accessType : RubyRequestType)
    (c : XactIsolationChecker) : res bool :=
  let addr := makeLineAddress addr in
  foldR (checkProcessor proc addr trans accessType c) true (seqZ 0 (m_num_sequencers c)).
End ops.

Notation IC := (M XactIsolationChecker).

(** Element [proc] of a vector of the checker. *)
Definition on_vec {A} (get_v : XactIsolationChecker -> list A)
    (put_v : list A -> XactIsolationChecker -> XactIsolationChecker)
    (proc : Z) (f : A -> A) : IC unit :=
  let* c := get in
  let* x := lift (vec_at EUndef (get_v c) proc) in
  let* v := lift (vec_set (get_v c) proc (f x)) in
  modify (put_v v).

Definition on_readSet := on_vec m_readSet (fun v c => c <| m_readSet := v |>).
Definition on_writeSet := on_vec m_writeSet (fun v c => c <| m_writeSet := v |>).
Definition on_aborting := on_vec m_abortingProcessor (fun v c => c <| m_abortingProcessor := v |>).

(** [insert] only when absent: the first tick is kept. *)
Definition addToReadSet (curTick proc addr : Z) : IC unit :=
  on_readSet proc (fun s => match s !! addr with Some _ => s | None => <[addr := curTick]> s end).

Definition addToWriteSet (curTick proc addr : Z) : IC unit :=
  on_writeSet proc (fun s => match s !! addr with Some _ => s | None => <[addr := curTick]> s end).

Definition removeFromReadSet (proc addr : Z) : IC unit :=
  on_readSet proc (fun s => match s !! addr with Some _ => delete addr s | None => s end).

Definition removeFromWriteSet (proc addr : Z) : IC unit :=
  on_writeSet proc (fun s => match s !! addr with Some _ => delete addr s | None => s end).

Definition clearWriteSet (proc : Z) : IC unit := on_writeSet proc (fun _ => ∅).
Definition clearReadSet (proc : Z) : IC unit := on_readSet proc (fun _ => ∅).
Definition setAbortingProcessor (proc : Z) : IC unit := on_aborting proc (fun _ => true).
Definition clearAbortingProcessor (proc : Z) : IC unit := on_aborting proc (fun _ => false).

(** ** The check is exact *)

Record checker_wf (c : XactIsolationChecker) : Prop := {
  ck_write : length (m_writeSet c) = length (m_readSet c);
  ck_abort : length (m_abortingProcessor c) = length (m_readSet c)
}.

Definition in_readSet (c : XactIsolationChecker) (i a : Z) : Prop :=
  exists s, m_readSet c !! Z.to_nat i = Some s /\ is_Some (s !! a).

Definition in_writeSet (c : XactIsolationChecker) (i a : Z) : Prop :=
  exists s, m_writeSet c !! Z.to_nat i = Some s /\ is_Some (s !! a).

Definition is_aborting (c : XactIsolationChecker) (i : Z) : Prop :=
  m_abortingProcessor c !! Z.to_nat i = Some true.

(** An access of [proc] to line [a] breaks the isolation of processor [i]. *)
Definition violates (c : XactIsolationChecker) (proc a : Z) (t : RubyRequestType) (i : Z) : Prop :=
  i <> proc /\ ~ is_aborting c i /\
  match t with
  | LD => in_writeSet c i a /\ in_readSet c proc a
  | ST | ATOMIC => in_readSet c i a \/ in_writeSet c i a
  | _ => False
  end.

Section exact.
Context `{RS : RubySystem}.

Lemma existInReadSet_ok c i a :
  0 <= i < m_num_sequencers c ->
  exists o, existInReadSet i a c = Ok o /\ (found o = true <-> in_readSet c i a).
Proof.
  unfold m_num_sequencers, existInReadSet, in_readSet. intros Hi.
  destruct (lookup_lt_is_Some_2 (m_readSet c) (Z.to_nat i)) as [s Hs]; [lia|].
  rewrite (vec_at_ok _ _ _ s) by (done || lia). exists (s !! a). split; [done|].
  rewrite Hs. destruct (s !! a) eqn:E; cbn; split.
  - intros _. exists s. rewrite E. eauto.
  - done.
  - done.
  - intros (s' & [= <-] & [x Hx]). congruence.
Qed.

Lemma existInWriteSet_ok c i a :
  checker_wf c -> 0 <= i < m_num_sequencers c ->
  exists o, existInWriteSet i a c = Ok o /\ (found o = true <-> in_writeSet c i a).
Proof.
  intros [Hw _]. unfold m_num_sequencers, existInWriteSet, in_writeSet. intros Hi.
  destruct (lookup_lt_is_Some_2 (m_writeSet c) (Z.to_nat i)) as [s Hs]; [lia|].
  rewrite (vec_at_ok _ _ _ s) by (done || lia). exists (s !! a). split; [done|].
  rewrite Hs. destruct (s !! a) eqn:E; cbn; split.
  - intros _. exists s. rewrite E. eauto.
  - done.
  - done.
  - intros (s' & [= <-] & [x Hx]). congruence.
Qed.

Lemma checkProcessor_ok c proc a t ok i :
  checker_wf c -> 0 <= proc < m_num_sequencers c -> 0 <= i < m_num_sequencers c ->
  exists b, checkProcessor proc a true t c ok i = Ok b /\
    (b = true <-> ok = true /\ ~ violates c proc a t i).
Proof.
  intros Hwf Hp Hi. unfold checkProcessor, violates.
  destruct (Z.eqb_spec i proc) as [->|Hne]; [exists ok; tauto|].
  destruct (lookup_lt_is_Some_2 (m_abortingProcessor c) (Z.to_nat i)) as [ab Hab].
  { pose proof (ck_abort c Hwf). unfold m_num_sequencers in Hi. lia. }
  rewrite (vec_at_ok _ _ _ ab) by (done || lia). cbn [rbind]. unfold is_aborting.
  rewrite Hab. destruct ab; [exists ok; tauto|].
  destruct (existInReadSet_ok c i a Hi) as (r & Er & Hr).
  destruct (existInWriteSet_ok c i a Hwf Hi) as (w & Ew & Hw).
  destruct (existInReadSet_ok c proc a Hp) as (rp & Erp & Hrp).
  assert (forall X, (i <> proc /\ ~ Some false = Some true /\ X) <-> X) as Hv.
  { intros X. split; [tauto|]. intros HX. split; [done|]. split; [discriminate|done]. }
  setoid_rewrite Hv. clear Hv.
  destruct t; try (exists ok; tauto);
    rewrite ?Ew, ?Er; cbn [rbind]; rewrite ?Erp; cbn [rbind].
  all: destruct ok, (found w), (found r), (found rp); cbn; eexists;
    (split; [reflexivity|]); rewrite <- ?Hr, <- ?Hw, <- ?Hrp;
    clear; intuition discriminate.
Qed.

(** The isolation check is exact.  For a transactional access of a
    processor to the line of an address, [checkXACTIsolation] returns without
    failing an assertion, and answers [true] exactly when no other processor
    that is not aborting is violated: for a load, the line is not both in the
    other's write set and in the reader's read set; for a store or an atomic,
    the line is in neither set of the other. *)
Theorem checkXACTIsolation_exact c proc addr t :
  checker_wf c -> 0 <= proc < m_num_sequencers c ->
  exists ok, checkXACTIsolation proc addr true t c = Ok ok /\
    (ok = true <-> forall i, 0 <= i < m_num_sequencers c ->
       ~ violates c proc (makeLineAddress addr) t i).
Proof.
  intros Hwf Hp. unfold checkXACTIsolation.
  destruct (foldR_range (checkProcessor proc (makeLineAddress addr) true t c)
    (fun n ok => ok = true <-> forall i, 0 <= i < n -> ~ violates c proc (makeLineAddress addr) t i)
    0 (m_num_sequencers c) true) as (ok & -> & Hok).
  - lia.
  - split; [lia|done].
  - intros i ok Hi IH.
    destruct (checkProcessor_ok c proc (makeLineAddress addr) t ok i) as (b & -> & Hb);
      [done|done|lia|].
    exists b. split; [done|]. rewrite Hb, IH. split.
    + intros [H1 H2] j Hj. destruct (decide (j = i)) as [->|]; [done|]. apply H1. lia.
    + intros H. split; [intros j Hj|]; apply H; lia.
  - by exists ok.
Qed.

End exact.

Lemma checkXACTIsolation_exact_witness :
  exists c, checkXACTIsolation (RS := ruby64) 0 70 true ST c = Ok false /\
    checkXACTIsolation (RS := ruby64) 0 70 true LD c = Ok true.
Proof.
  set (c := MkXactIsolationChecker [∅; {[64 := 5]}] [∅; ∅] [false; false]).
  exists c. assert (checker_wf c) as Hwf by done.
  destruct (checkXACTIsolation_exact (RS := ruby64) c 0 70 ST Hwf) as (ok & E & Hok).
  { change (m_num_sequencers c) with 2. lia. }
  split; [|vm_compute; reflexivity]. rewrite E. destruct ok; [|done].
  exfalso. apply (proj1 Hok eq_refl 1); [change (m_num_sequencers c) with 2; lia|].
  split; [lia|]. split; [done|]. left. exists {[64 := 5]}. split; [done|].
  by exists 5.
Defined.

(** ** The updates of a row return *)

Record same_shape (c c' : XactIsolationChecker) : Prop := {
  ss_wf : checker_wf c -> checker_wf c';
  ss_num : m_num_sequencers c' = m_num_sequencers c
}.

Lemma on_readSet_ok p f c :
  checker_wf c -> 0 <= p < m_num_sequencers c ->
  exists c', on_readSet p f c = Ok (tt, c') /\ same_shape c c'.
Proof.
  unfold m_num_sequencers. intros [H1 H2] Hp.
  destruct (lookup_lt_is_Some_2 (m_readSet c) (Z.to_nat p)) as [x Hx]; [lia|].
  unfold on_readSet, on_vec, bind, get, lift.
  rewrite (vec_at_ok _ _ _ x), vec_set_ok by (done || lia). eexists. split; [reflexivity|].
  split; [|unfold m_num_sequencers; cbn; by rewrite length_insert].
  intros _. split; cbn; by rewrite length_insert.
Qed.

Lemma on_writeSet_ok p f c :
  checker_wf c -> 0 <= p < m_num_sequencers c ->
  exists c', on_writeSet p f c = Ok (tt, c') /\ same_shape c c'.
Proof.
  unfold m_num_sequencers. intros [H1 H2] Hp.
  destruct (lookup_lt_is_Some_2 (m_writeSet c) (Z.to_nat p)) as [x Hx]; [lia|].
  unfold on_writeSet, on_vec, bind, get, lift.
  rewrite (vec_at_ok _ _ _ x), vec_set_ok by (done || lia). eexists. split; [reflexivity|].
  split; [|done]. intros _. split; cbn; [by rewrite length_insert|done].
Qed.

Lemma same_shape_trans a b c : same_shape a b -> same_shape b c -> same_shape a c.
Proof. intros [H1 H2] [H3 H4]. split; [auto|congruence]. Qed.

Lemma same_shape_refl c : same_shape c c.
Proof. by split. Qed.
