(* ===== verification/XactValueChecker.v ===== *)
(** * The value checker

    [mem/ruby/htm/XactValueChecker.cc]: a byte-level shadow memory.  Bytes
    written inside a transaction are kept in a per-processor shadow write
    buffer, moved to the global shadow at commit (after comparing them with
    the L1 data cache), and every transactional read is compared with the
    value the shadow predicts.  With eager versioning the checker also
    compares the logged blocks with the blocks the unroll restored.  The
    cache is accessed through the interface [DataCache]. *)

From S2P Require Import Prelude Address DataBlock CacheMemory.

#[local] Open Scope Z_scope.

Record XactValueChecker := MkXactValueChecker {
  m_xact_data : gmap Z Z;
  m_writeBuffer : list (gmap Z Z);
  m_writeBufferBlocks : list (gmap Z Z);
  m_loggedValues : list (gmap Z DataBlock);
  m_unrolledValues : list (gmap Z DataBlock)
}.

#[global] Instance eta_XactValueChecker : Eta XactValueChecker := fun x =>
  MkXactValueChecker (m_xact_data x) (m_writeBuffer x) (m_writeBufferBlocks x)
    (m_loggedValues x) (m_unrolledValues x).

Definition XactValueChecker_init (num_sequencers : nat) : XactValueChecker :=
  MkXactValueChecker ∅ (replicate num_sequencers ∅) (replicate num_sequencers ∅)
    (replicate num_sequencers ∅) (replicate num_sequencers ∅).

Notation VC := (M XactValueChecker).

(** ** The global shadow *)

Definition readGlobalValue (addr : Z) (c : XactValueChecker) : res Z :=
  match m_xact_data c !! addr with Some d => Ok d | None => Err EAssert end.

Definition existGlobalValue (addr : Z) (c : XactValueChecker) : bool :=
  has addr (m_xact_data c).

Definition writeGlobalValue (addr value : Z) : VC unit :=
  upd! m_xact_data ::= <[addr := value]>.

(** ** The shadow write buffers *)

Section ops.
Context `{RS : RubySystem}.

Definition existBlockInWriteBuffer (proc addr : Z) (c : XactValueChecker) : res bool :=
  let? b := vec_at EUndef (m_writeBufferBlocks c) proc in
  Ok (has (makeLineAddress addr) b).

Definition existInWriteBuffer (proc addr : Z) (c : XactValueChecker) : res bool :=
  let? b := vec_at EUndef (m_writeBuffer c) proc in Ok (has addr b).

Definition getDataFromWriteBuffer (proc addr : Z) (c : XactValueChecker) : res Z :=
  let? b := vec_at EUndef (m_writeBuffer c) proc in
  match b !! addr with Some d => Ok d | None => Err EAssert end.

Definition set_buffer (proc : Z) (f : gmap Z Z -> gmap Z Z) : VC unit :=
  let* c := get in
  let* b := lift (vec_at EUndef (m_writeBuffer c) proc) in
  let* v := lift (vec_set (m_writeBuffer c) proc (f b)) in
  set! m_writeBuffer := v.

Definition set_blocks (proc : Z) (f : gmap Z Z -> gmap Z Z) : VC unit :=
  let* c := get in
  let* b := lift (vec_at EUndef (m_writeBufferBlocks c) proc) in
  let* v := lift (vec_set (m_writeBufferBlocks c) proc (f b)) in
  set! m_writeBufferBlocks := v.

Definition set_logged (proc : Z) (f : gmap Z DataBlock -> gmap Z DataBlock) : VC unit :=
  let* c := get in
  let* b := lift (vec_at EUndef (m_loggedValues c) proc) in
  let* v := lift (vec_set (m_loggedValues c) proc (f b)) in
  set! m_loggedValues := v.

Definition set_unrolled (proc : Z) (f : gmap Z DataBlock -> gmap Z DataBlock) : VC unit :=
  let* c := get in
  let* b := lift (vec_at EUndef (m_unrolledValues c) proc) in
  let* v := lift (vec_set (m_unrolledValues c) proc (f b)) in
  set! m_unrolledValues := v.

(** Byte [i] of a transactional write. *)
Definition notifyWrite_trans (proc addr : Z) (data : list Z) (i : Z) : VC unit :=
  let* d := lift (vec_at EUndef data i) in
  let a := u64 (addr + i) in
  let* c := get in
  let* b := lift (vec_at EUndef (m_writeBuffer c) proc) in
  if has a b then
    do* massert (negb (emptyb b));
    let* blk := lift (existBlockInWriteBuffer proc a c) in
    do* massert blk;
    set_buffer proc <[a := d]>
  else
    do* set_buffer proc <[a := d]>;
    set_blocks proc <[makeLineAddress a := 0]>.

(** Byte [i] of a non-transactional write: only bytes already published by a
    transaction are tracked. *)
Definition notifyWrite_nontrans (addr : Z) (data : list Z) (i : Z) : VC unit :=
  let* d := lift (vec_at EUndef data i) in
  let byte_addr := u64 (addr + i) in
  let* c := get in
  when (existGlobalValue byte_addr c) (writeGlobalValue byte_addr d).

Definition notifyWrite (proc : Z) (trans : bool) (addr size : Z) (data : list Z) : VC unit :=
  if trans then forM (seqZ 0 size) (notifyWrite_trans proc addr data)
  else forM (seqZ 0 size) (notifyWrite_nontrans addr data).

Definition discardWriteBuffer (proc : Z) : VC unit :=
  do* set_buffer proc (fun _ => ∅);
  set_blocks proc (fun _ => ∅).

(** ** Checking a read

    The loop returns [None] at the first mismatch, and otherwise the three
    flags [reads_from_shared_mem], [reads_from_wb], [reads_untracked]. *)

Definition value_check_byte (proc addr : Z) (ptr : list Z) (c : XactValueChecker)
    (flags : bool * bool * bool) (i : Z) : res (option (bool * bool * bool)) :=
  let a := u64 (addr + i) in
  let? p := vec_at EUndef ptr i in
  let? inwb := existInWriteBuffer proc a c in
  if inwb then
    let? data := getDataFromWriteBuffer proc a c in
    Ok (if data =? p then Some (flags.1.1, true, flags.2) else None)
  else if existGlobalValue a c then
    let? data := readGlobalValue a c in
    Ok (if data =? p then Some (true, flags.1.2, flags.2) else None)
  else Ok (Some (flags.1.1, flags.1.2, true)).

Fixpoint value_check_loop (proc addr : Z) (ptr : list Z) (c : XactValueChecker)
    (flags : bool * bool * bool) (l : list Z) : res (option (bool * bool * bool)) :=
  match l with
  | [] => Ok (Some flags)
  | i :: l =>
      let? f := value_check_byte proc addr ptr c flags i in
      match f with
      | Some flags => value_check_loop proc addr ptr c flags l
      | None => Ok None
      end
  end.

Definition xactValueCheck (proc address size : Z) (ptr : list Z) (c : XactValueChecker)
    : res bool :=
  let? f := value_check_loop proc address ptr c (false, false, false) (seqZ 0 size) in
  match f with
  | None => Ok false
  | Some (shared, wb, untracked) =>
      let? _ := rassert (negb (shared && wb && untracked)) in
      let? _ := rassert (shared || wb || untracked) in
      Ok true
  end.

(** ** Commit and restart *)

Section cache.
Context {C : Type} `{DC : DataCache C}.

(** One byte of the write buffer at commit. *)
Definition commit_byte (eager_cd : bool) (cache : C) (kv : Z * Z) : VC unit :=
  let byte_addr := kv.1 in
  let wb_value := kv.2 in
  let* hit := lift (dc_tryCacheAccess (makeLineAddress byte_addr) ST cache) in
  do* match hit with
      | None => throw EAssert
      | Some blk =>
          if eager_cd then
            let* off := lift (getOffset byte_addr) in
            let* cache_value := lift (getByte blk off) in
            massert (cache_value =? wb_value)
          else panic
      end;
  writeGlobalValue byte_addr wb_value.

Definition commitTransaction (lazy_vm eager_cd : bool) (proc : Z) (cache : C) : VC unit :=
  do* (if lazy_vm then
         let* c := get in
         let* b := lift (vec_at EUndef (m_writeBuffer c) proc) in
         forM (std_list b) (commit_byte eager_cd cache)
       else
         do* set_logged proc (fun _ => ∅);
         let* c := get in
         let* u := lift (vec_at EUndef (m_unrolledValues c) proc) in
         massert (emptyb u));
  do* set_buffer proc (fun _ => ∅);
  set_blocks proc (fun _ => ∅).
End cache.

(** One logged block at the end of an unroll; the result is [mismatch]. *)
Definition restart_block (proc : Z) (mismatch : bool) (kv : Z * DataBlock) : VC bool :=
  let* c := get in
  let* u := lift (vec_at EUndef (m_unrolledValues c) proc) in
  match u !! kv.1 with
  | None => panic
  | Some unrolledData =>
      let same := equal kv.2 unrolledData in
      do* set_logged proc (delete kv.1);
      do* set_unrolled proc (delete kv.1);
      ret (mismatch || negb same)
  end.

Fixpoint restart_loop (proc : Z) (mismatch : bool) (l : list (Z * DataBlock)) : VC bool :=
  match l with
  | [] => ret mismatch
  | kv :: l => let* m := restart_block proc mismatch kv in restart_loop proc m l
  end.

Definition restartTransaction (lazy_vm : bool) (proc : Z) : VC unit :=
  do* unless lazy_vm
        (let* c := get in
         let* l := lift (vec_at EUndef (m_loggedValues c) proc) in
         let* mismatch := restart_loop proc false (std_list l) in
         when mismatch panic);
  discardWriteBuffer proc.

Definition notifyLoggedDataBlock (proc addr : Z) (data : DataBlock) : VC unit :=
  do* massert (addr =? makeLineAddress addr);
  let* c := get in
  let* l := lift (vec_at EUndef (m_loggedValues c) proc) in
  do* massert (negb (has addr l));
  let* db := lift (copy data) in
  set_logged proc <[addr := db]>.

Definition notifyUnrolledDataBlock (proc addr : Z) (data : DataBlock) : VC unit :=
  do* massert (addr =? makeLineAddress addr);
  let* db := lift (copy data) in
  set_unrolled proc <[addr := db]>.
End ops.

(** ** The read check is exact *)

Definition buffer (c : XactValueChecker) (proc : Z) : gmap Z Z :=
  default ∅ (m_writeBuffer c !! Z.to_nat proc).

Definition in_range (c : XactValueChecker) (proc : Z) : Prop :=
  0 <= proc < Z.of_nat (length (m_writeBuffer c)) /\
  length (m_writeBufferBlocks c) = length (m_writeBuffer c).

(** Where the checker expects the byte at [a] to come from. *)
Definition from_wb (c : XactValueChecker) (proc a : Z) : bool := has a (buffer c proc).
Definition from_shared (c : XactValueChecker) (proc a : Z) : bool :=
  negb (has a (buffer c proc)) && has a (m_xact_data c).
Definition from_untracked (c : XactValueChecker) (proc a : Z) : bool :=
  negb (has a (buffer c proc)) && negb (has a (m_xact_data c)).

(** The value the shadow predicts for a byte: the own uncommitted write, or
    the last committed one; nothing for a byte no transaction wrote. *)
Definition expected (c : XactValueChecker) (proc a : Z) : option Z :=
  match buffer c proc !! a with
  | Some d => Some d
  | None => m_xact_data c !! a
  end.

Definition agrees (c : XactValueChecker) (proc a v : Z) : bool :=
  match expected c proc a with Some d => d =? v | None => true end.

Lemma buffer_at c proc :
  in_range c proc -> vec_at EUndef (m_writeBuffer c) proc = Ok (buffer c proc).
Proof.
  intros [Hp _]. destruct (lookup_lt_is_Some_2 (m_writeBuffer c) (Z.to_nat proc)) as [b Hb]; [lia|].
  unfold buffer. rewrite Hb. apply vec_at_ok; [lia|done].
Qed.

Lemma value_check_byte_ok c proc addr ptr flags i :
  in_range c proc -> 0 <= i < Z.of_nat (length ptr) ->
  let a := u64 (addr + i) in
  value_check_byte proc addr ptr c flags i =
    Ok (if agrees c proc a (ptr !!! Z.to_nat i)
        then Some (flags.1.1 || from_shared c proc a, flags.1.2 || from_wb c proc a,
                   flags.2 || from_untracked c proc a)
        else None).
Proof.
  intros Hr Hi a. unfold value_check_byte, existInWriteBuffer, getDataFromWriteBuffer.
  rewrite (vec_at_ok _ ptr i (ptr !!! Z.to_nat i)); [|lia|].
  2:{ apply list_lookup_lookup_total_lt. lia. }
  rewrite buffer_at by done. cbn [rbind]. fold a.
  unfold agrees, expected, from_shared, from_wb, from_untracked, existGlobalValue,
    readGlobalValue, has.
  destruct flags as [[f1 f2] f3]. cbn [fst snd].
  destruct (buffer c proc !! a) as [d|]; cbn;
    [|destruct (m_xact_data c !! a) as [d|]; cbn];
    rewrite ?orb_true_r, ?orb_false_r; done.
Qed.

Lemma value_check_loop_ok c proc addr ptr flags l :
  in_range c proc -> Forall (fun i => 0 <= i < Z.of_nat (length ptr)) l ->
  value_check_loop proc addr ptr c flags l =
    Ok (if forallb (fun i => agrees c proc (u64 (addr + i)) (ptr !!! Z.to_nat i)) l
        then Some (flags.1.1 || existsb (fun i => from_shared c proc (u64 (addr + i))) l,
                   flags.1.2 || existsb (fun i => from_wb c proc (u64 (addr + i))) l,
                   flags.2 || existsb (fun i => from_untracked c proc (u64 (addr + i))) l)
        else None).
Proof.
  intros Hr Hl. revert flags. induction Hl as [|i l Hi Hl IH]; intros [[f1 f2] f3].
  - cbn. by rewrite !orb_false_r.
  - cbn [value_check_loop forallb existsb fst snd].
    rewrite value_check_byte_ok by done. cbn [rbind fst snd].
    destruct (agrees _ _ _ _); [|done]. cbn [andb]. rewrite IH. cbn [fst snd].
    by rewrite !orb_assoc.
Qed.

Lemma one_source c proc a :
  from_shared c proc a || from_wb c proc a || from_untracked c proc a = true.
Proof.
  unfold from_shared, from_wb, from_untracked.
  by destruct (has a (buffer c proc)), (has a (m_xact_data c)).
Qed.

(** The read check is exact.  On a non-empty read of known bytes,
    [xactValueCheck] answers [true] exactly when every byte is the value the
    shadow predicts (the processor's own uncommitted write, else the last
    committed transactional write; any value for untracked bytes) and
    [false] otherwise.  The only other outcome is the failed assertion on a
    read all of whose bytes are as predicted but which draws on all three
    sources at once. *)
Theorem xactValueCheck_exact c proc addr ptr :
  in_range c proc -> ptr <> [] ->
  let size := Z.of_nat (length ptr) in
  let all_agree := forall i, 0 <= i < size ->
    agrees c proc (u64 (addr + i)) (ptr !!! Z.to_nat i) = true in
  match xactValueCheck proc addr size ptr c with
  | Ok b => b = true <-> all_agree
  | Err e => e = EAssert /\ all_agree /\
      (exists i, 0 <= i < size /\ from_shared c proc (u64 (addr + i)) = true) /\
      (exists i, 0 <= i < size /\ from_wb c proc (u64 (addr + i)) = true) /\
      (exists i, 0 <= i < size /\ from_untracked c proc (u64 (addr + i)) = true)
  end.
Proof.
  intros Hr Hne size all_agree. unfold xactValueCheck.
  rewrite value_check_loop_ok; [|done|].
  2:{ apply Forall_forall. intros i Hi%elem_of_seqZ. lia. }
  assert (0 < size) as Hs. { unfold size. destruct ptr; [done|]. cbn. lia. }
  assert (forall f, existsb f (seqZ 0 size) = true <-> exists i, 0 <= i < size /\ f i = true)
    as Hex.
  { intros f. rewrite existsb_exists. setoid_rewrite <- list_elem_of_In.
    setoid_rewrite elem_of_seqZ. done. }
  assert (forallb (fun i => agrees c proc (u64 (addr + i)) (ptr !!! Z.to_nat i)) (seqZ 0 size)
    = true <-> all_agree) as Hall.
  { rewrite forallb_forall. setoid_rewrite <- list_elem_of_In.
    setoid_rewrite elem_of_seqZ. done. }
  cbn [rbind fst snd orb]. fold size. destruct (forallb _ _); cbn [rbind].
  2:{ split; [done|]. by rewrite <- Hall. }
  pose proof (proj1 Hall eq_refl) as Hag.
  set (sh := existsb _ _). set (wb := existsb _ _). set (un := existsb _ _).
  assert (sh || wb || un = true) as Hone.
  { pose proof (one_source c proc (u64 (addr + 0))) as H1.
    rewrite !orb_true_iff in H1 |- *. unfold sh, wb, un. rewrite !Hex.
    destruct H1 as [[H1|H1]|H1]; [left; left|left; right|right]; exists 0; auto with lia. }
  destruct (sh && wb && un) eqn:Emix; cbn [rassert negb rbind].
  - rewrite !andb_true_iff in Emix. unfold sh, wb, un in Emix. rewrite !Hex in Emix.
    destruct Emix as [[? ?] ?]. done.
  - rewrite Hone. done.
Qed.

(** Processor 0 has written byte 8, byte 9 was committed by a transaction. *)
Definition demo_checker : XactValueChecker :=
  (XactValueChecker_init 2) <| m_xact_data := {[9 := 7]} |>
    <| m_writeBuffer := [{[8 := 5]}; ∅] |> <| m_writeBufferBlocks := [{[0 := 0]}; ∅] |>.

Lemma xactValueCheck_exact_witness :
  xactValueCheck 0 8 2 [5; 7] demo_checker = Ok true /\
  forall i, 0 <= i < 2 -> agrees demo_checker 0 (u64 (8 + i)) ([5; 7] !!! Z.to_nat i) = true.
Proof.
  assert (xactValueCheck 0 8 2 [5; 7] demo_checker = Ok true) as E
    by (vm_compute; reflexivity).
  split; [exact E|].
  pose proof (xactValueCheck_exact demo_checker 0 8 [5; 7] ltac:(by split) ltac:(done)) as H0.
  cbv zeta in H0. change (Z.of_nat (length [5; 7])) with 2 in H0.
  rewrite E in H0. by apply H0.
Defined.

(** A read that matches every predicted byte and still stops the simulation:
    byte 8 from the own write buffer, byte 9 committed, byte 10 untracked. *)
Example mixed_read_fails_assertion :
  (forall i, 0 <= i < 3 ->
     agrees demo_checker 0 (8 + i) ([5; 7; 1] !!! Z.to_nat i) = true) /\
  xactValueCheck 0 8 3 [5; 7; 1] demo_checker = Err EAssert.
Proof.
  split; [|vm_compute; reflexivity]. intros i Hi.
  assert (i = 0 \/ i = 1 \/ i = 2) as [->|[->| ->]] by lia; vm_compute; reflexivity.
Qed.

(** ** Commit *)

Section commit.
Context `{RS : RubySystem} {C : Type} `{DC : DataCache C} `{DL : !DataCacheLaws C}.

(** The L1 copy of the byte is writable and holds the buffered value. *)
Definition cache_matches (cache : C) (a v : Z) : Prop :=
  exists blk, dc_line cache (makeLineAddress a) = Some (Read_Write, blk) /\
    byte blk (a mod getBlockSizeBytes) = v.

Definition blocks_wf (cache : C) : Prop :=
  forall a p blk, dc_line cache a = Some (p, blk) -> DataBlock.wf blk.

Lemma permits_ST p : permits p ST = true <-> p = Read_Write.
Proof. destruct p; done. Qed.

Lemma getByte_ok blk i :
  DataBlock.wf blk -> 0 <= i < getBlockSizeBytes -> getByte blk i = Ok (byte blk i).
Proof. apply vec_at_byte. Qed.

Lemma commit_byte_ok cache a v c :
  dc_ok cache -> blocks_wf cache -> 0 <= a < 2 ^ 64 ->
  match commit_byte true cache (a, v) c with
  | Ok (_, c') => cache_matches cache a v /\ c' = c <| m_xact_data ::= <[a := v]> |>
  | Err e => e = EAssert /\ ~ cache_matches cache a v
  end.
Proof.
  intros Hok Hbw Ha. unfold commit_byte, bind, lift, cache_matches. cbn [fst snd].
  pose proof (makeLineAddress_is_line a Ha) as Hl.
  pose proof block_bytes_pos as Hb.
  pose proof (Z.mod_pos_bound a getBlockSizeBytes Hb) as Hm.
  destruct (dc_line cache (makeLineAddress a)) as [[p blk]|] eqn:Ed.
  - rewrite (dc_try_hit _ _ _ p blk) by done.
    destruct (permits p ST) eqn:Ep; cbn.
    + apply permits_ST in Ep as ->. rewrite getOffset_eq by done.
      rewrite getByte_ok by (eauto || done). unfold massert.
      destruct (Z.eqb_spec (byte blk (a mod getBlockSizeBytes)) v) as [He|He].
      * split; [by exists blk|done].
      * split; [done|]. intros (? & [= <-] & ?). done.
    + split; [done|]. intros (? & [= -> _] & _). done.
  - rewrite dc_try_miss by done. cbn. split; [done|]. by intros (? & ? & _).
Qed.

Lemma commit_loop_ok cache l c :
  dc_ok cache -> blocks_wf cache -> Forall (fun kv => 0 <= kv.1 < 2 ^ 64) l ->
  match forM l (commit_byte true cache) c with
  | Ok (_, c') =>
      Forall (fun kv => cache_matches cache kv.1 kv.2) l /\
      c' = c <| m_xact_data ::= fun g => foldl (fun g kv => <[kv.1 := kv.2]> g) g l |>
  | Err e => e = EAssert /\ ~ Forall (fun kv => cache_matches cache kv.1 kv.2) l
  end.
Proof.
  intros Hok Hbw Hl. revert c. induction Hl as [|[a v] l Ha Hl IH]; intros c.
  - cbn. split; [done|]. by destruct c.
  - cbn [forM]. unfold bind.
    pose proof (commit_byte_ok cache a v c Hok Hbw Ha) as Hb.
    destruct (commit_byte true cache (a, v) c) as [[[] c1]|e].
    + destruct Hb as [Hm ->]. specialize (IH (c <| m_xact_data ::= <[a := v]> |>)).
      destruct (forM l _ _) as [[[] c2]|e].
      * destruct IH as [IH ->]. split; [by constructor|]. done.
      * destruct IH as [-> IH]. split; [done|]. intros Hf. by apply IH; inversion Hf.
    + destruct Hb as [-> Hb]. split; [done|]. intros Hf. by apply Hb; inversion Hf.
Qed.

(** Writing a buffer out byte by byte overrides the shadow with it. *)
Lemma foldl_insert_union (l : list (Z * Z)) (g : gmap Z Z) :
  NoDup l.*1 ->
  foldl (fun g kv => <[kv.1 := kv.2]> g) g l = list_to_map l ∪ g.
Proof.
  revert g. induction l as [|[k v] l IH]; intros g Hnd.
  - cbn. by rewrite (left_id_L ∅ (∪)).
  - cbn [foldl fst snd]. apply NoDup_cons in Hnd as [Hk Hnd]. rewrite IH by done.
    cbn [list_to_map fst snd]. rewrite <- insert_union_r, insert_union_l; [done|].
    by apply not_elem_of_list_to_map.
Qed.

(** C29: Commit publishes exactly what the cache holds.  With lazy versioning
    and eager conflict detection, the commit of a processor returns exactly
    when every byte of its shadow write buffer is in a writable L1 line with
    that value, and stops at an assertion otherwise; when it returns, the
    global shadow is the old one overridden by the buffer, the buffer of the
    processor is empty, and the other buffers are untouched. *)
Theorem value_commit_exact cache proc c :
  dc_ok cache -> blocks_wf cache -> in_range c proc ->
  map_Forall (fun a _ => 0 <= a < 2 ^ 64) (buffer c proc) ->
  match commitTransaction true true proc cache c with
  | Ok (_, c') =>
      map_Forall (cache_matches cache) (buffer c proc) /\
      m_xact_data c' = buffer c proc ∪ m_xact_data c /\
      buffer c' proc = ∅ /\
      forall q, 0 <= q -> q <> proc -> buffer c' q = buffer c q
  | Err e => e = EAssert /\ ~ map_Forall (cache_matches cache) (buffer c proc)
  end.
Proof.
  intros Hok Hbw Hr Haddr. unfold commitTransaction, set_buffer, set_blocks.
  assert (Forall (fun kv : Z * Z => 0 <= kv.1 < 2 ^ 64) (std_list (buffer c proc))) as Hl.
  { apply Forall_forall. intros [a v] Hav%elem_of_std_list. by apply (Haddr a v). }
  pose proof (commit_loop_ok cache _ c Hok Hbw Hl) as Hloop.
  assert (Forall (fun kv => cache_matches cache kv.1 kv.2) (std_list (buffer c proc)) <->
          map_Forall (cache_matches cache) (buffer c proc)) as Hmf.
  { rewrite Forall_forall. split.
    - intros H a v Hav. apply (H (a, v)). by apply elem_of_std_list.
    - intros H [a v] Hav%elem_of_std_list. by apply (H a v). }
  unfold bind, get, lift. rewrite buffer_at by done.
  destruct (forM _ _ _) as [[[] c1]|e]; [|by rewrite <- Hmf].
  destruct Hloop as [Hm ->]. destruct Hr as [Hp Hlen].
  destruct (lookup_lt_is_Some_2 (m_writeBuffer c) (Z.to_nat proc)) as [b Hb]; [lia|].
  destruct (lookup_lt_is_Some_2 (m_writeBufferBlocks c) (Z.to_nat proc)) as [bb Hbb]; [lia|].
  cbn. rewrite (vec_at_ok _ _ _ b), vec_set_ok by (done || lia). cbn.
  rewrite (vec_at_ok _ _ _ bb), vec_set_ok by (done || lia). cbn.
  split_and!; [by apply Hmf| | |].
  - rewrite foldl_insert_union, std_list_to_map; [done|]. apply NoDup_std_list.
  - unfold buffer. cbn. by rewrite list_lookup_insert_eq by lia.
  - intros q Hq Hne. unfold buffer. cbn. by rewrite list_lookup_insert_ne by lia.
Qed.
End commit.

#[local] Existing Instance ruby64.

(** Line 0 is writable and its byte 8 is 5. *)
Definition demo_l1 : CacheMemory :=
  match (let? c := CacheMemory.init 256 2 6 in
         let? blk := setByte (alloc) 8 5 in
         (do* allocate 5 0 (new_entry blk);
          changePermission 0 Read_Write) c) with
  | Ok (_, c) => c
  | Err _ => MkCacheMemory (MkGeometry 0 0 0 0) ∅ ∅
  end.

Lemma value_commit_exact_witness :
  exists c', commitTransaction true true 0 demo_l1 demo_checker = Ok (tt, c') /\
    m_xact_data c' = {[8 := 5]} ∪ {[9 := 7]}.
Proof.
  assert (cache_wf demo_l1) as Hwf.
  { apply cache_wfb_ok. vm_compute. reflexivity. }
  pose proof (value_commit_exact demo_l1 0 demo_checker) as H.
  assert (is_ok (commitTransaction true true 0 demo_l1 demo_checker) = true)
    as E by (vm_compute; reflexivity).
  destruct (commitTransaction _ _ _ _ _) as [[[] c']|e]; [|discriminate E].
  exists c'. split; [reflexivity|]. destruct H as (_ & H & _).
  - exact Hwf.
  - intros a p blk Hl. apply fmap_Some in Hl as (e & He & [= -> ->]).
    apply (entry_of_cell _ _ _ Hwf) in He as [He _].
    assert (bool_decide (map_Forall (fun _ e =>
      length (m_data (m_DataBlk e)) = 64%nat) (m_cache demo_l1)) = true) as Hall
      by (vm_compute; reflexivity).
    apply bool_decide_eq_true in Hall. exact (Hall _ _ He).
  - split; [cbn; lia|done].
  - change (buffer demo_checker 0) with ({[8 := 5]} : gmap Z Z).
    intros a v Hav. apply lookup_singleton_Some in Hav as [<- _]. lia.
  - exact H.
Defined.
