(* ===== verification/TxState.v ===== *)
(** * State of a transaction interface manager

    The fields of [TransactionInterfaceManager] and
    [TransactionConflictManager], the components they own or share, the
    policy predicates, and the operations that the conflict manager and the
    forwarding code have in common: querying the state, moving the profiler,
    raising the abort flag and switching the hardware priority.

    One value of [World] is what the code of one processor can reach: its own
    managers, its L1 data cache, and the system-wide profiler, checkers and
    HTM object.  What it only reads of the simulator at the time of a call
    (the clock, the sequencer) is the class [Env]. *)

From S2P Require Import Prelude Address WriteMask DataBlock HTM XactProfiler CacheMemory.
From S2P Require IsolationManager LazyVM CommitArbiter EagerVM.
From S2P Require XactIsolationChecker XactValueChecker.

#[local] Open Scope Z_scope.

(** ** Constants and small types *)

Definition NC_PRIO_VALUE : Z := INT_MIN.
Definition INITIAL_PRIO_VALUE : Z := 0.

(** [std::numeric_limits<long>::min()]. *)
Definition LONG_MIN : Z := - 2 ^ 63.

(** [MachineType], in the order of [RubySlicc_Exports.sm]. *)
Definition MachineType_L0Cache : Z := 0.
Definition MachineType_L1Cache : Z := 1.
Definition MachineType_L2Cache : Z := 2.
Definition MachineType_NUM : Z := 19.

Definition machineIDToNodeID (m : MachineID) : Z := mnum m.
Definition machineIDToMachineType (m : MachineID) : Z := mtype m.
Definition createInvalidMachineID : MachineID := MkMachineID MachineType_NUM 0.

Inductive TransactionBit := NonTrans | Trans.

#[global] Instance TransactionBit_eq_dec : EqDecision TransactionBit.
Proof. solve_decision. Defined.

Definition isTransactionalRequest (t : TransactionBit) : bool :=
  match t with Trans => true | NonTrans => false end.

(** ** The simulator at the time of a call *)

Class Env := {
  curTick : Z;
  curCycle : Z;
  (** [TransactionalSequencer::isStalled]. *)
  seq_isStalled : bool;
  (** The transaction uid of the packet at the head of the sequencer's
      request table for a line; none when the table has no request. *)
  seq_packetUid : Z -> option Z;
  (** One decision of [makeRequest] per block of a write-buffer flush. *)
  seq_makeRequest : Z -> bool;
  (** The clock domain of the controller. *)
  ticksToCycles : Z -> Z;
  (** What an uninitialised [bool] reads as. *)
  uninit_bool : bool;
  (** Whether [int] arithmetic wraps around on the target, as two's complement
      hardware and [-fwrapv] do, or overflow is undefined. *)
  overflow_wraps : bool;
  (** [RubySystem::enableL0DowngradeOnL1Gets]. *)
  enableL0DowngradeOnL1Gets : bool
}.

(** The value of an [int] expression. *)
Definition signed `{Env} (z : Z) : res Z :=
  if in_int z then Ok z else if overflow_wraps then Ok (int_wrap z) else Err EUndef.

Lemma signed_ok `{Env} z : INT_MIN <= z <= INT_MAX -> signed z = Ok z.
Proof.
  intros [H1 H2]. unfold signed, in_int.
  by rewrite (proj2 (Z.leb_le _ _) H1), (proj2 (Z.leb_le _ _) H2).
Qed.

(** [getPacketFromRequestTable(addr)->getHtmTransactionUid()]. *)
Definition packetUid `{RubySystem, Env} (addr : Z) : res Z :=
  let? _ := rassert (addr =? makeLineAddress addr) in
  match seq_packetUid addr with Some u => Ok u | None => Err EAssert end.

(** ** Control fields *)

Record Ctl := MkCtl {
  m_version : Z;
  m_transactionLevel : Z;
  m_currentHtmUid : Z;
  m_htmXid : Z;
  m_escapeLevel : Z;
  m_abortFlag : bool;
  m_unrollingLogFlag : bool;
  m_atCommit : bool;
  m_abortCause : AbortCause;
  m_abortSourceNonTransactional : bool;
  m_lastFailureCause : HtmFailureFaultCause;
  m_capacityAbortWriteSet : bool;
  m_abortAddress : Z;
  m_writeSetDiscarded : gset Z;
  m_htmstart_tick : Z;
  m_htmstart_instruction : Z
}.

#[global] Instance eta_Ctl : Eta Ctl := fun x =>
  MkCtl (m_version x) (m_transactionLevel x) (m_currentHtmUid x) (m_htmXid x)
    (m_escapeLevel x) (m_abortFlag x) (m_unrollingLogFlag x) (m_atCommit x)
    (m_abortCause x) (m_abortSourceNonTransactional x) (m_lastFailureCause x)
    (m_capacityAbortWriteSet x) (m_abortAddress x) (m_writeSetDiscarded x)
    (m_htmstart_tick x) (m_htmstart_instruction x).

(** ** Forwarding fields *)

Record DataForwarded := MkDataForwarded {
  df_data : DataBlock;
  df_modified : bool;
  df_mask : WriteMask;
  df_nVal : Z
}.

#[global] Instance eta_DataForwarded : Eta DataForwarded := fun x =>
  MkDataForwarded (df_data x) (df_modified x) (df_mask x) (df_nVal x).

Record ConsumerInfo := MkConsumerInfo {
  ci_producers : gset MachineID;
  ci_data : DataBlock;
  ci_tickConsumed : Z;
  ci_tickValidated : Z;
  ci_wMask : WriteMask;
  ci_accessMask : WriteMask;
  ci_timesVal : Z;
  ci_locallyModified : bool
}.

#[global] Instance eta_ConsumerInfo : Eta ConsumerInfo := fun x =>
  MkConsumerInfo (ci_producers x) (ci_data x) (ci_tickConsumed x)
    (ci_tickValidated x) (ci_wMask x) (ci_accessMask x) (ci_timesVal x)
    (ci_locallyModified x).

Record FwdInfo := MkFwdInfo {
  fi_consumers : gset MachineID;
  fi_modified : bool
}.

#[global] Instance eta_FwdInfo : Eta FwdInfo := fun x =>
  MkFwdInfo (fi_consumers x) (fi_modified x).

(** [pi_forwardings] is the vector reversed: its head is [back()]. *)
Record ProducerInfo := MkProducerInfo {
  pi_consumers : gset MachineID;
  pi_tickProduced : Z;
  pi_timesModifiedAfterSharing : Z;
  pi_forwardings : list FwdInfo
}.

#[global] Instance eta_ProducerInfo : Eta ProducerInfo := fun x =>
  MkProducerInfo (pi_consumers x) (pi_tickProduced x)
    (pi_timesModifiedAfterSharing x) (pi_forwardings x).

Record Fwd := MkFwd {
  m_hasSentDataToConsumer : gset MachineID;
  m_hasReceivedDataFromProducer : MachineID;
  m_recvDataForwardedFromProducer : gmap Z DataForwarded;
  m_allReceivedData : gmap Z ConsumerInfo;
  m_allSentData : gmap Z ProducerInfo;
  m_sentDataForwardedToConsumer : gmap Z DataBlock;
  m_nackedAddressesReg : gmap Z DataBlock;
  m_hasConsumedValidData : bool;
  m_hasValidatedAnyData : bool;
  m_dataConsumedFromPower : bool;
  m_consumerLowPrio : bool;
  m_currentValidationAddress : Z;
  m_hwTransPrio : Z;
  m_discardFwdData : bool;
  m_consumerTurnedProducer : bool;
  m_producerTurnedConsumer : bool;
  m_reconsumer : bool;
  (** The line the pending validation event is for, if one is scheduled. *)
  validationEvent : option Z
}.

#[global] Instance eta_Fwd : Eta Fwd := fun x =>
  MkFwd (m_hasSentDataToConsumer x) (m_hasReceivedDataFromProducer x)
    (m_recvDataForwardedFromProducer x) (m_allReceivedData x) (m_allSentData x)
    (m_sentDataForwardedToConsumer x) (m_nackedAddressesReg x)
    (m_hasConsumedValidData x) (m_hasValidatedAnyData x)
    (m_dataConsumedFromPower x) (m_consumerLowPrio x)
    (m_currentValidationAddress x) (m_hwTransPrio x) (m_discardFwdData x)
    (m_consumerTurnedProducer x) (m_producerTurnedConsumer x) (m_reconsumer x)
    (validationEvent x).

(** ** The conflict manager *)

Record ConflictManager := MkConflictManager {
  m_timestamp : Z;
  m_possible_cycle : bool;
  m_lock_timestamp : bool;
  m_numRetries : Z;
  m_receivedNack : bool;
  m_abortedByNack : bool;
  m_sentNack : bool;
  m_sentNackAddr : Z;
  m_doomed : bool;
  m_powered : bool
}.

#[global] Instance eta_ConflictManager : Eta ConflictManager := fun x =>
  MkConflictManager (m_timestamp x) (m_possible_cycle x) (m_lock_timestamp x)
    (m_numRetries x) (m_receivedNack x) (m_abortedByNack x) (m_sentNack x)
    (m_sentNackAddr x) (m_doomed x) (m_powered x).

(** ** Statistics

    The vectors that count events, and the values handed to the histograms
    and distributions, newest first. *)

Inductive VectorStat :=
| m_htm_transaction_abort_cause
| m_htm_transaction_executed_type_rate
| m_htm_transaction_power_modified
| m_htm_consumer_producer_transactions
| m_htm_producer_consumer_transactions
| m_htm_producers_consumers_tx
| m_htm_producers_tx
| m_htm_consumers_tx
| m_htm_powered_tx
| m_htm_reconsumer_tx
| m_htm_forwardings
| m_htm_transactions_produced_consumed_same.

#[global] Instance VectorStat_eq_dec : EqDecision VectorStat.
Proof. solve_decision. Defined.

Inductive SampleStat :=
| m_htm_transaction_cycles
| m_htm_transaction_commit_cycles
| m_htm_transaction_abort_cycles
| m_htm_transaction_instructions
| m_htm_accessed_mem_abort
| m_htm_PiC_committed
| m_htm_PiC_aborted
| m_htm_consumer_transactions_nprod_abort
| m_htm_consumer_transactions_nprod_commit
| m_htm_producer_transactions_nprod_abort
| m_htm_producer_transactions_nprod_commit
| m_htm_producer_n_modified_produced_data
| m_htm_delayed_time_fwd_on_abort
| m_htm_cycles_xid
| m_htm_aborted_cycles_xid
| m_htm_committed_cycles_xid
| m_htm_fl_cycles_tx_xid
| m_htm_executed_tx_xid
| m_htm_committed_tx_xid
| m_htm_aborted_tx_xid_cause (cause : Z)
| m_committed_fl_tx_xid
(** [(100 * ticks) / total]: the two numbers of the quotient. *)
| m_htm_percentage_executed_on_abort.

Record Stats := MkStats {
  st_vectors : VectorStat -> Z -> Z;
  st_samples : list (SampleStat * Z * Z);
  m_retriesTicks : list Z
}.

#[global] Instance eta_Stats : Eta Stats := fun x =>
  MkStats (st_vectors x) (st_samples x) (m_retriesTicks x).

Definition Stats_init : Stats := MkStats (fun _ _ => 0) [] [].

(** [v[i]++]. *)
Definition vec_incr (v : VectorStat) (i : Z) (s : Stats) : Stats :=
  s <| st_vectors ::= fun f w j =>
        if bool_decide (w = v) && (j =? i) then f w j + 1 else f w j |>.

(** [d.sample(v, n)]; [n] is 1 when the source gives no count. *)
Definition sample (d : SampleStat) (v n : Z) (s : Stats) : Stats :=
  s <| st_samples ::= cons (d, v, n) |>.

(** ** The world of one processor *)

Record World (C : Type) := MkWorld {
  ctl : Ctl;
  fwd : Fwd;
  cm : ConflictManager;
  iso : IsolationManager.IsolationManager;
  lvm : LazyVM.LazyVM;
  arb : CommitArbiter.ArbHTM;
  evm : EagerVM.EagerVM;
  st : Stats;
  dcache : C;
  prof : XactProfiler;
  ichk : XactIsolationChecker.XactIsolationChecker;
  vchk : XactValueChecker.XactValueChecker
}.

Arguments MkWorld {C}.
Arguments ctl {C}. Arguments fwd {C}. Arguments cm {C}. Arguments iso {C}.
Arguments lvm {C}. Arguments arb {C}. Arguments evm {C}. Arguments st {C}.
Arguments dcache {C}. Arguments prof {C}. Arguments ichk {C}. Arguments vchk {C}.

#[global] Instance eta_World {C} : Eta (World C) := fun x =>
  MkWorld (ctl x) (fwd x) (cm x) (iso x) (lvm x) (arb x) (evm x) (st x)
    (dcache x) (prof x) (ichk x) (vchk x).

Section lenses.
Context {C : Type}.
Notation W := (World C).

Definition on_ctl {A} (m : M Ctl A) : M W A := zoom ctl (fun x w => w <| ctl := x |>) m.
Definition on_fwd {A} (m : M Fwd A) : M W A := zoom fwd (fun x w => w <| fwd := x |>) m.
Definition on_cm {A} (m : M ConflictManager A) : M W A :=
  zoom cm (fun x w => w <| cm := x |>) m.
Definition on_iso {A} (m : M IsolationManager.IsolationManager A) : M W A :=
  zoom iso (fun x w => w <| iso := x |>) m.
Definition on_lvm {A} (m : M LazyVM.LazyVM A) : M W A := zoom lvm (fun x w => w <| lvm := x |>) m.
Definition on_arb {A} (m : M CommitArbiter.ArbHTM A) : M W A :=
  zoom arb (fun x w => w <| arb := x |>) m.
Definition on_evm {A} (m : M EagerVM.EagerVM A) : M W A := zoom evm (fun x w => w <| evm := x |>) m.
Definition on_prof {A} (m : M XactProfiler A) : M W A := zoom prof (fun x w => w <| prof := x |>) m.
Definition on_ichk {A} (m : M XactIsolationChecker.XactIsolationChecker A) : M W A :=
  zoom ichk (fun x w => w <| ichk := x |>) m.
Definition on_vchk {A} (m : M XactValueChecker.XactValueChecker A) : M W A :=
  zoom vchk (fun x w => w <| vchk := x |>) m.
Definition on_st (f : Stats -> Stats) : M W unit := upd! st ::= f.
End lenses.

(** ** Policies *)

Section ops.
Context `{RS : RubySystem} `{CF : Config} `{E : Env} {C : Type} `{DC : DataCache C}.
Notation W := (World C).

Definition m_policy : string := conflict_resolution params.
Definition m_default_policy : ResolutionPolicy := getResolutionPolicy params.

(** The constructor of the conflict manager. *)
Definition m_policy_power : bool :=
  (m_policy =? Policy.power_tm)%string || (m_policy =? Policy.woper_tm)%string.

(** [m_policy.find("_cda") == 0 && m_policy.find("_ntx") == 0]. *)
Definition m_policy_nack_non_transactional : bool :=
  starts_with m_policy "_cda" && starts_with m_policy "_ntx".

Definition ConflictManager_init (garbage : Z) : res ConflictManager :=
  let? _ := rassert (negb (bool_decide (m_default_policy = UndefinedPolicy))) in
  let? _ :=
    if starts_with m_policy "_cda" then
      let? _ := rassert (bool_decide (m_default_policy = RequesterStalls)) in
      if starts_with m_policy "_ntx" then
        rassert ((m_policy =? Policy.requester_stalls_cda_base_ntx)%string ||
                 (m_policy =? Policy.requester_stalls_cda_hybrid_ntx)%string)
      else Ok tt
    else Ok tt in
  Ok (MkConflictManager 0 false false 0 false false false garbage false false).

(** The fields the constructor of the interface manager sets;
    [m_abortAddress] is not one of them. *)
Definition Ctl_init (version garbage : Z) : Ctl :=
  MkCtl version 0 0 LONG_MIN 0 false false false Undefined false HTM.INVALID false
    garbage ∅ 0 0.

Definition Fwd_init : Fwd :=
  MkFwd ∅ createInvalidMachineID ∅ ∅ ∅ ∅ ∅ false false false false 0 NC_PRIO_VALUE
    false false false false None.

(** The constructor: the checks of the configuration and the managers it
    creates; the cache and the system-wide objects exist already, and the
    arguments named [g_] are the fields no constructor sets. *)
Definition World_init (version g_addr g_nack g_read g_written g_base : Z) (cache : C)
    (h : HTM) (p : XactProfiler) (ic : XactIsolationChecker.XactIsolationChecker)
    (vc : XactValueChecker.XactValueChecker) : res W :=
  let? c := ConflictManager_init g_nack in
  let? _ :=
    if lazy_vm params then
      let? _ := rassert (negb (allow_write_set_l0_cache_evictions params)) in
      let? _ := rassert (negb (allow_write_set_l1_cache_evictions params)) in
      rassert (negb (allow_write_set_l2_cache_evictions params))
    else
      let? _ := rassert (eager_cd params) in
      let? _ := rassert (allow_write_set_l0_cache_evictions params) in
      let? _ := rassert (allow_write_set_l1_cache_evictions params) in
      rassert (allow_write_set_l2_cache_evictions params) in
  let? _ := if allow_read_set_l1_cache_evictions params
            then rassert (allow_read_set_l0_cache_evictions params) else Ok tt in
  let? _ := if allow_write_set_l1_cache_evictions params ||
               allow_write_set_l2_cache_evictions params
            then rassert (negb (lazy_vm params)) else Ok tt in
  Ok (MkWorld (Ctl_init version g_addr) Fwd_init c IsolationManager.IsolationManager_init
        (LazyVM.LazyVM_init g_read g_written) (CommitArbiter.Arbiter_init, h)
        (EagerVM.EagerVM_init g_base) Stats_init cache p ic vc).

Definition default_policy_is (p : ResolutionPolicy) : res bool :=
  let? _ := rassert (negb (bool_decide (m_default_policy = UndefinedPolicy))) in
  Ok (bool_decide (m_default_policy = p)).

Definition isRequesterStallsPolicy : res bool := default_policy_is RequesterStalls.
Definition isReqLosesPolicy : res bool := default_policy_is RequesterLoses.
Definition isReqWinsPolicy : res bool := default_policy_is RequesterWins.

Definition isPowerTMPolicy : bool :=
  (m_policy =? Policy.power_tm)%string || (m_policy =? Policy.woper_tm)%string.

Definition isPicPolicy : bool :=
  (m_policy =? Policy.requester_stalls_pic_base)%string.

Definition isProducerPolicy : res bool :=
  if isPowerTMPolicy then Ok true else
  let? l := isReqLosesPolicy in
  if l then Ok true else isRequesterStallsPolicy.

Definition isPowered (w : W) : res bool :=
  if m_powered (cm w) then let? _ := rassert isPowerTMPolicy in Ok true else Ok false.

Definition fwdMechanism : HtmFwdMechanism := getFwdMechanism params.
Definition prioMechanism : HtmHwPrioMechanism := getHwPrioMechanism params.
Definition fwd_is (m : HtmFwdMechanism) : bool := bool_decide (fwdMechanism = m).
Definition prio_is (m : HtmHwPrioMechanism) : bool := bool_decide (prioMechanism = m).
Definition config_allowEarlyValueFwd : bool := negb (fwd_is no_fwd).

(** ** Queries *)

Definition isPowerMode (w : W) : res bool := isPowered w.
Definition getSwTransactionPriority (w : W) : res bool := isPowerMode w.
Definition getTransactionLevel (w : W) : Z := m_transactionLevel (ctl w).
Definition getProcID (w : W) : Z := m_version (ctl w).

Definition inTransaction (w : W) : bool :=
  (0 <? m_transactionLevel (ctl w)) && (m_escapeLevel (ctl w) =? 0).

Definition getTransactionBit (w : W) : TransactionBit :=
  if inTransaction w then Trans else NonTrans.

Definition getTransactionPriority (w : W) : Z :=
  match prioMechanism with
  | no_prio => NC_PRIO_VALUE
  | numeric => m_hwTransPrio (fwd w)
  end.

Definition getAbortAddress (w : W) : res Z :=
  let? _ := rassert (negb (m_abortAddress (ctl w) =? 0)) in Ok (m_abortAddress (ctl w)).

Definition isAborting (w : W) : bool := inTransaction w && m_abortFlag (ctl w).

Definition isUnrollingLog (w : W) : bool :=
  if lazy_vm params then false else m_unrollingLogFlag (ctl w).

Definition isDoomed (w : W) : res bool :=
  if negb (lazy_vm params) && isUnrollingLog w then
    let? _ := rassert (negb (m_abortFlag (ctl w))) in Ok true
  else Ok (m_abortFlag (ctl w)).

Definition isConsumer (w : W) : bool := negb (emptyb (m_recvDataForwardedFromProducer (fwd w))).

Definition isRetryingTx (w : W) : bool := negb (m_numRetries (cm w) =? 0).

Definition checkReadSignature (addr : Z) (w : W) : res bool :=
  IsolationManager.isInReadSetPerfectFilter (getTransactionLevel w)
    (precise_read_set_tracking params) addr (iso w).

Definition checkWriteSignature (addr : Z) (w : W) : res bool :=
  IsolationManager.isInWriteSetPerfectFilter addr (iso w).

Definition hasConflictWith (o w : W) : res bool :=
  IsolationManager.hasConflictWith (getTransactionLevel o)
    (precise_read_set_tracking params) (iso w) (iso o).

Definition isBlockConsumed (addr : Z) (w : W) : bool :=
  has (makeLineAddress addr) (m_recvDataForwardedFromProducer (fwd w)).

Definition isBlockProduced (addr : Z) (w : W) : bool :=
  has (makeLineAddress addr) (m_sentDataForwardedToConsumer (fwd w)).

Definition canProduce (w : W) : res bool :=
  let? p := isProducerPolicy in
  if p then
    match fwdMechanism with
    | no_fwd => Ok false
    | simple =>
        let? _ := rassert (prio_is no_prio) in Ok (negb (isConsumer w))
    | W1_D1 | WN_D1 => Ok (negb (isConsumer w))
    | WX_DX => Ok (negb ((max_prio_diff params =? 1) && isConsumer w))
    | W1_DN | WN_DM | naive => Ok true
    end
  else Ok false.

Definition no_consumers (w : W) : bool := bool_decide (m_hasSentDataToConsumer (fwd w) = ∅).

Definition isProducer (w : W) : res bool :=
  if negb (no_consumers w) then
    let? c := canProduce w in
    let? _ := rassert c in
    let? _ := rassert (negb (emptyb (m_sentDataForwardedToConsumer (fwd w)))) in
    Ok true
  else
    let? _ := rassert (emptyb (m_sentDataForwardedToConsumer (fwd w))) in
    Ok false.

Definition has_producer (w : W) : bool :=
  negb (bool_decide (m_hasReceivedDataFromProducer (fwd w) = createInvalidMachineID)).

Definition hasConsumedData (w : W) : res bool :=
  let? _ :=
    if m_hasConsumedValidData (fwd w) then rassert (has_producer w)
    else if has_producer w then
      if negb (isConsumer w) then rassert (isAborting w) else Ok tt
    else Ok tt in
  Ok (has_producer w).

Definition shouldReloadIfStale (w : W) : bool :=
  if inTransaction w && (NC_PRIO_VALUE <? getTransactionPriority w) then true
  else reload_if_stale params.

(** ** Profiler *)

Definition moveTo (region : AnnotatedRegion) : M W unit :=
  let* w := get in
  on_prof (XactProfiler.moveTo curCycle (getTransactionLevel w) (getProcID w) region).

Definition getCurrentRegion (w : W) : res AnnotatedRegion :=
  let? r := vec_at EUndef (m_procs (prof w)) (m_version (ctl w)) in
  Ok (m_annotatedRegion r).

(** ** Raising the abort flag *)

(** The trailing boolean parameters of [setAbortFlag] and their defaults. *)
Record AbortFlags := MkAbortFlags {
  af_capacity : bool;
  af_wset : bool;
  af_dataStale : bool;
  af_validation : bool;
  af_specDepthOverflow : bool;
  af_specMaxCapacityOverflow : bool;
  af_specWriteInFlight : bool;
  af_specReadConflict : bool
}.

#[global] Instance eta_AbortFlags : Eta AbortFlags := fun x =>
  MkAbortFlags (af_capacity x) (af_wset x) (af_dataStale x) (af_validation x)
    (af_specDepthOverflow x) (af_specMaxCapacityOverflow x) (af_specWriteInFlight x)
    (af_specReadConflict x).

Definition no_flags : AbortFlags :=
  MkAbortFlags false false false false false false false false.

(** The cascade that chooses the cause of a Ruby-triggered abort; the second
    component is the new value of [m_capacityAbortWriteSet] and
    [m_abortSourceNonTransactional], when it is written. *)
Definition choose_abort_cause (w : W) (abortSource : MachineID) (remote_trans : TransactionBit)
    (remote_sw_priority : bool) (f : AbortFlags) : M Ctl unit :=
  if af_validation f then set! m_abortCause := SpecValidation
  else if af_specDepthOverflow f then set! m_abortCause := SpecDepthOverflow
  else if af_specMaxCapacityOverflow f then set! m_abortCause := SpecMaxCapacityOverflow
  else if af_specWriteInFlight f then set! m_abortCause := SpecWriteInFlight
  else if af_specReadConflict f then set! m_abortCause := SpecReadConflict
  else if af_dataStale f then set! m_abortCause := ConflictStale
  else if remote_sw_priority then set! m_abortCause := ConflictPower
  else if (machineIDToNodeID abortSource =? getProcID w) &&
          negb (machineIDToMachineType abortSource =? MachineType_L2Cache) then
    if machineIDToMachineType abortSource =? MachineType_L0Cache then
      if negb (af_capacity f) then set! m_abortCause := WrongL0
      else
        do* set! m_abortCause := L0Capacity;
        set! m_capacityAbortWriteSet := af_wset f
    else
      do* massert (machineIDToMachineType abortSource =? MachineType_L1Cache);
      do* massert (negb (af_capacity f));
      set! m_abortCause := L1Capacity
  else if machineIDToMachineType abortSource =? MachineType_L2Cache then
    set! m_abortCause := L2Capacity
  else when (negb (machineIDToNodeID abortSource =? getProcID w))
    (do* massert (machineIDToMachineType abortSource =? MachineType_L1Cache);
     do* set! m_abortSourceNonTransactional := negb (isTransactionalRequest remote_trans);
     let* c := get in
     do* massert (negb (m_abortAddress c =? 0));
     if m_abortAddress c =? m_fallbackLockPhysicalAddress (arb w).2
     then set! m_abortCause := FallbackLock
     else set! m_abortCause := Conflict).

(** The removals from the isolation checker's shadow sets. *)
Definition forget_checked (addr : Z) : M W unit :=
  let* w := get in
  when (isolation_checker params)
    (let* r := lift (checkReadSignature addr w) in
     do* when r (on_ichk (XactIsolationChecker.removeFromReadSet (m_version (ctl w)) addr));
     let* x := lift (checkWriteSignature addr w) in
     when x (on_ichk (XactIsolationChecker.removeFromWriteSet (m_version (ctl w)) addr))).

Definition setAbortFlag (addr : Z) (abortSource : MachineID) (remote_trans : TransactionBit)
    (remote_priority : Z) (remote_sw_priority : bool) (f : AbortFlags) : M W unit :=
  let* w := get in
  do* (if m_transactionLevel (ctl w) =? 0 then
         do* massert (negb (precise_read_set_tracking params));
         let* o := lift (IsolationManager.wasOvertakingRead addr (iso w)) in
         do* massert o;
         panic
       else forget_checked addr);
  do* unless (lazy_vm params) (massert (negb (isUnrollingLog w)));
  unless (m_abortFlag (ctl w))
    (do* on_ctl (set! m_abortFlag := true);
     do* on_ctl (set! m_abortAddress := makeLineAddress addr);
     do* when (0 <? m_transactionLevel (ctl w)) (moveTo ABORTING);
     do* unless (eager_cd params)
           (when (LazyVM.m_committing (lvm w))
              (on_lvm (LazyVM.cancelWriteBufferFlush (getTransactionLevel w))));
     do* massert (bool_decide (m_abortCause (ctl w) = Undefined));
     do* on_ctl (choose_abort_cause w abortSource remote_trans remote_sw_priority f);
     let* w' := get in
     let* _ := lift (hasConsumedData w') in
     ret tt).

Definition cancelTransaction : M W unit :=
  let* w := get in
  do* massert (negb (m_abortFlag (ctl w)));
  do* on_ctl (set! m_abortFlag := true);
  do* massert (bool_decide (m_abortCause (ctl w) = Undefined));
  do* on_ctl (set! m_abortCause := Explicit);
  moveTo ABORTING.

Definition isCancelledTransaction (w : W) : bool :=
  m_abortFlag (ctl w) && bool_decide (m_abortCause (ctl w) = Explicit).

Definition isTransactionAbortedByRemotePower (w : W) : bool :=
  m_abortFlag (ctl w) && bool_decide (m_abortCause (ctl w) = ConflictPower).

Definition setAbortCause (cause : AbortCause) : M W unit :=
  let* w := get in
  if negb (m_abortFlag (ctl w)) then on_ctl (set! m_abortCause := cause)
  else unless (bool_decide (m_abortCause (ctl w) = cause))
         (on_ctl (set! m_abortCause := cause)).

Definition notifyIllegalFailure : M W unit := setAbortCause IllegalData.

Definition getWaitForRetryRegionFromPreviousAbortCause (w : W) : res AnnotatedRegion :=
  let? _ := rassert (m_transactionLevel (ctl w) =? 0) in
  Ok (match m_lastFailureCause (ctl w) with
      | SIZE => ABORT_HANDLER_WAITFORRETRY_SIZE
      | EXCEPTION => ABORT_HANDLER_WAITFORRETRY_EXCEPTION
      | _ => ABORT_HANDLER_WAITFORRETRY_THRESHOLD
      end).

Definition getHtmTransactionalReqResponseCode (w : W) : res HtmCacheFailure :=
  match m_abortCause (ctl w) with
  | Undefined => let? _ := rassert (negb (isAborting w)) in Ok NO_FAIL
  | Explicit => Ok NO_FAIL
  | L0Capacity | L1Capacity | L2Capacity | WrongL0 => Ok FAIL_SELF
  | Conflict | ConflictStale | FallbackLock | ConflictPower | SpecValidation
  | SpecDepthOverflow | SpecMaxCapacityOverflow | SpecWriteInFlight
  | SpecReadConflict => Ok FAIL_REMOTE
  | _ => Err EPanic
  end.

(** ** Hardware priority *)

(** The priority after a data or nack message was received from a producer
    ([recv]) or sent to a consumer.  The arguments are the facts the code
    reads: software priority, stalled sequencer, consumer. *)
Definition prio_after_recv (own : Z) (sw : res bool) (remote_hw_prio : Z)
    (remote_sw_prio : bool) : res Z :=
  if (own =? NC_PRIO_VALUE) && negb remote_sw_prio then
    let? b := sw in
    let? _ := rassert (negb b) in
    signed (remote_hw_prio - 1)
  else Ok own.

Definition prio_after_send (own : Z) (sw : res bool) (stalled consumer : bool)
    (remote_hw_prio : Z) : res Z :=
  let? b := sw in
  if b then
    let? _ := rassert (own =? NC_PRIO_VALUE) in Ok own
  else if (isPicPolicy && negb stalled) || (config_allowEarlyValueFwd && negb consumer) then
    if remote_hw_prio =? NC_PRIO_VALUE then
      Ok (if own =? remote_hw_prio then INITIAL_PRIO_VALUE else own)
    else
      let? _ := rassert ((negb stalled && negb consumer) || (remote_hw_prio <? own)) in
      if remote_hw_prio <? own then Ok own else signed (remote_hw_prio + 1)
  else Ok own.

Definition switchHwPrio (remote_hw_prio : Z) (remote_sw_prio isReceived : bool) : M W unit :=
  if prio_is no_prio then ret tt else
  do* massert (isPicPolicy || config_allowEarlyValueFwd);
  let* w := get in
  let sw := getSwTransactionPriority w in
  let* p := lift (if isReceived
                  then prio_after_recv (m_hwTransPrio (fwd w)) sw remote_hw_prio remote_sw_prio
                  else prio_after_send (m_hwTransPrio (fwd w)) sw seq_isStalled (isConsumer w)
                         remote_hw_prio) in
  on_fwd (set! m_hwTransPrio := p).

(** Is a nack with this priority illegal (a cycle in the making)? *)
Definition prio_illegal (own remote_priority : Z) : bool :=
  negb (prio_is no_prio) &&
  negb (bool_decide (getFwdCycleSolveStrategy params = no_strategy)) &&
  ((remote_priority <=? own) ||
   (negb (NC_not_producer params) && (remote_priority =? NC_PRIO_VALUE))).

Definition isIllegalNack (addr : Z) (source : MachineID) (remote_priority : Z)
    (remote_sw_priority : bool) : M W bool :=
  let* uid := lift (packetUid addr) in
  let* w := get in
  if (uid <? m_currentHtmUid (ctl w)) || isAborting w then
    do* on_fwd (set! m_discardFwdData := true);
    ret true
  else if prio_illegal (m_hwTransPrio (fwd w)) remote_priority then
    do* massert (config_allowEarlyValueFwd || isPicPolicy);
    ret true
  else ret false.

(** [ActionOnIllegalWriteData]. *)
Inductive ActionOnIllegalWriteData := Action_Abort | Action_Retry | Action_Discard.

Definition getActionOnIllegalData : M W ActionOnIllegalWriteData :=
  let* w := get in
  if m_discardFwdData (fwd w) then
    do* on_fwd (set! m_discardFwdData := false);
    ret Action_Abort
  else ret (match getFwdCycleSolveStrategy params with
            | retry => Action_Retry
            | strategy_abort => Action_Abort
            | no_strategy => Action_Abort
            end).
End ops.

(** ** A processor inside a transaction *)

Section inside.
Context `{RS : RubySystem} `{CF : Config} `{E : Env} {C : Type} `{DC : DataCache C}.
Notation W := (World C).

(** The configured resolution policy is one the conflict manager knows. *)
Definition policy_defined : Prop := m_default_policy <> UndefinedPolicy.

Definition prof_row (w : W) : option ProcRegions :=
  m_procs (prof w) !! Z.to_nat (m_version (ctl w)).

(** The shadow sets of the isolation checker have a row for the processor. *)
Definition ichk_ok (w : W) : Prop :=
  isolation_checker params = true ->
  m_version (ctl w) < XactIsolationChecker.m_num_sequencers (ichk w) /\
  XactIsolationChecker.checker_wf (ichk w).

(** What the forwarding fields promise while a transaction runs: the name of
    a producer is known once data was consumed, and it is known exactly as
    long as consumed blocks are pending or were all validated. *)
Record consumed_ok (w : W) : Prop := {
  co_valid : m_hasConsumedValidData (fwd w) = true -> has_producer w = true;
  co_pending : has_producer w = true -> m_hasConsumedValidData (fwd w) = false ->
    isConsumer w = true \/ isAborting w = true
}.

(** The state of a processor that runs a transaction (level 1, no escape
    action), as the operations of this development keep it. *)
Record in_tx (w : W) : Prop := {
  it_level : m_transactionLevel (ctl w) = 1;
  it_escape : m_escapeLevel (ctl w) = 0;
  it_version : 0 <= m_version (ctl w);
  it_row : exists r, prof_row w = Some r /\ tx_row curCycle r /\
    (m_abortFlag (ctl w) = true <-> m_annotatedRegion r = ABORTING);
  it_cause : m_abortFlag (ctl w) = false -> m_abortCause (ctl w) = Undefined;
  it_iso : IsolationManager.wf 1 (precise_read_set_tracking params) (iso w);
  it_ichk : ichk_ok w;
  it_consumed : consumed_ok w;
  it_unroll : m_unrollingLogFlag (ctl w) = false;
  it_power : m_powered (cm w) = true -> isPowerTMPolicy = true;
  it_fwd : fwd_is no_fwd = true -> isConsumer w = false
}.

Lemma in_tx_level w : in_tx w -> getTransactionLevel w = 1.
Proof. apply it_level. Qed.

Lemma in_tx_inTransaction w : in_tx w -> inTransaction w = true.
Proof. intros H. unfold inTransaction. by rewrite (it_level w H), (it_escape w H). Qed.

Lemma in_tx_aborting w : in_tx w -> isAborting w = m_abortFlag (ctl w).
Proof. intros H. unfold isAborting. by rewrite in_tx_inTransaction. Qed.

Lemma in_tx_doomed w : in_tx w -> isDoomed w = Ok (m_abortFlag (ctl w)).
Proof.
  intros H. unfold isDoomed, isUnrollingLog. rewrite (it_unroll w H).
  by destruct (lazy_vm params).
Qed.

Lemma checkReadSignature_ok w a :
  in_tx w ->
  checkReadSignature a w = Ok (has (makeLineAddress a) (IsolationManager.m_readSet (iso w))).
Proof.
  intros H. unfold checkReadSignature. rewrite in_tx_level by done.
  apply IsolationManager.isInReadSet_ok, H.
Qed.

Lemma checkWriteSignature_ok w a :
  in_tx w ->
  checkWriteSignature a w = Ok (has (makeLineAddress a) (IsolationManager.m_writeSet (iso w))).
Proof. intros H. eapply IsolationManager.isInWriteSet_ok, H. Qed.

(** ** The abort flag *)

(** The sources an abort can have: a cause given by a flag, the software
    priority of the remote, an eviction by the shared cache or an own one,
    or a remote private cache with a non-null line. *)
Definition source_ok (w : W) (addr : Z) (src : MachineID) (sw : bool) (f : AbortFlags) : Prop :=
  (af_validation f || af_specDepthOverflow f || af_specMaxCapacityOverflow f ||
   af_specWriteInFlight f || af_specReadConflict f || af_dataStale f || sw = true) \/
  mtype src = MachineType_L2Cache \/
  (mnum src = m_version (ctl w) /\
   (mtype src = MachineType_L0Cache \/
    (mtype src = MachineType_L1Cache /\ af_capacity f = false))) \/
  (mnum src <> m_version (ctl w) /\ mtype src = MachineType_L1Cache /\
   makeLineAddress addr <> 0).

(** [c'] is [c] with the fields that describe the cause of an abort. *)
Definition cause_set (c c' : Ctl) : Prop :=
  exists cause capw nontx, cause <> Undefined /\
    c' = c <| m_abortSourceNonTransactional := nontx |> <| m_abortCause := cause |>
           <| m_capacityAbortWriteSet := capw |>.

Lemma choose_abort_cause_ok w addr src t sw f c :
  source_ok w addr src sw f -> m_abortAddress c = makeLineAddress addr ->
  exists c', choose_abort_cause w src t sw f c = Ok (tt, c') /\ cause_set c c'.
Proof.
  intros Hs Ha. unfold choose_abort_cause, machineIDToNodeID, machineIDToMachineType, getProcID.
  assert (forall cause, cause <> Undefined -> cause_set c (c <| m_abortCause := cause |>)) as Hset.
  { intros cause Hc. exists cause, (m_capacityAbortWriteSet c), (m_abortSourceNonTransactional c).
    split; [done|]. by destruct c. }
  destruct Hs as [Hs|Hs].
  { destruct (af_validation f); [eauto|]. destruct (af_specDepthOverflow f); [eauto|].
    destruct (af_specMaxCapacityOverflow f); [eauto|].
    destruct (af_specWriteInFlight f); [eauto|]. destruct (af_specReadConflict f); [eauto|].
    destruct (af_dataStale f); [eauto|]. cbn in Hs. rewrite Hs. eauto. }
  repeat (match goal with |- context [if ?b then _ else _] =>
    match b with
    | af_validation _ => destruct b
    | af_specDepthOverflow _ => destruct b
    | af_specMaxCapacityOverflow _ => destruct b
    | af_specWriteInFlight _ => destruct b
    | af_specReadConflict _ => destruct b
    | af_dataStale _ => destruct b
    | sw => destruct b
    end end; [by eauto|]).
  destruct Hs as [H2|[(Hn & H1)|(Hn & H1 & Hz)]].
  - rewrite H2. cbn [Z.eqb]. rewrite andb_false_r. eauto.
  - rewrite Hn, Z.eqb_refl. destruct H1 as [->|[-> ->]]; cbn.
    + destruct (af_capacity f); cbn; [|eauto].
      eexists. split; [reflexivity|]. exists L0Capacity, (af_wset f), (m_abortSourceNonTransactional c).
      split; [done|]. by destruct c.
    + eauto.
  - rewrite (proj2 (Z.eqb_neq _ _) Hn), H1. cbn [andb Z.eqb when negb].
    unfold bind, massert, modify, get. cbn [m_abortAddress upd].
    assert (m_abortAddress c =? 0 = false) as E0 by (apply Z.eqb_neq; congruence).
    destruct (m_abortAddress c =? 0) eqn:E1; [done|]. cbn.
    rewrite E1. cbn. destruct (_ =? m_fallbackLockPhysicalAddress _);
      (eexists; split; [reflexivity|]);
      [exists FallbackLock|exists Conflict];
      exists (m_capacityAbortWriteSet c), (negb (isTransactionalRequest t));
      (split; [done|]); by destruct c.
Qed.

Lemma wp_ichk_row (m : M XactIsolationChecker.XactIsolationChecker unit) (w : W) Q :
  (exists i', m (ichk w) = Ok (tt, i') /\ XactIsolationChecker.same_shape (ichk w) i') ->
  (forall i', XactIsolationChecker.same_shape (ichk w) i' -> Q tt (w <| ichk := i' |>)) ->
  wp (on_ichk m) Q w.
Proof.
  intros (i' & Hi & Hs) HQ. unfold on_ichk. wp_simpl. unfold wp. rewrite Hi. by apply HQ.
Qed.

Lemma forget_checked_ok w addr :
  in_tx w ->
  exists i', forget_checked addr w = Ok (tt, w <| ichk := i' |>) /\
    XactIsolationChecker.same_shape (ichk w) i'.
Proof.
  intros H.
  enough (wp (forget_checked addr) (fun _ w' => exists i', w' = w <| ichk := i' |> /\
    XactIsolationChecker.same_shape (ichk w) i') w) as Hwp.
  { apply wp_ok in Hwp as ([] & w' & Hw & i' & -> & Hs). by exists i'. }
  unfold forget_checked. wp_simpl. unfold when.
  destruct (isolation_checker params) eqn:Ec; wp_simpl.
  2:{ exists (ichk w). split; [by destruct w|apply XactIsolationChecker.same_shape_refl]. }
  destruct (it_ichk w H Ec) as [Hlt Hwf]. pose proof (it_version w H).
  rewrite checkReadSignature_ok, checkWriteSignature_ok by done. wp_simpl.
  assert (forall i', XactIsolationChecker.same_shape (ichk w) i' ->
    wp (if has (makeLineAddress addr) (IsolationManager.m_writeSet (iso w))
        then on_ichk (XactIsolationChecker.removeFromWriteSet (m_version (ctl w)) addr)
        else ret tt)
     (fun _ w' => exists i', w' = w <| ichk := i' |> /\
        XactIsolationChecker.same_shape (ichk w) i') (w <| ichk := i' |>)) as Hsnd.
  { intros i' Hs. destruct (has _ _).
    - apply wp_ichk_row.
      + apply XactIsolationChecker.on_writeSet_ok; [by apply Hs|].
        cbn. rewrite (XactIsolationChecker.ss_num _ _ Hs). lia.
      + intros i'' Hs'. exists i''. split; [done|].
        by eapply XactIsolationChecker.same_shape_trans.
    - wp_simpl. by exists i'. }
  destruct (has (makeLineAddress addr) (IsolationManager.m_readSet (iso w))).
  - apply wp_ichk_row.
    + apply XactIsolationChecker.on_readSet_ok; [done|lia].
    + intros i' Hs. wp_simpl. by apply Hsnd.
  - wp_simpl.
    specialize (Hsnd (ichk w) (XactIsolationChecker.same_shape_refl _)).
    by replace (w <| ichk := ichk w |>) with w in Hsnd by (by destruct w).
Qed.

Lemma wp_moveTo_inside (w : W) next r Q :
  0 <= m_version (ctl w) -> prof_row w = Some r -> tx_row curCycle r ->
  tx_region next = true -> m_annotatedRegion r <> next ->
  (forall p' r', own_row (m_version (ctl w)) (prof w) p' r' -> tx_row curCycle r' ->
     m_annotatedRegion r' = next -> Q tt (w <| prof := p' |>)) ->
  wp (moveTo next) Q w.
Proof.
  intros Hv Hr Ht Hn Hne HQ. unfold moveTo, on_prof. wp_simpl.
  destruct (moveTo_inside curCycle (getTransactionLevel w) (m_version (ctl w)) next (prof w) r)
    as (p' & r' & Hm & Ho & Ht' & Hreg); [done..|].
  unfold wp, getProcID. rewrite Hm. by eapply HQ.
Qed.

(** The effect of raising the flag for the first time. *)
Definition flag_raised (addr : Z) (w w' : W) : Prop :=
  exists c' p' i' r',
    w' = w <| ctl := c' |> <| prof := p' |> <| ichk := i' |> /\
    cause_set ((ctl w) <| m_abortFlag := true |>
                     <| m_abortAddress := makeLineAddress addr |>) c' /\
    own_row (m_version (ctl w)) (prof w) p' r' /\ tx_row curCycle r' /\
    m_annotatedRegion r' = ABORTING /\
    XactIsolationChecker.same_shape (ichk w) i'.

Lemma setAbortFlag_raises w addr src t prio sw f :
  eager_cd params = true -> in_tx w -> m_abortFlag (ctl w) = false ->
  source_ok w addr src sw f ->
  exists w', setAbortFlag addr src t prio sw f w = Ok (tt, w') /\ flag_raised addr w w' /\
    choose_abort_cause w src t sw f
      ((ctl w) <| m_abortFlag := true |> <| m_abortAddress := makeLineAddress addr |>)
    = Ok (tt, ctl w').
Proof.
  intros Hcd H Hf Hs. destruct (forget_checked_ok w addr H) as (i' & Hfc & Hss).
  destruct (it_row w H) as (r & Hr & Htx & Hreg).
  enough (wp (setAbortFlag addr src t prio sw f) (fun _ w' => flag_raised addr w w' /\
    choose_abort_cause w src t sw f
      ((ctl w) <| m_abortFlag := true |> <| m_abortAddress := makeLineAddress addr |>)
    = Ok (tt, ctl w')) w) as Hwp.
  { apply wp_ok in Hwp as ([] & w' & ? & ?). eauto. }
  unfold setAbortFlag. wp_simpl. rewrite (it_level w H). cbn [Z.eqb].
  unfold wp at 1. rewrite Hfc. wp_simpl.
  assert (forall Q (w' : W), wp (unless (lazy_vm params) (massert (negb (isUnrollingLog w))))
    Q w' <-> Q tt w') as Hun.
  { intros Q w'. unfold unless, isUnrollingLog. destruct (lazy_vm params); wp_simpl; [done|].
    rewrite (it_unroll w H). naive_solver. }
  rewrite Hun, Hf. cbn [unless]. unfold on_ctl. wp_simpl. cbn [Z.ltb Z.compare when].
  eapply wp_moveTo_inside; [apply (it_version w H)|exact Hr|done|done| |].
  { intros Ha. apply Hreg in Ha. congruence. }
  intros p' r' Ho Ht' Hr'. rewrite Hcd. cbn [unless]. wp_simpl. split.
  { apply bool_decide_eq_true. by apply (it_cause w H). }
  destruct (choose_abort_cause_ok w addr src t sw f
    ((ctl w) <| m_abortFlag := true |> <| m_abortAddress := makeLineAddress addr |>) Hs)
    as (c' & Hc & Hcs); [done|].
  apply wp_ok. exists tt, c'. split; [exact Hc|]. wp_simpl.
  match goal with |- wp _ _ ?x => set (w1 := x) end.
  assert (hasConsumedData w1 = Ok (has_producer w)) as Hh.
  { destruct Hcs as (cause & capw & nontx & _ & ->). unfold hasConsumedData.
    change (m_hasConsumedValidData (fwd w1)) with (m_hasConsumedValidData (fwd w)).
    change (has_producer w1) with (has_producer w). change (isConsumer w1) with (isConsumer w).
    assert (isAborting w1 = true) as ->.
    { unfold isAborting, inTransaction, w1. cbn.
      by rewrite (it_level w H), (it_escape w H). }
    destruct (m_hasConsumedValidData (fwd w)) eqn:E1.
    - by rewrite (co_valid w (it_consumed w H) E1).
    - by destruct (has_producer w), (isConsumer w). }
  rewrite Hh. wp_simpl. split; [|exact Hc]. exists c', p', i', r'. split; [done|]. done.
Qed.

(** A second call leaves the first cause in place. *)
Lemma setAbortFlag_again w addr src t prio sw f :
  in_tx w -> m_abortFlag (ctl w) = true ->
  exists i', setAbortFlag addr src t prio sw f w = Ok (tt, w <| ichk := i' |>) /\
    XactIsolationChecker.same_shape (ichk w) i'.
Proof.
  intros H Hf. destruct (forget_checked_ok w addr H) as (i' & Hfc & Hss).
  exists i'. split; [|done]. unfold setAbortFlag, bind, get.
  rewrite (it_level w H). cbn [Z.eqb]. rewrite Hfc, Hf. cbn [unless].
  unfold unless, isUnrollingLog. destruct (lazy_vm params); [done|].
  by rewrite (it_unroll w H).
Qed.

Lemma flag_raised_in_tx addr w w' : in_tx w -> flag_raised addr w w' ->
  in_tx w' /\ m_abortFlag (ctl w') = true /\ m_abortCause (ctl w') <> Undefined.
Proof.
  intros H (c' & p' & i' & r' & -> & (cause & capw & nontx & Hc & ->) & Ho & Htx & Hreg & Hss).
  split; [|split; [done|exact Hc]].
  destruct (it_row w H) as (r & Hr & _ & _).
  destruct H as [? ? ? _ _ ? Hi Hco ? ? ?]. split; cbn; try done.
  - exists r'. split; [|done]. unfold prof_row. cbn. eapply own_row_lookup; [exact Hr|done].
  - intros Hck. destruct (Hi Hck) as [H1 H2]. cbn.
    split; [by rewrite (XactIsolationChecker.ss_num _ _ Hss)|by apply Hss].
  - destruct Hco as [Hv Hp]. split; [exact Hv|]. intros _ _. right.
    unfold isAborting, inTransaction. cbn.
    by destruct (m_transactionLevel (ctl w)) eqn:?, (m_escapeLevel (ctl w)).
Qed.

Lemma in_tx_ichk w i' :
  in_tx w -> XactIsolationChecker.same_shape (ichk w) i' -> in_tx (w <| ichk := i' |>).
Proof.
  intros [? ? ? ? ? ? Hi [? ?] ? ? ?] Hss. split; try done.
  intros Hck. destruct (Hi Hck) as [H1 H2]. cbn.
  split; [by rewrite (XactIsolationChecker.ss_num _ _ Hss)|by apply Hss].
Qed.

(** Operations that touch neither the control fields nor what the checkers
    and the profiler know keep the processor inside its transaction. *)
Lemma in_tx_ext w w' :
  in_tx w -> ctl w' = ctl w -> prof w' = prof w -> iso w' = iso w -> ichk w' = ichk w ->
  m_powered (cm w') = m_powered (cm w) ->
  m_hasConsumedValidData (fwd w') = m_hasConsumedValidData (fwd w) ->
  m_hasReceivedDataFromProducer (fwd w') = m_hasReceivedDataFromProducer (fwd w) ->
  isConsumer w' = isConsumer w ->
  in_tx w'.
Proof.
  intros [? ? ? ? ? ? Hi [Hv Hp] ? ? ?] Ec Ep Ei Ek Em E1 E2 Hc.
  assert (has_producer w' = has_producer w) as Hh by (unfold has_producer; by rewrite E2).
  assert (isAborting w' = isAborting w) as Ha by (unfold isAborting, inTransaction; by rewrite Ec).
  split; unfold prof_row, ichk_ok in *; rewrite ?Ec, ?Ep, ?Ei, ?Ek, ?Em, ?Hc; try done.
  split; rewrite ?E1, ?Hh, ?Hc, ?Ha; done.
Qed.

Lemma in_tx_frame w w' :
  in_tx w -> ctl w' = ctl w -> prof w' = prof w -> iso w' = iso w -> ichk w' = ichk w ->
  m_powered (cm w') = m_powered (cm w) ->
  m_hasConsumedValidData (fwd w') = m_hasConsumedValidData (fwd w) ->
  m_hasReceivedDataFromProducer (fwd w') = m_hasReceivedDataFromProducer (fwd w) ->
  m_recvDataForwardedFromProducer (fwd w') = m_recvDataForwardedFromProducer (fwd w) ->
  in_tx w'.
Proof.
  intros H ? ? ? ? ? ? ? E3. apply (in_tx_ext w); try done. unfold isConsumer. by rewrite E3.
Qed.

Lemma in_tx_isPowered w : in_tx w -> isPowered w = Ok (m_powered (cm w)).
Proof.
  intros H. unfold isPowered. destruct (m_powered (cm w)) eqn:Ep; [|done].
  by rewrite (it_power w H Ep).
Qed.

Lemma flag_raised_frame addr w w' : flag_raised addr w w' ->
  fwd w' = fwd w /\ cm w' = cm w /\ iso w' = iso w /\ lvm w' = lvm w /\ arb w' = arb w /\
  evm w' = evm w /\ st w' = st w /\ dcache w' = dcache w /\ vchk w' = vchk w /\
  m_version (ctl w') = m_version (ctl w).
Proof.
  intros (c' & p' & i' & r' & -> & (cause & capw & nontx & _ & ->) & _). done.
Qed.
End inside.

(** ** A concrete processor

    Four processors on lines of 64 bytes, all running a transaction, for the
    witnesses of the theorems. *)

Definition demo_env : Env := {|
  curTick := 50000;
  curCycle := 100;
  seq_isStalled := false;
  seq_packetUid := fun _ => Some 7;
  seq_makeRequest := fun _ => true;
  ticksToCycles := fun t => t / 500;
  uninit_bool := false;
  overflow_wraps := false;
  enableL0DowngradeOnL1Gets := true
|}.

(** Speculative state in the L1 cache and eager conflict detection, with a
    given policy. *)
Definition eager_lazy (policy : string) : Config :=
  default_params <| lazy_vm := true |> <| eager_cd := true |>
    <| conflict_resolution := policy |>.

Definition demo_row (region : AnnotatedRegion) : ProcRegions :=
  MkProcRegions zeroes region 90 90 true true zeroes.

Definition demo_prof (region : AnnotatedRegion) : XactProfiler :=
  MkXactProfiler (replicate 4 (demo_row region)) INVALID zeroes zeroes.

Definition demo_tx {C} (cache : C) (version timestamp : Z)
    (reads writes : gmap Z IsolationManager.LineState) : World C :=
  MkWorld
    ((Ctl_init version 0) <| m_transactionLevel := 1 |> <| m_currentHtmUid := 7 |>)
    Fwd_init
    (MkConflictManager timestamp false true 0 false false false 0 false false)
    (IsolationManager.MkIsolationManager reads writes ∅)
    (LazyVM.LazyVM_init 0 0) (CommitArbiter.Arbiter_init, HTM_init 0)
    (EagerVM.EagerVM_init 0) Stats_init cache (demo_prof TRANSACTIONAL)
    (XactIsolationChecker.MkXactIsolationChecker [] [] [])
    (XactValueChecker.XactValueChecker_init 4).

Lemma demo_in_tx `{RS : RubySystem} `{CF : Config} {C} `{DC : DataCache C} (cache : C)
    version timestamp reads writes :
  0 <= version < 4 -> isolation_checker params = false ->
  map_Forall (fun a st => is_line a /\ st = IsolationManager.RETIRED_LOAD) reads ->
  map_Forall (fun a st => is_line a /\ st = IsolationManager.RETIRED_STORE) writes ->
  in_tx (E := demo_env) (demo_tx cache version timestamp reads writes).
Proof.
  intros Hv Hc Hr Hw. split; try done; try (by cbn; lia).
  - exists (demo_row TRANSACTIONAL). split.
    + unfold prof_row. cbn [prof demo_tx demo_prof m_procs ctl Ctl_init m_version].
      apply lookup_replicate_2. cbn. lia.
    + split; [split; try done|done]. intros r Hreg. cbn [demo_row m_currentXactCyclesPerRegion].
      by destruct r.
  - split; cbn; try done.
    + intros a s Ha. by destruct (Hr a s Ha).
    + intros a s Ha. by destruct (Hr a s Ha) as [_ ->].
    + intros _ a s Ha. by destruct (Hr a s Ha).
    + intros a s Ha. by destruct (Hw a s Ha).
    + intros a s Ha. by destruct (Hw a s Ha).
  - intros Hk. congruence.
Qed.
