(* ===== verification/ConflictManager.v ===== *)
(** * Conflict management

    [mem/ruby/htm/TransactionConflictManager.cc]: the life cycle of the
    conflict manager of a core, the order of transactions by age, and the
    resolution of a conflict with a remote request: nack the request or raise
    the local abort flag. *)

From S2P Require Import Prelude Address HTM XactProfiler CacheMemory TxState.
From S2P Require IsolationManager LazyVM.

#[local] Open Scope Z_scope.

Section ops.
Context `{RS : RubySystem} `{CF : Config} `{E : Env} {C : Type} `{DC : DataCache C}.
Notation W := (World C).

(** ** Life cycle *)

Definition beginTransaction (power_mode : bool) : M W unit :=
  let* w := get in
  let transactionLevel := getTransactionLevel w in
  do* massert (1 <=? transactionLevel);
  do* when ((transactionLevel =? 1) && negb (m_lock_timestamp (cm w)))
        (on_cm (do* set! m_timestamp := curCycle;
                set! m_lock_timestamp := true));
  when power_mode
    (do* massert isPowerTMPolicy;
     on_cm (set! m_powered := true)).

Definition clearPossibleCycle : M ConflictManager unit := set! m_possible_cycle := false.
Definition setPossibleCycle : M ConflictManager unit := set! m_possible_cycle := true.

Definition commitTransaction : M W unit :=
  let* w := get in
  let transactionLevel := getTransactionLevel w in
  do* massert (1 <=? transactionLevel);
  do* massert (negb (m_doomed (cm w)));
  when (transactionLevel =? 1)
    (on_cm
       (do* set! m_lock_timestamp := false;
        do* set! m_numRetries := 0;
        do* set! m_powered := false;
        do* set! m_receivedNack := false;
        do* set! m_abortedByNack := false;
        clearPossibleCycle)).

Definition restartTransaction : M W unit :=
  on_cm
    (let* c := get in
     let* n := lift (signed (m_numRetries c + 1)) in
     do* set! m_numRetries := n;
     do* clearPossibleCycle;
     do* set! m_sentNack := false;
     do* set! m_receivedNack := false;
     do* set! m_abortedByNack := false;
     do* set! m_doomed := false;
     set! m_powered := false).

Definition setDoomed : M W unit := on_cm (set! m_doomed := true).

Definition getNackedPossibleCycleAddr (w : W) : res Z :=
  let? s := isRequesterStallsPolicy in
  let? _ := rassert s in
  let? _ := rassert (m_sentNack (cm w)) in
  Ok (m_sentNackAddr (cm w)).

(** ** Age *)

Definition getTimestamp (w : W) : res Z :=
  if 0 <? getTransactionLevel w then Ok (m_timestamp (cm w))
  else let? _ := rassert (0 <? curCycle) in Ok curCycle.

Definition getOldestTimestamp (w : W) : res Z :=
  let oldestTime :=
    if (0 <? getTransactionLevel w) && (m_timestamp (cm w) <? curCycle)
    then m_timestamp (cm w) else curCycle in
  let? _ := rassert (0 <? oldestTime) in
  Ok oldestTime.

Definition isRemoteOlder (local_timestamp remote_timestamp : Z) (remote_id : MachineID)
    (w : W) : res bool :=
  if local_timestamp =? remote_timestamp then
    let? _ := rassert (negb (getProcID w =? machineIDToNodeID remote_id)) in
    Ok (machineIDToNodeID remote_id <? getProcID w)
  else Ok (remote_timestamp <? local_timestamp).

(** The magic priority check at commit time, over all remote managers. *)
Definition hasHighestPriority (mgrs : list W) (w : W) : res bool :=
  let? local_ts := getOldestTimestamp w in
  allR (fun remote =>
    let? remote_ts := getOldestTimestamp remote in Ok (negb (remote_ts <? local_ts))) mgrs.

(** ** Who wins *)

(** The numeric case of [chooseWinnerPriority]. *)
Definition numeric_winner (local_priority : Z) (local_sw_prio consumer : bool)
    (remote_priority : Z) (remote_sw_priority : bool) : bool :=
  let shouldWin :=
    if isPowerTMPolicy then
      if Bool.eqb local_sw_prio remote_sw_priority then
        (negb consumer || (remote_priority <=? local_priority)) && negb remote_sw_priority
      else local_sw_prio
    else
      (config_allowEarlyValueFwd && negb consumer) ||
      (isPicPolicy && negb seq_isStalled) ||
      (remote_priority <? local_priority) in
  if NC_not_producer params then
    if (local_priority =? NC_PRIO_VALUE) && negb (local_priority =? remote_priority)
    then false else shouldWin
  else shouldWin.

Definition chooseWinnerPriority (remote_trans : TransactionBit) (remote_priority : Z)
    (remote_sw_priority : bool) (w : W) : res bool :=
  let local_priority := getTransactionPriority w in
  let? local_sw_prio := getSwTransactionPriority w in
  match prioMechanism with
  | numeric =>
      Ok (numeric_winner local_priority local_sw_prio (isConsumer w)
            remote_priority remote_sw_priority)
  | no_prio =>
      let? loses := isReqLosesPolicy in
      let? wins := isReqWinsPolicy in
      if isPowerTMPolicy then
        if loses then
          if remote_sw_priority then
            let? p := isPowered w in
            let? _ := rassert (negb p) in Ok false
          else Ok true
        else if wins then isPowered w
        else Err EPanic
      else if loses then Ok true
      else if wins then Ok false
      else Err EPanic
  end.

(** ** Sending and receiving nacks *)

Definition notifySendNack (addr remote_timestamp : Z) (remote_id : MachineID)
    (remote_priority : Z) (remote_sw_prio : bool) : M W unit :=
  let* stalls := lift isRequesterStallsPolicy in
  when stalls
    (if isPicPolicy then switchHwPrio remote_priority remote_sw_prio false
     else
       let* w := get in
       let* r := lift (checkReadSignature addr w) in
       let* x := if r then ret true else lift (checkWriteSignature addr w) in
       when x
         (let* ts := lift (getTimestamp w) in
          let* older := lift (isRemoteOlder ts remote_timestamp remote_id w) in
          when older
            (on_cm (do* set! m_sentNack := true;
                    do* set! m_sentNackAddr := addr;
                    setPossibleCycle)))).

(** What the requester-stalls policies answer, before the flags are set. *)
Definition stalls_shouldNack (addr : Z) (remote_id : MachineID) (remote_trans : TransactionBit)
    (remote_priority : Z) (sw_remote_priority : bool) : M W bool :=
  let* w := get in
  if isPicPolicy then
    if negb (isTransactionalRequest remote_trans) then ret false
    else lift (chooseWinnerPriority remote_trans remote_priority sw_remote_priority w)
  else if isUnrollingLog w then
    do* massert (negb (lazy_vm params)); ret true
  else if negb (isTransactionalRequest remote_trans) &&
          negb m_policy_nack_non_transactional then
    if negb (lazy_vm params) then
      do* setAbortFlag addr remote_id remote_trans remote_priority false no_flags;
      ret true
    else ret false
  else ret true.

Definition shouldNackRemoteRequest (addr : Z) (remote_id : MachineID) (remote_timestamp : Z)
    (remote_trans : TransactionBit) (remote_priority : Z) (sw_remote_priority remoteWriter : bool)
    : M W bool :=
  let* w := get in
  let* doomed := if isAborting w then ret true else lift (isDoomed w) in
  if doomed then ret false else
  do* massert (addr =? makeLineAddress addr);
  let* stalls := lift isRequesterStallsPolicy in
  let* shouldNack :=
    if stalls then
      stalls_shouldNack addr remote_id remote_trans remote_priority sw_remote_priority
    else if (m_policy =? Policy.committer_wins)%string then panic
    else if isTransactionalRequest remote_trans then
      lift (chooseWinnerPriority remote_trans remote_priority sw_remote_priority w)
    else ret false in
  do* (if negb shouldNack then
         setAbortFlag addr remote_id remote_trans remote_priority sw_remote_priority no_flags
       else notifySendNack addr remote_timestamp remote_id remote_priority sw_remote_priority);
  ret shouldNack.

Definition shouldNackLoad (addr : Z) (remote_id : MachineID) (remote_timestamp : Z)
    (remote_trans : TransactionBit) (remote_priority : Z) (remote_sw_priority : bool)
    : M W bool :=
  let* w := get in
  let* existConflict := lift (checkWriteSignature addr w) in
  if existConflict then
    do* massert (machineIDToMachineType remote_id =? MachineType_L1Cache);
    do* massert (0 <? remote_timestamp);
    shouldNackRemoteRequest addr remote_id remote_timestamp remote_trans remote_priority
      remote_sw_priority false
  else ret false.

(** The adjustment of the requester-stalls policies for stores. *)
Definition stalls_store (addr : Z) (remote_id : MachineID) (remote_timestamp : Z)
    (remote_trans : TransactionBit) (remote_priority : Z)
    (remote_sw_priority local_is_writer shouldNack : bool) : M W bool :=
  if isPicPolicy then ret shouldNack
  else if negb (isTransactionalRequest remote_trans) &&
          negb m_policy_nack_non_transactional then
    if negb (lazy_vm params) && local_is_writer then
      do* setAbortFlag addr remote_id remote_trans remote_priority remote_sw_priority no_flags;
      ret true
    else ret false
  else
    if (m_policy =? Policy.requester_stalls_cda_hybrid)%string && negb local_is_writer then
      let* w := get in
      let* ts := lift (getTimestamp w) in
      let* older := lift (isRemoteOlder ts remote_timestamp remote_id w) in
      ret (negb older)
    else ret true.

Definition shouldNackStore (addr : Z) (remote_id : MachineID) (remote_timestamp : Z)
    (remote_trans : TransactionBit) (remote_priority : Z)
    (remote_sw_priority local_is_exclusive : bool) : M W bool :=
  let* w := get in
  let* local_is_writer := lift (checkWriteSignature addr w) in
  let* existConflict := if local_is_writer then ret true else lift (checkReadSignature addr w) in
  if existConflict then
    if machineIDToMachineType remote_id =? MachineType_L2Cache then
      do* massert (remote_timestamp =? 0);
      do* when ((negb local_is_writer && negb (allow_read_set_l2_cache_evictions params)) ||
                (local_is_writer && negb (allow_write_set_l2_cache_evictions params)))
            (setAbortFlag addr remote_id remote_trans remote_priority remote_sw_priority no_flags);
      ret false
    else
      do* massert (machineIDToMachineType remote_id =? MachineType_L1Cache);
      do* massert (0 <? remote_timestamp);
      let* shouldNack := shouldNackRemoteRequest addr remote_id remote_timestamp remote_trans
                           remote_priority remote_sw_priority true in
      let* stalls := lift isRequesterStallsPolicy in
      if stalls then
        stalls_store addr remote_id remote_timestamp remote_trans remote_priority
          remote_sw_priority local_is_writer shouldNack
      else ret shouldNack
  else ret false.

(** The requester-stalls part of [notifyReceiveNack]; [false] is the early
    [return].  The priorities of two [setAbortFlag] calls are passed in the
    order of the source: the software flag as the priority, and a non-zero
    priority as the software flag. *)
Definition stalls_receiveNack (addr local_timestamp remote_timestamp : Z)
    (remote_trans : TransactionBit) (remote_priority : Z) (remote_sw_prio : bool)
    (remote_id : MachineID) (wasAborting : bool) : M W bool :=
  if isPicPolicy then
    do* unless wasAborting
          (let* illegal := isIllegalNack addr remote_id remote_priority remote_sw_prio in
           do* when illegal
                 (setAbortFlag addr remote_id remote_trans (Z.b2z remote_sw_prio)
                    (negb (remote_priority =? 0)) no_flags);
           switchHwPrio remote_priority remote_sw_prio true);
    ret true
  else
    let* w := get in
    let* older := if m_possible_cycle (cm w)
                  then lift (isRemoteOlder local_timestamp remote_timestamp remote_id w)
                  else ret false in
    if older then
      if isUnrollingLog w then
        do* massert (negb (lazy_vm params)); ret false
      else
        do* setAbortFlag (m_sentNackAddr (cm w)) remote_id remote_trans
              (Z.b2z remote_sw_prio) (negb (remote_priority =? 0)) no_flags;
        ret true
    else ret true.

Definition notifyReceiveNack (addr remote_timestamp : Z) (remote_trans : TransactionBit)
    (remote_priority : Z) (remote_sw_prio : bool) (remote_id : MachineID) (writer : bool)
    : M W unit :=
  let* w := get in
  if getTransactionLevel w =? 0 then ret tt else
  let* local_timestamp := lift (getTimestamp w) in
  do* on_cm (set! m_receivedNack := true);
  let wasAborting := isAborting w in
  let* stalls := lift isRequesterStallsPolicy in
  let* continue :=
    if stalls then stalls_receiveNack addr local_timestamp remote_timestamp remote_trans
                     remote_priority remote_sw_prio remote_id wasAborting
    else ret true in
  when continue
    (let* loses := lift isReqLosesPolicy in
     do* when (loses || isPowerTMPolicy)
           (setAbortFlag addr remote_id remote_trans remote_priority false no_flags);
     let* w' := get in
     when (negb wasAborting && isAborting w') (on_cm (set! m_abortedByNack := true))).
End ops.

(** ** Age is a total order *)

Section age.
Context `{RS : RubySystem} `{CF : Config} `{E : Env} {C : Type} `{DC : DataCache C}.
Notation W := (World C).

(** The identifier under which the L1 cache of a processor sends requests. *)
Definition requestor (w : W) : MachineID := MkMachineID MachineType_L1Cache (getProcID w).

(** [younger w p]: by timestamp, then by processor number, [p] is older. *)
Definition younger (w p : W) : Prop :=
  m_timestamp (cm p) < m_timestamp (cm w) \/
  (m_timestamp (cm p) = m_timestamp (cm w) /\ getProcID p < getProcID w).

Lemma isRemoteOlder_spec (w p : W) :
  getProcID w <> getProcID p ->
  exists b, isRemoteOlder (m_timestamp (cm w)) (m_timestamp (cm p)) (requestor p) w = Ok b /\
    (b = true <-> younger w p).
Proof.
  intros Hne. unfold isRemoteOlder, younger, machineIDToNodeID, requestor. cbn [mnum].
  destruct (Z.eqb_spec (m_timestamp (cm w)) (m_timestamp (cm p))) as [Ht|Ht].
  - rewrite (proj2 (Z.eqb_neq _ _) Hne). cbn [negb rassert rbind]. eexists. split; [done|].
    rewrite Z.ltb_lt. lia.
  - eexists. split; [done|]. rewrite Z.ltb_lt. lia.
Qed.

Lemma younger_trans (w p q : W) : younger w p -> younger p q -> younger w q.
Proof. unfold younger. lia. Qed.

Lemma younger_total (w p : W) : getProcID w <> getProcID p -> younger w p \/ younger p w.
Proof. unfold younger. lia. Qed.


(** Age is a strict total order.  Of two processors with different
    numbers, each computes who is older from its own timestamp and the
    timestamp and number in the message of the other; exactly one of them
    finds the other one older, and the relation is transitive. *)
Theorem isRemoteOlder_strict_order (w p q : W) :
  NoDup [getProcID w; getProcID p; getProcID q] ->
  let older x y := isRemoteOlder (m_timestamp (cm x)) (m_timestamp (cm y)) (requestor y) x in
  (exists b, older w p = Ok b /\ older p w = Ok (negb b)) /\
  (older w p = Ok true -> older p q = Ok true -> older w q = Ok true).
Proof.
  intros Hnd older. apply NoDup_cons in Hnd as [Hw Hnd]. apply NoDup_cons in Hnd as [Hp _].
  assert (getProcID w <> getProcID p /\ getProcID w <> getProcID q /\ getProcID p <> getProcID q)
    as (Hwp & Hwq & Hpq) by (set_solver).
  destruct (isRemoteOlder_spec w p Hwp) as (b1 & E1 & B1).
  destruct (isRemoteOlder_spec p w (not_eq_sym Hwp)) as (b2 & E2 & B2).
  destruct (isRemoteOlder_spec w q Hwq) as (b3 & E3 & B3).
  destruct (isRemoteOlder_spec p q Hpq) as (b4 & E4 & B4).
  unfold older. rewrite E1, E2, E3, E4. split.
  - exists b1. split; [done|]. f_equal. pose proof (younger_total w p Hwp).
    assert (~ (younger w p /\ younger p w)) by (unfold younger; lia).
    destruct b1, b2; cbn; naive_solver.
  - intros [= ->] [= ->]. f_equal. apply B3. eapply younger_trans; [by apply B1|by apply B4].
Qed.
End age.

(** ** Resolution of one conflict *)

Section resolution.
Context `{RS : RubySystem} `{CF : Config} `{E : Env} {C : Type} `{DC : DataCache C}.
Notation W := (World C).
Implicit Types w : W.

(** Eager conflict detection, with either version management, a policy the
    code knows, and PiC only with numeric priorities and without forwarding. *)
Record eager_config : Prop := {
  ec_cd : eager_cd params = true;
  ec_policy : policy_defined;
  ec_pic : isPicPolicy = true -> fwd_is no_fwd = true /\ prioMechanism = numeric
}.

(** A request for a line by the L1 cache of another processor; two power
    transactions do not meet. *)
Record remote_ok (w : W) (addr : Z) (id : MachineID) (ts prio : Z) (sw : bool) : Prop := {
  ro_type : machineIDToMachineType id = MachineType_L1Cache;
  ro_node : machineIDToNodeID id <> getProcID w;
  ro_line : addr = makeLineAddress addr;
  ro_addr : addr <> 0;
  ro_ts : 0 < ts;
  ro_prio : INT_MIN <= prio < INT_MAX;
  ro_power : sw = true -> m_powered (cm w) = false
}.

(** The request was nacked: the transaction goes on, with at most its
    priority and the notes on possible cycles changed. *)
Definition nack_sent (w w' : W) : Prop :=
  exists p c, w' = w <| fwd := (fwd w) <| m_hwTransPrio := p |> |> <| cm := c |> /\
    m_powered c = m_powered (cm w) /\ m_timestamp c = m_timestamp (cm w).

(** A conflict ends with a nack or with the local abort flag. *)
Definition resolved (addr : Z) (b : bool) (w w' : W) : Prop :=
  if b then nack_sent w w' else flag_raised addr w w'.

Lemma nack_sent_in_tx w w' :
  in_tx w -> nack_sent w w' -> in_tx w' /\ m_abortFlag (ctl w') = m_abortFlag (ctl w).
Proof.
  intros H (p & c & -> & Hp & _). split; [|done]. by apply (in_tx_frame w).
Qed.

Lemma nack_sent_refl w : nack_sent w w.
Proof. exists (m_hwTransPrio (fwd w)), (cm w). split; [|done]. by destruct w as [? []]. Qed.

Lemma resolved_in_tx addr b w w' :
  in_tx w -> m_abortFlag (ctl w) = false -> resolved addr b w w' ->
  in_tx w' /\ m_abortFlag (ctl w') = negb b.
Proof.
  intros H Hf. destruct b; cbn.
  - intros Hn. destruct (nack_sent_in_tx w w' H Hn) as [? ->]. done.
  - intros Hr. by destruct (flag_raised_in_tx addr w w' H Hr) as (? & ? & _).
Qed.

Lemma remote_source w addr id ts prio sw :
  remote_ok w addr id ts prio sw -> source_ok w addr id sw no_flags.
Proof.
  intros [? ? Hl ? ? ? ?]. unfold source_ok. destruct sw; [by left|]. right; right; right.
  rewrite <- Hl. done.
Qed.

Lemma default_policy_ok p :
  policy_defined -> default_policy_is p = Ok (bool_decide (m_default_policy = p)).
Proof.
  intros Hp. unfold default_policy_is. by rewrite (bool_decide_eq_false_2 _ Hp).
Qed.

Lemma power_policy_kind :
  isPowerTMPolicy = true ->
  (m_default_policy = RequesterWins \/ m_default_policy = RequesterLoses) /\
  isPicPolicy = false.
Proof.
  unfold isPowerTMPolicy, isPicPolicy, m_default_policy, m_policy, getResolutionPolicy.
  intros [Hp|Hp]%orb_true_iff; apply String.eqb_eq in Hp as ->; cbn; auto.
Qed.

Lemma pic_policy_kind : isPicPolicy = true -> m_default_policy = RequesterStalls.
Proof.
  unfold isPicPolicy, m_default_policy, m_policy, getResolutionPolicy.
  intros Hp%String.eqb_eq. by rewrite Hp.
Qed.

Lemma committer_policy_undefined :
  policy_defined -> (m_policy =? Policy.committer_wins)%string = false.
Proof.
  intros Hp. destruct (String.eqb_spec m_policy Policy.committer_wins) as [He|]; [|done].
  exfalso. apply Hp. unfold m_default_policy, getResolutionPolicy, m_policy in *. by rewrite He.
Qed.

Lemma default_policy_cases :
  policy_defined -> m_default_policy <> RequesterStalls ->
  m_default_policy = RequesterWins \/ m_default_policy = RequesterLoses.
Proof.
  unfold policy_defined, m_default_policy, getResolutionPolicy.
  repeat (destruct (starts_with _ _)); auto; done.
Qed.

Lemma chooseWinner_ok (w : W) t prio sw :
  eager_config -> in_tx w -> (sw = true -> m_powered (cm w) = false) ->
  m_default_policy <> RequesterStalls \/ isPicPolicy = true ->
  exists b, chooseWinnerPriority t prio sw w = Ok b /\
    (isPicPolicy = true -> b = true ->
       seq_isStalled = false \/ prio < m_hwTransPrio (fwd w)).
Proof.
  intros [Hcd Hpol Hpic] H Hsw Hs.
  unfold chooseWinnerPriority, getSwTransactionPriority, isPowerMode, getTransactionPriority.
  rewrite (in_tx_isPowered w H). cbn [rbind].
  destruct prioMechanism eqn:Em.
  - unfold isReqLosesPolicy, isReqWinsPolicy. rewrite !default_policy_ok by done. cbn [rbind].
    destruct isPicPolicy eqn:Ep; [by destruct (Hpic eq_refl)|].
    destruct Hs as [Hs|]; [|done].
    destruct (default_policy_cases Hpol Hs) as [-> | ->]; destruct isPowerTMPolicy; cbn;
      rewrite ?(in_tx_isPowered w H), ?bool_decide_eq_true_2 by done;
      try (eexists; split; [reflexivity|by intros ?]).
    destruct sw; cbn; [rewrite Hsw by done|]; (eexists; split; [reflexivity|by intros ?]).
  - eexists. split; [done|]. intros Ep. destruct (Hpic Ep) as [Hf _]. unfold numeric_winner.
    assert (isPowerTMPolicy = false) as ->.
    { destruct isPowerTMPolicy eqn:Epw; [|done].
      destruct (power_policy_kind Epw) as [_ ?]. congruence. }
    unfold config_allowEarlyValueFwd. rewrite Hf, Ep. cbn [negb andb orb].
    intros Hw. assert (negb seq_isStalled || (prio <? m_hwTransPrio (fwd w)) = true) as Hw'.
    { destruct (NC_not_producer params); [|done]. by destruct (_ && _) in Hw. }
    apply orb_true_iff in Hw' as [Hn|Hl]; [left|right].
    + by apply negb_true_iff in Hn.
    + by apply Z.ltb_lt in Hl.
Qed.

(** Nacking sets the notes that the deadlock avoidance needs. *)
Definition cycle_noted (addr ts : Z) (id : MachineID) (w w' : W) : Prop :=
  isRemoteOlder (m_timestamp (cm w)) ts id w = Ok true ->
  m_possible_cycle (cm w') = true /\ m_sentNackAddr (cm w') = addr.

Lemma in_tx_timestamp w : in_tx w -> getTimestamp w = Ok (m_timestamp (cm w)).
Proof. intros H. unfold getTimestamp. by rewrite (in_tx_level w H). Qed.

Lemma isRemoteOlder_ok w ts ts' id :
  machineIDToNodeID id <> getProcID w -> exists b, isRemoteOlder ts ts' id w = Ok b.
Proof.
  intros Hn. unfold isRemoteOlder.
  rewrite (proj2 (Z.eqb_neq (getProcID w) _)) by congruence.
  destruct (ts =? ts'); eauto.
Qed.

Lemma switch_on_send_ok w prio sw :
  eager_config -> in_tx w -> isPicPolicy = true -> INT_MIN <= prio < INT_MAX ->
  seq_isStalled = false \/ prio < m_hwTransPrio (fwd w) ->
  exists p, switchHwPrio prio sw false w =
    Ok (tt, w <| fwd := (fwd w) <| m_hwTransPrio := p |> |>).
Proof.
  intros Hec H Hpic Hprio Hw. destruct (ec_pic Hec Hpic) as [Hf Hnum].
  assert (m_powered (cm w) = false) as Hpw.
  { destruct (m_powered (cm w)) eqn:Ep; [|done].
    destruct (power_policy_kind (it_power w H Ep)) as [_ ?]. congruence. }
  unfold switchHwPrio, prio_is. rewrite Hnum, Hpic. cbn [bool_decide orb].
  rewrite bool_decide_eq_false_2 by done. unfold bind, massert, get.
  unfold getSwTransactionPriority, isPowerMode. rewrite (in_tx_isPowered w H), Hpw.
  enough (exists p, prio_after_send (m_hwTransPrio (fwd w)) (Ok false) seq_isStalled
                      (isConsumer w) prio = Ok p) as [p ->] by (exists p; done).
  unfold prio_after_send, config_allowEarlyValueFwd. rewrite Hf, Hpic, (it_fwd w H Hf).
  cbn [rbind negb andb orb]. rewrite orb_false_r.
  destruct seq_isStalled; cbn [negb andb orb]; [by eexists|].
  destruct (prio =? NC_PRIO_VALUE); [by eexists|]. cbn [rassert rbind].
  destruct (prio <? m_hwTransPrio (fwd w)); [by eexists|].
  exists (prio + 1). apply signed_ok. lia.
Qed.

Lemma notifySendNack_ok w addr ts id prio sw :
  eager_config -> in_tx w -> remote_ok w addr id ts prio sw ->
  (isPicPolicy = true -> seq_isStalled = false \/ prio < m_hwTransPrio (fwd w)) ->
  exists w', notifySendNack addr ts id prio sw w = Ok (tt, w') /\ nack_sent w w' /\
    (m_default_policy = RequesterStalls -> isPicPolicy = false ->
     has addr (IsolationManager.m_readSet (iso w)) ||
     has addr (IsolationManager.m_writeSet (iso w)) = true ->
     cycle_noted addr ts id w w').
Proof.
  intros Hec H Hr Hw. unfold notifySendNack, isRequesterStallsPolicy.
  rewrite default_policy_ok by apply Hec. unfold bind at 1. cbn [lift].
  destruct (decide (m_default_policy = RequesterStalls)) as [Hst|Hst].
  2:{ rewrite bool_decide_eq_false_2 by done. exists w. split; [done|].
      split; [apply nack_sent_refl|done]. }
  rewrite bool_decide_eq_true_2 by done. cbn [when].
  destruct isPicPolicy eqn:Ep.
  { destruct (switch_on_send_ok w prio sw Hec H Ep) as [p Hp]; [apply Hr|by apply Hw|].
    exists (w <| fwd := (fwd w) <| m_hwTransPrio := p |> |>). split; [done|].
    split; [|done]. exists p, (cm w). split; [by destruct w|done]. }
  unfold bind, get, lift, ret.
  rewrite checkReadSignature_ok, checkWriteSignature_ok, in_tx_timestamp by done.
  rewrite <- (ro_line _ _ _ _ _ _ Hr).
  destruct (isRemoteOlder_ok w (m_timestamp (cm w)) ts id) as [b Hb]; [apply Hr|].
  unfold cycle_noted.
  destruct (has addr (IsolationManager.m_readSet (iso w))),
    (has addr (IsolationManager.m_writeSet (iso w))); cbn [orb when];
    rewrite ?Hb; destruct b; cbn;
    (eexists; split; [done|]; split; [|done]); try apply nack_sent_refl.
  all: eexists (m_hwTransPrio (fwd w)), _; split; [by destruct w as [? []]|done].
Qed.

(** The requests that LogTM both nacks and lets abort the owner: those of
    non-transactional code under the plain requester-stalls policies. *)
Definition nack_and_abort (t : TransactionBit) : bool :=
  negb (lazy_vm params) && bool_decide (m_default_policy = RequesterStalls) &&
  negb isPicPolicy && negb (isTransactionalRequest t) && negb m_policy_nack_non_transactional.

Lemma in_tx_unrolling w : in_tx w -> isUnrollingLog w = false.
Proof. intros H. unfold isUnrollingLog. rewrite (it_unroll w H). by destruct (lazy_vm params). Qed.

(** What the requester-stalls policies decide for the other requests. *)
Lemma stalls_shouldNack_ok w addr id t prio sw :
  eager_config -> in_tx w -> (sw = true -> m_powered (cm w) = false) ->
  m_default_policy = RequesterStalls -> nack_and_abort t = false ->
  exists b, stalls_shouldNack addr id t prio sw w = Ok (b, w) /\
    (isPicPolicy = true -> b = true ->
       seq_isStalled = false \/ prio < m_hwTransPrio (fwd w)) /\
    (isPicPolicy = false -> t = Trans -> b = true).
Proof.
  intros Hec H Hsw Hst Hna. unfold stalls_shouldNack, bind, get.
  unfold nack_and_abort in Hna. rewrite bool_decide_eq_true_2 in Hna by done.
  destruct isPicPolicy eqn:Ep.
  - destruct t; cbn [isTransactionalRequest negb].
    + by exists false.
    + destruct (chooseWinner_ok w Trans prio sw Hec H Hsw (or_intror Ep)) as (b & Hb & Hpic).
      exists b. unfold lift. rewrite Hb. split; [done|]. split; [|done].
      intros _. by apply Hpic.
  - rewrite (in_tx_unrolling w H).
    destruct t; cbn [isTransactionalRequest negb andb] in *; [|by exists true].
    destruct m_policy_nack_non_transactional; cbn [negb andb]; [by exists true|].
    destruct (lazy_vm params); [by exists false|done].
Qed.

Lemma shouldNackRemote_resolves w addr id ts t prio sw wr :
  eager_config -> in_tx w -> m_abortFlag (ctl w) = false -> remote_ok w addr id ts prio sw ->
  nack_and_abort t = false ->
  exists b w', shouldNackRemoteRequest addr id ts t prio sw wr w = Ok (b, w') /\
    resolved addr b w w' /\
    (m_default_policy = RequesterStalls -> isPicPolicy = false -> t = Trans ->
     b = true /\
     (has addr (IsolationManager.m_readSet (iso w)) ||
      has addr (IsolationManager.m_writeSet (iso w)) = true -> cycle_noted addr ts id w w')) /\
    (m_default_policy <> RequesterStalls -> t = Trans ->
     chooseWinnerPriority t prio sw w = Ok b) /\
    (b = false -> choose_abort_cause w id t sw no_flags
      ((ctl w) <| m_abortFlag := true |> <| m_abortAddress := makeLineAddress addr |>)
      = Ok (tt, ctl w')).
Proof.
  intros Hec H Hf Hr Hna.
  assert (exists b, (if bool_decide (m_default_policy = RequesterStalls) then
      stalls_shouldNack addr id t prio sw
    else if (m_policy =? Policy.committer_wins)%string then panic
    else if isTransactionalRequest t then lift (chooseWinnerPriority t prio sw w)
    else ret false) w = Ok (b, w) /\
    (isPicPolicy = true -> b = true ->
       seq_isStalled = false \/ prio < m_hwTransPrio (fwd w)) /\
    (m_default_policy = RequesterStalls -> isPicPolicy = false -> t = Trans -> b = true) /\
    (m_default_policy <> RequesterStalls -> t = Trans ->
     chooseWinnerPriority t prio sw w = Ok b))
    as (b & Hb & Hpic & Hst & Hcw).
  { destruct (decide (m_default_policy = RequesterStalls)) as [Hs|Hs].
    - rewrite bool_decide_eq_true_2 by done.
      destruct (stalls_shouldNack_ok w addr id t prio sw Hec H) as (b & Hb & H1 & H2);
        [apply Hr|done|done|]. exists b. split; [done|]. split; [done|]. split; [|done].
      intros _. by apply H2.
    - rewrite bool_decide_eq_false_2 by done.
      rewrite committer_policy_undefined by apply Hec.
      assert (isPicPolicy = false) as Hnp.
      { destruct isPicPolicy eqn:Ep; [|done]. by apply pic_policy_kind in Ep. }
      destruct t; cbn [isTransactionalRequest].
      + by exists false.
      + destruct (chooseWinner_ok w Trans prio sw Hec H) as (b & Hb & _);
          [apply Hr|by left|]. exists b. unfold lift. rewrite Hb, Hnp.
        by split; [|split; [|split]]. }
  unfold shouldNackRemoteRequest, isRequesterStallsPolicy. unfold bind at 1. cbn [get].
  rewrite (in_tx_aborting w H), Hf, (in_tx_doomed w H), Hf.
  unfold bind at 1. cbn [lift]. rewrite default_policy_ok by apply Hec.
  rewrite <- (ro_line _ _ _ _ _ _ Hr), Z.eqb_refl. unfold bind at 1 2. cbn [massert lift].
  unfold bind at 1. rewrite Hb. unfold bind at 1. destruct b; cbn [negb].
  - destruct (notifySendNack_ok w addr ts id prio sw Hec H Hr) as (w' & -> & Hn & Hcy).
    { intros Ep. by apply Hpic. }
    exists true, w'. split; [done|]. split; [done|]. split; [|done]. intros Hs Hnp Ht.
    split; [done|]. intros Hin. by apply Hcy.
  - destruct (setAbortFlag_raises w addr id t prio sw no_flags) as (w' & -> & Hraise & Hcause).
    { apply Hec. } { done. } { done. } { by eapply remote_source. }
    rewrite <- (ro_line _ _ _ _ _ _ Hr) in Hcause.
    exists false, w'. split; [done|]. split; [done|]. split; [|done]. intros Hs Hnp Ht.
    by specialize (Hst Hs Hnp Ht).
Qed.

Lemma remote_ok_frame w w' addr id ts prio sw sw' :
  remote_ok w addr id ts prio sw -> getProcID w' = getProcID w ->
  (sw' = true -> m_powered (cm w') = false) -> remote_ok w' addr id ts prio sw'.
Proof. intros [] Hp Hpw. split; [..|exact Hpw]; rewrite ?Hp; done. Qed.

(** The nack of LogTM that also raises the abort flag. *)
Lemma shouldNackRemote_both w addr id ts t prio sw wr :
  eager_config -> in_tx w -> m_abortFlag (ctl w) = false -> remote_ok w addr id ts prio sw ->
  nack_and_abort t = true ->
  exists w1 w', shouldNackRemoteRequest addr id ts t prio sw wr w = Ok (true, w') /\
    flag_raised addr w w1 /\ nack_sent w1 w'.
Proof.
  intros Hec H Hf Hr Hna. unfold nack_and_abort in Hna.
  rewrite !andb_true_iff, !negb_true_iff in Hna.
  destruct Hna as ((((Hvm & Hst) & Hnp) & Ht) & Hnn).
  destruct (setAbortFlag_raises w addr id t prio false no_flags) as (w1 & Hw1 & Hraise & _);
    [apply Hec|done|done|by eapply remote_source, (remote_ok_frame w)|].
  destruct (flag_raised_in_tx addr w w1 H Hraise) as (H1 & _ & _).
  destruct (flag_raised_frame addr w w1 Hraise) as (_ & Hcm & _ & _ & _ & _ & _ & _ & _ & Hid).
  destruct (notifySendNack_ok w1 addr ts id prio sw Hec H1) as (w' & Hw' & Hn & _).
  { apply (remote_ok_frame w w1 addr id ts prio sw); [done|done|]. rewrite Hcm. apply Hr. }
  { by rewrite Hnp. }
  exists w1, w'. split; [|done].
  unfold shouldNackRemoteRequest, isRequesterStallsPolicy, stalls_shouldNack. unfold bind at 1.
  cbn [get]. rewrite (in_tx_aborting w H), Hf, (in_tx_doomed w H), Hf.
  unfold bind at 1. cbn [lift]. rewrite default_policy_ok by apply Hec.
  rewrite <- (ro_line _ _ _ _ _ _ Hr), Z.eqb_refl. unfold bind at 1 2. cbn [massert lift].
  rewrite Hst, Hnp. unfold bind at 1 2. cbn [get].
  rewrite (in_tx_unrolling w H), Ht, Hnn, Hvm. cbn [negb andb].
  unfold bind at 1. rewrite Hw1. cbn [ret negb]. unfold bind. by rewrite Hw'.
Qed.

Lemma shouldNackRemote_aborting w addr id ts t prio sw wr :
  in_tx w -> m_abortFlag (ctl w) = true ->
  shouldNackRemoteRequest addr id ts t prio sw wr w = Ok (false, w).
Proof.
  intros H Hf. unfold shouldNackRemoteRequest, bind, get. by rewrite (in_tx_aborting w H), Hf.
Qed.

(** ** Loads and stores of remote processors *)

Definition written (w : W) (a : Z) : bool := has a (IsolationManager.m_writeSet (iso w)).
Definition accessed (w : W) (a : Z) : bool :=
  written w a || has a (IsolationManager.m_readSet (iso w)).

(** C9: A remote load meets a transaction, in a system with eager conflict detection, with
    either version management and any policy the code knows (PiC with numeric priorities and
    without forwarding). If the line is in the write set of a transaction that is not aborting,
    the conflict is resolved: either the load is nacked and the transaction goes on, or the load
    is served and the abort flag is raised, with a cause. The one case with both is LogTM under
    a plain requester-stalls policy that does not nack non-transactional code: there a
    non-transactional load is nacked and the flag is raised. In all other cases (no conflict, or
    already aborting) the load is served and nothing changes. No assertion fails, and the
    processor stays in a consistent transactional state. The transaction does not nest and does
    not unroll its log yet; the request is for a line other than line zero, comes from another
    L1 cache with a positive timestamp and a priority below the largest [int], and is not in
    power mode if the transaction is. *)
Theorem shouldNackLoad_exact w addr id ts t prio sw :
  eager_config -> in_tx w -> remote_ok w addr id ts prio sw ->
  exists b w', shouldNackLoad addr id ts t prio sw w = Ok (b, w') /\ in_tx w' /\
    if written w addr && negb (m_abortFlag (ctl w)) then
      (if nack_and_abort t
       then b = true /\ exists w1, flag_raised addr w w1 /\ nack_sent w1 w'
       else resolved addr b w w') /\
      m_abortFlag (ctl w') = negb b || nack_and_abort t /\
      (m_abortFlag (ctl w') = true -> m_abortCause (ctl w') <> Undefined)
    else b = false /\ w' = w.
Proof.
  intros Hec H Hr. unfold shouldNackLoad, bind, get, lift.
  rewrite checkWriteSignature_ok by done. rewrite <- (ro_line _ _ _ _ _ _ Hr).
  fold (written w addr). destruct (written w addr); [|by exists false, w].
  rewrite (ro_type _ _ _ _ _ _ Hr), (proj2 (Z.ltb_lt 0 ts) (ro_ts _ _ _ _ _ _ Hr)).
  change (MachineType_L1Cache =? MachineType_L1Cache) with true. cbn [massert].
  destruct (m_abortFlag (ctl w)) eqn:Hf; cbn [negb andb].
  { exists false, w. by rewrite (shouldNackRemote_aborting w) by done. }
  destruct (nack_and_abort t) eqn:Hna.
  - destruct (shouldNackRemote_both w addr id ts t prio sw false Hec H Hf Hr Hna)
      as (w1 & w' & -> & Hraise & Hn).
    destruct (flag_raised_in_tx addr w w1 H Hraise) as (H1 & Hf1 & Hc1).
    destruct (nack_sent_in_tx w1 w' H1 Hn) as [H' Hf'].
    exists true, w'. do 2 (split; [done|]). split; [split; [done|by exists w1]|].
    split; [by rewrite Hf', Hf1|]. by destruct Hn as (? & ? & -> & _).
  - destruct (shouldNackRemote_resolves w addr id ts t prio sw false Hec H Hf Hr Hna)
      as (b & w' & -> & Hres & _).
    destruct (resolved_in_tx addr b w w' H Hf Hres) as [Ht Hfl].
    exists b, w'. rewrite orb_false_r, Hfl. do 4 (split; [done|]). intros Hb%negb_true_iff.
    rewrite Hb in Hres. by destruct (flag_raised_in_tx addr w w' H Hres) as (_ & _ & ?).
Qed.

(** C10: A remote store of another L1 cache meets a transaction, with eager conflict detection
    and either version management, under every policy but the plain requester-stalls ones (PiC
    with numeric priorities and without forwarding); two power transactions do not meet. The
    line conflicts when it is in the read or the write set, and the conflict is resolved exactly
    once: either the store is nacked and the transaction goes on, or it is served and the abort
    flag is raised, with a cause. In all other cases the store is served and nothing changes. *)
Theorem shouldNackStore_exact w addr id ts t prio sw excl :
  eager_config -> m_default_policy <> RequesterStalls \/ isPicPolicy = true ->
  in_tx w -> remote_ok w addr id ts prio sw ->
  exists b w', shouldNackStore addr id ts t prio sw excl w = Ok (b, w') /\ in_tx w' /\
    if accessed w addr && negb (m_abortFlag (ctl w))
    then resolved addr b w w' /\ m_abortFlag (ctl w') = negb b /\
         (b = false -> m_abortCause (ctl w') <> Undefined)
    else b = false /\ w' = w.
Proof.
  intros Hec Hns H Hr. unfold shouldNackStore. unfold bind at 1. cbn [get].
  unfold bind at 1, lift at 1. rewrite checkWriteSignature_ok by done.
  rewrite <- (ro_line _ _ _ _ _ _ Hr). fold (written w addr).
  unfold bind at 1. replace ((if written w addr then ret true else lift (checkReadSignature addr w)) w)
    with (Ok (accessed w addr, w)).
  2:{ unfold accessed. destruct (written w addr); [done|]. unfold lift.
      rewrite checkReadSignature_ok by done. by rewrite <- (ro_line _ _ _ _ _ _ Hr). }
  destruct (accessed w addr); [|by exists false, w].
  rewrite (ro_type _ _ _ _ _ _ Hr), (proj2 (Z.ltb_lt 0 ts) (ro_ts _ _ _ _ _ _ Hr)).
  change (MachineType_L1Cache =? MachineType_L2Cache) with false.
  change (MachineType_L1Cache =? MachineType_L1Cache) with true.
  run.
  assert (forall b w', (let* stalls := lift isRequesterStallsPolicy in
    if stalls then stalls_store addr id ts t prio sw (written w addr) b else ret b) w'
    = Ok (b, w')) as Hend.
  { intros b w'. unfold isRequesterStallsPolicy. rewrite default_policy_ok by apply Hec.
    unfold bind. cbn [lift]. destruct Hns as [Hns|Hpic].
    - by rewrite bool_decide_eq_false_2.
    - unfold stalls_store. rewrite Hpic. by destruct (bool_decide _). }
  destruct (m_abortFlag (ctl w)) eqn:Hf; cbn [negb andb].
  { exists false, w. rewrite (bind_run _ _ _ _ _ (shouldNackRemote_aborting w _ _ _ _ _ _ _ H Hf)).
    by rewrite Hend. }
  assert (nack_and_abort t = false) as Hna.
  { unfold nack_and_abort. destruct Hns as [Hns| ->]; [|by rewrite andb_false_r].
    by rewrite (bool_decide_eq_false_2 _ Hns), andb_false_r. }
  destruct (shouldNackRemote_resolves w addr id ts t prio sw true Hec H Hf Hr Hna)
    as (b & w' & Hb & Hres & _).
  destruct (resolved_in_tx addr b w w' H Hf Hres) as [Ht Hfl].
  exists b, w'. rewrite (bind_run _ _ _ _ _ Hb), Hend. do 4 (split; [done|]). intros ->.
  by destruct (flag_raised_in_tx addr w w' H Hres) as (_ & _ & ?).
Qed.

(** The shared cache evicts a line: the request is never nacked, and the
    transaction is aborted for capacity exactly when it uses the line in a way
    whose eviction the configuration does not allow; a transaction that is
    already aborting keeps its first cause. *)
Theorem l2_eviction_exact w addr id prio t excl :
  eager_cd params = true -> in_tx w -> addr = makeLineAddress addr ->
  machineIDToMachineType id = MachineType_L2Cache ->
  exists w', shouldNackStore addr id 0 t prio false excl w = Ok (false, w') /\ in_tx w' /\
    let evicted :=
      if written w addr then negb (allow_write_set_l2_cache_evictions params)
      else accessed w addr && negb (allow_read_set_l2_cache_evictions params) in
    m_abortFlag (ctl w') = m_abortFlag (ctl w) || evicted /\
    m_abortCause (ctl w') =
      if evicted && negb (m_abortFlag (ctl w)) then L2Capacity else m_abortCause (ctl w).
Proof.
  intros Hcd H Hl Hty. unfold shouldNackStore. unfold bind at 1. cbn [get].
  unfold bind at 1, lift at 1. rewrite checkWriteSignature_ok by done.
  rewrite <- Hl. fold (written w addr).
  unfold bind at 1. replace ((if written w addr then ret true else lift (checkReadSignature addr w)) w)
    with (Ok (accessed w addr, w)).
  2:{ unfold accessed. destruct (written w addr); [done|]. unfold lift.
      rewrite checkReadSignature_ok by done. by rewrite <- Hl. }
  destruct (accessed w addr) eqn:Ha.
  2:{ unfold accessed in Ha. apply orb_false_iff in Ha as [-> _].
      exists w. split; [done|]. split; [done|]. by rewrite orb_false_r. }
  rewrite Hty. change (MachineType_L2Cache =? MachineType_L2Cache) with true.
  unfold bind at 1. cbn [massert andb Z.eqb].
  set (ev := if written w addr then negb (allow_write_set_l2_cache_evictions params)
             else negb (allow_read_set_l2_cache_evictions params)).
  replace (negb (written w addr) && negb (allow_read_set_l2_cache_evictions params) ||
           written w addr && negb (allow_write_set_l2_cache_evictions params)) with ev
    by (unfold ev; destruct (written w addr); cbn; by rewrite ?orb_false_r).
  unfold bind at 1. destruct ev; cbn [when].
  2:{ exists w. split; [done|]. split; [done|]. by rewrite orb_false_r. }
  destruct (m_abortFlag (ctl w)) eqn:Hf; cbn [negb andb orb].
  { destruct (setAbortFlag_again w addr id t prio false no_flags H Hf) as (i' & -> & Hs).
    eexists. split; [done|]. split; [by apply in_tx_ichk|]. done. }
  destruct (setAbortFlag_raises w addr id t prio false no_flags Hcd H Hf) as (w' & Hw & Hr & Hc).
  { right; left. done. }
  exists w'. rewrite Hw. split; [done|].
  destruct (flag_raised_in_tx addr w w' H Hr) as (? & ? & ?). split; [done|]. split; [done|].
  unfold choose_abort_cause in Hc. rewrite Hty in Hc. cbn [no_flags af_validation
    af_specDepthOverflow af_specMaxCapacityOverflow af_specWriteInFlight af_specReadConflict
    af_dataStale Z.eqb negb] in Hc. rewrite andb_false_r in Hc. by injection Hc as <-.
Qed.

Lemma nack_and_abort_trans : nack_and_abort Trans = false.
Proof. unfold nack_and_abort. cbn. by rewrite andb_false_r. Qed.

(** With the numeric priorities the option [NC_not_producer] takes
    precedence over the software priority of a power transaction: an owner
    without a numeric priority loses against a requester that has one. *)
Definition nc_owner_loses (prio : Z) (w : W) : bool :=
  prio_is numeric && NC_not_producer params &&
  (getTransactionPriority w =? NC_PRIO_VALUE) && negb (getTransactionPriority w =? prio).

Lemma power_winner w prio :
  eager_config -> isPowerTMPolicy = true -> in_tx w ->
  chooseWinnerPriority Trans prio (negb (m_powered (cm w))) w =
    Ok (m_powered (cm w) && negb (nc_owner_loses prio w)).
Proof.
  intros Hec Hp H. destruct (power_policy_kind Hp) as [Hk _].
  unfold chooseWinnerPriority, getSwTransactionPriority, isPowerMode, nc_owner_loses, prio_is.
  rewrite (in_tx_isPowered w H). cbn [rbind]. destruct prioMechanism.
  - unfold isReqLosesPolicy, isReqWinsPolicy. rewrite !default_policy_ok by apply Hec.
    cbn [rbind]. rewrite Hp, (bool_decide_eq_false_2 (no_prio = numeric)) by done. cbn [andb negb].
    destruct Hk as [-> | ->], (m_powered (cm w));
      rewrite ?bool_decide_eq_true_2 by done; done.
  - rewrite bool_decide_eq_true_2 by done. unfold numeric_winner. rewrite Hp.
    destruct (m_powered (cm w)), (NC_not_producer params); cbn [Bool.eqb negb andb]; try done;
      by destruct (_ && _).
Qed.

(** C33: Power transactions win.  A load of a transaction meets another one that is not
    aborting, on a line of its write set, under the power policies, and exactly one of the two
    is in power mode (at most one processor has the power flag).  In power mode the requester's
    load aborts the owner, which records a power conflict as the cause.  In power mode the owner
    nacks the load, with one exception: with numeric priorities and the option
    [NC_not_producer], an owner without a priority loses against a requester with one. *)
Theorem power_transaction_wins w addr id ts prio :
  eager_config -> isPowerTMPolicy = true ->
  in_tx w -> m_abortFlag (ctl w) = false -> written w addr = true ->
  remote_ok w addr id ts prio (negb (m_powered (cm w))) ->
  let wins := m_powered (cm w) && negb (nc_owner_loses prio w) in
  exists w', shouldNackLoad addr id ts Trans prio (negb (m_powered (cm w))) w = Ok (wins, w') /\
    m_abortFlag (ctl w') = negb wins /\
    (m_powered (cm w) = false -> m_abortCause (ctl w') = ConflictPower).
Proof.
  intros Hec Hp H Hf Hw Hr wins. unfold shouldNackLoad, bind, get, lift.
  rewrite checkWriteSignature_ok by done. rewrite <- (ro_line _ _ _ _ _ _ Hr).
  fold (written w addr). rewrite Hw, (ro_type _ _ _ _ _ _ Hr).
  rewrite (proj2 (Z.ltb_lt 0 ts) (ro_ts _ _ _ _ _ _ Hr)).
  change (MachineType_L1Cache =? MachineType_L1Cache) with true. cbn [massert].
  destruct (shouldNackRemote_resolves w addr id ts Trans prio _ false Hec H Hf Hr
    nack_and_abort_trans) as (b & w' & -> & Hres & _ & Hc & Hcause).
  destruct (resolved_in_tx addr b w w' H Hf Hres) as [Ht Hfl].
  destruct (power_policy_kind Hp) as [Hk _].
  assert (m_default_policy <> RequesterStalls) as Hns by (by destruct Hk as [-> | ->]).
  specialize (Hc Hns eq_refl). rewrite (power_winner w prio Hec Hp H) in Hc. injection Hc as <-.
  exists w'. do 2 (split; [done|]). intros Hpw. rewrite Hpw in Hcause.
  specialize (Hcause eq_refl). by injection Hcause as <-.
Qed.

(** ** Receiving a nack *)

Lemma in_tx_cm w c :
  in_tx w -> m_powered c = m_powered (cm w) -> in_tx (w <| cm := c |>).
Proof. intros H Hp. by apply (in_tx_frame w). Qed.

(** The end of [notifyReceiveNack], once the flag was raised. *)
Lemma receive_nack_end w w' addr :
  in_tx w -> flag_raised addr w w' ->
  (let* w'' := get in
   when (negb false && isAborting w'') (on_cm (set! m_abortedByNack := true))) w' =
    Ok (tt, w' <| cm := (cm w') <| m_abortedByNack := true |> |>).
Proof.
  intros H Hr. destruct (flag_raised_in_tx addr w w' H Hr) as (H' & Hf & _).
  run. by rewrite (in_tx_aborting w' H'), Hf.
Qed.

(** A nack aborts the requester.  Under the requester-loses and the power
    policies, a transaction that receives a nack and is not aborting yet
    raises its abort flag with a cause and remembers that a nack did it. *)
Theorem nack_aborts_requester w addr ts t prio sw id wr :
  eager_config -> m_default_policy = RequesterLoses \/ isPowerTMPolicy = true ->
  in_tx w -> m_abortFlag (ctl w) = false -> remote_ok w addr id ts prio sw ->
  exists w', notifyReceiveNack addr ts t prio sw id wr w = Ok (tt, w') /\ in_tx w' /\
    m_abortFlag (ctl w') = true /\ m_abortCause (ctl w') <> Undefined /\
    m_abortedByNack (cm w') = true.
Proof.
  intros Hec Hpol H Hf Hr.
  assert (m_default_policy <> RequesterStalls) as Hns.
  { destruct Hpol as [->|Hp]; [done|].
    by destruct (power_policy_kind Hp) as [[-> | ->] _]. }
  assert (bool_decide (m_default_policy = RequesterLoses) || isPowerTMPolicy = true) as Hl.
  { destruct Hpol as [->|Hp]; [done|]. by rewrite Hp, orb_true_r. }
  unfold notifyReceiveNack, isRequesterStallsPolicy, isReqLosesPolicy, on_cm at 1.
  rewrite !default_policy_ok by apply Hec. rewrite (bool_decide_eq_false_2 _ Hns).
  run. rewrite (in_tx_level w H), in_tx_timestamp, (in_tx_aborting w H), Hf by done.
  cbn [Z.eqb]. run. cbn [when]. run. rewrite Hl. cbn [when].
  set (w1 := w <| cm := (cm w) <| m_receivedNack := true |> |>).
  assert (in_tx w1) as H1 by (by apply in_tx_cm).
  destruct (setAbortFlag_raises w1 addr id t prio false no_flags) as (w2 & Hw2 & Hraise & _);
    [apply Hec|done|done| |].
  { right; right; right. destruct Hr as [? ? Hline ? ? ? ?]. rewrite <- Hline. done. }
  rewrite (bind_run _ _ _ _ _ Hw2).
  rewrite (receive_nack_end w1 w2 addr H1 Hraise).
  destruct (flag_raised_in_tx addr w1 w2 H1 Hraise) as (H2 & Hf2 & Hc2).
  eexists. split; [done|]. split; [by apply in_tx_cm|]. done.
Qed.

(** ** Deadlock avoidance of the requester-stalls policies *)







End resolution.

(** ** Age across attempts *)

Section attempts.
Context `{RS : RubySystem} `{CF : Config} {C : Type} `{DC : DataCache C}.
Notation W := (World C).

(** One more attempt of the running transaction, at the time [e]. *)
Definition attempt (e : Env) : M W unit :=
  do* restartTransaction (E := e); beginTransaction (E := e) false.

Lemma begin_locked (e : Env) (w : W) :
  getTransactionLevel w = 1 -> m_lock_timestamp (cm w) = true ->
  beginTransaction (E := e) false w = Ok (tt, w).
Proof. intros Hl Hk. unfold beginTransaction. run. by rewrite Hl, Hk. Qed.

Lemma restart_ok (e : Env) (w : W) :
  0 <= m_numRetries (cm w) < INT_MAX ->
  exists w', restartTransaction (E := e) w = Ok (tt, w') /\ ctl w' = ctl w /\
    m_timestamp (cm w') = m_timestamp (cm w) /\
    m_lock_timestamp (cm w') = m_lock_timestamp (cm w) /\
    m_numRetries (cm w') = m_numRetries (cm w) + 1 /\ m_doomed (cm w') = false.
Proof.
  intros Hn. unfold restartTransaction, on_cm, zoom. run.
  rewrite signed_ok by (unfold INT_MIN in *; lia).
  run. eexists. split; [done|]. done.
Qed.

Lemma attempts_ok (es : list Env) (v : W) :
  getTransactionLevel v = 1 -> m_lock_timestamp (cm v) = true -> m_doomed (cm v) = false ->
  0 <= m_numRetries (cm v) -> m_numRetries (cm v) + Z.of_nat (length es) <= INT_MAX ->
  exists v', forM es attempt v = Ok (tt, v') /\ getTransactionLevel v' = 1 /\
    m_timestamp (cm v') = m_timestamp (cm v) /\ m_doomed (cm v') = false /\
    m_numRetries (cm v') = m_numRetries (cm v) + Z.of_nat (length es).
Proof.
  revert v. induction es as [|e es IH]; intros v Hl Hk Hd Hn Hmax.
  { exists v. cbn. by rewrite Z.add_0_r. }
  destruct (restart_ok e v) as (v1 & Hv1 & Hc & Ht & Hlk & Hr & Hd1); [cbn in Hmax; lia|].
  assert (getTransactionLevel v1 = 1) as Hl1 by (unfold getTransactionLevel; by rewrite Hc).
  destruct (IH v1) as (v2 & Hv2 & ? & ? & ? & ?); [done|congruence|done|lia|cbn in Hmax; lia|].
  exists v2. cbn [forM]. unfold attempt at 1. run. rewrite (bind_run _ _ _ _ _ Hv1).
  rewrite (bind_run _ _ _ _ _ (begin_locked e v1 Hl1 ltac:(congruence))).
  split; [done|]. split; [done|]. split; [congruence|]. split; [done|]. cbn [length]. lia.
Qed.

(** A transaction ages while it is retried.  Once begun, its timestamp is
    the cycle of the first attempt through any number of aborts and restarts,
    whenever they happen, so that it can only become older relative to new
    transactions; the number of retries is counted exactly; and after the
    commit the next transaction takes the time of its own beginning. *)
Theorem retries_keep_age (e0 e1 : Env) (es : list Env) (w : W) :
  getTransactionLevel w = 1 -> m_lock_timestamp (cm w) = false -> m_doomed (cm w) = false ->
  0 <= m_numRetries (cm w) -> m_numRetries (cm w) + Z.of_nat (length es) <= INT_MAX ->
  exists w1 w2 w3 w4,
    beginTransaction (E := e0) false w = Ok (tt, w1) /\
    m_timestamp (cm w1) = curCycle (Env := e0) /\
    forM es attempt w1 = Ok (tt, w2) /\
    m_timestamp (cm w2) = curCycle (Env := e0) /\
    m_numRetries (cm w2) = m_numRetries (cm w) + Z.of_nat (length es) /\
    commitTransaction w2 = Ok (tt, w3) /\ m_numRetries (cm w3) = 0 /\
    beginTransaction (E := e1) false w3 = Ok (tt, w4) /\
    m_timestamp (cm w4) = curCycle (Env := e1).
Proof.
  intros Hl Hk Hd Hn Hmax.
  set (w1 := w <| cm := (cm w) <| m_timestamp := curCycle (Env := e0) |> <| m_lock_timestamp := true |> |>).
  destruct (attempts_ok es w1) as (w2 & Hw2 & Hl2 & Ht2 & Hd2 & Hn2); [done..|].
  exists w1, w2. eexists. eexists. split.
  { unfold beginTransaction. run. rewrite Hl, Hk. done. }
  split; [done|]. split; [exact Hw2|]. split; [by rewrite Ht2|]. split; [done|]. split.
  { unfold commitTransaction. run. rewrite Hl2, Hd2. done. }
  split; [done|]. split; [|shelve].
  unfold beginTransaction. run. unfold getTransactionLevel in *. cbn. rewrite Hl2. reflexivity.
  Unshelve. done.
Qed.
End attempts.

(** ** Concrete runs *)

#[local] Existing Instance ruby64.
#[local] Existing Instance demo_env.

(** A transaction that wrote line 64 and read line 128. *)
Definition demo_owner (version timestamp : Z) : World CacheMemory :=
  demo_tx demo_cache version timestamp
    {[128 := IsolationManager.RETIRED_LOAD]} {[64 := IsolationManager.RETIRED_STORE]}.

Lemma demo_owner_in_tx (CF : Config) version timestamp :
  0 <= version < 4 -> isolation_checker params = false ->
  in_tx (demo_owner version timestamp).
Proof.
  intros Hv Hc. apply demo_in_tx; [done|done| |].
  - apply map_Forall_singleton. split; [|done]. split; [lia|]. vm_compute. reflexivity.
  - apply map_Forall_singleton. split; [|done]. split; [lia|]. vm_compute. reflexivity.
Qed.

Lemma eager_lazy_config policy :
  getResolutionPolicy (default_params <| conflict_resolution := policy |>) <> UndefinedPolicy ->
  (policy =? Policy.requester_stalls_pic_base)%string = false ->
  eager_config (CF := eager_lazy policy).
Proof. intros Hp Hn. split; [done|exact Hp|]. unfold isPicPolicy. cbn. by rewrite Hn. Qed.

Lemma demo_remote addr prio version sw :
  (addr = 64 \/ addr = 128) -> version <> 1 -> INT_MIN <= prio < INT_MAX ->
  remote_ok (demo_owner version 10) addr (MkMachineID MachineType_L1Cache 1) 5 prio sw.
Proof.
  intros Ha Hv Hp. split; try done; try (by cbn; congruence).
  - by destruct Ha as [-> | ->]; vm_compute.
  - lia.
Qed.

Lemma isRemoteOlder_strict_order_witness :
  isRemoteOlder 10 10
    (MkMachineID MachineType_L1Cache 1) (demo_owner 0 10) = Ok false /\
  isRemoteOlder 10 10
    (MkMachineID MachineType_L1Cache 0) (demo_owner 1 10) = Ok true.
Proof.
  destruct (isRemoteOlder_strict_order
    (demo_owner 0 10) (demo_owner 1 10) (demo_owner 2 10)) as [(b & H1 & H2) _].
  - apply (bool_decide_unpack _). vm_compute. exact I.
  - cbn in H1. injection H1 as <-. split; [vm_compute; reflexivity|exact H2].
Defined.

Lemma shouldNackLoad_exact_witness :
  exists w', shouldNackLoad (CF := eager_lazy Policy.requester_wins) 64
      (MkMachineID MachineType_L1Cache 1) 5 Trans NC_PRIO_VALUE false (demo_owner 0 10)
      = Ok (false, w') /\ m_abortFlag (ctl w') = true.
Proof.
  destruct (shouldNackLoad_exact (CF := eager_lazy Policy.requester_wins) (demo_owner 0 10)
    64 (MkMachineID MachineType_L1Cache 1) 5 Trans NC_PRIO_VALUE false)
    as (b & w' & Hr & _ & Hres).
  - by apply eager_lazy_config.
  - by apply demo_owner_in_tx.
  - apply demo_remote; [by left|done|done].
  - destruct Hres as (_ & Hf & _). destruct b; [|by exists w'].
    exfalso. vm_compute in Hr. discriminate Hr.
Defined.

Lemma shouldNackStore_exact_witness :
  exists w', shouldNackStore (CF := eager_lazy Policy.requester_loses) 128
      (MkMachineID MachineType_L1Cache 1) 5 Trans NC_PRIO_VALUE false false (demo_owner 0 10)
      = Ok (true, w') /\ m_abortFlag (ctl w') = false.
Proof.
  destruct (shouldNackStore_exact (CF := eager_lazy Policy.requester_loses) (demo_owner 0 10)
    128 (MkMachineID MachineType_L1Cache 1) 5 Trans NC_PRIO_VALUE false false)
    as (b & w' & Hr & _ & Hres).
  - by apply eager_lazy_config.
  - by left.
  - by apply demo_owner_in_tx.
  - apply demo_remote; [by right|done|done].
  - destruct Hres as (_ & Hf & _). destruct b; [by exists w'|].
    exfalso. vm_compute in Hr. discriminate Hr.
Defined.

Lemma l2_eviction_exact_witness :
  exists w', shouldNackStore (CF := eager_lazy Policy.requester_wins) 64
      (MkMachineID MachineType_L2Cache 0) 0 NonTrans NC_PRIO_VALUE false false (demo_owner 0 10)
      = Ok (false, w') /\ m_abortCause (ctl w') = L2Capacity.
Proof.
  destruct (l2_eviction_exact (CF := eager_lazy Policy.requester_wins) (demo_owner 0 10)
    64 (MkMachineID MachineType_L2Cache 0) NC_PRIO_VALUE NonTrans false)
    as (w' & Hr & _ & _ & Hc); [done|by apply demo_owner_in_tx|by vm_compute|done|].
  by exists w'.
Defined.

Lemma power_transaction_wins_witness :
  exists w', shouldNackLoad (CF := eager_lazy Policy.power_tm) 64
      (MkMachineID MachineType_L1Cache 1) 5 Trans NC_PRIO_VALUE true (demo_owner 0 10)
      = Ok (false, w') /\ m_abortCause (ctl w') = ConflictPower.
Proof.
  destruct (power_transaction_wins (CF := eager_lazy Policy.power_tm) (demo_owner 0 10)
    64 (MkMachineID MachineType_L1Cache 1) 5 NC_PRIO_VALUE) as (w' & Hr & _ & Hc).
  - by apply eager_lazy_config.
  - done.
  - by apply demo_owner_in_tx.
  - done.
  - by vm_compute.
  - apply demo_remote; [by left|done|done].
  - exists w'. split; [exact Hr|]. by apply Hc.
Defined.

Lemma nack_aborts_requester_witness :
  exists w', notifyReceiveNack (CF := eager_lazy Policy.requester_loses) 64 5 Trans
      NC_PRIO_VALUE false (MkMachineID MachineType_L1Cache 1) true (demo_owner 0 10) = Ok (tt, w') /\
    m_abortedByNack (cm w') = true.
Proof.
  destruct (nack_aborts_requester (CF := eager_lazy Policy.requester_loses) (demo_owner 0 10)
    64 5 Trans NC_PRIO_VALUE false (MkMachineID MachineType_L1Cache 1) true)
    as (w' & Hr & _ & _ & _ & Hn).
  - by apply eager_lazy_config.
  - by left.
  - by apply demo_owner_in_tx.
  - done.
  - apply demo_remote; [by left|done|done].
  - by exists w'.
Defined.


Lemma retries_keep_age_witness :
  exists w2, forM (S := World CacheMemory) [demo_env; demo_env]
      (attempt (CF := eager_lazy Policy.requester_wins))
      ((demo_owner 0 10) <| cm := (cm (demo_owner 0 10)) <| m_timestamp := 100 |> |>) = Ok (tt, w2) /\
    m_timestamp (cm w2) = 100 /\ m_numRetries (cm w2) = 2.
Proof.
  destruct (retries_keep_age (CF := eager_lazy Policy.requester_wins) demo_env demo_env
    [demo_env; demo_env]
    ((demo_owner 0 10) <| cm := (cm (demo_owner 0 10)) <| m_lock_timestamp := false |> |>))
    as (w1 & w2 & w3 & w4 & H1 & _ & H2 & H3 & H4 & _); [done..|].
  exists w2. cbn in H1. injection H1 as <-. split; [exact H2|]. by split.
Defined.
