(* ===== verification/Forwarding.v ===== *)
(** * Forwarding of speculative data

    The CHATS part of [mem/ruby/htm/TransactionInterfaceManager.cc]: who may
    become a producer, the registers a producer and a consumer keep, the
    priorities they exchange, and the validation of consumed blocks. *)

From S2P Require Import Prelude Address HTM XactProfiler CacheMemory TxState.
From S2P Require WriteMask DataBlock IsolationManager ConflictManager.
Import DataBlock (DataBlock).

#[local] Open Scope Z_scope.

Section ops.
Context `{RS : RubySystem} `{CF : Config} `{E : Env} {C : Type} `{DC : DataCache C}.
Notation W := (World C).

(** ** Becoming a producer *)

(** Read-set data is not forwarded ([only_written]). *)
Definition readset_refused (addr : Z) (w : W) : res bool :=
  if bool_decide (getAllowedDataFwd params = only_written) then
    let? x := checkWriteSignature addr w in
    if x then Ok false else let? p := isPowered w in Ok (negb p)
  else Ok false.

(** Data with a write in flight is not forwarded ([no_write_in_flight]). *)
Definition inflight_refused (writeInFlight : bool) (w : W) : res bool :=
  if bool_decide (getAllowedDataFwd params = no_write_in_flight) && writeInFlight then
    let? p := isPowered w in Ok (negb p)
  else Ok false.

(** What a refusal does: nothing more under the policies that nack, abort
    under requester-wins. *)
Definition refuse (addr : Z) (consumer : MachineID) (remote_trans : TransactionBit)
    (remote_priority : Z) (remote_sw_priority : bool) (f : AbortFlags) : M W bool :=
  let* loses := lift isReqLosesPolicy in
  let* stalls := if loses then ret true else lift isRequesterStallsPolicy in
  if stalls then ret false else
  let* wins := lift isReqWinsPolicy in
  if wins then
    do* setAbortFlag addr consumer remote_trans remote_priority remote_sw_priority f;
    ret false
  else panic.

Definition flag_specReadConflict : AbortFlags :=
  no_flags <| af_specReadConflict := true |>.
Definition flag_specWriteInFlight : AbortFlags :=
  no_flags <| af_specWriteInFlight := true |>.
Definition flag_specMaxCapacityOverflow : AbortFlags :=
  no_flags <| af_specMaxCapacityOverflow := true |>.
Definition flag_specDepthOverflow : AbortFlags :=
  no_flags <| af_specDepthOverflow := true |>.
Definition flag_validation : AbortFlags := no_flags <| af_validation := true |>.

Definition sent_to (consumer : MachineID) (w : W) : bool :=
  bool_decide (consumer ∈ m_hasSentDataToConsumer (fwd w)).

(** The last [switch]: how many consumers the mechanism allows. *)
Definition mechanism_allows (consumer : MachineID) (w : W) : res bool :=
  match fwdMechanism with
  | naive => Err EPanic
  | simple =>
      let? _ := rassert (prio_is no_prio) in
      let? _ := rassert (negb (isConsumer w)) in Ok true
  | W1_D1 =>
      let? _ := rassert (negb (isConsumer w)) in
      let? p := isProducer w in Ok (negb p || sent_to consumer w)
  | WN_D1 => let? _ := rassert (negb (isConsumer w)) in Ok true
  | W1_DN => let? p := isProducer w in Ok (negb p || sent_to consumer w)
  | WN_DM => Ok true
  | WX_DX =>
      Ok ((Z.of_nat (size (m_hasSentDataToConsumer (fwd w))) <? u64 (max_consumers params)) ||
          sent_to consumer w)
  | no_fwd => Err EPanic
  end.

Definition shouldBecomeProducer (addr : Z) (remote_trans : TransactionBit) (remote_priority : Z)
    (remote_sw_priority : bool) (consumer : MachineID) (writeInFlight : bool) : M W bool :=
  let* w := get in
  let transactionPriority := getTransactionPriority w in
  let* isSwPrio := lift (getSwTransactionPriority w) in
  do* massert config_allowEarlyValueFwd;
  do* massert (inTransaction w);
  do* massert (isTransactionalRequest remote_trans);
  do* massert (negb (isAborting w));
  if no_produce_on_retry params && isRetryingTx w then ret false else
  let* rs := lift (readset_refused addr w) in
  if rs then refuse addr consumer remote_trans remote_priority remote_sw_priority
               flag_specReadConflict else
  let* wf := lift (inflight_refused writeInFlight w) in
  if wf then refuse addr consumer remote_trans remote_priority remote_sw_priority
               flag_specWriteInFlight else
  do* massert (negb remote_sw_priority);
  if isSwPrio || fwd_is naive then ret true else
  let* prev := lift (signed (transactionPriority - 1)) in
  if prev =? NC_PRIO_VALUE then ret false else
  let* shouldFwd :=
    if isConsumer w then ret (remote_priority <? transactionPriority)
    else
      do* massert (((remote_priority <=? m_hwTransPrio (fwd w)) || negb (isConsumer w)) &&
                   negb remote_sw_priority);
      ret true in
  if negb shouldFwd then ret false else lift (mechanism_allows consumer w).

Definition shouldForwardDataToConsumer (addr : Z) (consumer : MachineID)
    (remote_trans : TransactionBit) (remote_priority : Z) (remote_sw_prio writeInFlight : bool)
    : M W bool :=
  let* w := get in
  if negb config_allowEarlyValueFwd then ret false
  else if m_abortFlag (ctl w) then ret false
  else
    let* can := lift (canProduce w) in
    if can then
      shouldBecomeProducer addr remote_trans remote_priority remote_sw_prio consumer writeInFlight
    else ret false.

(** ** The registers of a producer *)

Definition addBlockToNackReg (addr : Z) (consumer : MachineID) : M W unit :=
  let* w := get in
  let* power := lift (isPowerMode w) in
  when power
    (let* hit := lift (dc_tryCacheAccess addr ST (dcache w)) in
     match hit with
     | None => ret tt
     | Some blk =>
         let* db := lift (DataBlock.copyFrom DataBlock.alloc blk) in
         on_fwd (upd! m_nackedAddressesReg ::= std_insert addr db)
     end).

(** A hit for a store, or else for a load. *)
Definition producerBlock (addr : Z) (w : W) : res DataBlock :=
  let? hit := dc_tryCacheAccess addr ST (dcache w) in
  match hit with
  | Some blk => Ok blk
  | None =>
      let? hit := dc_tryCacheAccess addr LD (dcache w) in
      match hit with Some blk => Ok blk | None => Err EAssert end
  end.

Definition new_FwdInfo (consumer : MachineID) : FwdInfo :=
  MkFwdInfo {[consumer]} uninit_bool.

Definition new_ProducerInfo (consumer : MachineID) (tick : Z) : ProducerInfo :=
  MkProducerInfo {[consumer]} tick 0 [new_FwdInfo consumer].

(** Note one more consumer of a block that was forwarded before. *)
Definition again_sent (consumer : MachineID) (p : ProducerInfo) : res ProducerInfo :=
  match pi_forwardings p with
  | [] => Err EUndef
  | last :: rest =>
      Ok (p <| pi_consumers ::= ({[consumer]} ∪.) |>
            <| pi_forwardings :=
                 if fi_modified last then new_FwdInfo consumer :: last :: rest
                 else last <| fi_consumers ::= ({[consumer]} ∪.) |> :: rest |>)
  end.

Definition addConsumer (addr : Z) (consumer : MachineID) (remote_priority : Z)
    (remote_sw_priority : bool) : M W unit :=
  let* w := get in
  let* prod := lift (isProducer w) in
  do* unless prod
        (let* c := lift (hasConsumedData w) in
         when c (on_fwd (set! m_consumerTurnedProducer := true)));
  do* on_fwd (upd! m_hasSentDataToConsumer ::= ({[consumer]} ∪.));
  do* switchHwPrio remote_priority remote_sw_priority false;
  let* w := get in
  let* can := if m_abortFlag (ctl w) then ret false else lift (canProduce w) in
  do* massert can;
  let* blk := lift (producerBlock addr w) in
  do* (if has addr (m_sentDataForwardedToConsumer (fwd w)) then
         match m_allSentData (fwd w) !! addr with
         | None => throw EAssert
         | Some p =>
             let* p' := lift (again_sent consumer p) in
             on_fwd (upd! m_allSentData ::= <[addr := p']>)
         end
       else on_fwd (upd! m_allSentData ::= std_insert addr (new_ProducerInfo consumer curTick)));
  let* db := lift (DataBlock.copyFrom DataBlock.alloc blk) in
  do* on_fwd (upd! m_sentDataForwardedToConsumer ::= std_insert addr db);
  let* w := get in
  let* _ := lift (hasConsumedData w) in
  ret tt.

Definition setAccessOnProducedBlock (addr offset len : Z) (write : bool) : M W unit :=
  let* w := get in
  match m_allSentData (fwd w) !! addr with
  | None => throw EAssert
  | Some p =>
      when write
        (let* n := lift (signed (pi_timesModifiedAfterSharing p + 1)) in
         match pi_forwardings p with
         | [] => throw EUndef
         | last :: rest =>
             on_fwd (upd! m_allSentData ::=
               <[addr := p <| pi_timesModifiedAfterSharing := n |>
                           <| pi_forwardings := last <| fi_modified := true |> :: rest |>]>)
         end)
  end.

(** ** Consuming *)

Definition shouldAcceptForwardedDataFromProducer (addr : Z) (source : MachineID)
    (remote_priority : Z) (remote_sw_priority : bool) (w : W) : res bool :=
  match fwdMechanism with
  | simple =>
      let? _ := rassert (prio_is no_prio) in
      let? p := isProducer w in Ok (negb p)
  | W1_D1 | WN_D1 => let? p := isProducer w in Ok (negb p)
  | WX_DX =>
      if max_prio_diff params =? 1 then let? p := isProducer w in Ok (negb p) else Ok true
  | W1_DN | WN_DM | naive => Ok true
  | no_fwd => Err EPanic
  end.

(** The delay of the validation event is not part of the state: the event is
    the line it will ask for. *)
Definition scheduleValidationOfConsumedData (addr : Z) (retry : bool) : M W unit :=
  let* w := get in
  do* massert (bool_decide (validationEvent (fwd w) = None));
  do* massert (has addr (m_recvDataForwardedFromProducer (fwd w)));
  do* massert (has addr (m_allReceivedData (fwd w)));
  do* massert (negb (isAborting w));
  on_fwd (set! validationEvent := Some addr).

(** The cycles until that event. *)
Definition timeToValidate (retry : bool) (w : W) : Z :=
  if retry || m_atCommit (ctl w) || m_hasValidatedAnyData (fwd w) then 1
  else cycles_to_validate params.

Definition new_ConsumerInfo (producer : MachineID) (db : DataBlock) (tick : Z) : ConsumerInfo :=
  MkConsumerInfo {[producer]} db tick 0 WriteMask.new WriteMask.new 0 false.

(** Both registers get the received block. *)
Definition insertReceived (addr : Z) (db : DataBlock) (producer : MachineID) : M W unit :=
  let* d := lift (DataBlock.copy db) in
  do* on_fwd (upd! m_allReceivedData ::= std_insert addr (new_ConsumerInfo producer d curTick));
  on_fwd (upd! m_recvDataForwardedFromProducer ::=
            std_insert addr (MkDataForwarded d false WriteMask.new 0)).

(** The transaction consumes its first block, or its first after it had
    validated all blocks before. *)
Definition becomeConsumer (addr : Z) (db : DataBlock) (producer : MachineID) : M W unit :=
  let* w := get in
  let* consumed := lift (hasConsumedData w) in
  do* (if negb consumed then massert (negb (has addr (m_allReceivedData (fwd w))))
       else on_fwd (set! m_reconsumer := true));
  do* insertReceived addr db producer;
  do* on_fwd (set! m_consumerLowPrio := true);
  do* on_fwd (set! m_hasReceivedDataFromProducer := producer);
  do* massert (bool_decide (validationEvent (fwd w) = None));
  let* w := get in
  unless (isAborting w) (scheduleValidationOfConsumedData addr false).

(** The two limits that abort a consumer. *)
Definition checkSpecLimits (addr : Z) (producer : MachineID) (remote_priority : Z)
    (remote_sw_priority : bool) : M W unit :=
  let* w := get in
  do* when (max_consumed_blocks params <?
            Z.of_nat (size (m_recvDataForwardedFromProducer (fwd w))))
        (setAbortFlag addr producer Trans remote_priority remote_sw_priority
           flag_specMaxCapacityOverflow);
  when (fwd_is WX_DX)
    (let* diff := lift (signed (INITIAL_PRIO_VALUE - m_hwTransPrio (fwd w))) in
     let* dist := lift (signed (Z.abs diff)) in
     when (max_prio_diff params <? dist)
       (setAbortFlag addr producer Trans remote_priority remote_sw_priority
          flag_specDepthOverflow)).

Definition notifyForwardedDataFromProducer (addr : Z) (db : DataBlock) (producer : MachineID)
    (remote_timestamp remote_priority : Z) (remote_sw_priority : bool) : M W unit :=
  let* w := get in
  let* consumed := lift (hasConsumedData w) in
  do* unless consumed
        (let* prod := lift (isProducer w) in
         when prod
           (do* massert (negb (m_producerTurnedConsumer (fwd w)) &&
                         negb (m_consumerTurnedProducer (fwd w)));
            on_fwd (set! m_producerTurnedConsumer := true)));
  do* massert (addr =? makeLineAddress addr);
  do* massert (negb (isBlockConsumed addr w));
  let* uid := lift (packetUid addr) in
  do* massert (inTransaction w && negb (uid <? m_currentHtmUid (ctl w)));
  let* stalls := lift isRequesterStallsPolicy in
  do* (if stalls then
         ConflictManager.notifyReceiveNack addr remote_timestamp Trans remote_priority
           remote_sw_priority producer true
       else switchHwPrio remote_priority remote_sw_priority true);
  let* w := get in
  do* (if negb (isConsumer w) then becomeConsumer addr db producer
       else insertReceived addr db producer);
  let* w := get in
  let* lastRegion := lift (getCurrentRegion w) in
  do* when (negb (region_eqb lastRegion TRANSACTIONAL_SPECULATING) &&
            (negb (m_atCommit (ctl w)) && negb (isAborting w)))
        (moveTo TRANSACTIONAL_SPECULATING);
  checkSpecLimits addr producer remote_priority remote_sw_priority.

Definition setAccessOnForwardBlock (addr offset len : Z) (write : bool) : M W unit :=
  let* w := get in
  match m_recvDataForwardedFromProducer (fwd w) !! addr, m_allReceivedData (fwd w) !! addr with
  | Some d, Some i =>
      let* mask := lift (WriteMask.setMask (df_mask d) offset len true) in
      let* accessMask := lift (WriteMask.setMask (ci_accessMask i) offset len true) in
      let* wMask := if write then lift (WriteMask.setMask (ci_wMask i) offset len true)
                    else ret (ci_wMask i) in
      do* on_fwd (upd! m_recvDataForwardedFromProducer ::=
            <[addr := d <| df_mask := mask |> <| df_modified := df_modified d || write |>]>);
      on_fwd (upd! m_allReceivedData ::=
            <[addr := i <| ci_accessMask := accessMask |>
                        <| ci_locallyModified := ci_locallyModified i || write |>
                        <| ci_wMask := wMask |>]>)
  | _, _ => throw EAssert
  end.

(** ** Validation *)

(** The comparison: the verdict, the consumed block kept in the register and
    the block in the cache afterwards. *)
Definition compareBlocks (d : DataForwarded) (cacheData validatedData : DataBlock) (dirty : bool)
    : res (bool * DataBlock * DataBlock) :=
  if remove_false_sharing_forward params || dirty then
    if remove_false_sharing_forward params then
      let? ok := DataBlock.comparePartial (df_data d) validatedData (df_mask d) in
      if negb (DataBlock.equal (df_data d) validatedData) then
        let? consumed := DataBlock.assign_op (df_data d) validatedData in
        if dirty then
          let? auxDB := DataBlock.copy cacheData in
          let? cache := DataBlock.assign_op cacheData validatedData in
          let? cache := DataBlock.copyPartial cache auxDB (df_mask d) in
          Ok (ok, consumed, cache)
        else
          let? cache := DataBlock.assign_op cacheData validatedData in
          Ok (ok, consumed, cache)
      else Ok (ok, df_data d, cacheData)
    else Ok (DataBlock.equal (df_data d) validatedData, df_data d, cacheData)
  else Ok (DataBlock.equal cacheData validatedData, df_data d, cacheData).

(** [it++] on a block still in the register, with the wrap to the first
    block. *)
Definition scheduleNext (addr : Z) : M W unit :=
  let* w := get in
  let m := m_recvDataForwardedFromProducer (fwd w) in
  match std_next m addr with
  | Some next => scheduleValidationOfConsumedData next false
  | None =>
      match std_begin m with
      | Some first => scheduleValidationOfConsumedData first false
      | None => throw EUndef
      end
  end.

(** Data with coherence permissions arrived.  Erasing the block invalidates
    the iterator that the search for the next block then increments. *)
Definition blockValidated (addr : Z) : M W unit :=
  let* w := get in
  do* massert (isBlockConsumed addr w);
  do* on_fwd (upd! m_recvDataForwardedFromProducer ::= delete addr);
  do* on_fwd (upd! m_allReceivedData ::=
        alter (fun i => i <| ci_tickValidated := curTick |>) addr);
  do* on_fwd (set! m_hasValidatedAnyData := true);
  let* w := get in
  if negb (isConsumer w) && negb (isAborting w) then
    do* on_fwd (set! m_hasConsumedValidData := true);
    on_fwd (set! m_consumerLowPrio := false)
  else unless (isAborting w) (throw EUndef).

Definition validateDataBlock (addr : Z) (source : MachineID) (cacheData validatedData : DataBlock)
    (remote_timestamp : Z) (dirty isNack : bool) : M W (bool * DataBlock) :=
  do* massert config_allowEarlyValueFwd;
  let* w := get in
  do* massert (isConsumer w);
  match m_recvDataForwardedFromProducer (fwd w) !! addr, m_allReceivedData (fwd w) !! addr with
  | Some d, Some i =>
      let d := d <| df_nVal ::= fun n => u32 (n + 1) |> in
      let i := i <| ci_timesVal ::= fun n => u32 (n + 1) |>
                 <| ci_producers ::= ({[source]} ∪.) |> in
      let* r := lift (compareBlocks d cacheData validatedData dirty) in
      let '(same, consumedData, cacheData') := r in
      do* on_fwd (upd! m_recvDataForwardedFromProducer ::=
            <[addr := d <| df_data := consumedData |>]>);
      do* on_fwd (upd! m_allReceivedData ::= <[addr := i]>);
      let validationCheck :=
        if fwd_is naive then same && (df_nVal d <=? u32 (n_val_fwd params)) else same in
      do* unless validationCheck
            (setAbortFlag addr createInvalidMachineID NonTrans NC_PRIO_VALUE false flag_validation);
      do* (if negb isNack then blockValidated addr
           else
             let* stalls := lift isRequesterStallsPolicy in
             do* when stalls
                   (ConflictManager.notifyReceiveNack addr remote_timestamp Trans NC_PRIO_VALUE
                      false source true);
             let* w := get in
             unless (isAborting w) (scheduleNext addr));
      ret (validationCheck, cacheData')
  | _, _ => throw EAssert
  end.

(** The event fires: it is no longer scheduled when its action runs. *)
Definition ValidateConsumedDataEvent_process : M W (option Z) :=
  let* w := get in
  do* on_fwd (set! validationEvent := None);
  ret (validationEvent (fwd w)).
End ops.
