(* ===== verification/TxProfile.v ===== *)
(** * Statistics of a transaction that ends

    [profileHtmFwdTransaction] and [profileHtmFailureFaultCause] of
    [mem/ruby/htm/TransactionInterfaceManager.cc]: how a finished transaction
    is classified (common, producer, consumer, both, power), what is counted
    for the blocks it sent and received, and the precise cause of an abort. *)

From S2P Require Import Prelude Address HTM XactProfiler CacheMemory TxState.
From S2P Require LazyVM.

#[local] Open Scope Z_scope.

(** [static_cast<int>(cause)]. *)
Definition cause_index (c : HtmFailureFaultCause) : Z :=
  match c with
  | HTM.INVALID => -1 | EXPLICIT => 0 | NEST => 1 | SIZE => 2 | EXCEPTION => 3 | MEMORY => 4
  | OTHER => 5 | DISABLED => 6 | INTERRUPT => 7 | LSQ => 8 | SIZE_RSET => 9
  | SIZE_WSET => 10 | SIZE_L1PRIV => 11 | SIZE_LLC => 12 | SIZE_WRONG_CACHE => 13
  | EXPLICIT_FALLBACKLOCK => 14 | MEMORY_FALLBACKLOCK => 15 | MEMORY_STALEDATA => 16
  | MEMORY_FALSESHARING => 17 | MEMORY_POWER => 18 | SPEC_ILLEGAL => 19
  | SPEC_VALIDATION => 20 | SPEC_MAX_CAPACITY => 21 | SPEC_DEPTH => 22
  | SPEC_WRITE_IN_FLIGHT => 23 | SPEC_READ_CONFLICT => 24 | NUM_CAUSES => 25
  end.

(** [MaxTick]. *)
Definition MaxTick : Z := 2 ^ 64 - 1.

Section ops.
Context `{RS : RubySystem} `{CF : Config} `{E : Env} {C : Type} `{DC : DataCache C}.
Notation W := (World C).

(** ** Sent data *)

(** A loop over the consumers of one forwarding. *)
Definition count_forwardings (i : Z) (f : FwdInfo) (s : Stats) : Stats :=
  Nat.iter (size (fi_consumers f)) (vec_incr m_htm_forwardings i) s.

(** From the last forwarding of a block to its first. *)
Definition profile_forwardings (aborted : bool) (l : list FwdInfo) (s : Stats) : res Stats :=
  match l with
  | [] => Err EUndef
  | last :: rest =>
      let s := count_forwardings
                 (if aborted then 2 else if fi_modified last then 1 else 0) last s in
      foldR (fun s f =>
        let? _ := rassert (fi_modified f) in
        Ok (count_forwardings 1 f s)) s rest
  end.

(** [hasModifiedBlock], [consumers] and [producerForModifiedBlock]. *)
Record SentSummary := MkSentSummary {
  hasModifiedBlock : bool;
  consumers : gset MachineID;
  producerForModifiedBlock : bool
}.

Definition profile_sent_block (aborted : bool) (received : gmap Z ConsumerInfo)
    (acc : SentSummary * Stats) (it : Z * ProducerInfo) : res (SentSummary * Stats) :=
  let '(x, s) := acc in
  let s := sample m_htm_producer_n_modified_produced_data
             (pi_timesModifiedAfterSharing it.2) 1 s in
  let? s := profile_forwardings aborted (pi_forwardings it.2) s in
  Ok (MkSentSummary (hasModifiedBlock x || (0 <? pi_timesModifiedAfterSharing it.2))
        (consumers x ∪ pi_consumers it.2)
        (producerForModifiedBlock x || has it.1 received), s).

Definition profile_sent (aborted : bool) (w : W) : res (SentSummary * Stats) :=
  foldR (profile_sent_block aborted (m_allReceivedData (fwd w)))
    (MkSentSummary false ∅ false, st w) (std_list (m_allSentData (fwd w))).

(** ** Received data *)

(** [hasModifiedConsumedBlock], [producers] and [firstConsumedTick]. *)
Record RecvSummary := MkRecvSummary {
  hasModifiedConsumedBlock : bool;
  producers : gset MachineID;
  firstConsumedTick : Z
}.

Definition profile_received (w : W) : RecvSummary :=
  fold_left (fun x it =>
      MkRecvSummary (hasModifiedConsumedBlock x || ci_locallyModified it.2)
        (producers x ∪ ci_producers it.2)
        (Z.min (firstConsumedTick x) (ci_tickConsumed it.2)))
    (std_list (m_allReceivedData (fwd w))) (MkRecvSummary false ∅ MaxTick).

(** ** The kind of the transaction *)

Definition incr (v : VectorStat) (i : Z) : M W unit := on_st (vec_incr v i).

(** The six rows of [m_htm_transaction_executed_type_rate] this code counts. *)
Definition type_rate (kind : Z) (aborted : bool) : M W unit :=
  incr m_htm_transaction_executed_type_rate (2 * kind + (if aborted then 1 else 0)).

Definition profile_power (aborted : bool) (idx : Z) (prod consumed modified : bool) : M W unit :=
  if consumed then panic
  else if prod then
    do* type_rate 5 aborted;
    incr m_htm_powered_tx (if aborted then idx + 3 else if modified then 2 else 1)
  else
    do* incr m_htm_powered_tx 0;
    type_rate 4 aborted.

Definition profile_no_power (aborted : bool) (idx : Z)
    (prod consumed modified modified_consumed : bool) : M W unit :=
  let row (m : bool) := if aborted then idx + 2 else if m then 1 else 0 in
  if prod && consumed then
    do* type_rate 3 aborted;
    do* incr m_htm_producers_consumers_tx (row modified);
    let* w := get in
    if m_producerTurnedConsumer (fwd w) then
      do* massert (negb (m_consumerTurnedProducer (fwd w)));
      incr m_htm_producer_consumer_transactions 0
    else if m_consumerTurnedProducer (fwd w) then
      do* massert (negb (m_producerTurnedConsumer (fwd w)));
      incr m_htm_consumer_producer_transactions 0
    else panic
  else if negb prod && consumed then
    do* type_rate 2 aborted;
    incr m_htm_consumers_tx (row modified_consumed)
  else if prod && negb consumed then
    do* type_rate 1 aborted;
    incr m_htm_producers_tx (row modified)
  else type_rate 0 aborted.

(** The samples a producer and a consumer leave, whatever their kind. *)
Definition profile_producer (sent : SentSummary) (consumed : bool) : M W unit :=
  do* on_st (sample m_htm_producer_transactions_nprod_commit
               (Z.of_nat (size (consumers sent))) 1);
  when (producerForModifiedBlock sent)
    (do* massert consumed;
     incr m_htm_transactions_produced_consumed_same 0).

Definition profile_consumer (aborted : bool) (recv : RecvSummary) : M W unit :=
  let n := Z.of_nat (size (producers recv)) in
  if aborted then
    do* on_st (sample m_htm_consumer_transactions_nprod_abort n 1);
    on_st (sample m_htm_delayed_time_fwd_on_abort
             (ticksToCycles (u64 (curTick - firstConsumedTick recv))) 1)
  else on_st (sample m_htm_consumer_transactions_nprod_commit n 1).

Definition profileHtmFwdTransaction (aborted : bool) (abort_cause_idx : Z) : M W unit :=
  let* w := get in
  let* prod := lift (isProducer w) in
  let* sent :=
    if prod then
      let* r := lift (profile_sent aborted w) in
      do* on_st (fun _ => r.2);
      ret r.1
    else ret (MkSentSummary false ∅ false) in
  let* consumed := lift (hasConsumedData w) in
  do* when consumed (massert ((isConsumer w && aborted) || negb (isConsumer w)));
  let recv := if consumed then profile_received w else MkRecvSummary false ∅ MaxTick in
  do* when prod (profile_producer sent consumed);
  do* when consumed (profile_consumer aborted recv);
  do* when (m_reconsumer (fwd w))
        (incr m_htm_reconsumer_tx (if aborted then abort_cause_idx + 1 else 0));
  let* power := lift (isPowerMode w) in
  if power then
    profile_power aborted abort_cause_idx prod consumed (hasModifiedBlock sent)
  else
    profile_no_power aborted abort_cause_idx prod consumed (hasModifiedBlock sent)
      (hasModifiedConsumedBlock recv).

(** ** The cause of an abort *)

Definition cause_in (c : HtmFailureFaultCause) (l : list HtmFailureFaultCause) : bool :=
  bool_decide (c ∈ l).

(** A conflict the CPU observed: by whom, and whether bytes collided. *)
Definition precise_conflict (w : W) : HtmFailureFaultCause :=
  match m_abortCause (ctl w) with
  | FallbackLock => MEMORY_FALLBACKLOCK
  | ConflictStale => MEMORY_STALEDATA
  | ConflictPower => MEMORY_POWER
  | _ =>
      if negb (eager_cd params) && (lazy_arbitration params =? Policy.token)%string &&
         (LazyVM.m_numReadBytesWrittenRemotely (lvm w) =? 0) &&
         (LazyVM.m_numWrittenBytesWrittenRemotely (lvm w) =? 0)
      then MEMORY_FALSESHARING else MEMORY
  end.

(** [preciseFaultCause] from the cause the CPU gives and the one Ruby set. *)
Definition preciseFaultCause (cause : HtmFailureFaultCause) (w : W)
    : res HtmFailureFaultCause :=
  match m_abortCause (ctl w) with
  | Undefined =>
      let? _ := rassert (negb (isAborting w)) in
      let? _ := rassert (cause_in cause [EXCEPTION; INTERRUPT; DISABLED; LSQ]) in
      let? _ := if decide (cause = LSQ) then rassert (negb (reload_if_stale params))
                else Ok tt in
      Ok cause
  | Explicit =>
      let? _ := rassert (cause_in cause [EXPLICIT; EXPLICIT_FALLBACKLOCK]) in
      Ok cause
  | L0Capacity | L1Capacity | L2Capacity | WrongL0 =>
      if decide (cause = SIZE) then
        Ok (match m_abortCause (ctl w) with
            | L2Capacity => SIZE_LLC
            | WrongL0 => SIZE_WRONG_CACHE
            | L1Capacity => SIZE_L1PRIV
            | _ => if m_capacityAbortWriteSet (ctl w) then SIZE_WSET else SIZE_RSET
            end)
      else
        let? _ := rassert (cause_in cause [EXCEPTION; LSQ; INTERRUPT]) in
        Ok cause
  | ConflictStale =>
      let? _ := if precise_read_set_tracking params then Ok tt
                else let? r := checkReadSignature (m_abortAddress (ctl w)) w in rassert r in
      let? _ := rassert (cause_in cause [MEMORY; LSQ]) in
      Ok MEMORY_STALEDATA
  | FallbackLock | ConflictPower | Conflict =>
      if cause_in cause [MEMORY; LSQ] then
        let? _ := if decide (cause = LSQ) then rassert (negb (reload_if_stale params))
                  else Ok tt in
        Ok (precise_conflict w)
      else
        let? _ := rassert (cause_in cause [EXCEPTION; INTERRUPT]) in
        Ok cause
  | IllegalData => Ok SPEC_ILLEGAL
  | SpecValidation => Ok SPEC_VALIDATION
  | SpecDepthOverflow => Ok SPEC_DEPTH
  | SpecMaxCapacityOverflow => Ok SPEC_MAX_CAPACITY
  | SpecWriteInFlight => Ok SPEC_WRITE_IN_FLIGHT
  | SpecReadConflict => Ok SPEC_READ_CONFLICT
  | PageFault | Syscall | Interrupt | ExplicitFallbackLock | NumAbortCauses => Err EPanic
  end.

Definition profileHtmFailureFaultCause (cause : HtmFailureFaultCause) : M W unit :=
  do* massert (negb (bool_decide (cause = HTM.INVALID)));
  do* on_ctl (set! m_lastFailureCause := cause);
  let* w := get in
  let* precise := lift (preciseFaultCause cause w) in
  let cause_idx := cause_index precise in
  do* incr m_htm_transaction_abort_cause cause_idx;
  do* on_st (sample (m_htm_aborted_tx_xid_cause cause_idx) (m_htmXid (ctl w)) 1);
  do* profileHtmFwdTransaction true cause_idx;
  on_st (sample m_htm_executed_tx_xid (m_htmXid (ctl w)) 1).
End ops.
