(* ===== verification/InterfaceManager.v ===== *)
(** * The transaction interface manager

    The life of a transaction in
    [mem/ruby/htm/TransactionInterfaceManager.cc]: begin, commit and abort,
    the sets a transaction collects, evictions of its lines, and the calls it
    forwards to the managers it owns. *)

From S2P Require Import Prelude Address HTM XactProfiler CacheMemory TxState TxProfile.
From S2P Require DataBlock IsolationManager LazyVM CommitArbiter EagerVM.
From S2P Require XactIsolationChecker XactValueChecker ConflictManager Forwarding.
Import DataBlock (DataBlock).

#[local] Open Scope Z_scope.

(** ** Packets *)

(** What the code reads of a packet and its request. *)
Record Packet := MkPacket {
  pkt_addr : Z;
  pkt_size : Z;
  pkt_data : list Z;
  pkt_isRead : bool;
  pkt_isHtmTransactional : bool;
  pkt_htmTransactionUid : Z;
  pkt_htmXid : Z;
  req_isInstFetch : bool;
  req_isHTMPower : bool;
  req_htmAbortCause : HtmFailureFaultCause;
  req_requestorId : Z;
  req_time : Z;
  req_instCount : Z
}.

#[global] Instance eta_Packet : Eta Packet := fun p =>
  MkPacket (pkt_addr p) (pkt_size p) (pkt_data p) (pkt_isRead p) (pkt_isHtmTransactional p)
    (pkt_htmTransactionUid p) (pkt_htmXid p) (req_isInstFetch p) (req_isHTMPower p)
    (req_htmAbortCause p) (req_requestorId p) (req_time p) (req_instCount p).

Section ops.
Context `{RS : RubySystem} `{CF : Config} `{E : Env} {C : Type} `{DC : DataCache C}.
Notation W := (World C).

(** ** Begin *)

(** The forwarding fields are at rest. *)
Definition assert_not_forwarding : M W unit :=
  when config_allowEarlyValueFwd
    (let* w := get in
     let* p := lift (isProducer w) in
     do* massert (negb p);
     do* massert (negb (isConsumer w));
     let* c := lift (hasConsumedData w) in
     do* massert (negb c);
     do* massert (emptyb (m_sentDataForwardedToConsumer (fwd w)));
     do* massert (emptyb (m_allReceivedData (fwd w)));
     do* massert (emptyb (m_allSentData (fwd w)));
     do* massert (negb (m_consumerTurnedProducer (fwd w)));
     massert (negb (m_producerTurnedConsumer (fwd w)))).

(** The version manager of the configuration. *)
Definition begin_versioning (pkt : Packet) : M W unit :=
  if lazy_vm params then
    unless (eager_cd params)
      (do* on_lvm (LazyVM.beginTransaction (req_requestorId pkt) (pkt_htmTransactionUid pkt));
       on_arb CommitArbiter.beginTransaction)
  else on_evm EagerVM.beginTransaction.

Definition beginTransaction (pkt : Packet) : M W unit :=
  let* w := get in
  do* massert (m_transactionLevel (ctl w) =? 0);
  do* massert (m_escapeLevel (ctl w) =? 0);
  do* massert (negb (m_atCommit (ctl w)));
  do* on_ctl (upd! m_transactionLevel ::= Z.add 1);
  do* massert (negb (m_unrollingLogFlag (ctl w)));
  do* massert (m_currentHtmUid (ctl w) <? pkt_htmTransactionUid pkt);
  do* massert (m_htmXid (ctl w) =? LONG_MIN);
  do* on_ctl (set! m_currentHtmUid := pkt_htmTransactionUid pkt);
  do* on_ctl (set! m_htmXid := pkt_htmXid pkt);
  do* on_iso IsolationManager.beginTransaction;
  do* ConflictManager.beginTransaction (req_isHTMPower pkt);
  do* assert_not_forwarding;
  do* begin_versioning pkt;
  let* w := get in
  let* power := lift (isPowerMode w) in
  do* moveTo (if power then TRANSACTIONAL_POWER else TRANSACTIONAL);
  do* on_ctl (set! m_htmstart_tick := req_time pkt);
  do* on_ctl (set! m_htmstart_instruction := req_instCount pkt);
  let* w := get in
  do* when (isAborting w) (moveTo ABORTING);
  when config_allowEarlyValueFwd (massert (m_hwTransPrio (fwd w) =? NC_PRIO_VALUE)).

(** ** Commit *)

Definition shouldValidateTransaction : res bool :=
  CommitArbiter.shouldValidateTransaction (lazy_arbitration params).

Definition canCommitTransaction (w : W) : res bool :=
  if eager_cd params then
    if config_allowEarlyValueFwd then
      if m_abortFlag (ctl w) then Ok true
      else Ok (emptyb (m_recvDataForwardedFromProducer (fwd w)))
    else Ok true
  else if LazyVM.m_committed (lvm w) then Ok true
  else if LazyVM.m_committing (lvm w) then Ok false
  else
    let? v := shouldValidateTransaction in
    if v then
      if m_abortFlag (ctl w) then Ok true
      else if CommitArbiter.m_validated (arb w).1 then Ok false
      else Ok false
    else Ok false.

(** What the arbiters see of a manager. *)
Definition committer (w : W) : CommitArbiter.Committer :=
  CommitArbiter.MkCommitter (arb w).1 (iso w) (getTransactionLevel w).

(** [others] are the remaining managers of the system; they are returned
    with their byte-level conflict profile. *)
Definition initiateCommitTransaction (others : list W) : M W (list W) :=
  let* w := get in
  if config_allowEarlyValueFwd then
    do* massert (eager_cd params);
    do* unless (m_atCommit (ctl w))
          (do* on_ctl (set! m_atCommit := true);
           moveTo COMMITTING);
    ret others
  else
    do* massert (negb (eager_cd params));
    do* on_ctl (set! m_atCommit := true);
    if LazyVM.m_committed (lvm w) then ret others
    else
      let* validate := lift shouldValidateTransaction in
      if validate && negb (CommitArbiter.m_validated (arb w).1) then
        do* moveTo ARBITRATION;
        do* on_arb (CommitArbiter.initiateValidateTransaction (lazy_arbitration params)
                      (precise_read_set_tracking params) (m_version (ctl w)) (committer w)
                      (map committer (w :: others)));
        ret others
      else
        do* unless (LazyVM.m_committing (lvm w)) (moveTo COMMITTING);
        let* l := on_lvm (LazyVM.commitTransaction (getTransactionLevel w)
                            (lazy_commit_width params) seq_makeRequest (map lvm others)) in
        ret (zip_with (fun o v => o <| lvm := v |>) others l).

(** A hit for a store, or else for a load. *)
Definition cachedBlock (addr : Z) (w : W) : res (option DataBlock) :=
  let? hit := dc_tryCacheAccess (makeLineAddress addr) ST (dcache w) in
  match hit with
  | Some blk => Ok (Some blk)
  | None => dc_tryCacheAccess addr LD (dcache w)
  end.

(** Blocks a power transaction nacked for: did one change since?  The loop
    stops at the first. *)
Fixpoint nacked_changed (l : list (Z * DataBlock)) : M W bool :=
  match l with
  | [] => ret false
  | (addr, db) :: rest =>
      let* w := get in
      let* hit := lift (cachedBlock addr w) in
      match hit with
      | None => do* incr m_htm_transaction_power_modified 0; nacked_changed rest
      | Some blk => if DataBlock.equal blk db then nacked_changed rest else ret true
      end
  end.

Definition profile_nacked : M W unit :=
  let* w := get in
  unless (emptyb (m_nackedAddressesReg (fwd w)))
    (let* checkMod := nacked_changed (std_list (m_nackedAddressesReg (fwd w))) in
     do* incr m_htm_transaction_power_modified (if checkMod then 1 else 0);
     on_fwd (set! m_nackedAddressesReg := ∅)).

(** The look-ups of the produced blocks: only their assertions matter. *)
Definition check_produced (w : W) : res unit :=
  foldR (fun _ (it : Z * DataBlock) => let? _ := cachedBlock it.1 w in Ok tt)
    tt (std_list (m_sentDataForwardedToConsumer (fwd w))).

(** The resets that the end of a transaction has in common. *)
Definition reset_forwarding : M Fwd unit :=
  do* set! m_sentDataForwardedToConsumer := ∅;
  do* set! m_hasReceivedDataFromProducer := createInvalidMachineID;
  do* set! m_hasSentDataToConsumer := ∅;
  do* set! m_allReceivedData := ∅;
  do* set! m_allSentData := ∅;
  do* set! m_consumerTurnedProducer := false;
  do* set! m_producerTurnedConsumer := false;
  do* set! m_hasConsumedValidData := false;
  do* set! m_hasValidatedAnyData := false;
  do* set! m_dataConsumedFromPower := false;
  do* set! m_consumerLowPrio := false;
  set! m_reconsumer := false.

Definition commit_forwarding : M W unit :=
  when config_allowEarlyValueFwd
    (let* w := get in
     do* massert (negb (isConsumer w));
     do* unless (m_hwTransPrio (fwd w) =? NC_PRIO_VALUE)
           (on_st (sample m_htm_PiC_committed (m_hwTransPrio (fwd w)) 1));
     let* c := lift (hasConsumedData w) in
     do* on_ctl (set! m_atCommit := false);
     let* p := lift (isProducer w) in
     do* when p (lift (check_produced w));
     do* on_fwd reset_forwarding;
     do* on_fwd (set! m_currentValidationAddress := 0);
     massert (bool_decide (validationEvent (fwd w) = None))).

(** Speculative state in the L1 cache: becomes architectural as it is. *)
Definition commit_eager_lazy : M W unit :=
  do* profile_nacked;
  do* profileHtmFwdTransaction false 0;
  let* w := get in
  do* on_st (sample m_htm_executed_tx_xid (m_htmXid (ctl w)) 1);
  do* on_st (sample m_htm_committed_tx_xid (m_htmXid (ctl w)) 1);
  commit_forwarding.

(** The write buffer has been flushed. *)
Definition commit_lazy_lazy : M W unit :=
  let* w := get in
  do* massert (m_atCommit (ctl w));
  do* on_lvm (LazyVM.notifyCommittedTransaction (getTransactionLevel w));
  do* on_arb (CommitArbiter.commitTransaction (lazy_arbitration params) (m_version (ctl w)));
  on_ctl (set! m_atCommit := false).

(** The log is dropped. *)
Definition commit_logtm : M W unit :=
  do* on_evm EagerVM.commitTransaction;
  let* w := get in
  lift (dc_checkHtmLogPendingClear (dcache w)).

Definition commit_versioning : M W unit :=
  if lazy_vm params then
    if eager_cd params then commit_eager_lazy else commit_lazy_lazy
  else commit_logtm.

(** The shadow sets of the isolation checker are emptied. *)
Definition clear_checked : M W unit :=
  when (isolation_checker params)
    (let* w := get in
     do* on_ichk (XactIsolationChecker.clearReadSet (m_version (ctl w)));
     on_ichk (XactIsolationChecker.clearWriteSet (m_version (ctl w)))).

(** The stack of aborted attempts is emptied into the histogram.  The source
    samples a [double], the percentage [t / total]; the model records its two
    terms. *)
Definition sample_retries (total : Z) (s : Stats) : Stats :=
  fold_left (fun s t => sample m_htm_percentage_executed_on_abort t total s)
    (m_retriesTicks s) s <| m_retriesTicks := [] |>.

Definition sample_cycles (d : SampleStat) (by_xid : SampleStat) (xid cycles : Z) (s : Stats)
    : Stats :=
  sample by_xid xid cycles (sample m_htm_cycles_xid xid cycles
    (sample d cycles 1 (sample m_htm_transaction_cycles cycles 1 s))).

Definition commit_stats (pkt : Packet) : M W unit :=
  let* w := get in
  let transaction_ticks := u64 (req_time pkt - m_htmstart_tick (ctl w)) in
  do* on_st (sample_cycles m_htm_transaction_commit_cycles m_htm_committed_cycles_xid
               (m_htmXid (ctl w)) (ticksToCycles transaction_ticks));
  do* on_st (sample_retries transaction_ticks);
  do* on_ctl (set! m_htmstart_tick := 0);
  do* on_st (sample m_htm_transaction_instructions
               (u64 (req_instCount pkt - m_htmstart_instruction (ctl w))) 1);
  on_ctl (set! m_htmstart_instruction := 0).

(** The loop over the read set before the commit only computes values it does
    not use. *)
Definition commit_outermost (pkt : Packet) : M W unit :=
  let* w := get in
  do* unless (m_atCommit (ctl w)) (moveTo COMMITTING);
  do* when (value_checker params)
        (on_vchk (XactValueChecker.commitTransaction (lazy_vm params) (eager_cd params)
                    (getProcID w) (dcache w)));
  do* commit_versioning;
  do* ConflictManager.commitTransaction;
  do* on_iso (IsolationManager.commitTransaction (precise_read_set_tracking params));
  do* clear_checked;
  let* w := get in
  do* massert (bool_decide (m_writeSetDiscarded (ctl w) = ∅));
  do* massert (bool_decide (m_abortCause (ctl w) = Undefined));
  do* on_ctl (set! m_lastFailureCause := HTM.INVALID);
  do* on_fwd (set! m_hwTransPrio := NC_PRIO_VALUE);
  commit_stats pkt.

Definition commitTransaction (pkt : Packet) : M W unit :=
  let* w := get in
  if m_transactionLevel (ctl w) <? 1 then panic else
  do* massert (1 <=? m_transactionLevel (ctl w));
  do* massert (negb (m_abortFlag (ctl w)));
  do* massert (negb (m_htmXid (ctl w) =? LONG_MIN));
  do* when (m_transactionLevel (ctl w) =? 1) (commit_outermost pkt);
  do* on_ctl (set! m_htmXid := LONG_MIN);
  do* on_ctl (upd! m_transactionLevel ::= fun l => l - 1);
  moveTo DEFAULT.

(** ** Abort *)

Definition deallocate (addr : Z) : M W unit :=
  let* w := get in
  let* c := lift (dc_deallocate addr (dcache w)) in
  set! dcache := c.

Definition discard_written (addr : Z) : M W unit :=
  let* w := get in
  let discarded := bool_decide (addr ∈ m_writeSetDiscarded (ctl w)) in
  do* on_ctl (upd! m_writeSetDiscarded ::= fun s => s ∖ {[addr]});
  let* hit := lift (dc_tryCacheAccess (makeLineAddress addr) ST (dcache w)) in
  if discarded then massert (bool_decide (hit = None))
  else
    do* massert (negb (bool_decide (hit = None)));
    deallocate addr.

Definition discardWriteSetFromL1DataCache : M W unit :=
  let* w := get in
  do* forM (IsolationManager.getWriteSet (iso w)) discard_written;
  let* w := get in
  massert (bool_decide (m_writeSetDiscarded (ctl w) = ∅)).

Definition discard_forwarded (addr : Z) : M W unit :=
  let* w := get in
  let* hit := lift (dc_tryCacheAccess (makeLineAddress addr) LD (dcache w)) in
  do* massert (negb (bool_decide (hit = None)));
  do* deallocate addr;
  let* written := lift (checkWriteSignature addr w) in
  when written (on_ctl (upd! m_writeSetDiscarded ::= fun s => {[addr]} ∪ s)).

Definition discardForwardedDataFromL1DataCache : M W unit :=
  let* w := get in
  forM (std_keys (m_recvDataForwardedFromProducer (fwd w))) discard_forwarded.

(** All consumers of the sent blocks. *)
Definition all_consumers (w : W) : gset MachineID :=
  fold_left (fun s it => s ∪ pi_consumers it.2) (std_list (m_allSentData (fwd w))) ∅.

Definition abort_forwarding : M W unit :=
  when config_allowEarlyValueFwd
    (let* w := get in
     do* unless (m_hwTransPrio (fwd w) =? NC_PRIO_VALUE)
           (on_st (sample m_htm_PiC_aborted (m_hwTransPrio (fwd w)) 1));
     let* p := lift (isProducer w) in
     do* when p (on_st (sample m_htm_producer_transactions_nprod_abort
                          (Z.of_nat (size (all_consumers w))) 1));
     let* c := lift (hasConsumedData w) in
     do* discardForwardedDataFromL1DataCache;
     do* on_fwd reset_forwarding;
     do* on_fwd (set! m_recvDataForwardedFromProducer := ∅);
     on_fwd (set! validationEvent := None)).

Definition abort_eager_lazy : M W unit :=
  let* w := get in
  let* power := lift (isPowerMode w) in
  do* when power
        (unless (emptyb (m_nackedAddressesReg (fwd w)))
           (do* incr m_htm_transaction_power_modified 2;
            on_fwd (set! m_nackedAddressesReg := ∅)));
  do* abort_forwarding;
  do* on_fwd (set! m_hwTransPrio := NC_PRIO_VALUE);
  do* discardWriteSetFromL1DataCache;
  when (m_atCommit (ctl w))
    (do* massert config_allowEarlyValueFwd;
     on_ctl (set! m_atCommit := false)).

(** The causes admitted for a transaction that was already validated. *)
Definition validated_abort_ok (w : W) : res unit :=
  match m_abortCause (ctl w) with
  | FallbackLock =>
      rassert (m_abortSourceNonTransactional (ctl w) || negb enableL0DowngradeOnL1Gets)
  | Conflict | ConflictStale =>
      rassert (conflict_resolution params =? Policy.requester_wins)%string
  | L2Capacity | L1Capacity => Ok tt
  | L0Capacity =>
      rassert (m_capacityAbortWriteSet (ctl w) ||
               negb (allow_read_set_l0_cache_evictions params))
  | Undefined => Ok tt
  | _ => Err EPanic
  end.

Definition abort_lazy_lazy : M W unit :=
  let* w := get in
  do* when (m_atCommit (ctl w))
        (do* (if LazyVM.m_committing (lvm w) then
                do* unless (m_abortFlag (ctl w))
                      (on_lvm (LazyVM.cancelWriteBufferFlush (getTransactionLevel w)));
                discardWriteSetFromL1DataCache
              else if CommitArbiter.m_validated (arb w).1 then lift (validated_abort_ok w)
              else massert (CommitArbiter.m_validating (arb w).1));
         on_ctl (set! m_atCommit := false));
  do* on_lvm (LazyVM.restartTransaction (getTransactionLevel w));
  on_arb (CommitArbiter.restartTransaction (lazy_arbitration params) (m_version (ctl w))).

Definition abort_stats (pkt : Packet) : M W unit :=
  let* w := get in
  let transaction_ticks := u64 (req_time pkt - m_htmstart_tick (ctl w)) in
  do* on_st (fun s => s <| m_retriesTicks ::= cons transaction_ticks |>);
  on_st (sample_cycles m_htm_transaction_abort_cycles m_htm_aborted_cycles_xid
           (m_htmXid (ctl w)) (ticksToCycles transaction_ticks)).

(** The abort of a transaction whose stores never left the cache or the
    write buffer. *)
Definition abort_lazy (pkt : Packet) : M W unit :=
  let* w := get in
  do* when (value_checker params)
        (on_vchk (XactValueChecker.restartTransaction (lazy_vm params) (getProcID w)));
  do* (if eager_cd params then abort_eager_lazy else abort_lazy_lazy);
  do* abort_stats pkt;
  do* ConflictManager.restartTransaction;
  do* on_ctl (set! m_htmXid := LONG_MIN);
  let* w := get in
  let* accessed := lift (signed (IsolationManager.getReadSetSize (iso w) +
                                 IsolationManager.getWriteSetSize (iso w))) in
  do* on_st (sample m_htm_accessed_mem_abort accessed 1);
  do* on_iso IsolationManager.releaseIsolation;
  clear_checked.

(** LogTM: the abort is complete if nothing was logged; otherwise the write
    set stays isolated until the handler has unrolled the log. *)
Definition abort_logtm : M W unit :=
  let* w := get in
  let* logsize := lift (EagerVM.getLogNumEntries (evm w)) in
  if logsize =? 0 then
    do* on_iso IsolationManager.releaseIsolation;
    do* clear_checked;
    do* on_evm EagerVM.restartTransaction;
    ConflictManager.restartTransaction
  else
    do* on_iso IsolationManager.releaseReadIsolation;
    do* when (isolation_checker params)
          (on_ichk (XactIsolationChecker.clearReadSet (m_version (ctl w))));
    let* w := get in
    let wsetsize := IsolationManager.getWriteSetSize (iso w) in
    do* unless (wsetsize =? logsize) (massert (wsetsize + 1 =? logsize));
    do* on_ctl (set! m_unrollingLogFlag := true);
    do* on_ctl (set! m_escapeLevel := 1);
    massert (m_transactionLevel (ctl w) =? 1).

(** The checks on a transaction that had reached its commit. *)
Definition abort_at_commit : M W unit :=
  let* w := get in
  if negb (eager_cd params) && m_atCommit (ctl w) then
    let* v := lift shouldValidateTransaction in
    if CommitArbiter.m_validated (arb w).1 then
      do* massert v;
      massert (negb (conflict_resolution params =? Policy.committer_wins)%string)
    else if v then ret tt
    else panic
  else unless config_allowEarlyValueFwd (massert (negb (m_atCommit (ctl w)))).

Definition abort_level : M W unit :=
  let* w := get in
  if negb (m_unrollingLogFlag (ctl w)) then on_ctl (set! m_transactionLevel := 0)
  else
    do* massert (negb (lazy_vm params));
    do* massert (m_transactionLevel (ctl w) =? 1);
    let* n := lift (EagerVM.getLogNumEntries (evm w)) in
    massert (0 <? n).

Definition abort_flag : M W unit :=
  let* w := get in
  if m_abortFlag (ctl w) then
    on_ctl (do* set! m_abortFlag := false;
            do* set! m_abortCause := Undefined;
            set! m_abortAddress := 0)
  else moveTo ABORTING.

Definition abortTransaction (pkt : Packet) : M W unit :=
  let* w := get in
  do* massert (m_transactionLevel (ctl w) =? 1);
  do* massert (m_escapeLevel (ctl w) =? 0);
  do* massert (negb (m_htmXid (ctl w) =? LONG_MIN));
  do* profileHtmFailureFaultCause (req_htmAbortCause pkt);
  do* (if lazy_vm params then abort_lazy pkt else abort_logtm);
  do* abort_at_commit;
  do* abort_level;
  do* abort_flag;
  moveTo ABORT_HANDLER.

(** ** Read and write set *)

Definition isolateTransactionLoad (addr : Z) : M W unit :=
  let* w := get in
  do* (if m_transactionLevel (ctl w) =? 0
       then massert (negb (precise_read_set_tracking params))
       else massert (m_transactionLevel (ctl w) =? 1));
  on_iso (IsolationManager.addToReadSetPerfectFilter (getTransactionLevel w)
            (makeLineAddress addr)).

Definition addToRetiredReadSet (addr : Z) : M W unit :=
  let* w := get in
  do* massert (m_transactionLevel (ctl w) =? 1);
  let physicalAddr := makeLineAddress addr in
  do* on_iso (IsolationManager.addToRetiredReadSet physicalAddr);
  when (isolation_checker params)
    (on_ichk (XactIsolationChecker.addToReadSet curTick (m_version (ctl w)) physicalAddr)).

Definition inRetiredReadSet (addr : Z) (w : W) : res bool :=
  IsolationManager.inRetiredReadSet (makeLineAddress addr) (iso w).

Definition isolateTransactionStore (addr : Z) : M W unit :=
  let* w := get in
  do* massert (0 <? m_transactionLevel (ctl w));
  let physicalAddr := makeLineAddress addr in
  do* on_iso (IsolationManager.addToWriteSetPerfectFilter physicalAddr);
  when (isolation_checker params)
    (on_ichk (XactIsolationChecker.addToWriteSet curTick (m_version (ctl w)) physicalAddr)).

(** ** Evictions *)

(** An own private cache may evict read-set lines if the configuration says
    so. *)
Definition eviction_tolerated (source : MachineID) (w : W) : bool :=
  (machineIDToNodeID source =? getProcID w) &&
  negb (machineIDToMachineType source =? MachineType_L2Cache) &&
  ((allow_read_set_l0_cache_evictions params &&
    (machineIDToMachineType source =? MachineType_L0Cache)) ||
   allow_read_set_l1_cache_evictions params).

Definition replacement_flags (capacity wset dataStale : bool) : AbortFlags :=
  no_flags <| af_capacity := capacity |> <| af_wset := wset |> <| af_dataStale := dataStale |>.

Definition replacement_abort (addr : Z) (source : MachineID) (capacity wset dataStale : bool)
    : M W unit :=
  setAbortFlag addr source NonTrans NC_PRIO_VALUE false
    (replacement_flags capacity wset dataStale).

(** The line is stale, and not in the write set. *)
Definition replace_stale (addr : Z) (source : MachineID) (capacity : bool) : M W unit :=
  let* w := get in
  let* d := lift (isDoomed w) in
  if d || negb (inTransaction w) then ret tt else
  let* uid := lift (packetUid addr) in
  do* when ((uid <? m_currentHtmUid (ctl w)) && negb (precise_read_set_tracking params))
        (isolateTransactionLoad addr);
  replacement_abort addr source capacity false true.

(** The line holds forwarded data that was not validated yet. *)
Definition replace_spec (addr : Z) (source : MachineID) (capacity : bool) : M W unit :=
  let* w := get in
  do* massert (isBlockConsumed addr w);
  do* massert (has addr (m_allReceivedData (fwd w)));
  do* on_fwd (upd! m_recvDataForwardedFromProducer ::= delete addr);
  let* d := lift (isDoomed w) in
  if d || negb (inTransaction w) then ret tt else
  let* _ := lift (checkReadSignature addr w) in
  replacement_abort addr source capacity false false.

Definition replace_read (addr : Z) (source : MachineID) (capacity : bool) : M W unit :=
  let* w := get in
  let* r := lift (checkReadSignature addr w) in
  do* massert r;
  if negb (lazy_vm params) && isUnrollingLog w then ret tt
  else if eviction_tolerated source w then ret tt
  else replacement_abort addr source capacity false false.

Definition xactReplacement (addr : Z) (source : MachineID) (capacity dataStale spec : bool)
    : M W unit :=
  do* massert (makeLineAddress addr =? addr);
  let* w := get in
  let* written := lift (checkWriteSignature addr w) in
  if written then
    if negb (lazy_vm params) then ret tt
    else
      do* when capacity (on_ctl (upd! m_writeSetDiscarded ::= fun s => {[addr]} ∪ s));
      replacement_abort addr source capacity true dataStale
  else if dataStale then replace_stale addr source capacity
  else if spec then replace_spec addr source capacity
  else replace_read addr source capacity.

(** ** Calls handed to the managers *)

Definition shouldNackLoad (addr : Z) (requestor : MachineID) (remote_timestamp : Z)
    (remote_trans : TransactionBit) (remote_priority : Z) (remote_sw_priority : bool)
    : M W bool :=
  do* massert (addr =? makeLineAddress addr);
  ConflictManager.shouldNackLoad addr requestor remote_timestamp remote_trans remote_priority
    remote_sw_priority.

Definition shouldNackStore (addr : Z) (requestor : MachineID) (remote_timestamp : Z)
    (remote_trans : TransactionBit) (remote_priority : Z)
    (remote_sw_priority local_is_exclusive : bool) : M W bool :=
  do* massert (addr =? makeLineAddress addr);
  ConflictManager.shouldNackStore addr requestor remote_timestamp remote_trans remote_priority
    remote_sw_priority local_is_exclusive.

Definition notifyReceiveNack (addr remote_timestamp : Z) (remote_trans : TransactionBit)
    (remote_priority : Z) (remote_sw_priority : bool) (remote_id : MachineID) (writer : bool)
    : M W unit :=
  ConflictManager.notifyReceiveNack addr remote_timestamp remote_trans remote_priority
    remote_sw_priority remote_id writer.

Definition getOldestTimestamp (w : W) : res Z := ConflictManager.getOldestTimestamp w.

Definition redirectStoreToWriteBuffer (pkt : Packet) : M W unit :=
  let* w := get in
  do* massert (0 <? getTransactionLevel w);
  do* on_lvm (LazyVM.addToWriteBuffer (getTransactionLevel w) (pkt_addr pkt) (pkt_size pkt)
                (pkt_data pkt));
  on_iso (IsolationManager.redirectedStoreToWriteBuffer (makeLineAddress (pkt_addr pkt))).

(** The size of the local [buffer]. *)
Definition BUFFER_SIZE : Z := 256.

(** The packet with the data the load returns. *)
Definition bypassLoadFromWriteBuffer (pkt : Packet) (datablock : DataBlock) : M W Packet :=
  do* massert (lazy_vm params && negb (eager_cd params));
  do* massert (pkt_isRead pkt && negb (req_isInstFetch pkt));
  let* w := get in
  let* r := on_lvm (LazyVM.forwardData (getTransactionLevel w) (pkt_addr pkt) (pkt_size pkt)
                      datablock) in
  let '(data, forwarding) := r in
  if forwarding then
    do* massert (pkt_isHtmTransactional pkt);
    do* massert (Z.of_nat (length data) =? pkt_size pkt);
    do* massert (Z.of_nat (length data) <? BUFFER_SIZE);
    ret (pkt <| pkt_data := data |>)
  else ret pkt.

Definition mergeDataFromWriteBuffer (pkt : Packet) (datablock : DataBlock) : M W DataBlock :=
  let* w := get in
  on_lvm (LazyVM.mergeDataFromWriteBuffer (getTransactionLevel w) (lazy_commit_width params)
            seq_makeRequest (pkt_addr pkt) datablock).

Definition isLogReady (w : W) : bool := EagerVM.isReady (evm w).
Definition isAccessToLog (addr : Z) (w : W) : bool := EagerVM.isAccessToLog addr (evm w).
Definition isEndLogUnrollSignal (vaddr : option Z) (isWrite : bool) (data : Z) (w : W)
    : res bool :=
  EagerVM.isEndLogUnrollSignal vaddr isWrite data (evm w).
Definition setupLogTranslation (vaddr paddr : Z) : M W unit :=
  on_evm (EagerVM.setupLogTranslation vaddr paddr).
Definition translateLogAddress (vaddr : Z) (w : W) : res Z :=
  EagerVM.translateLogAddress vaddr (evm w).
Definition addLogEntry : M W Z := on_evm EagerVM.addLogEntry.
Definition getLogNumEntries (w : W) : res Z := EagerVM.getLogNumEntries (evm w).

Definition endLogUnroll : M W unit :=
  let* w := get in
  do* massert (m_transactionLevel (ctl w) =? 1);
  do* massert (m_escapeLevel (ctl w) =? 1);
  do* massert (negb (lazy_vm params));
  do* massert (m_unrollingLogFlag (ctl w));
  do* on_evm EagerVM.restartTransaction;
  do* ConflictManager.restartTransaction;
  do* on_iso IsolationManager.releaseIsolation;
  do* clear_checked;
  do* on_ctl (set! m_escapeLevel := 0);
  do* on_ctl (set! m_transactionLevel := 0);
  do* on_ctl (set! m_unrollingLogFlag := false);
  when (value_checker params)
    (on_vchk (XactValueChecker.restartTransaction (lazy_vm params) (getProcID w))).

(** ** Escape actions and the fallback lock *)

Definition beginEscapeAction : M W unit :=
  let* w := get in
  do* massert (m_escapeLevel (ctl w) =? 0);
  on_ctl (upd! m_escapeLevel ::= Z.add 1).

Definition endEscapeAction : M W unit :=
  let* w := get in
  do* massert (m_escapeLevel (ctl w) =? 1);
  on_ctl (upd! m_escapeLevel ::= fun n => n - 1).

Definition inEscapeAction (w : W) : bool := 0 <? m_escapeLevel (ctl w).

Definition profileFlAcquisition (htmXid : Z) : M W unit :=
  on_ctl (set! m_htmstart_tick := curTick).

Definition profileFlRelease (htmXid : Z) : M W unit :=
  let* w := get in
  do* incr m_htm_transaction_executed_type_rate (2 * 6);
  do* on_st (sample m_committed_fl_tx_xid htmXid 1);
  let transaction_ticks := u64 (curTick - m_htmstart_tick (ctl w)) in
  do* on_st (sample m_htm_fl_cycles_tx_xid htmXid (ticksToCycles transaction_ticks));
  on_st (sample_retries transaction_ticks).
End ops.
