(* ===== verification/Frame.v ===== *)
(** * What the operations leave alone

    The forwarding chain of a processor is described by a few fields: the
    identity of its transaction, its hardware priority and the consumed
    blocks that wait for validation.  Most operations keep the first two and
    can only drop blocks; this file proves it for each of them. *)

From S2P Require Import Prelude Address HTM XactProfiler CacheMemory TxState TxProfile.
From S2P Require DataBlock IsolationManager LazyVM CommitArbiter EagerVM.
From S2P Require XactIsolationChecker XactValueChecker ConflictManager Forwarding.
From S2P Require InterfaceManager.

#[local] Open Scope Z_scope.

Definition recv (f : Fwd) : gset Z := dom (m_recvDataForwardedFromProducer f).

(** The same transaction. *)
Definition ctl_frame (c c' : Ctl) : Prop :=
  m_version c' = m_version c /\ m_currentHtmUid c' = m_currentHtmUid c /\
  m_transactionLevel c' = m_transactionLevel c.

(** The same priority, and no new consumed block. *)
Definition fwd_frame (f f' : Fwd) : Prop :=
  m_hwTransPrio f' = m_hwTransPrio f /\ recv f' ⊆ recv f.

#[global] Instance ctl_frame_preorder : PreOrder ctl_frame.
Proof.
  split; [done|]. intros x y z (? & ? & ?) (? & ? & ?). repeat split; congruence.
Qed.

#[global] Instance fwd_frame_preorder : PreOrder fwd_frame.
Proof.
  split; [done|]. intros x y z [? ?] [? ?]. split; [congruence|set_solver].
Qed.

Section frame.
Context `{RS : RubySystem} `{CF : Config} `{E : Env} {C : Type} `{DC : DataCache C}.
Notation W := (World C).

Definition frame (w w' : W) : Prop :=
  ctl_frame (ctl w) (ctl w') /\ fwd_frame (fwd w) (fwd w').

#[export] Instance frame_preorder : PreOrder frame.
Proof.
  split; [done|]. intros x y z [? ?] [? ?]. split; by etrans.
Qed.

(** ** Leaves *)

Lemma keeps_on_ctl {A} (m : M Ctl A) : keeps ctl_frame m -> keeps frame (on_ctl m).
Proof. intros Hm. apply (keeps_zoom _ _ _ _ _ Hm). intros w c H. done. Qed.

Lemma keeps_on_fwd {A} (m : M Fwd A) : keeps fwd_frame m -> keeps frame (on_fwd m).
Proof. intros Hm. apply (keeps_zoom _ _ _ _ _ Hm). intros w c H. done. Qed.

Lemma keeps_on_cm {A} (m : M ConflictManager A) : keeps frame (on_cm m).
Proof. by apply keeps_zoom_any. Qed.
Lemma keeps_on_iso {A} (m : M IsolationManager.IsolationManager A) : keeps frame (on_iso m).
Proof. by apply keeps_zoom_any. Qed.
Lemma keeps_on_lvm {A} (m : M LazyVM.LazyVM A) : keeps frame (on_lvm m).
Proof. by apply keeps_zoom_any. Qed.
Lemma keeps_on_arb {A} (m : M CommitArbiter.ArbHTM A) : keeps frame (on_arb m).
Proof. by apply keeps_zoom_any. Qed.
Lemma keeps_on_evm {A} (m : M EagerVM.EagerVM A) : keeps frame (on_evm m).
Proof. by apply keeps_zoom_any. Qed.
Lemma keeps_on_prof {A} (m : M XactProfiler A) : keeps frame (on_prof m).
Proof. by apply keeps_zoom_any. Qed.
Lemma keeps_on_ichk {A} (m : M XactIsolationChecker.XactIsolationChecker A) :
  keeps frame (on_ichk m).
Proof. by apply keeps_zoom_any. Qed.
Lemma keeps_on_vchk {A} (m : M XactValueChecker.XactValueChecker A) : keeps frame (on_vchk m).
Proof. by apply keeps_zoom_any. Qed.
Lemma keeps_on_st f : keeps frame (on_st f).
Proof. by apply keeps_modify. Qed.
Lemma keeps_set_dcache (c : C) : keeps frame (set! dcache := c).
Proof. by apply keeps_modify. Qed.

(** A field the frames do not mention. *)
Lemma keeps_ctl_modify f : (forall c, ctl_frame c (f c)) -> keeps ctl_frame (modify f).
Proof. apply keeps_modify. Qed.
Lemma keeps_fwd_modify f : (forall c, fwd_frame c (f c)) -> keeps fwd_frame (modify f).
Proof. apply keeps_modify. Qed.
End frame.

#[export] Hint Resolve keeps_on_cm keeps_on_iso keeps_on_lvm keeps_on_arb keeps_on_evm
  keeps_on_prof keeps_on_ichk keeps_on_vchk keeps_on_st keeps_set_dcache : keeps.
#[export] Hint Extern 1 (keeps frame (on_ctl _)) => (apply keeps_on_ctl; keeps) : keeps.
#[export] Hint Extern 1 (keeps frame (on_fwd _)) => (apply keeps_on_fwd; keeps) : keeps.
#[export] Hint Extern 1 (keeps ctl_frame (modify _)) =>
  (apply keeps_ctl_modify; intros ?; repeat split; reflexivity) : keeps.
#[export] Hint Extern 1 (keeps fwd_frame (modify _)) =>
  (apply keeps_fwd_modify; intros ?; split; reflexivity) : keeps.

Section ops.
Context `{RS : RubySystem} `{CF : Config} `{E : Env} {C : Type} `{DC : DataCache C}.
Notation W := (World C).

(** ** Shared operations *)

Lemma keeps_moveTo r : keeps (frame (C := C)) (moveTo r).
Proof. unfold moveTo. keeps. Qed.
#[local] Hint Resolve keeps_moveTo : keeps.

Lemma keeps_choose_abort_cause (w : W) src t sw f :
  keeps ctl_frame (choose_abort_cause w src t sw f).
Proof. unfold choose_abort_cause. keeps. Qed.
#[local] Hint Resolve keeps_choose_abort_cause : keeps.

Lemma keeps_setAbortFlag addr src t prio sw f :
  keeps (frame (C := C)) (setAbortFlag addr src t prio sw f).
Proof. unfold setAbortFlag, forget_checked. keeps. Qed.
#[local] Hint Resolve keeps_setAbortFlag : keeps.

Lemma keeps_cancelTransaction : keeps (frame (C := C)) cancelTransaction.
Proof. unfold cancelTransaction. keeps. Qed.

Lemma keeps_notifyIllegalFailure : keeps (frame (C := C)) notifyIllegalFailure.
Proof. unfold notifyIllegalFailure, setAbortCause. keeps. Qed.

Lemma keeps_isIllegalNack addr src prio sw :
  keeps (frame (C := C)) (isIllegalNack addr src prio sw).
Proof. unfold isIllegalNack. keeps. Qed.

Lemma keeps_getActionOnIllegalData : keeps (frame (C := C)) getActionOnIllegalData.
Proof. unfold getActionOnIllegalData. keeps. Qed.
End ops.

#[export] Hint Resolve keeps_moveTo keeps_setAbortFlag keeps_cancelTransaction
  keeps_notifyIllegalFailure keeps_isIllegalNack keeps_getActionOnIllegalData : keeps.

Section conflicts.
Context `{RS : RubySystem} `{CF : Config} `{E : Env} {C : Type} `{DC : DataCache C}.
Notation W := (World C).
(** Priorities change with nacks only under the policy [requester_stalls_pic_base]. *)
Hypothesis no_pic : isPicPolicy = false.

(** ** Conflict resolution *)

Lemma keeps_notifySendNack addr ts id prio sw :
  keeps (frame (C := C)) (ConflictManager.notifySendNack addr ts id prio sw).
Proof. unfold ConflictManager.notifySendNack. rewrite no_pic. keeps. Qed.
#[local] Hint Resolve keeps_notifySendNack : keeps.

Lemma keeps_shouldNackRemoteRequest addr id ts t prio sw wr :
  keeps (frame (C := C)) (ConflictManager.shouldNackRemoteRequest addr id ts t prio sw wr).
Proof.
  unfold ConflictManager.shouldNackRemoteRequest, ConflictManager.stalls_shouldNack. keeps.
Qed.
#[local] Hint Resolve keeps_shouldNackRemoteRequest : keeps.

Lemma keeps_shouldNackLoad addr id ts t prio sw :
  keeps (frame (C := C)) (InterfaceManager.shouldNackLoad addr id ts t prio sw).
Proof. unfold InterfaceManager.shouldNackLoad, ConflictManager.shouldNackLoad. keeps. Qed.

Lemma keeps_shouldNackStore addr id ts t prio sw ex :
  keeps (frame (C := C)) (InterfaceManager.shouldNackStore addr id ts t prio sw ex).
Proof.
  unfold InterfaceManager.shouldNackStore, ConflictManager.shouldNackStore,
    ConflictManager.stalls_store. keeps.
Qed.

Lemma keeps_notifyReceiveNack addr ts t prio sw id wr :
  keeps (frame (C := C)) (ConflictManager.notifyReceiveNack addr ts t prio sw id wr).
Proof.
  unfold ConflictManager.notifyReceiveNack, ConflictManager.stalls_receiveNack.
  rewrite no_pic. keeps.
Qed.
#[local] Hint Resolve keeps_notifyReceiveNack : keeps.

(** ** Validation *)

Lemma fwd_frame_insert (f : Fwd) a d :
  is_Some (m_recvDataForwardedFromProducer f !! a) ->
  fwd_frame f (f <| m_recvDataForwardedFromProducer ::= <[a := d]> |>).
Proof.
  intros Ha. split; [done|]. unfold recv. cbn. rewrite dom_insert_L.
  apply elem_of_dom in Ha. set_solver.
Qed.

Lemma fwd_frame_delete (f : Fwd) a :
  fwd_frame f (f <| m_recvDataForwardedFromProducer ::= delete a |>).
Proof. split; [done|]. unfold recv. cbn. set_solver. Qed.

Lemma keeps_delete_recv a :
  keeps fwd_frame (upd! m_recvDataForwardedFromProducer ::= delete a).
Proof. apply keeps_modify. intros f. apply fwd_frame_delete. Qed.
#[local] Hint Resolve keeps_delete_recv : keeps.

Lemma keeps_schedule addr retry :
  keeps (frame (C := C)) (Forwarding.scheduleValidationOfConsumedData addr retry).
Proof. unfold Forwarding.scheduleValidationOfConsumedData. keeps. Qed.
#[local] Hint Resolve keeps_schedule : keeps.

Lemma keeps_blockValidated addr : keeps (frame (C := C)) (Forwarding.blockValidated addr).
Proof. unfold Forwarding.blockValidated. keeps. Qed.
#[local] Hint Resolve keeps_blockValidated : keeps.

Lemma keeps_scheduleNext addr : keeps (frame (C := C)) (Forwarding.scheduleNext addr).
Proof. unfold Forwarding.scheduleNext. keeps. Qed.
#[local] Hint Resolve keeps_scheduleNext : keeps.

Lemma keeps_at_insert_recv (w : W) a d :
  is_Some (m_recvDataForwardedFromProducer (fwd w) !! a) ->
  keeps_at frame (on_fwd (upd! m_recvDataForwardedFromProducer ::= <[a := d]>)) w.
Proof. intros Ha r w' [= _ <-]. split; [done|]. by apply fwd_frame_insert. Qed.

Lemma keeps_validateDataBlock addr src blk blk' ts dirty nack :
  keeps (frame (C := C)) (Forwarding.validateDataBlock addr src blk blk' ts dirty nack).
Proof.
  apply keeps_of_at. intros w. unfold Forwarding.validateDataBlock.
  apply keeps_at_massert. intros _. apply keeps_at_get, keeps_at_massert. intros _.
  destruct (m_recvDataForwardedFromProducer (fwd w) !! addr) as [d|] eqn:Ed; [|done].
  destruct (m_allReceivedData (fwd w) !! addr) as [i|]; [|done].
  apply keeps_at_lift. intros [[same blk1] blk2] _.
  apply keeps_at_bind; [typeclasses eauto|by apply keeps_at_insert_recv|]. intros _. keeps.
Qed.

Lemma keeps_setAccessOnForwardBlock addr off len wr :
  keeps (frame (C := C)) (Forwarding.setAccessOnForwardBlock addr off len wr).
Proof.
  apply keeps_of_at. intros w. unfold Forwarding.setAccessOnForwardBlock. apply keeps_at_get.
  destruct (m_recvDataForwardedFromProducer (fwd w) !! addr) as [d|] eqn:Ed; [|done].
  destruct (m_allReceivedData (fwd w) !! addr) as [i|]; [|done].
  apply keeps_at_lift. intros m1 _. apply keeps_at_lift. intros m2 _.
  destruct wr; [apply keeps_at_lift; intros m3 _|apply keeps_at_ret];
    (apply keeps_at_bind; [typeclasses eauto|by apply keeps_at_insert_recv|keeps]).
Qed.

Lemma keeps_setAccessOnProducedBlock addr off len wr :
  keeps (frame (C := C)) (Forwarding.setAccessOnProducedBlock addr off len wr).
Proof. unfold Forwarding.setAccessOnProducedBlock. keeps. Qed.

Lemma keeps_ValidateConsumedDataEvent :
  keeps (frame (C := C)) Forwarding.ValidateConsumedDataEvent_process.
Proof. unfold Forwarding.ValidateConsumedDataEvent_process. keeps. Qed.

Lemma keeps_addBlockToNackReg addr c :
  keeps (frame (C := C)) (Forwarding.addBlockToNackReg addr c).
Proof. unfold Forwarding.addBlockToNackReg. keeps. Qed.

(** ** The interface manager *)

Lemma keeps_isolateTransactionLoad addr :
  keeps (frame (C := C)) (InterfaceManager.isolateTransactionLoad addr).
Proof. unfold InterfaceManager.isolateTransactionLoad. keeps. Qed.
#[local] Hint Resolve keeps_isolateTransactionLoad : keeps.

Lemma keeps_isolateTransactionStore addr :
  keeps (frame (C := C)) (InterfaceManager.isolateTransactionStore addr).
Proof. unfold InterfaceManager.isolateTransactionStore. keeps. Qed.

Lemma keeps_addToRetiredReadSet addr :
  keeps (frame (C := C)) (InterfaceManager.addToRetiredReadSet addr).
Proof. unfold InterfaceManager.addToRetiredReadSet. keeps. Qed.

Lemma keeps_xactReplacement addr src cap stale spec :
  keeps (frame (C := C)) (InterfaceManager.xactReplacement addr src cap stale spec).
Proof.
  unfold InterfaceManager.xactReplacement, InterfaceManager.replace_stale,
    InterfaceManager.replace_spec, InterfaceManager.replace_read,
    InterfaceManager.replacement_abort. keeps.
Qed.

Lemma keeps_initiateCommitTransaction others :
  keeps (frame (C := C)) (InterfaceManager.initiateCommitTransaction others).
Proof. unfold InterfaceManager.initiateCommitTransaction. keeps. Qed.

Lemma keeps_beginEscapeAction : keeps (frame (C := C)) InterfaceManager.beginEscapeAction.
Proof. unfold InterfaceManager.beginEscapeAction. keeps. Qed.

Lemma keeps_endEscapeAction : keeps (frame (C := C)) InterfaceManager.endEscapeAction.
Proof. unfold InterfaceManager.endEscapeAction. keeps. Qed.
End conflicts.
