(* ===== verification/Chain.v ===== *)
(** * Chains of speculative forwarding

    Several processors forward uncommitted blocks to each other.  The
    handlers of [MESI_Three_Level_HTM_umu-L0cache.sm] that send and receive
    such blocks are composed here into a transition system of all
    processors, the requests and the responses in flight; the theorems show
    that the hardware priorities keep the consumer-to-producer relation free
    of cycles, and that some producer never waits. *)

From S2P Require Import Prelude Address HTM XactProfiler CacheMemory TxState TxProfile Frame.
From S2P Require DataBlock IsolationManager LazyVM CommitArbiter EagerVM.
From S2P Require XactIsolationChecker XactValueChecker ConflictManager Forwarding.
From S2P Require InterfaceManager.
Import DataBlock (DataBlock).

#[local] Open Scope Z_scope.

(** ** Messages *)

(** A request that reached the private cache of another processor. *)
Record Request := MkRequest {
  rq_addr : Z;
  rq_requestor : MachineID;
  rq_trans : TransactionBit;
  rq_prio : Z;
  rq_sw_prio : bool
}.

(** The answer to a refused request; [nk_data] tells a nack with speculative
    data from a plain one.  [nk_uid] is the sender's transaction: it is not
    part of the message, and no operation reads it. *)
Record Nack := MkNack {
  nk_addr : Z;
  nk_sender : MachineID;
  nk_requestor : MachineID;
  nk_timestamp : Z;
  nk_prio : Z;
  nk_sw_prio : bool;
  nk_data : bool;
  nk_uid : Z
}.

(** The events a nack can trigger. *)
Inductive NackEvent := Event_Nack | Event_Nack_Spec | Event_Nack_Spec_Illegal_Rtry.

Section handlers.
Context `{RS : RubySystem} `{CF : Config} `{E : Env} {C : Type} `{DC : DataCache C}.
Notation W := (World C).

(** What a request carries. *)
Definition issueRequest (addr : Z) (w : W) : res Request :=
  let? sw := getSwTransactionPriority w in
  Ok (MkRequest addr (MkMachineID MachineType_L1Cache (getProcID w)) (getTransactionBit w)
        (getTransactionPriority w) sw).

(** [valid]: the line is cached and not in a transient state; [inflight]:
    its state is [SM]. *)
Definition fn_sendInvNack (valid inflight : bool) (rq : Request) : M W Nack :=
  let* w := get in
  let* ts := lift (InterfaceManager.getOldestTimestamp w) in
  let prio := getTransactionPriority w in
  let* sw := lift (getSwTransactionPriority w) in
  let nack p d := MkNack (rq_addr rq) (MkMachineID MachineType_L1Cache (getProcID w))
                    (rq_requestor rq) ts p sw d (m_currentHtmUid (ctl w)) in
  if valid then
    let* fwd := Forwarding.shouldForwardDataToConsumer (rq_addr rq) (rq_requestor rq)
                  (rq_trans rq) (rq_prio rq) (rq_sw_prio rq) inflight in
    if fwd then
      do* Forwarding.addConsumer (rq_addr rq) (rq_requestor rq) (rq_prio rq) (rq_sw_prio rq);
      let* w := get in
      ret (nack (getTransactionPriority w) true)
    else
      do* Forwarding.addBlockToNackReg (rq_addr rq) (rq_requestor rq);
      ret (nack prio false)
  else ret (nack prio false).

(** The event a nack triggers; [reload] is the state of the transaction
    buffer entry that allows one more try. *)
Definition nackEvent (reload : bool) (nk : Nack) : M W NackEvent :=
  let* illegal :=
    if config_allowEarlyValueFwd
    then isIllegalNack (nk_addr nk) (nk_sender nk) (nk_prio nk) (nk_sw_prio nk)
    else ret false in
  if illegal then
    let* action := getActionOnIllegalData in
    match action with
    | Action_Retry =>
        let* w := get in
        let* d := lift (isDoomed w) in
        ret (if reload && negb d then Event_Nack_Spec_Illegal_Rtry else Event_Nack)
    | _ => ret Event_Nack
    end
  else
    let* w := get in
    if nk_data nk && inTransaction w then
      let* accept := lift (Forwarding.shouldAcceptForwardedDataFromProducer (nk_addr nk)
                             (nk_sender nk) (nk_prio nk) (nk_sw_prio nk) w) in
      if accept then
        do* massert config_allowEarlyValueFwd; ret Event_Nack_Spec
      else ret Event_Nack
    else ret Event_Nack.

(** A nack with data for a line that waits for its first data ([IS], [IM],
    [SM]); the cache entry is allocated. *)
Definition nfd_notifyForwardedData (blk : DataBlock) (nk : Nack) : M W unit :=
  do* massert (nk_data nk);
  Forwarding.notifyForwardedDataFromProducer (nk_addr nk) blk (nk_sender nk) (nk_timestamp nk)
    (nk_prio nk) (nk_sw_prio nk).

(** A nack with data for a line under validation ([FD_V]); the cache entry is
    valid. *)
Definition vcd_validateConsumedData (cached blk : DataBlock) (dirty : bool) (nk : Nack)
    : M W (bool * DataBlock) :=
  Forwarding.validateDataBlock (nk_addr nk) (nk_sender nk) cached blk (nk_timestamp nk) dirty
    true.
End handlers.

(** ** Priorities *)

Ltac nc_lia := unfold NC_PRIO_VALUE, INITIAL_PRIO_VALUE, INT_MIN, INT_MAX in *; lia.

(** The configurations with numeric priorities that detect cycles. *)
Record chats_config `{CF : Config} : Prop := {
  cc_numeric : prioMechanism = numeric;
  cc_strategy : getFwdCycleSolveStrategy params <> no_strategy;
  cc_fwd : config_allowEarlyValueFwd = true;
  cc_naive : fwd_is naive = false;
  cc_pic : isPicPolicy = false;
  cc_stalls : isRequesterStallsPolicy = Ok false;
  cc_lazy_vm : lazy_vm params = true;
  cc_eager_cd : eager_cd params = true
}.
Arguments chats_config : clear implicits.

Section priorities.
Context `{RS : RubySystem} `{CF : Config} `{E : Env} {C : Type} `{DC : DataCache C}.
Notation W := (World C).
Context (CC : chats_config _).

Definition prio (w : W) : Z := m_hwTransPrio (fwd w).

Lemma signed_inv z v : signed z = Ok v -> in_int z = true -> v = z.
Proof. unfold signed. intros H Hz. rewrite Hz in H. congruence. Qed.

Lemma in_int_spec z : in_int z = true <-> INT_MIN <= z <= INT_MAX.
Proof. unfold in_int. rewrite andb_true_iff, !Z.leb_le. done. Qed.

Lemma getTransactionPriority_eq (w : W) : getTransactionPriority w = prio w.
Proof. unfold getTransactionPriority. by rewrite (cc_numeric CC). Qed.

Lemma isIllegalNack_legal addr src p sw (w w' : W) :
  isIllegalNack addr src p sw w = Ok (false, w') -> w' = w /\ prio w < p.
Proof.
  unfold isIllegalNack. intros H. m_inv.
  destruct (_ || _); m_inv.
  destruct (prio_illegal _ _) eqn:Hi; m_inv. split; [done|].
  unfold prio_illegal, prio_is in Hi. rewrite (cc_numeric CC) in Hi. cbn in Hi.
  rewrite (bool_decide_eq_false_2 (getFwdCycleSolveStrategy params = no_strategy)) in Hi
    by apply (cc_strategy CC). cbn in Hi.
  apply orb_false_iff in Hi as [Hi _]. by apply Z.leb_gt in Hi.
Qed.

(** *** Sending *)

Lemma keeps_refuse addr c t p sw f : keeps (frame (C := C)) (Forwarding.refuse addr c t p sw f).
Proof. unfold Forwarding.refuse. keeps. Qed.
#[local] Hint Resolve keeps_refuse : keeps.

Lemma keeps_shouldForward addr c t p sw inflight :
  keeps (frame (C := C)) (Forwarding.shouldForwardDataToConsumer addr c t p sw inflight).
Proof.
  unfold Forwarding.shouldForwardDataToConsumer, Forwarding.shouldBecomeProducer. keeps.
Qed.

Lemma refuse_false addr c t p sw f (w w' : W) b :
  Forwarding.refuse addr c t p sw f w = Ok (b, w') -> b = false.
Proof.
  unfold Forwarding.refuse. intros H. m_inv. repeat m_case.
Qed.

(** A transaction that agrees to forward did not change, has no power, or
    else its priority leaves room below and is above that of the consumer
    when it consumed data itself. *)
Lemma shouldForward_true addr c t p sw inflight (w w' : W) :
  NC_PRIO_VALUE <= prio w <= INT_MAX ->
  Forwarding.shouldForwardDataToConsumer addr c t p sw inflight w = Ok (true, w') ->
  w' = w /\
  (isPowered w = Ok true \/
   isPowered w = Ok false /\ prio w <> NC_PRIO_VALUE + 1 /\ (isConsumer w = true -> p < prio w)).
Proof.
  intros Hp. unfold Forwarding.shouldForwardDataToConsumer, Forwarding.shouldBecomeProducer.
  intros H. m_inv. rewrite (cc_fwd CC) in *. cbn [negb] in *.
  m_case. m_case. m_case. m_case; [by match goal with H : _ |- _ => apply refuse_false in H end|].
  m_case; [by match goal with H : _ |- _ => apply refuse_false in H end|].
  rewrite (cc_naive CC) in *. rewrite orb_false_r in *.
  match goal with H : getSwTransactionPriority w = Ok ?b |- _ =>
    change (isPowered w = Ok b) in H; rewrite H; destruct b end; m_inv; [by auto|].
  rewrite getTransactionPriority_eq in *. m_case.
  assert (prio w <> NC_PRIO_VALUE + 1) as Hn.
  { intros Hn. match goal with H : signed _ = _ |- _ => rewrite Hn in H; injection H as <- end.
    done. }
  m_case. m_case; (split; [done|]); right; (split; [done|]); (split; [done|]); [|done].
  intros _. match goal with H : negb (p <? prio w) = false |- _ =>
    by apply negb_false_iff, Z.ltb_lt in H end.
Qed.

(** *** The new priority of a producer *)

(** From the priority [own] the producer had, its new priority for a request
    with priority [p]: above the request, not below what it was, and with
    room below. *)
Record raised (own p own' : Z) : Prop := {
  ra_above : p < own';
  ra_mono : own <= own';
  ra_room : NC_PRIO_VALUE + 2 <= own';
  ra_max : own' <= Z.max 0 (Z.max own (p + 1))
}.

Lemma prio_after_send_raised own stalled consumer p own' :
  NC_PRIO_VALUE <= p < INT_MAX -> NC_PRIO_VALUE <= own <= INT_MAX ->
  own <> NC_PRIO_VALUE + 1 ->
  (consumer = true -> p < own /\ own <> NC_PRIO_VALUE) ->
  prio_after_send own (Ok false) stalled consumer p = Ok own' ->
  raised own p own' /\ (consumer = true -> own' = own).
Proof.
  intros Hp Ho Hn Hc. unfold prio_after_send. cbn [rbind].
  rewrite (cc_pic CC), (cc_fwd CC). cbn [andb orb]. unfold NC_PRIO_VALUE, INT_MIN, INT_MAX in *.
  destruct consumer; cbn [negb].
  { intros [= <-]. destruct Hc as [Hc1 Hc2]; [done|]. split; [|done]. split; nc_lia. }
  clear Hc. destruct (Z.eqb_spec p (- 2 ^ 31)) as [->|Hne].
  - destruct (Z.eqb_spec own (- 2 ^ 31)); intros [= <-]; (split; [|done]); split; nc_lia.
  - intros H. destruct (rassert _); [|done]. cbn [rbind] in H.
    destruct (Z.ltb_spec p own); [injection H as <-; split; [|done]; split; nc_lia|].
    apply signed_inv in H; [|apply in_int_spec; nc_lia]. subst.
    split; [|done]. split; nc_lia.
Qed.

Lemma switchHwPrio_frame p sw b (w w' : W) :
  switchHwPrio p sw b w = Ok (tt, w') ->
  ctl w' = ctl w /\ fwd w' = (fwd w) <| m_hwTransPrio := prio w' |> /\ cm w' = cm w /\
  (if b then prio_after_recv (prio w) (isPowered w) p sw
   else prio_after_send (prio w) (isPowered w) seq_isStalled (isConsumer w) p) = Ok (prio w').
Proof.
  unfold switchHwPrio, prio_is. rewrite (cc_numeric CC), bool_decide_eq_false_2 by done.
  intros H. m_inv. match goal with H : on_fwd _ _ = _ |- _ => injection H as <- end.
  by destruct b.
Qed.

(** What [switchHwPrio] reads besides the priority. *)
Definition same (w w' : W) : Prop :=
  ctl w' = ctl w /\ cm w' = cm w /\ prio w' = prio w /\
  m_recvDataForwardedFromProducer (fwd w') = m_recvDataForwardedFromProducer (fwd w).

#[local] Instance same_preorder : PreOrder same.
Proof.
  split; [done|]. intros x y z (? & ? & ? & ?) (? & ? & ? & ?). repeat split; congruence.
Qed.

Lemma same_isPowered (w w' : W) : same w w' -> isPowered w' = isPowered w.
Proof. intros (_ & H & _). unfold isPowered. by rewrite H. Qed.

Lemma same_isConsumer (w w' : W) : same w w' -> isConsumer w' = isConsumer w.
Proof. intros (_ & _ & _ & H). unfold isConsumer. by rewrite H. Qed.

Lemma same_frame (w w' : W) : same w w' -> frame w w'.
Proof.
  intros (H1 & _ & H2 & H3). unfold frame, ctl_frame, fwd_frame, recv.
  unfold prio in H2. by rewrite H1, H2, H3.
Qed.

Ltac solve_same := keeps; try (intros ? ? ? [= _ <-]; done).

Lemma addConsumer_prio addr c p sw (w w' : W) :
  Forwarding.addConsumer addr c p sw w = Ok (tt, w') ->
  ctl_frame (ctl w) (ctl w') /\ recv (fwd w') ⊆ recv (fwd w) /\
  prio_after_send (prio w) (isPowered w) seq_isStalled (isConsumer w) p = Ok (prio w').
Proof.
  unfold Forwarding.addConsumer. intros H.
  apply bind_ok in H as (w0 & w1 & [= <- <-] & H).
  apply bind_ok in H as (prod & w1 & H1 & H). kept same in H1 by solve_same.
  apply bind_ok in H as (u1 & w2 & H2 & H). kept same in H2 by solve_same.
  apply bind_ok in H as (u2 & w3 & H3 & H). kept same in H3 by solve_same.
  apply bind_ok in H as ([] & w4 & H4 & H). kept (frame (C := C)) in H by keeps.
  assert (same w w3) as Hs by (by trans w1; [|trans w2]). clear H1 H2 H3.
  apply switchHwPrio_frame in H4 as (Hc & Hf & _ & Hp).
  rewrite (same_isPowered _ _ Hs), (same_isConsumer _ _ Hs) in Hp.
  pose proof (same_frame _ _ Hs) as [Hs1 [Hs2 Hs3]]. destruct H as [H1 [H2 H3]].
  unfold recv in *. rewrite Hc, Hf in *. split; [by etrans|]. split; [by etrans|].
  unfold prio in *. cbn in H2. congruence.
Qed.

Lemma addConsumer_raised addr c p sw (w w' : W) :
  NC_PRIO_VALUE <= p < INT_MAX -> NC_PRIO_VALUE <= prio w <= INT_MAX ->
  prio w <> NC_PRIO_VALUE + 1 -> isPowered w = Ok false ->
  (isConsumer w = true -> p < prio w /\ prio w <> NC_PRIO_VALUE) ->
  Forwarding.addConsumer addr c p sw w = Ok (tt, w') ->
  ctl_frame (ctl w) (ctl w') /\ recv (fwd w') ⊆ recv (fwd w) /\
  raised (prio w) p (prio w') /\ (isConsumer w = true -> prio w' = prio w).
Proof.
  intros Hp Hw Hn Hpow Hc H. apply addConsumer_prio in H as (H1 & H2 & H3).
  rewrite Hpow in H3. apply prio_after_send_raised in H3 as [? ?]; auto.
Qed.

(** What an answer to a request promises. *)
Definition sent (rq : Request) (nk : Nack) (w w' : W) : Prop :=
  mnum (nk_sender nk) = m_version (ctl w) /\ nk_uid nk = m_currentHtmUid (ctl w) /\
  nk_prio nk = prio w' /\ ctl_frame (ctl w) (ctl w') /\ recv (fwd w') ⊆ recv (fwd w) /\
  (prio w = NC_PRIO_VALUE /\ prio w' = NC_PRIO_VALUE \/
   nk_sw_prio nk = false /\ raised (prio w) (rq_prio rq) (prio w') /\
   (isConsumer w = true -> prio w' = prio w)).

Lemma addConsumer_power addr c p sw (w w' : W) :
  isPowered w = Ok true -> Forwarding.addConsumer addr c p sw w = Ok (tt, w') ->
  ctl_frame (ctl w) (ctl w') /\ recv (fwd w') ⊆ recv (fwd w) /\
  prio w = NC_PRIO_VALUE /\ prio w' = NC_PRIO_VALUE.
Proof.
  intros Hpow H. apply addConsumer_prio in H as (H1 & H2 & H3). rewrite Hpow in H3.
  unfold prio_after_send in H3. cbn [rbind] in H3.
  destruct (Z.eqb_spec (prio w) NC_PRIO_VALUE) as [Hn|]; [|done]. injection H3 as H3.
  split; [done|]. split; [done|]. split; congruence.
Qed.

Lemma sendInvNack_sent valid inflight rq nk (w w' : W) :
  NC_PRIO_VALUE <= rq_prio rq < INT_MAX -> NC_PRIO_VALUE <= prio w <= INT_MAX ->
  (isConsumer w = true -> prio w <> NC_PRIO_VALUE) ->
  fn_sendInvNack valid inflight rq w = Ok (nk, w') ->
  (nk_data nk = false /\ frame w w') \/ (nk_data nk = true /\ sent rq nk w w').
Proof.
  intros Hrq Hw Hc. unfold fn_sendInvNack. intros H.
  apply bind_ok in H as (? & ? & [= <- <-] & H).
  apply bind_ok in H as (ts & ? & [_ ->]%lift_ok & H).
  apply bind_ok in H as (sw & ? & [Hsw ->]%lift_ok & H).
  change (isPowered w = Ok sw) in Hsw.
  destruct valid; [|apply ret_ok in H as [-> ->]; by left].
  apply bind_ok in H as (f & w1 & H1 & H). destruct f.
  - apply shouldForward_true in H1 as [-> Hcase]; [|done].
    apply bind_ok in H as ([] & w2 & H2 & H).
    apply bind_ok in H as (? & ? & [= <- <-] & H). apply ret_ok in H as [-> ->].
    right. split; [done|]. unfold sent. cbn. rewrite getTransactionPriority_eq.
    split; [done|]. split; [done|]. split; [done|].
    destruct Hcase as [Hpow|(Hpow & Hn & Hlt)].
    + destruct (addConsumer_power _ _ _ _ _ _ Hpow H2) as (? & ? & ? & ?). auto 6.
    + rewrite Hpow in Hsw. injection Hsw as <-.
      apply addConsumer_raised in H2 as (? & ? & ? & ?); auto 8.
  - apply keeps_shouldForward in H1. left. m_inv.
    match goal with H : Forwarding.addBlockToNackReg _ _ _ = _ |- _ =>
      kept (frame (C := C)) in H by (unfold Forwarding.addBlockToNackReg; keeps) end.
    split; [done|by etrans].
Qed.

(** *** Consuming *)

Lemma prio_after_recv_below own power p own' :
  NC_PRIO_VALUE <= own <= INT_MAX -> p <= INT_MAX -> own < p ->
  prio_after_recv own power p false = Ok own' ->
  own' < p /\ own' = (if own =? NC_PRIO_VALUE then p - 1 else own).
Proof.
  intros Ho Hp Hlt. unfold prio_after_recv. rewrite andb_true_r.
  destruct (Z.eqb_spec own NC_PRIO_VALUE) as [->|Hne]; [|intros [= <-]; done].
  intros H. destruct power as [b|]; [|done]. cbn in H. destruct b; [done|]. cbn in H.
  apply signed_inv in H; [|apply in_int_spec; nc_lia]. subst. split; [lia|done].
Qed.

(** Like [frame], but the block [a] may be added. *)
Definition grows (a : Z) (w w' : W) : Prop :=
  ctl_frame (ctl w) (ctl w') /\ prio w' = prio w /\ recv (fwd w') ⊆ {[a]} ∪ recv (fwd w).

#[local] Instance grows_preorder a : PreOrder (grows a).
Proof.
  split; [intros w; split; [done|set_solver]|].
  intros x y z (? & ? & ?) (? & ? & ?). split; [by etrans|]. split; [congruence|set_solver].
Qed.

Lemma frame_grows a (w w' : W) : frame w w' -> grows a w w'.
Proof. intros (? & ? & ?). split; [done|]. split; [done|set_solver]. Qed.

Lemma keeps_insert_recv a d :
  keeps (grows a) (on_fwd (upd! m_recvDataForwardedFromProducer ::= std_insert a d)).
Proof.
  intros w r w' [= _ <-]. split; [done|]. split; [done|]. cbn.
  intros k. unfold recv. cbn. rewrite elem_of_union, !elem_of_dom, lookup_std_insert.
  case_decide; [set_solver|auto].
Qed.

Ltac solve_grows := keeps; try apply keeps_insert_recv;
  try (eapply keeps_mono; [apply frame_grows|]; keeps).

Lemma keeps_insertReceived a blk src :
  keeps (grows a) (Forwarding.insertReceived a blk src).
Proof. unfold Forwarding.insertReceived. solve_grows. Qed.
#[local] Hint Resolve keeps_insertReceived : keeps.

Lemma keeps_becomeConsumer a blk src :
  keeps (grows a) (Forwarding.becomeConsumer a blk src).
Proof.
  unfold Forwarding.becomeConsumer, Forwarding.scheduleValidationOfConsumedData. solve_grows.
Qed.
#[local] Hint Resolve keeps_becomeConsumer : keeps.

Lemma notifyForwarded_prio addr blk src ts p sw (w w' : W) :
  Forwarding.notifyForwardedDataFromProducer addr blk src ts p sw w = Ok (tt, w') ->
  ctl_frame (ctl w) (ctl w') /\ recv (fwd w') ⊆ {[addr]} ∪ recv (fwd w) /\
  prio_after_recv (prio w) (isPowered w) p sw = Ok (prio w').
Proof.
  unfold Forwarding.notifyForwardedDataFromProducer. rewrite (cc_stalls CC). intros H.
  apply bind_ok in H as (w0 & w1 & [= <- <-] & H).
  apply bind_ok in H as (c & w1 & H1 & H). kept same in H1 by solve_same.
  apply bind_ok in H as (u & w2 & H2 & H). kept same in H2 by solve_same.
  apply bind_ok in H as (? & ? & [_ ->]%massert_ok & H).
  apply bind_ok in H as (? & ? & [_ ->]%massert_ok & H).
  apply bind_ok in H as (uid & ? & [_ ->]%lift_ok & H).
  apply bind_ok in H as (? & ? & [_ ->]%massert_ok & H).
  apply bind_ok in H as (? & ? & [[= <-] ->]%lift_ok & H).
  apply bind_ok in H as ([] & w3 & H3 & H).
  assert (grows addr w3 w') as (Hg1 & Hg2 & Hg3).
  { kept (grows addr) in H by (unfold Forwarding.checkSpecLimits; solve_grows). done. }
  assert (same w w2) as Hs by (by trans w1). clear H1 H2 H.
  apply switchHwPrio_frame in H3 as (Hc & Hf & _ & Hp).
  rewrite (same_isPowered _ _ Hs) in Hp.
  pose proof (same_frame _ _ Hs) as [Hs1 [Hs2 Hs3]].
  unfold recv in *. rewrite Hc, Hf in *. split; [by etrans|]. split; [set_solver|].
  unfold prio in *. cbn in Hg2. congruence.
Qed.
(** *** Begin, commit and abort *)

(** A new transaction: later than the ones before, without priority and
    without consumed data. *)
Record begins (w w' : W) : Prop := {
  bg_version : m_version (ctl w') = m_version (ctl w);
  bg_uid : m_currentHtmUid (ctl w) < m_currentHtmUid (ctl w');
  bg_before : m_transactionLevel (ctl w) = 0;
  bg_level : m_transactionLevel (ctl w') = 1;
  bg_prio : prio w' = NC_PRIO_VALUE;
  bg_recv : recv (fwd w') = ∅
}.

Lemma not_consumer_recv (w : W) : isConsumer w = false <-> recv (fwd w) = ∅.
Proof.
  unfold isConsumer, recv, emptyb. rewrite dom_empty_iff_L.
  destruct (bool_decide_reflect (m_recvDataForwardedFromProducer (fwd w) = ∅)); naive_solver.
Qed.

Lemma assert_not_forwarding_inv (w w' : W) u :
  InterfaceManager.assert_not_forwarding w = Ok (u, w') -> recv (fwd w') = ∅.
Proof.
  unfold InterfaceManager.assert_not_forwarding. rewrite (cc_fwd CC). cbn [when]. intros H.
  m_inv. apply not_consumer_recv. by apply negb_true_iff.
Qed.

Lemma keeps_begin_versioning pkt : keeps (frame (C := C)) (InterfaceManager.begin_versioning pkt).
Proof. unfold InterfaceManager.begin_versioning. keeps. Qed.
#[local] Hint Resolve keeps_begin_versioning : keeps.

Lemma beginTransaction_begins pkt (w w' : W) :
  InterfaceManager.beginTransaction pkt w = Ok (tt, w') -> begins w w'.
Proof.
  unfold InterfaceManager.beginTransaction. rewrite (cc_fwd CC). intros H.
  apply bind_ok in H as (? & ? & [= <- <-] & H).
  apply bind_ok in H as (? & ? & [Hl%Z.eqb_eq ->]%massert_ok & H).
  do 2 apply bind_ok in H as (? & ? & [_ ->]%massert_ok & H).
  apply bind_ok in H as (? & w1 & [= _ <-] & H).
  apply bind_ok in H as (? & ? & [_ ->]%massert_ok & H).
  apply bind_ok in H as (? & ? & [Hu%Z.ltb_lt ->]%massert_ok & H).
  apply bind_ok in H as (? & ? & [_ ->]%massert_ok & H).
  apply bind_ok in H as (? & w2 & [= _ <-] & H).
  apply bind_ok in H as (? & w3 & [= _ <-] & H).
  match type of H with _ ?x = _ => set (w3 := x) in * end.
  apply bind_ok in H as (? & w4 & H4 & H). kept (frame (C := C)) in H4 by keeps.
  apply bind_ok in H as (? & w5 & H5 & H).
  kept (frame (C := C)) in H5 by (unfold ConflictManager.beginTransaction; keeps).
  apply bind_ok in H as (? & w6 & H6 & H). pose proof (assert_not_forwarding_inv _ _ _ H6) as He.
  kept (frame (C := C)) in H6 by (unfold InterfaceManager.assert_not_forwarding; keeps).
  apply bind_ok in H as (? & w6' & H6' & H). kept (frame (C := C)) in H6' by keeps.
  apply bind_ok in H as (? & ? & [= <- <-] & H).
  apply bind_ok in H as (pw & ? & [_ ->]%lift_ok & H).
  apply bind_ok in H as (? & w7 & H7 & H). kept (frame (C := C)) in H7 by keeps.
  apply bind_ok in H as (? & w8 & H8 & H). kept (frame (C := C)) in H8 by keeps.
  apply bind_ok in H as (? & w9 & H9 & H). kept (frame (C := C)) in H9 by keeps.
  apply bind_ok in H as (? & ? & [= <- <-] & H).
  apply bind_ok in H as (? & w10 & H10 & H). kept (frame (C := C)) in H10 by keeps.
  apply massert_ok in H as [Hp%Z.eqb_eq ->].
  assert (frame w3 w6) as H3 by (by trans w4; [|trans w5]).
  assert (frame w6 w10) as H6_10 by (by trans w6'; [|trans w7; [|trans w8; [|trans w9]]]).
  assert (frame w3 w10) as ((Hv & Hu' & Hl') & _) by (by trans w6).
  destruct H6_10 as (_ & _ & Hr).
  destruct H10 as (_ & Hp10 & _). unfold w3 in Hv, Hu', Hl'. cbn in Hv, Hu', Hl'.
  split; [done|lia|done|lia|unfold prio; congruence|set_solver].
Qed.
(** The transaction is over. *)
Record ends (w w' : W) : Prop := {
  en_version : m_version (ctl w') = m_version (ctl w);
  en_uid : m_currentHtmUid (ctl w') = m_currentHtmUid (ctl w);
  en_level : m_transactionLevel (ctl w') = 0;
  en_prio : prio w' = NC_PRIO_VALUE;
  en_recv : recv (fwd w') = ∅
}.

Lemma keeps_profileHtmFwdTransaction aborted i :
  keeps (frame (C := C)) (profileHtmFwdTransaction aborted i).
Proof.
  unfold profileHtmFwdTransaction, profile_producer, profile_consumer, profile_power,
    profile_no_power, type_rate, incr. keeps.
Qed.
#[local] Hint Resolve keeps_profileHtmFwdTransaction : keeps.

Lemma keeps_nacked_changed l : keeps (frame (C := C)) (InterfaceManager.nacked_changed l).
Proof.
  induction l as [|[a d] l IH]; cbn [InterfaceManager.nacked_changed]; unfold incr; keeps.
Qed.
#[local] Hint Resolve keeps_nacked_changed : keeps.

Lemma keeps_profile_nacked : keeps (frame (C := C)) InterfaceManager.profile_nacked.
Proof. unfold InterfaceManager.profile_nacked, incr. keeps. Qed.
#[local] Hint Resolve keeps_profile_nacked : keeps.

Lemma keeps_clear_checked : keeps (frame (C := C)) InterfaceManager.clear_checked.
Proof. unfold InterfaceManager.clear_checked. keeps. Qed.
#[local] Hint Resolve keeps_clear_checked : keeps.

Lemma keeps_commit_stats pkt : keeps (frame (C := C)) (InterfaceManager.commit_stats pkt).
Proof. unfold InterfaceManager.commit_stats. keeps. Qed.

Lemma keeps_commit_forwarding : keeps (frame (C := C)) InterfaceManager.commit_forwarding.
Proof. unfold InterfaceManager.commit_forwarding, InterfaceManager.reset_forwarding. keeps. Qed.
#[local] Hint Resolve keeps_commit_forwarding : keeps.

(** A commit asserts that every consumed block was validated. *)
Lemma commit_eager_lazy_recv (w w' : W) u :
  InterfaceManager.commit_eager_lazy w = Ok (u, w') -> frame w w' /\ recv (fwd w') = ∅.
Proof.
  intros H. split.
  { kept (frame (C := C)) in H by (unfold InterfaceManager.commit_eager_lazy; keeps). done. }
  unfold InterfaceManager.commit_eager_lazy in H. m_inv.
  match goal with H : InterfaceManager.commit_forwarding ?v = _ |- _ =>
    pose proof (keeps_commit_forwarding _ _ _ H) as (_ & _ & Hr);
    unfold InterfaceManager.commit_forwarding in H; rewrite (cc_fwd CC) in H;
    cbn [when] in H; apply bind_ok in H as (? & ? & [= <- <-] & H);
    apply bind_ok in H as (? & ? & [Hn%negb_true_iff%not_consumer_recv _]%massert_ok & _)
  end.
  set_solver.
Qed.

Lemma commit_ends pkt (w w' : W) :
  m_transactionLevel (ctl w) = 1 ->
  InterfaceManager.commitTransaction pkt w = Ok (tt, w') -> ends w w'.
Proof.
  intros Hl. unfold InterfaceManager.commitTransaction. intros H.
  apply bind_ok in H as (? & ? & [= <- <-] & H). rewrite Hl in H. cbn [Z.ltb Z.compare] in H.
  do 3 apply bind_ok in H as (? & ? & [_ ->]%massert_ok & H).
  apply bind_ok in H as (? & w1 & H1 & H). cbn [Z.eqb Pos.eqb when] in H1.
  apply bind_ok in H as (? & w2 & [= _ <-] & H). apply bind_ok in H as (? & w2 & [= _ <-] & H).
  kept (frame (C := C)) in H by keeps. destruct H as ((Hv & Hu & Hlev) & Hp & Hr).
  cbn in Hv, Hu, Hlev, Hp.
  unfold InterfaceManager.commit_outermost in H1.
  apply bind_ok in H1 as (? & ? & [= <- <-] & H).
  apply bind_ok in H as (? & w2 & H2 & H). kept (frame (C := C)) in H2 by keeps.
  apply bind_ok in H as (? & w3 & H3 & H). kept (frame (C := C)) in H3 by keeps.
  apply bind_ok in H as (? & w4 & H4 & H). unfold InterfaceManager.commit_versioning in H4.
  rewrite (cc_lazy_vm CC), (cc_eager_cd CC) in H4. apply commit_eager_lazy_recv in H4 as [H4 He].
  apply bind_ok in H as (? & w5 & H5 & H).
  kept (frame (C := C)) in H5 by (unfold ConflictManager.commitTransaction; keeps).
  apply bind_ok in H as (? & w6 & H6 & H). kept (frame (C := C)) in H6 by keeps.
  apply bind_ok in H as (? & w7 & H7 & H). kept (frame (C := C)) in H7 by keeps.
  apply bind_ok in H as (? & ? & [= <- <-] & H).
  do 2 apply bind_ok in H as (? & ? & [_ ->]%massert_ok & H).
  apply bind_ok in H as (? & w8 & H8 & H). kept (frame (C := C)) in H8 by keeps.
  apply bind_ok in H as (? & w9 & [= _ <-] & H).
  apply keeps_commit_stats in H as ((Hv9 & Hu9 & Hl9) & Hp9 & Hr9). cbn in Hv9, Hu9, Hl9, Hp9.
  assert (frame w4 w8) as H48 by (by trans w5; [|trans w6; [|trans w7]]).
  assert (frame w w8) as ((Hv8 & Hu8 & Hl8) & _) by (by trans w2; [|trans w3; [|trans w4]]).
  destruct H48 as (_ & _ & Hr8). unfold recv in Hr9. cbn in Hr9.
  split; [congruence..|lia| |]; unfold prio; [congruence|]. unfold recv in *. set_solver.
Qed.
Lemma keeps_profileHtmFailureFaultCause c :
  keeps (frame (C := C)) (profileHtmFailureFaultCause c).
Proof. unfold profileHtmFailureFaultCause, incr. keeps. Qed.
#[local] Hint Resolve keeps_profileHtmFailureFaultCause : keeps.

Lemma keeps_discardWriteSet :
  keeps (frame (C := C)) InterfaceManager.discardWriteSetFromL1DataCache.
Proof.
  unfold InterfaceManager.discardWriteSetFromL1DataCache, InterfaceManager.discard_written,
    InterfaceManager.deallocate. keeps.
Qed.
#[local] Hint Resolve keeps_discardWriteSet : keeps.

Lemma keeps_discardForwarded :
  keeps (frame (C := C)) InterfaceManager.discardForwardedDataFromL1DataCache.
Proof.
  unfold InterfaceManager.discardForwardedDataFromL1DataCache,
    InterfaceManager.discard_forwarded, InterfaceManager.deallocate. keeps.
Qed.
#[local] Hint Resolve keeps_discardForwarded : keeps.

Lemma keeps_clear_recv :
  keeps fwd_frame (set! m_recvDataForwardedFromProducer := ∅).
Proof. apply keeps_modify. intros f. split; [done|]. unfold recv. cbn. set_solver. Qed.
#[local] Hint Resolve keeps_clear_recv : keeps.

Lemma keeps_abort_forwarding : keeps (frame (C := C)) InterfaceManager.abort_forwarding.
Proof. unfold InterfaceManager.abort_forwarding, InterfaceManager.reset_forwarding. keeps. Qed.

Lemma abort_forwarding_recv (w w' : W) u :
  InterfaceManager.abort_forwarding w = Ok (u, w') -> recv (fwd w') = ∅.
Proof.
  unfold InterfaceManager.abort_forwarding. rewrite (cc_fwd CC). cbn [when]. intros H. m_inv.
  repeat match goal with H : on_fwd (modify _) _ = Ok _ |- _ => injection H as <- end.
  unfold recv. cbn. set_solver.
Qed.

Lemma abort_eager_lazy_ends (w w' : W) u :
  InterfaceManager.abort_eager_lazy w = Ok (u, w') ->
  ctl_frame (ctl w) (ctl w') /\ recv (fwd w') = ∅ /\ prio w' = NC_PRIO_VALUE.
Proof.
  unfold InterfaceManager.abort_eager_lazy. intros H.
  apply bind_ok in H as (? & ? & [= <- <-] & H).
  apply bind_ok in H as (pw & ? & [_ ->]%lift_ok & H).
  apply bind_ok in H as (? & w1 & H1 & H). kept (frame (C := C)) in H1 by (unfold incr; keeps).
  apply bind_ok in H as (? & w2 & H2 & H). pose proof (abort_forwarding_recv _ _ _ H2) as He.
  apply keeps_abort_forwarding in H2.
  apply bind_ok in H as (? & w3 & [= _ <-] & H).
  kept (frame (C := C)) in H by keeps.
  assert (frame w w2) as [H3 _] by (by trans w1). destruct H as (H4 & Hp & Hr).
  cbn in H4, Hp. unfold recv in *. cbn in Hr. split; [by etrans|]. split; [set_solver|done].
Qed.

Lemma abort_lazy_ends pkt (w w' : W) u :
  InterfaceManager.abort_lazy pkt w = Ok (u, w') ->
  ctl_frame (ctl w) (ctl w') /\ recv (fwd w') = ∅ /\ prio w' = NC_PRIO_VALUE.
Proof.
  unfold InterfaceManager.abort_lazy. rewrite (cc_lazy_vm CC), (cc_eager_cd CC). intros H.
  apply bind_ok in H as (? & ? & [= <- <-] & H).
  apply bind_ok in H as (? & w2 & H2 & H). kept (frame (C := C)) in H2 by keeps.
  apply bind_ok in H as (? & w3 & H3 & H). apply abort_eager_lazy_ends in H3 as (H3 & He & Hp).
  kept (frame (C := C)) in H
    by (unfold InterfaceManager.abort_stats, ConflictManager.restartTransaction; keeps).
  destruct H2 as [H2 _], H as (H4 & Hp4 & Hr4). split; [by etrans; [|etrans]|].
  unfold prio in *. split; [set_solver|congruence].
Qed.

Lemma keeps_abort_at_commit : keeps (frame (C := C)) InterfaceManager.abort_at_commit.
Proof. unfold InterfaceManager.abort_at_commit. keeps. Qed.

Lemma keeps_abort_flag : keeps (frame (C := C)) InterfaceManager.abort_flag.
Proof. unfold InterfaceManager.abort_flag. keeps. Qed.
#[local] Hint Resolve keeps_abort_at_commit keeps_abort_flag : keeps.

Lemma abort_level_inv (w w' : W) u :
  InterfaceManager.abort_level w = Ok (u, w') ->
  w' = w <| ctl := (ctl w) <| m_transactionLevel := 0 |> |>.
Proof.
  unfold InterfaceManager.abort_level. rewrite (cc_lazy_vm CC). intros H. m_inv. m_case.
  match goal with H : on_ctl _ _ = _ |- _ => by injection H as <- end.
Qed.

Lemma abortTransaction_ends pkt (w w' : W) :
  InterfaceManager.abortTransaction pkt w = Ok (tt, w') -> ends w w'.
Proof.
  unfold InterfaceManager.abortTransaction. rewrite (cc_lazy_vm CC). intros H.
  apply bind_ok in H as (? & ? & [= <- <-] & H).
  do 3 apply bind_ok in H as (? & ? & [_ ->]%massert_ok & H).
  apply bind_ok in H as (? & w1 & H1 & H). kept (frame (C := C)) in H1 by keeps.
  apply bind_ok in H as (? & w2 & H2 & H). apply abort_lazy_ends in H2 as (H2 & He & Hp).
  apply bind_ok in H as (? & w3 & H3 & H). kept (frame (C := C)) in H3 by keeps.
  apply bind_ok in H as (? & w4 & ->%abort_level_inv & H).
  kept (frame (C := C)) in H by keeps.
  destruct H1 as [H1 _], H3 as (H3 & Hp3 & Hr3), H as ((Hv & Hu & Hl) & Hp4 & Hr4).
  cbn in Hv, Hu, Hl, Hp4. unfold recv in Hr4. cbn in Hr4.
  assert (ctl_frame (ctl w) (ctl w3)) as (Hv3 & Hu3 & _) by (by etrans; [|etrans]).
  split; [congruence..|unfold prio in *; congruence|unfold recv in *; set_solver].
Qed.
End priorities.

(** ** All processors *)

Section system.
Context `{RS : RubySystem} `{CF : Config} {C : Type} `{DC : DataCache C}.
Notation W := (World C).

(** The operations of one processor that send or receive no speculative
    data. *)
Inductive op :=
| OpLoad (addr : Z)
| OpRetire (addr : Z)
| OpStore (addr : Z)
| OpAccessConsumed (addr offset len : Z) (write : bool)
| OpAccessProduced (addr offset len : Z) (write : bool)
| OpRemoteLoad (addr : Z) (id : MachineID) (ts : Z) (t : TransactionBit) (prio : Z) (sw : bool)
| OpRemoteStore (addr : Z) (id : MachineID) (ts : Z) (t : TransactionBit) (prio : Z)
    (sw exclusive : bool)
| OpNacked (addr ts : Z) (t : TransactionBit) (prio : Z) (sw : bool) (id : MachineID)
    (writer : bool)
| OpReplaced (addr : Z) (src : MachineID) (capacity stale spec : bool)
| OpValidateEvent
| OpGotData (addr : Z) (src : MachineID) (cached blk : DataBlock) (ts : Z) (dirty : bool)
| OpCancel
| OpIllegal
| OpAtCommit (others : list W)
| OpBeginEscape
| OpEndEscape.

Definition run_op (e : Env) (o : op) : M W unit :=
  match o with
  | OpLoad a => InterfaceManager.isolateTransactionLoad a
  | OpRetire a => InterfaceManager.addToRetiredReadSet a
  | OpStore a => InterfaceManager.isolateTransactionStore a
  | OpAccessConsumed a off len wr => Forwarding.setAccessOnForwardBlock a off len wr
  | OpAccessProduced a off len wr => Forwarding.setAccessOnProducedBlock a off len wr
  | OpRemoteLoad a id ts t p sw =>
      do* InterfaceManager.shouldNackLoad a id ts t p sw; ret tt
  | OpRemoteStore a id ts t p sw ex =>
      do* InterfaceManager.shouldNackStore a id ts t p sw ex; ret tt
  | OpNacked a ts t p sw id wr => InterfaceManager.notifyReceiveNack a ts t p sw id wr
  | OpReplaced a src cap stale spec => InterfaceManager.xactReplacement a src cap stale spec
  | OpValidateEvent => do* Forwarding.ValidateConsumedDataEvent_process; ret tt
  | OpGotData a src cached blk ts dirty =>
      do* Forwarding.validateDataBlock a src cached blk ts dirty false; ret tt
  | OpCancel => cancelTransaction
  | OpIllegal => notifyIllegalFailure
  | OpAtCommit others => do* InterfaceManager.initiateCommitTransaction others; ret tt
  | OpBeginEscape => InterfaceManager.beginEscapeAction
  | OpEndEscape => InterfaceManager.endEscapeAction
  end.

(** [nodes] are the processors by number; the messages in flight stay there:
    they can be delayed and delivered more than once.  [supplier] is the
    processor, and its transaction, whose speculative data a processor holds
    for a line. *)
Record Sys := MkSys {
  nodes : gmap Z W;
  requests : list Request;
  nacks : list Nack;
  supplier : gmap (Z * Z) (Z * Z)
}.

#[export] Instance eta_Sys : Eta Sys := fun s =>
  MkSys (nodes s) (requests s) (nacks s) (supplier s).

Definition note_supplier (c : Z) (nk : Nack) (m : gmap (Z * Z) (Z * Z))
    : gmap (Z * Z) (Z * Z) :=
  <[(c, nk_addr nk) := (mnum (nk_sender nk), nk_uid nk)]> m.

Inductive step : Sys -> Sys -> Prop :=
| step_op s p w e o w' :
    nodes s !! p = Some w -> run_op e o w = Ok (tt, w') ->
    step s (s <| nodes ::= <[p := w']> |>)
| step_begin s p w (e : Env) pkt w' :
    nodes s !! p = Some w -> InterfaceManager.beginTransaction pkt w = Ok (tt, w') ->
    step s (s <| nodes ::= <[p := w']> |>)
| step_commit s p w (e : Env) pkt w' :
    nodes s !! p = Some w -> InterfaceManager.commitTransaction pkt w = Ok (tt, w') ->
    step s (s <| nodes ::= <[p := w']> |>)
| step_abort s p w (e : Env) pkt w' :
    nodes s !! p = Some w -> InterfaceManager.abortTransaction pkt w = Ok (tt, w') ->
    step s (s <| nodes ::= <[p := w']> |>)
| step_request s p w a rq :
    nodes s !! p = Some w -> issueRequest a w = Ok rq ->
    step s (s <| requests ::= cons rq |>)
| step_send s p w (e : Env) valid inflight rq nk w' :
    nodes s !! p = Some w -> rq ∈ requests s ->
    fn_sendInvNack valid inflight rq w = Ok (nk, w') ->
    step s (s <| nodes ::= <[p := w']> |> <| nacks ::= cons nk |>)
| step_nack s c w (e : Env) reload nk ev w' :
    nodes s !! c = Some w -> nk ∈ nacks s -> mnum (nk_requestor nk) = c ->
    nackEvent reload nk w = Ok (ev, w') -> ev <> Event_Nack_Spec ->
    step s (s <| nodes ::= <[c := w']> |>)
| step_consume s c w (e : Env) reload nk blk w1 w' :
    nodes s !! c = Some w -> nk ∈ nacks s -> mnum (nk_requestor nk) = c ->
    nackEvent reload nk w = Ok (Event_Nack_Spec, w1) ->
    nfd_notifyForwardedData blk nk w1 = Ok (tt, w') ->
    step s (s <| nodes ::= <[c := w']> |> <| supplier ::= note_supplier c nk |>)
| step_validate s c w (e : Env) reload nk cached blk dirty r w1 w' :
    nodes s !! c = Some w -> nk ∈ nacks s -> mnum (nk_requestor nk) = c ->
    nackEvent reload nk w = Ok (Event_Nack_Spec, w1) ->
    vcd_validateConsumedData cached blk dirty nk w1 = Ok (r, w') ->
    step s (s <| nodes ::= <[c := w']> |> <| supplier ::= note_supplier c nk |>).

(** Processors that run no transaction, and no messages. *)
Record initial (s : Sys) : Prop := {
  in_nodes : forall p w, nodes s !! p = Some w ->
    m_version (ctl w) = p /\ m_transactionLevel (ctl w) = 0 /\ prio w = NC_PRIO_VALUE /\
    recv (fwd w) = ∅;
  in_requests : requests s = [];
  in_nacks : nacks s = [];
  in_supplier : supplier s = ∅
}.

(** The transaction [u] of the processor is still running. *)
Definition live (w : W) (u : Z) : Prop :=
  0 < m_transactionLevel (ctl w) /\ m_currentHtmUid (ctl w) = u.

(** Processor [c] holds a block that it has not validated yet and that the
    running transaction of [p] supplied. *)
Definition depends (s : Sys) (c p : Z) : Prop :=
  exists wc wp a u, nodes s !! c = Some wc /\ nodes s !! p = Some wp /\
    a ∈ recv (fwd wc) /\ supplier s !! (c, a) = Some (p, u) /\ live wp u.

(** *** The invariant *)

Record node_ok (n p : Z) (w : W) : Prop := {
  no_version : m_version (ctl w) = p;
  no_level : 0 <= m_transactionLevel (ctl w) <= 1;
  no_prio : NC_PRIO_VALUE <= prio w <= n;
  no_consumer : isConsumer w = true -> prio w <> NC_PRIO_VALUE
}.

(** A priority that a running transaction promised: none, or at most what
    it has now. *)
Definition promised (n : Z) (s : Sys) (nk : Nack) : Prop :=
  exists wp, nodes s !! mnum (nk_sender nk) = Some wp /\ nk_uid nk <= m_currentHtmUid (ctl wp) /\
    (nk_prio nk = NC_PRIO_VALUE \/
     NC_PRIO_VALUE + 2 <= nk_prio nk <= n /\ nk_sw_prio nk = false /\
     (live wp (nk_uid nk) -> nk_prio nk <= prio wp)).

Definition supplied (s : Sys) (c a p u : Z) : Prop :=
  exists wp, nodes s !! p = Some wp /\ u <= m_currentHtmUid (ctl wp) /\
    (forall wc, nodes s !! c = Some wc -> a ∈ recv (fwd wc) -> live wp u -> prio wc < prio wp).

Record inv (n : Z) (s : Sys) : Prop := {
  iv_nodes : forall p w, nodes s !! p = Some w -> node_ok n p w;
  iv_requests : forall rq, rq ∈ requests s -> NC_PRIO_VALUE <= rq_prio rq <= n;
  iv_nacks : forall nk, nk ∈ nacks s -> nk_data nk = true -> promised n s nk;
  iv_supplier : forall c a p u, supplier s !! (c, a) = Some (p, u) -> supplied s c a p u
}.

Lemma inv_acyclic n s c : inv n s -> ~ tc (depends s) c c.
Proof.
  intros Hinv.
  assert (forall c p, depends s c p -> exists wc wp, nodes s !! c = Some wc /\
    nodes s !! p = Some wp /\ prio wc < prio wp) as Hlt.
  { intros c' p (wc & wp & a & u & Hc & Hp & Ha & Hs & Hl).
    destruct (iv_supplier _ _ Hinv _ _ _ _ Hs) as (wp' & Hp' & _ & H).
    rewrite Hp in Hp'. injection Hp' as <-. eauto 6. }
  assert (forall c p, tc (depends s) c p -> exists wc wp, nodes s !! c = Some wc /\
    nodes s !! p = Some wp /\ prio wc < prio wp) as Hlt'.
  { induction 1 as [x y H|x y z H _ IH]; [by apply Hlt|].
    apply Hlt in H as (wx & wy & Hx & Hy & H1). destruct IH as (wy' & wz & Hy' & Hz & H2).
    rewrite Hy in Hy'. injection Hy' as <-. exists wx, wz. split; [done|]. split; [done|lia]. }
  intros (w1 & w2 & H1 & H2 & H)%Hlt'. rewrite H1 in H2. injection H2 as <-. lia.
Qed.
(** *** Steps of one processor *)

(** What a step does to the fields of its processor: [X] are the blocks it
    may add.  A transaction that goes on keeps or raises its priority, and
    keeps it as long as it holds a block from before. *)
Record evolves (X : gset Z) (w w' : W) : Prop := {
  ev_version : m_version (ctl w') = m_version (ctl w);
  ev_uid : m_currentHtmUid (ctl w) <= m_currentHtmUid (ctl w');
  ev_level : 0 <= m_transactionLevel (ctl w') <= 1;
  ev_live : forall u, u <= m_currentHtmUid (ctl w) -> live w' u -> live w u /\ prio w <= prio w';
  ev_recv : forall a, a ∈ recv (fwd w') -> a ∉ X -> a ∈ recv (fwd w) /\ prio w' = prio w;
  ev_low : NC_PRIO_VALUE <= prio w';
  ev_consumer : isConsumer w' = true -> prio w' <> NC_PRIO_VALUE
}.

Lemma isConsumer_recv (w : W) : isConsumer w = true <-> exists a, a ∈ recv (fwd w).
Proof.
  rewrite <- not_false_iff_true, not_consumer_recv. split.
  - intros H. by apply set_choose_L in H.
  - intros [a Ha] H. set_solver.
Qed.

Lemma frame_evolves n p w w' : node_ok n p w -> frame w w' -> evolves ∅ w w'.
Proof.
  intros [Hv Hl Hp Hc] ((Hv' & Hu & Hl') & Hp' & Hr). unfold prio in *.
  split; [done|lia|lia| |intros a Ha _; split; [set_solver|done]|unfold prio; lia|].
  - intros u _ [H1 H2]. unfold live, prio. rewrite Hp'. split; [|done].
    split; [by rewrite <- Hl'|by rewrite <- Hu].
  - rewrite isConsumer_recv. intros [a Ha]. unfold prio. rewrite Hp'. apply Hc, isConsumer_recv.
    exists a. set_solver.
Qed.

Lemma begins_evolves n p w w' : node_ok n p w -> begins w w' -> evolves ∅ w w'.
Proof.
  intros [Hv Hl Hp Hc] [Hv' Hu H0 H1 Hp' Hr].
  split; [done|lia|lia| |rewrite Hr; set_solver|lia|].
  - intros u Hle [_ H]. lia.
  - rewrite (proj2 (not_consumer_recv w') Hr). done.
Qed.

Lemma ends_evolves n p w w' : node_ok n p w -> ends w w' -> evolves ∅ w w'.
Proof.
  intros [Hv Hl Hp Hc] [Hv' Hu H1 Hp' Hr].
  split; [done|lia|lia| |rewrite Hr; set_solver|lia|].
  - intros u Hle [H _]. lia.
  - rewrite (proj2 (not_consumer_recv w') Hr). done.
Qed.

(** *** Preservation *)

Lemma promised_update n s s' p w w' nk X :
  promised n s nk -> nodes s !! p = Some w -> nodes s' = <[p := w']> (nodes s) ->
  evolves X w w' -> promised (n + 1) s' nk.
Proof.
  intros (wp & Hp & Hu & Hk) Hw Hs Hev. unfold promised. rewrite Hs.
  destruct (decide (mnum (nk_sender nk) = p)) as [Heq|Hne].
  - rewrite Heq in *. rewrite Hw in Hp. injection Hp as <-. exists w'.
    rewrite lookup_insert_eq. split; [done|]. split; [pose proof (ev_uid _ _ _ Hev); lia|].
    destruct Hk as [Hk|(Hk & Hsw & Hl)]; [by left|]. right. split; [lia|]. split; [done|].
    intros Hlive. destruct (ev_live _ _ _ Hev _ Hu Hlive) as [H1 H2]. specialize (Hl H1). lia.
  - exists wp. rewrite lookup_insert_ne by done. split; [done|]. split; [done|].
    destruct Hk as [Hk|(Hk & Hsw & Hl)]; [by left|]. right. split; [lia|done].
Qed.

Lemma supplied_update s s' c a q u p w w' X :
  supplied s c a q u -> nodes s !! p = Some w -> nodes s' = <[p := w']> (nodes s) ->
  evolves X w w' -> (c = p -> a ∉ X) -> supplied s' c a q u.
Proof.
  intros (wq & Hq & Hu & Hlt) Hw Hs Hev Hx. unfold supplied. rewrite Hs.
  assert (forall wc', <[p := w']> (nodes s) !! c = Some wc' -> a ∈ recv (fwd wc') ->
    exists wc, nodes s !! c = Some wc /\ a ∈ recv (fwd wc) /\ prio wc' = prio wc) as Hback.
  { intros wc' Hc Ha. destruct (decide (c = p)) as [->|Hne].
    - rewrite lookup_insert_eq in Hc. injection Hc as <-.
      destruct (ev_recv _ _ _ Hev a Ha (Hx eq_refl)) as [? ?]. by exists w.
    - rewrite lookup_insert_ne in Hc by done. by exists wc'. }
  destruct (decide (q = p)) as [->|Hne].
  - rewrite Hw in Hq. injection Hq as <-. exists w'. rewrite lookup_insert_eq.
    split; [done|]. split; [pose proof (ev_uid _ _ _ Hev); lia|]. intros wc' Hc Ha Hl.
    destruct (Hback wc' Hc Ha) as (wc & Hc0 & Ha0 & ->).
    destruct (ev_live _ _ _ Hev u Hu Hl) as [H1 H2]. specialize (Hlt wc Hc0 Ha0 H1). lia.
  - exists wq. rewrite lookup_insert_ne by done. split; [done|]. split; [done|].
    intros wc' Hc Ha Hl. destruct (Hback wc' Hc Ha) as (wc & Hc0 & Ha0 & ->). eauto.
Qed.

Lemma node_ok_update n p w w' X :
  node_ok n p w -> evolves X w w' -> prio w' <= n + 1 -> node_ok (n + 1) p w'.
Proof.
  intros [Hv Hl Hp Hc] [? ? ? ? ? ? ?] Hn. split; [congruence|done|done|done].
Qed.

Lemma node_ok_later n p w : node_ok n p w -> node_ok (n + 1) p w.
Proof. intros [? ? [? ?] ?]. split; [done|done|lia|done]. Qed.

(** A step of processor [p] that notes no supplier. *)
Lemma inv_node n s s' p w w' X :
  inv n s -> nodes s !! p = Some w -> evolves X w w' -> prio w' <= n + 1 ->
  nodes s' = <[p := w']> (nodes s) -> requests s' = requests s ->
  (forall nk, nk ∈ nacks s' -> nk_data nk = true -> nk ∈ nacks s \/ promised (n + 1) s' nk) ->
  (forall c a q u, supplier s' !! (c, a) = Some (q, u) ->
     supplier s !! (c, a) = Some (q, u) /\ (c = p -> a ∉ X) \/ supplied s' c a q u) ->
  inv (n + 1) s'.
Proof.
  intros Hinv Hw Hev Hn Hs Hrq Hnk Hsup. split.
  - intros q v Hq. rewrite Hs in Hq. destruct (decide (q = p)) as [->|Hne].
    + rewrite lookup_insert_eq in Hq. injection Hq as <-.
      eapply node_ok_update; [by eapply (iv_nodes _ _ Hinv)|done|done].
    + rewrite lookup_insert_ne in Hq by done. by apply node_ok_later, (iv_nodes _ _ Hinv).
  - intros rq Hin. rewrite Hrq in Hin. pose proof (iv_requests _ _ Hinv rq Hin). lia.
  - intros nk Hin Hd. destruct (Hnk nk Hin Hd) as [Hin'|?]; [|done].
    eapply promised_update; [by apply (iv_nacks _ _ Hinv)|done..].
  - intros c a q u H. destruct (Hsup c a q u H) as [[H' Hx]|?]; [|done].
    eapply supplied_update; [by apply (iv_supplier _ _ Hinv)|done..].
Qed.

(** A step that sends nothing and notes no supplier. *)
Lemma inv_local n s p w w' :
  inv n s -> nodes s !! p = Some w -> evolves ∅ w w' -> prio w' <= n + 1 ->
  inv (n + 1) (s <| nodes ::= <[p := w']> |>).
Proof.
  intros Hinv Hw Hev Hn. eapply (inv_node _ _ _ _ _ _ ∅); try done; cbn; [by left|].
  intros c a q u H. left. split; [done|set_solver].
Qed.
(** *** The steps *)

Context (CC : chats_config _).

Lemma keeps_run_op (e : Env) o : keeps frame (run_op e o).
Proof.
  pose proof (cc_pic CC) as Hpic.
  destruct o; cbn [run_op]; keeps; eauto using keeps_isolateTransactionLoad,
    keeps_isolateTransactionStore, keeps_addToRetiredReadSet, keeps_setAccessOnForwardBlock,
    keeps_setAccessOnProducedBlock, keeps_shouldNackLoad, keeps_shouldNackStore,
    keeps_xactReplacement, keeps_ValidateConsumedDataEvent, keeps_validateDataBlock,
    keeps_initiateCommitTransaction, keeps_beginEscapeAction, keeps_endEscapeAction with keeps.
  by apply keeps_notifyReceiveNack.
Qed.

Lemma keeps_nackEvent (e : Env) reload nk : keeps (frame (C := C)) (nackEvent reload nk).
Proof. unfold nackEvent. keeps. Qed.

(** Accepted speculative data comes from above. *)
Lemma nackEvent_spec (e : Env) reload nk (w w' : W) :
  nackEvent reload nk w = Ok (Event_Nack_Spec, w') ->
  w' = w /\ nk_data nk = true /\ prio w < nk_prio nk.
Proof.
  unfold nackEvent. rewrite (cc_fwd CC). intros H.
  apply bind_ok in H as (il & w1 & H1 & H). destruct il.
  - m_inv. m_case. match goal with H : Event_Nack_Spec = _ |- _ => by destruct (_ && _) in H end.
  - apply isIllegalNack_legal in H1 as [-> Hlt]; [|done]. m_inv.
    destruct (nk_data nk); cbn [andb] in *; m_inv. repeat m_case.
Qed.

Lemma sent_evolves n p rq nk w w' :
  node_ok n p w -> sent rq nk w w' -> evolves ∅ w w'.
Proof.
  intros [Hv Hl Hp Hc] (_ & _ & _ & (Hv' & Hu & Hl') & Hr & Hcase).
  assert (prio w <= prio w' /\ NC_PRIO_VALUE <= prio w' /\
    (isConsumer w = true -> prio w' = prio w)) as (H1 & H2 & H3).
  { destruct Hcase as [[-> ->]|(_ & [? ? ? ?] & ?)]; [done|]. split; [lia|]. split; [lia|done]. }
  split; [done|lia|lia| | |done|].
  - intros u _ [H4 H5]. split; [|done]. split; congruence.
  - intros a Ha _. split; [set_solver|]. apply H3, isConsumer_recv. exists a. set_solver.
  - rewrite isConsumer_recv. intros [a Ha].
    assert (isConsumer w = true) as Hcw by (apply isConsumer_recv; exists a; set_solver).
    rewrite H3 by done. by apply Hc.
Qed.

Lemma sent_promised n p rq nk w w' s s' :
  node_ok n p w -> NC_PRIO_VALUE <= rq_prio rq <= n -> 0 <= n -> sent rq nk w w' ->
  nodes s' = <[p := w']> (nodes s) -> promised (n + 1) s' nk /\ prio w' <= n + 1.
Proof.
  intros [Hv Hl Hp Hc] Hrq H0 (Hs & Hu & Hk & (Hv' & Hu' & Hl') & Hr & Hcase) Hn.
  assert (prio w' <= n + 1) as Hle.
  { destruct Hcase as [[_ ->]|(_ & [? ? ? ?] & _)]; [|lia]. nc_lia. }
  split; [|done]. exists w'. rewrite Hn, Hs, Hv, lookup_insert_eq, Hu, Hu', Hk.
  split; [done|]. split; [done|]. destruct Hcase as [[_ ->]|(Hsw & [? ? ? ?] & _)]; [by left|].
  right. auto with lia.
Qed.

Lemma consume_evolves (e : Env) n p nk blk w w' :
  node_ok n p w -> n <= INT_MAX -> NC_PRIO_VALUE + 2 <= nk_prio nk <= n ->
  nk_sw_prio nk = false -> prio w < nk_prio nk ->
  nfd_notifyForwardedData blk nk w = Ok (tt, w') ->
  evolves {[nk_addr nk]} w w' /\ prio w' < nk_prio nk.
Proof.
  intros [Hv Hl Hp Hc] Hn Hk Hsw Hlt H. unfold nfd_notifyForwardedData in H.
  apply bind_ok in H as (? & ? & [_ ->]%massert_ok & H).
  apply notifyForwarded_prio in H as ((Hv' & Hu & Hl') & Hr & H); [|done]. rewrite Hsw in H.
  apply prio_after_recv_below in H as [Hb He]; [|lia..].
  split; [|done]. split; [done|lia|lia| | | |].
  - intros u _ [H4 H5]. split; [split; congruence|]. rewrite He.
    destruct (Z.eqb_spec (prio w) NC_PRIO_VALUE); lia.
  - intros a Ha Hx. assert (a ∈ recv (fwd w)) as Hin by set_solver. split; [done|].
    rewrite He. destruct (Z.eqb_spec (prio w) NC_PRIO_VALUE) as [Hnc|]; [|done].
    exfalso. apply Hc; [|done]. apply isConsumer_recv. by exists a.
  - rewrite He. destruct (Z.eqb_spec (prio w) NC_PRIO_VALUE); lia.
  - intros _. rewrite He. destruct (Z.eqb_spec (prio w) NC_PRIO_VALUE); lia.
Qed.

Lemma supplied_new n s s' c a nk X w w' :
  promised n s nk -> nk_prio nk <> NC_PRIO_VALUE -> nodes s !! c = Some w ->
  evolves X w w' -> prio w < nk_prio nk -> prio w' < nk_prio nk ->
  nodes s' = <[c := w']> (nodes s) -> supplied s' c a (mnum (nk_sender nk)) (nk_uid nk).
Proof.
  intros (wp & Hp & Hu & [?|(_ & _ & Hl)]) Hnc Hw Hev Hlt Hlt' Hs; [done|].
  unfold supplied. rewrite Hs. destruct (decide (mnum (nk_sender nk) = c)) as [Heq|Hne].
  - rewrite Heq in *. rewrite Hw in Hp. injection Hp as <-. exists w'.
    rewrite lookup_insert_eq. split; [done|]. split; [pose proof (ev_uid _ _ _ Hev); lia|].
    intros wc _ _ Hlive. destruct (ev_live _ _ _ Hev _ Hu Hlive) as [H1 _].
    specialize (Hl H1). lia.
  - exists wp. rewrite lookup_insert_ne, lookup_insert_eq by done. split; [done|].
    split; [done|]. intros wc [= <-] _ Hlive. specialize (Hl Hlive). lia.
Qed.

(** A step that takes a block from a nack. *)
Lemma inv_supply n s c nk w w' X :
  inv n s -> nodes s !! c = Some w -> nk ∈ nacks s -> nk_data nk = true ->
  evolves X w w' -> X ⊆ {[nk_addr nk]} -> prio w < nk_prio nk -> prio w' < nk_prio nk ->
  nk_prio nk <= n ->
  inv (n + 1) (s <| nodes ::= <[c := w']> |> <| supplier ::= note_supplier c nk |>).
Proof.
  intros Hinv Hw Hin Hd Hev HX Hlt Hlt' Hn.
  pose proof (no_prio _ _ _ (iv_nodes _ _ Hinv _ _ Hw)) as Hp.
  eapply (inv_node _ _ _ _ _ _ X); try done; cbn; [lia|by left|].
  intros c' a q u H. unfold note_supplier in H.
  destruct (decide ((c, nk_addr nk) = (c', a))) as [[= <- <-]|Hne].
  - rewrite lookup_insert_eq in H. injection H as <- <-. right.
    eapply supplied_new; [by apply (iv_nacks _ _ Hinv)|lia|done..].
  - rewrite lookup_insert_ne in H by done. left. split; [done|]. intros -> Ha.
    apply Hne. f_equal. set_solver.
Qed.

(** A step that leaves the processors as they are. *)
Lemma inv_request n s p w a rq :
  inv n s -> nodes s !! p = Some w -> issueRequest a w = Ok rq ->
  inv (n + 1) (s <| requests ::= cons rq |>).
Proof.
  intros [Hok Hrq Hnk Hsup] Hp H. split; cbn.
  - intros q v Hq. by apply node_ok_later, Hok.
  - intros r [->|Hr]%elem_of_cons; [|specialize (Hrq r Hr); lia].
    unfold issueRequest in H. destruct (getSwTransactionPriority w); [|done]. injection H as <-.
    cbn. rewrite getTransactionPriority_eq by done. destruct (Hok _ _ Hp) as [_ _ ? _]. lia.
  - intros nk Hin Hd. destruct (Hnk nk Hin Hd) as (wp & ? & ? & Hc). exists wp.
    split; [done|]. split; [done|]. destruct Hc as [?|(? & ? & ?)]; [by left|right].
    split; [lia|done].
  - done.
Qed.

Lemma inv_send (e : Env) n s p w valid inflight rq nk w' :
  0 <= n < INT_MAX -> inv n s -> nodes s !! p = Some w -> rq ∈ requests s ->
  fn_sendInvNack valid inflight rq w = Ok (nk, w') ->
  inv (n + 1) (s <| nodes ::= <[p := w']> |> <| nacks ::= cons nk |>).
Proof.
  intros Hn Hinv Hp Hrq H. pose proof (iv_nodes _ _ Hinv _ _ Hp) as Hok.
  pose proof (iv_requests _ _ Hinv _ Hrq) as Hr. destruct Hok as [Hv Hl Hpr Hc] eqn:Eok.
  apply sendInvNack_sent in H; [|done|lia|lia|done].
  set (s' := s <| nodes ::= <[p := w']> |> <| nacks ::= cons nk |>).
  assert (evolves ∅ w w' /\ prio w' <= n + 1 /\ (nk_data nk = true -> promised (n + 1) s' nk))
    as (Hev & Hn' & Hpro).
  { destruct H as [[Hd Hf]|[Hd Hs]].
    - split; [by eapply frame_evolves|]. split; [|congruence].
      destruct Hf as (_ & Hf & _). unfold prio in *. lia.
    - split; [by eapply sent_evolves|].
      destruct (sent_promised n p rq nk w w' s s') as [? ?]; [done|done|lia|done|done|]. auto. }
  eapply (inv_node _ _ _ _ _ _ ∅); try done; cbn.
  - intros k [->|Hk]%elem_of_cons Hd; auto.
  - intros c a q u Hs. left. split; [done|set_solver].
Qed.

(** Speculative data that is accepted. *)
Lemma accepted (e : Env) n s c w w1 reload nk :
  inv n s -> nodes s !! c = Some w -> nk ∈ nacks s ->
  nackEvent reload nk w = Ok (Event_Nack_Spec, w1) ->
  w1 = w /\ nk_data nk = true /\ prio w < nk_prio nk /\
  NC_PRIO_VALUE + 2 <= nk_prio nk <= n /\ nk_sw_prio nk = false.
Proof.
  intros Hinv Hw Hin H. apply nackEvent_spec in H as (-> & Hd & Hlt).
  destruct (iv_nacks _ _ Hinv nk Hin Hd) as (wp & _ & _ & Hc).
  pose proof (no_prio _ _ _ (iv_nodes _ _ Hinv _ _ Hw)).
  destruct Hc as [?|(? & ? & _)]; [lia|done].
Qed.

Lemma inv_step n s s' : 0 <= n < INT_MAX -> inv n s -> step s s' -> inv (n + 1) s'.
Proof.
  intros Hn Hinv Hstep.
  assert (forall p w, nodes s !! p = Some w -> node_ok n p w) as Hok by apply (iv_nodes _ _ Hinv).
  assert (forall p w w', nodes s !! p = Some w -> frame w w' -> evolves ∅ w w' /\
    prio w' <= n) as Hframe.
  { intros p w w' Hp Hf. split; [by eapply frame_evolves; eauto|].
    destruct Hf as (_ & Hpr & _), (Hok _ _ Hp) as [_ _ ? _]. unfold prio in *. lia. }
  destruct Hstep as [s p w e o w' Hp H|s p w e pkt w' Hp H|s p w e pkt w' Hp H
    |s p w e pkt w' Hp H|s p w a rq Hp H|s p w e valid inflight rq nk w' Hp Hrq H
    |s c w e reload nk ev w' Hp Hin Hc H Hne|s c w e reload nk blk w1 w' Hp Hin Hc H H'
    |s c w e reload nk cached blk dirty r w1 w' Hp Hin Hc H H'].
  - apply keeps_run_op in H. destruct (Hframe _ _ _ Hp H). eapply inv_local; eauto with lia.
  - apply beginTransaction_begins in H; [|done].
    eapply inv_local; [done..|by eapply begins_evolves; eauto|]. rewrite (bg_prio _ _ H). nc_lia.
  - assert (m_transactionLevel (ctl w) = 1) as Hl.
    { pose proof (no_level _ _ _ (Hok _ _ Hp)).
      unfold InterfaceManager.commitTransaction in H. m_inv. m_case.
      match goal with H : (_ <? 1) = false |- _ => apply Z.ltb_ge in H end. lia. }
    apply commit_ends in H; [|done..].
    eapply inv_local; [done..|by eapply ends_evolves; eauto|]. rewrite (en_prio _ _ H). nc_lia.
  - apply abortTransaction_ends in H; [|done].
    eapply inv_local; [done..|by eapply ends_evolves; eauto|]. rewrite (en_prio _ _ H). nc_lia.
  - by eapply inv_request.
  - by eapply inv_send.
  - apply keeps_nackEvent in H. destruct (Hframe _ _ _ Hp H). eapply inv_local; eauto with lia.
  - destruct (accepted _ _ _ _ _ _ _ _ Hinv Hp Hin H) as (-> & Hd & Hlt & Hk & Hsw).
    destruct (consume_evolves e n c nk blk w w') as [Hev Hlt']; [by auto|lia|done..|].
    by eapply (inv_supply _ _ _ _ _ _ _ Hinv Hp Hin Hd Hev); auto with lia.
  - destruct (accepted _ _ _ _ _ _ _ _ Hinv Hp Hin H) as (-> & Hd & Hlt & Hk & Hsw).
    apply keeps_validateDataBlock in H'; [|apply CC].
    destruct (Hframe _ _ _ Hp H') as [Hev _]. destruct H' as (_ & Hpr & _). unfold prio in *.
    eapply (inv_supply _ _ _ _ _ _ ∅ Hinv Hp Hin Hd Hev); unfold prio; [set_solver|lia..].
Qed.

Lemma inv_initial s : initial s -> inv 0 s.
Proof.
  intros [Hn Hr Hk Hs]. split.
  - intros p w Hp. destruct (Hn p w Hp) as (? & ? & ? & Hrecv). split; [done|lia|nc_lia|].
    apply not_consumer_recv in Hrecv. congruence.
  - rewrite Hr. intros rq ?%elem_of_nil. done.
  - rewrite Hk. intros nk ?%elem_of_nil. done.
  - intros c a p u. by rewrite Hs.
Qed.

Lemma inv_reachable k n s0 s :
  nsteps step k s0 s -> inv n s0 -> 0 <= n -> n + Z.of_nat k <= INT_MAX ->
  inv (n + Z.of_nat k) s.
Proof.
  intros H. revert n. induction H as [s|k s0 s1 s H _ IH]; intros n Hinv H0 Hn.
  { by rewrite Z.add_0_r. }
  replace (n + Z.of_nat (S k)) with (n + 1 + Z.of_nat k) by lia.
  apply IH; [eapply inv_step; [|done..]|..]; lia.
Qed.

(** *** No cycles *)

(** C1: No cyclic forwarding. The configurations are those of CHATS: eager conflict detection
    with lazy versioning, value forwarding other than the naive one, numeric priorities with a
    cycle strategy, and a policy that does not stall the requester. In every state the
    processors reach in fewer than 2^31 steps from a state without transactions (transactions
    begin, access memory, meet conflicts, exchange requests and speculative data in any order,
    with messages delayed or delivered twice, validate, commit and abort), no transaction
    depends on itself through a chain of unvalidated blocks supplied by running transactions:
    the checks of the producer and of the consumer rule out the cyclic forwarding that could
    never be validated. *)
Theorem forwarding_acyclic k s0 s c :
  initial s0 -> nsteps step k s0 s -> Z.of_nat k <= INT_MAX -> ~ tc (depends s) c c.
Proof.
  intros H0 Hk Hn. apply (inv_acyclic (0 + Z.of_nat k)).
  apply (inv_reachable k 0 s0); [done|by apply inv_initial|lia|lia].
Qed.

Lemma depends_above n s c p :
  inv n s -> depends s c p ->
  exists wc wp, nodes s !! c = Some wc /\ nodes s !! p = Some wp /\ prio wc < prio wp <= n /\
    0 < m_transactionLevel (ctl wp).
Proof.
  intros Hinv (wc & wp & a & u & Hc & Hp & Ha & Hs & Hl).
  destruct (iv_supplier _ _ Hinv _ _ _ _ Hs) as (wp' & Hp' & _ & H).
  rewrite Hp in Hp'. injection Hp' as <-. exists wc, wp. split; [done|]. split; [done|].
  destruct (iv_nodes _ _ Hinv _ _ Hp) as [_ _ ? _]. specialize (H wc Hc Ha Hl).
  split; [lia|apply Hl].
Qed.

(** Whether a line comes from a running transaction, and whether some does. *)
Definition supplied_live (s : Sys) (c a : Z) : bool :=
  match supplier s !! (c, a) with
  | Some (p, u) =>
      match nodes s !! p with
      | Some wp => (0 <? m_transactionLevel (ctl wp)) && (m_currentHtmUid (ctl wp) =? u)
      | None => false
      end
  | None => false
  end.

Lemma depends_dec s c : (exists p, depends s c p) \/ (forall p, ~ depends s c p).
Proof.
  destruct (nodes s !! c) as [wc|] eqn:Hc.
  2:{ right. intros p (wc & _ & _ & _ & H & _). congruence. }
  destruct (decide (set_Exists (fun a => supplied_live s c a = true) (recv (fwd wc))))
    as [(a & Ha & H)|Hno].
  - left. unfold supplied_live in H. destruct (supplier s !! (c, a)) as [[p u]|] eqn:Es; [|done].
    destruct (nodes s !! p) as [wp|] eqn:Hp; [|done].
    apply andb_true_iff in H as [H1%Z.ltb_lt H2%Z.eqb_eq].
    exists p, wc, wp, a, u. by repeat split.
  - right. intros p (wc' & wp & a & u & Hc' & Hp & Ha & Hs & [Hl Hu]). apply Hno.
    rewrite Hc in Hc'. injection Hc' as <-. exists a. split; [done|].
    unfold supplied_live. rewrite Hs, Hp. apply andb_true_iff.
    split; [by apply Z.ltb_lt|by apply Z.eqb_eq].
Qed.

(** Following the suppliers upwards ends. *)
Lemma chain_top n s p wp :
  inv n s -> nodes s !! p = Some wp -> 0 < m_transactionLevel (ctl wp) -> prio wp <= n ->
  exists q wq, rtc (depends s) p q /\ nodes s !! q = Some wq /\
    0 < m_transactionLevel (ctl wq) /\ forall r, ~ depends s q r.
Proof.
  intros Hinv. remember (Z.to_nat (n - prio wp)) as m eqn:Hm.
  revert p wp Hm. induction (lt_wf m) as [m _ IH]. intros p wp Hm Hp Hl Hn.
  destruct (depends_dec s p) as [[r Hr]|Hno]; [|by exists p, wp].
  destruct (depends_above n s p r Hinv Hr) as (wp' & wr & Hp' & Hr' & Hlt & Hlr).
  rewrite Hp in Hp'. injection Hp' as <-.
  destruct (IH (Z.to_nat (n - prio wr))) with (p := r) (wp := wr) as (q & wq & Hq & H);
    [lia|done|done|done|lia|].
  exists q, wq. split; [by eapply rtc_l|done].
Qed.

(** C19: A chain of waiting consumers has a top. The configurations are those of CHATS: eager
    conflict detection with lazy versioning, value forwarding other than the naive one (which
    has no cycle detection), numeric priorities with a cycle strategy, and a policy that does
    not stall the requester. In every state reached in fewer than 2^31 steps from a state
    without transactions, if a transaction holds an unvalidated block of a running transaction
    [p], then following the suppliers from [p] leads to a running transaction that holds no
    unvalidated block supplied by a running transaction. *)
Theorem chain_has_unblocked_top k s0 s c p :
  initial s0 -> nsteps step k s0 s -> Z.of_nat k <= INT_MAX -> depends s c p ->
  exists q wq, rtc (depends s) p q /\ nodes s !! q = Some wq /\
    0 < m_transactionLevel (ctl wq) /\ forall r, ~ depends s q r.
Proof.
  intros H0 Hk Hn H.
  assert (inv (0 + Z.of_nat k) s) as Hinv
    by (apply (inv_reachable k 0 s0); [done|by apply inv_initial|lia|lia]).
  destruct (depends_above _ s c p Hinv H) as (wc & wp & _ & Hp & Hlt & Hl).
  by eapply chain_top; [done..|lia].
Qed.
End system.

(** ** A concrete chain

    Processor 0 writes a line, processor 1 asks for it and consumes the
    uncommitted data. *)

#[local] Existing Instance ruby64.

(** Hardware on which [int] arithmetic wraps around. *)
Definition demo_wrap : Env := {|
  curTick := 50000;
  curCycle := 100;
  seq_isStalled := false;
  seq_packetUid := fun _ => Some 7;
  seq_makeRequest := fun _ => true;
  ticksToCycles := fun t => t / 500;
  uninit_bool := false;
  overflow_wraps := true;
  enableL0DowngradeOnL1Gets := true
|}.
#[local] Existing Instance demo_wrap.

Definition demo_chats : Config :=
  (eager_lazy "requester_loses") <| fwd_mechanism := "WN_DM" |> <| prio_mechanism := "numeric" |>
    <| fwd_cycle_solve_strategy := "retry" |>.
#[local] Existing Instance demo_chats.

Lemma demo_chats_config : chats_config demo_chats.
Proof. split; (reflexivity || discriminate). Qed.

Definition demo_pkt : InterfaceManager.Packet :=
  InterfaceManager.MkPacket 0 0 [] false true 7 3 false false HTM.INVALID 1 1000 10.

Definition demo_idle (version : Z) : World CacheMemory :=
  MkWorld (Ctl_init version 0) Fwd_init
    (MkConflictManager 0 false false 0 false false false 0 false false)
    IsolationManager.IsolationManager_init (LazyVM.LazyVM_init 0 0)
    (CommitArbiter.Arbiter_init, HTM_init 0) (EagerVM.EagerVM_init 0) Stats_init
    XactValueChecker.demo_l1
    (MkXactProfiler (replicate 2 (MkProcRegions zeroes DEFAULT 90 90 false false zeroes))
       INVALID zeroes zeroes)
    (XactIsolationChecker.MkXactIsolationChecker [] [] [])
    (XactValueChecker.XactValueChecker_init 2).

(** The state after an operation, and the answer of the owner of the line. *)
Definition after {A} (m : M (World CacheMemory) A) (w : World CacheMemory)
    : World CacheMemory :=
  match m w with Ok (_, w') => w' | Err _ => w end.

Lemma after_ok (m : M (World CacheMemory) unit) w :
  is_ok (m w) = true -> m w = Ok (tt, after m w).
Proof. unfold after. by destruct (m w) as [[[] w']|]. Qed.

Lemma after_val {A} (m : M (World CacheMemory) A) w a :
  match m w with Ok (b, _) => Some b | Err _ => None end = Some a -> m w = Ok (a, after m w).
Proof. unfold after. destruct (m w) as [[b w']|]; [|done]. by intros [= ->]. Qed.

Definition demo_begun (version : Z) : World CacheMemory :=
  after (InterfaceManager.beginTransaction demo_pkt) (demo_idle version).
Definition demo_wrote : World CacheMemory :=
  after (InterfaceManager.isolateTransactionStore 0) (demo_begun 0).
Definition demo_request : Request :=
  MkRequest 0 (MkMachineID MachineType_L1Cache 1) Trans NC_PRIO_VALUE false.
Definition demo_nack : Nack :=
  MkNack 0 (MkMachineID MachineType_L1Cache 0) (MkMachineID MachineType_L1Cache 1) 100 0 false
    true 7.
Definition demo_sent : World CacheMemory :=
  after (fn_sendInvNack true false demo_request) demo_wrote.
Definition demo_consumed : World CacheMemory :=
  after (nfd_notifyForwardedData DataBlock.alloc demo_nack) (demo_begun 1).

Definition demo_nodes (w0 w1 : World CacheMemory) : gmap Z (World CacheMemory) :=
  {[0 := w0; 1 := w1]}.

Lemma demo_nodes_0 w0 w1 : demo_nodes w0 w1 !! 0 = Some w0.
Proof. apply lookup_insert_eq. Qed.
Lemma demo_nodes_1 w0 w1 : demo_nodes w0 w1 !! 1 = Some w1.
Proof. unfold demo_nodes. rewrite lookup_insert_ne by done. apply lookup_singleton_eq. Qed.
Lemma demo_nodes_set_0 w0 w1 v : <[0 := v]> (demo_nodes w0 w1) = demo_nodes v w1.
Proof. unfold demo_nodes. by rewrite insert_insert_eq. Qed.
Lemma demo_nodes_set_1 w0 w1 v : <[1 := v]> (demo_nodes w0 w1) = demo_nodes w0 v.
Proof. unfold demo_nodes. by rewrite insert_insert_ne, insert_singleton_eq. Qed.

Definition demo_sys0 : Sys := MkSys (demo_nodes (demo_idle 0) (demo_idle 1)) [] [] ∅.
Definition demo_sys : Sys :=
  MkSys (demo_nodes demo_sent demo_consumed) [demo_request] [demo_nack]
    (note_supplier 1 demo_nack ∅).

Lemma demo_initial : initial demo_sys0.
Proof.
  split; [|done..]. intros p w Hw. cbn [nodes demo_sys0] in Hw. unfold demo_nodes in Hw.
  apply lookup_insert_Some in Hw as [[<- <-]|[_ [<- <-]%lookup_singleton_Some]];
    (split; [done|]); (split; [done|]); (split; [done|]); apply dom_empty_L.
Qed.

Lemma demo_step n (s s' s1 s2 : Sys (C := CacheMemory)) :
  step s s' -> s' = s1 -> nsteps step n s1 s2 -> nsteps step (S n) s s2.
Proof. intros H <- H'. by eapply nsteps_l. Qed.

Ltac demo_eq := unfold upd; cbn; rewrite ?demo_nodes_set_0, ?demo_nodes_set_1; reflexivity.
Ltac demo_run := vm_compute; reflexivity.

Lemma demo_steps : nsteps step 6 demo_sys0 demo_sys.
Proof.
  eapply (demo_step _ _ _ (MkSys (demo_nodes (demo_begun 0) (demo_idle 1)) [] [] ∅)).
  { apply (step_begin _ 0 (demo_idle 0) demo_wrap demo_pkt (demo_begun 0)); [apply demo_nodes_0|].
    apply after_ok. demo_run. }
  { unfold demo_sys0. demo_eq. }
  eapply (demo_step _ _ _ (MkSys (demo_nodes (demo_begun 0) (demo_begun 1)) [] [] ∅)).
  { apply (step_begin _ 1 (demo_idle 1) demo_wrap demo_pkt (demo_begun 1)); [apply demo_nodes_1|].
    apply after_ok. demo_run. }
  { demo_eq. }
  eapply (demo_step _ _ _ (MkSys (demo_nodes demo_wrote (demo_begun 1)) [] [] ∅)).
  { apply (step_op _ 0 (demo_begun 0) demo_wrap (OpStore 0) demo_wrote); [apply demo_nodes_0|].
    apply after_ok. demo_run. }
  { demo_eq. }
  eapply (demo_step _ _ _ (MkSys (demo_nodes demo_wrote (demo_begun 1)) [demo_request] [] ∅)).
  { apply (step_request _ 1 (demo_begun 1) 0 demo_request); [apply demo_nodes_1|]. demo_run. }
  { demo_eq. }
  eapply (demo_step _ _ _ (MkSys (demo_nodes demo_sent (demo_begun 1)) [demo_request]
                             [demo_nack] ∅)).
  { apply (step_send _ 0 demo_wrote demo_wrap true false demo_request demo_nack demo_sent);
      [apply demo_nodes_0|by left|]. apply (after_val (fn_sendInvNack true false demo_request)). demo_run. }
  { demo_eq. }
  eapply (demo_step _ _ _ demo_sys).
  { apply (step_consume _ 1 (demo_begun 1) demo_wrap false demo_nack DataBlock.alloc
             (demo_begun 1) demo_consumed);
      [apply demo_nodes_1|by left|reflexivity| |].
    - demo_run.
    - apply (after_ok (nfd_notifyForwardedData DataBlock.alloc demo_nack)). demo_run. }
  { unfold demo_sys. demo_eq. }
  apply nsteps_O.
Qed.

Lemma demo_depends : depends demo_sys 1 0.
Proof.
  exists demo_consumed, demo_sent, 0, 7.
  split; [apply demo_nodes_1|]. split; [apply demo_nodes_0|].
  split; [|split; [reflexivity|split; vm_compute; reflexivity]].
  apply elem_of_dom. vm_compute. by eexists.
Qed.

Lemma forwarding_acyclic_witness :
  depends demo_sys 1 0 /\ ~ tc (depends demo_sys) 1 1.
Proof.
  split; [exact demo_depends|].
  apply (forwarding_acyclic demo_chats_config 6 demo_sys0);
    [exact demo_initial|exact demo_steps|vm_compute; discriminate].
Defined.

Lemma chain_has_unblocked_top_witness :
  exists q wq, rtc (depends demo_sys) 0 q /\ nodes demo_sys !! q = Some wq /\
    0 < m_transactionLevel (ctl wq) /\ forall r, ~ depends demo_sys q r.
Proof.
  apply (chain_has_unblocked_top demo_chats_config 6 demo_sys0 demo_sys 1);
    [exact demo_initial|exact demo_steps|vm_compute; discriminate|exact demo_depends].
Defined.
