(* ===== verification/FwdInv.v ===== *)
(** * The forwarding registers are consistent

    What a producer and a consumer keep about the blocks they sent and
    received: one invariant of the registers, preserved by every operation of
    the system of [Chain], which is what the classification of a finished
    transaction ([TxProfile]) relies on. *)

From S2P Require Import Prelude Address HTM XactProfiler CacheMemory TxState TxProfile Frame.
From S2P Require DataBlock IsolationManager LazyVM CommitArbiter EagerVM.
From S2P Require XactIsolationChecker XactValueChecker ConflictManager Forwarding.
From S2P Require InterfaceManager.
From S2P Require Import Chain.
Import DataBlock (DataBlock).

#[local] Open Scope Z_scope.

(** A block was forwarded at least once, and modified between one forwarding
    and the next. *)
Definition forwardings_ok (l : list FwdInfo) : Prop :=
  exists last rest, l = last :: rest /\ Forall (fun f => fi_modified f = true) rest.

Section inv.
Context `{RS : RubySystem} `{CF : Config} {C : Type} `{DC : DataCache C}.
Notation W := (World C).

Record fwd_ok (w : W) : Prop := {
  (** Consumers are known exactly when blocks were sent. *)
  fo_sent : no_consumers w = emptyb (m_sentDataForwardedToConsumer (fwd w));
  fo_can : no_consumers w = false -> canProduce w = Ok true;
  fo_sent_all : dom (m_sentDataForwardedToConsumer (fwd w)) = dom (m_allSentData (fwd w));
  fo_forwardings : map_Forall (fun _ p => forwardings_ok (pi_forwardings p))
                     (m_allSentData (fwd w));
  (** A producer is known exactly when blocks were received. *)
  fo_received : has_producer w = negb (emptyb (m_allReceivedData (fwd w)));
  fo_recv_all : recv (fwd w) ⊆ dom (m_allReceivedData (fwd w));
  (** A transaction that does both remembers which it did first. *)
  fo_turned : m_consumerTurnedProducer (fwd w) || m_producerTurnedConsumer (fwd w) =
              negb (no_consumers w) && has_producer w;
  fo_once : m_consumerTurnedProducer (fwd w) && m_producerTurnedConsumer (fwd w) = false;
  (** A power transaction consumes nothing and has no hardware priority. *)
  fo_power : m_powered (cm w) = true -> has_producer w = false;
  fo_prio : m_powered (cm w) = true -> m_hwTransPrio (fwd w) = NC_PRIO_VALUE;
  fo_off : fwd_is no_fwd = true -> has_producer w = false
}.

(** What [fwd_ok] looks at. *)
Lemma fwd_ok_ext (w w' : W) :
  fwd w' = fwd w -> m_powered (cm w') = m_powered (cm w) -> fwd_ok w -> fwd_ok w'.
Proof.
  intros Hf Hc [? ? ? ? ? ? ? ? ? ? ?].
  split; unfold no_consumers, has_producer, canProduce, isConsumer in *; rewrite ?Hf, ?Hc; done.
Qed.

Lemma isProducer_ok (w : W) : fwd_ok w -> isProducer w = Ok (negb (no_consumers w)).
Proof.
  intros H. unfold isProducer. rewrite <- (fo_sent w H).
  destruct (no_consumers w) eqn:Hn; cbn; [done|]. by rewrite (fo_can w H Hn).
Qed.

Lemma isProducer_inv (w : W) b : isProducer w = Ok b -> b = negb (no_consumers w).
Proof.
  unfold isProducer. destruct (no_consumers w); cbn; intros H.
  - destruct (rassert _); [|done]. by injection H as <-.
  - destruct (canProduce w) as [c|]; [|done]. cbn in H. destruct (rassert c); [|done].
    cbn in H. destruct (rassert _); [|done]. by injection H as <-.
Qed.

Lemma hasConsumedData_inv (w : W) b : hasConsumedData w = Ok b -> b = has_producer w.
Proof.
  unfold hasConsumedData. intros H.
  match type of H with rbind ?r _ = _ => destruct r; [|done] end. by injection H as <-.
Qed.

Lemma canProduce_mono (w w' : W) :
  canProduce w = Ok true -> (isConsumer w' = true -> isConsumer w = true) ->
  canProduce w' = Ok true.
Proof.
  unfold canProduce. destruct isProducerPolicy as [b|]; [|done]. cbn. destruct b; [|done].
  intros H Hc. destruct (isConsumer w'); [by rewrite Hc in H by done|].
  destruct fwdMechanism; try done; cbn in H |- *.
  - destruct (rassert _); done.
  - by rewrite andb_false_r.
Qed.

Lemma consumer_has_producer (w : W) : fwd_ok w -> isConsumer w = true -> has_producer w = true.
Proof.
  intros H Hc. rewrite (fo_received w H). apply negb_true_iff. unfold emptyb.
  apply bool_decide_eq_false. intros He. pose proof (fo_recv_all w H) as Hs.
  rewrite He in Hs. apply Chain.isConsumer_recv in Hc as [a Ha]. set_solver.
Qed.

(** ** Preservation *)

Definition regs (w w' : W) : Prop := fwd_ok w -> fwd_ok w'.

#[export] Instance regs_preorder : PreOrder regs.
Proof. split; [intros w H; exact H|]. intros x y z H1 H2 H. by apply H2, H1. Qed.

Lemma regs_of_eq {A} (m : M W A) :
  (forall w a w', m w = Ok (a, w') ->
     fwd w' = fwd w /\ m_powered (cm w') = m_powered (cm w)) -> keeps regs m.
Proof. intros H w a w' E. destruct (H w a w' E). intros Hw. by apply (fwd_ok_ext w). Qed.

(** A member object the registers do not depend on. *)
Lemma regs_zoom {T A} (pr : W -> T) put (m : M T A) :
  (forall w t, fwd (put t w) = fwd w /\ cm (put t w) = cm w) -> keeps regs (zoom pr put m).
Proof.
  intros H. apply keeps_zoom_any. intros w t. destruct (H w t) as [H1 H2].
  intros Hw. apply (fwd_ok_ext w); [done|by rewrite H2|done].
Qed.

Lemma regs_on_ctl {A} (m : M Ctl A) : keeps regs (on_ctl m).
Proof. by apply regs_zoom. Qed.
Lemma regs_on_iso {A} (m : M IsolationManager.IsolationManager A) : keeps regs (on_iso m).
Proof. by apply regs_zoom. Qed.
Lemma regs_on_lvm {A} (m : M LazyVM.LazyVM A) : keeps regs (on_lvm m).
Proof. by apply regs_zoom. Qed.
Lemma regs_on_arb {A} (m : M CommitArbiter.ArbHTM A) : keeps regs (on_arb m).
Proof. by apply regs_zoom. Qed.
Lemma regs_on_evm {A} (m : M EagerVM.EagerVM A) : keeps regs (on_evm m).
Proof. by apply regs_zoom. Qed.
Lemma regs_on_prof {A} (m : M XactProfiler A) : keeps regs (on_prof m).
Proof. by apply regs_zoom. Qed.
Lemma regs_on_ichk {A} (m : M XactIsolationChecker.XactIsolationChecker A) :
  keeps regs (on_ichk m).
Proof. by apply regs_zoom. Qed.
Lemma regs_on_vchk {A} (m : M XactValueChecker.XactValueChecker A) : keeps regs (on_vchk m).
Proof. by apply regs_zoom. Qed.
Lemma regs_on_st f : keeps regs (on_st (C := C) f).
Proof. apply keeps_modify. intros w Hw. by apply (fwd_ok_ext w). Qed.
Lemma regs_set_dcache (c : C) : keeps regs (set! dcache := c).
Proof. apply keeps_modify. intros w Hw. by apply (fwd_ok_ext w). Qed.

(** A field of the conflict manager other than the power flag, or the flag
    reset. *)
Lemma regs_on_cm {A} (m : M ConflictManager A) :
  keeps (fun c c' => m_powered c' = true -> m_powered c = true) m -> keeps regs (on_cm m).
Proof.
  intros Hm. apply (keeps_zoom _ _ _ _ _ Hm).
  intros w c Hc [? ? ? ? ? ? ? ? ? ? ?]. split; try done; cbn; auto.
Qed.

(** A field of the registers the invariant does not mention. *)
Definition fwd_same (f f' : Fwd) : Prop :=
  m_hasSentDataToConsumer f' = m_hasSentDataToConsumer f /\
  m_hasReceivedDataFromProducer f' = m_hasReceivedDataFromProducer f /\
  m_recvDataForwardedFromProducer f' = m_recvDataForwardedFromProducer f /\
  m_allReceivedData f' = m_allReceivedData f /\ m_allSentData f' = m_allSentData f /\
  m_sentDataForwardedToConsumer f' = m_sentDataForwardedToConsumer f /\
  m_consumerTurnedProducer f' = m_consumerTurnedProducer f /\
  m_producerTurnedConsumer f' = m_producerTurnedConsumer f.

Lemma fwd_ok_same (w : W) f' :
  fwd_same (fwd w) f' -> (m_powered (cm w) = true -> m_hwTransPrio f' = NC_PRIO_VALUE) ->
  fwd_ok w -> fwd_ok (w <| fwd := f' |>).
Proof.
  intros (H1 & H2 & H3 & H4 & H5 & H6 & H7 & H8) Hp [? ? ? ? ? ? ? ? ? ? ?].
  split; unfold no_consumers, has_producer, canProduce, isConsumer, recv in *; cbn;
    rewrite ?H1, ?H2, ?H3, ?H4, ?H5, ?H6, ?H7, ?H8; done.
Qed.

Lemma regs_on_fwd_same (f : Fwd -> Fwd) :
  (forall x, fwd_same x (f x) /\ m_hwTransPrio (f x) = m_hwTransPrio x) ->
  keeps regs (on_fwd (C := C) (modify f)).
Proof.
  intros H w a w' [= _ <-] Hw. destruct (H (fwd w)) as [H1 H2].
  apply fwd_ok_same; [done| |done]. intros Hp. rewrite H2. by apply (fo_prio w Hw).
Qed.

Lemma regs_set_nc : keeps regs (on_fwd (C := C) (set! m_hwTransPrio := NC_PRIO_VALUE)).
Proof. intros w a w' [= _ <-] Hw. by apply fwd_ok_same. Qed.
End inv.

#[export] Hint Resolve regs_on_ctl regs_on_iso regs_on_lvm regs_on_arb regs_on_evm regs_on_prof
  regs_on_ichk regs_on_vchk regs_on_st regs_set_dcache regs_set_nc : keeps.
#[export] Hint Extern 1 (keeps regs (on_cm _)) =>
  (apply regs_on_cm; first [intros ? ? ? ?; m_inv; cbn in *; done]) : keeps.
#[export] Hint Extern 1 (keeps regs (on_fwd (modify _))) =>
  (apply regs_on_fwd_same; intros ?; repeat split; reflexivity) : keeps.

Section shared.
Context `{RS : RubySystem} `{CF : Config} `{E : Env} {C : Type} `{DC : DataCache C}.
Notation W := (World C).
Notation regs := (regs (C := C)).

Lemma regs_moveTo r : keeps regs (moveTo r).
Proof. unfold moveTo. keeps. Qed.
#[local] Hint Resolve regs_moveTo : keeps.

Lemma regs_setAbortFlag addr src t prio sw f : keeps regs (setAbortFlag addr src t prio sw f).
Proof. unfold setAbortFlag, forget_checked. keeps. Qed.
#[local] Hint Resolve regs_setAbortFlag : keeps.

Lemma regs_cancelTransaction : keeps regs cancelTransaction.
Proof. unfold cancelTransaction. keeps. Qed.

Lemma regs_notifyIllegalFailure : keeps regs notifyIllegalFailure.
Proof. unfold notifyIllegalFailure, setAbortCause. keeps. Qed.

Lemma regs_isIllegalNack addr src prio sw : keeps regs (isIllegalNack addr src prio sw).
Proof. unfold isIllegalNack. keeps. Qed.

Lemma regs_getActionOnIllegalData : keeps regs getActionOnIllegalData.
Proof. unfold getActionOnIllegalData. keeps. Qed.

Lemma switchHwPrio_inv p sw b (w w' : W) :
  switchHwPrio p sw b w = Ok (tt, w') ->
  exists pr, w' = w <| fwd := (fwd w) <| m_hwTransPrio := pr |> |>.
Proof.
  unfold switchHwPrio. intros H. m_case.
  - exists (m_hwTransPrio (fwd w)). by destruct w as [? []].
  - match goal with H : on_fwd _ _ = _ |- _ => injection H as <- end. eauto.
Qed.

(** A power transaction never gets a hardware priority. *)
Lemma switchHwPrio_power p sw b (w w' : W) :
  switchHwPrio p sw b w = Ok (tt, w') -> m_powered (cm w) = true ->
  m_hwTransPrio (fwd w) = NC_PRIO_VALUE -> m_hwTransPrio (fwd w') = NC_PRIO_VALUE.
Proof.
  intros H Hpow Hnc. unfold switchHwPrio in H. m_case.
  match goal with H : on_fwd _ _ = _ |- _ => injection H as <- end. cbn.
  match goal with H : _ = Ok ?x |- ?x = _ => rename H into Hx end.
  assert (getSwTransactionPriority w = Ok true \/ exists e, getSwTransactionPriority w = Err e)
    as Hsw.
  { unfold getSwTransactionPriority, isPowerMode, isPowered. rewrite Hpow.
    destruct isPowerTMPolicy; cbn; eauto. }
  rewrite Hnc in Hx. destruct b.
  - unfold prio_after_recv in Hx. rewrite Z.eqb_refl in Hx. cbn [andb] in Hx.
    destruct (negb sw); [|congruence]. by destruct Hsw as [Hsw|[e Hsw]]; rewrite Hsw in Hx.
  - unfold prio_after_send in Hx. destruct Hsw as [Hsw|[e Hsw]]; rewrite Hsw in Hx; [|done].
    cbn [rbind] in Hx. rewrite Z.eqb_refl in Hx. by injection Hx.
Qed.

Lemma regs_switchHwPrio p sw b : keeps regs (switchHwPrio p sw b).
Proof.
  intros w [] w' H Hw. pose proof (switchHwPrio_power _ _ _ _ _ H) as Hp.
  apply switchHwPrio_inv in H as [pr ->]. apply fwd_ok_same; [done| |done].
  intros Hpow. apply Hp; [done|]. by apply (fo_prio w Hw).
Qed.
#[local] Hint Resolve regs_isIllegalNack regs_switchHwPrio : keeps.

Lemma regs_notifySendNack addr ts id prio sw :
  keeps regs (ConflictManager.notifySendNack addr ts id prio sw).
Proof. unfold ConflictManager.notifySendNack, ConflictManager.setPossibleCycle. keeps. Qed.
#[local] Hint Resolve regs_notifySendNack : keeps.

Lemma regs_shouldNackRemoteRequest addr id ts t prio sw wr :
  keeps regs (ConflictManager.shouldNackRemoteRequest addr id ts t prio sw wr).
Proof.
  unfold ConflictManager.shouldNackRemoteRequest, ConflictManager.stalls_shouldNack. keeps.
Qed.
#[local] Hint Resolve regs_shouldNackRemoteRequest : keeps.

Lemma regs_shouldNackLoad addr id ts t prio sw :
  keeps regs (InterfaceManager.shouldNackLoad addr id ts t prio sw).
Proof. unfold InterfaceManager.shouldNackLoad, ConflictManager.shouldNackLoad. keeps. Qed.

Lemma regs_shouldNackStore addr id ts t prio sw ex :
  keeps regs (InterfaceManager.shouldNackStore addr id ts t prio sw ex).
Proof.
  unfold InterfaceManager.shouldNackStore, ConflictManager.shouldNackStore,
    ConflictManager.stalls_store. keeps.
Qed.

Lemma regs_notifyReceiveNack addr ts t prio sw id wr :
  keeps regs (ConflictManager.notifyReceiveNack addr ts t prio sw id wr).
Proof.
  unfold ConflictManager.notifyReceiveNack, ConflictManager.stalls_receiveNack. keeps.
Qed.
#[local] Hint Resolve regs_notifyReceiveNack : keeps.

(** *** Received blocks *)

(** The register of pending blocks loses entries or changes them. *)
Lemma fwd_ok_recv (w : W) m :
  dom m ⊆ recv (fwd w) -> fwd_ok w ->
  fwd_ok (w <| fwd := (fwd w) <| m_recvDataForwardedFromProducer := m |> |>).
Proof.
  intros Hm [? Hcan ? ? ? Hr ? ? ? ? ?]. split; try done.
  - intros Hn. apply (canProduce_mono w); [by apply Hcan|]. rewrite !Chain.isConsumer_recv.
    unfold recv at 1. cbn. intros [a Ha]. exists a. set_solver.
  - unfold recv at 1. cbn. set_solver.
Qed.

Lemma regs_delete_recv a :
  keeps regs (on_fwd (upd! m_recvDataForwardedFromProducer ::= delete a)).
Proof.
  intros w r w' [= _ <-] Hw. apply (fwd_ok_recv w); [|done]. unfold recv. set_solver.
Qed.
#[local] Hint Resolve regs_delete_recv : keeps.

(** The log of received blocks keeps its keys. *)
Lemma fwd_ok_received (w : W) m :
  dom m = dom (m_allReceivedData (fwd w)) -> fwd_ok w ->
  fwd_ok (w <| fwd := (fwd w) <| m_allReceivedData := m |> |>).
Proof.
  intros Hm [? ? ? ? Hrc Hr ? ? ? ? ?]. split; try done.
  - change (has_producer w = negb (emptyb m)). rewrite Hrc. f_equal. unfold emptyb.
    apply bool_decide_ext. by rewrite <- !dom_empty_iff_L, Hm.
  - unfold recv at 1. cbn. by rewrite Hm.
Qed.

Lemma regs_alter_received a f :
  keeps regs (on_fwd (upd! m_allReceivedData ::= alter f a)).
Proof.
  intros w r w' [= _ <-] Hw. apply (fwd_ok_received w); [|done]. apply dom_alter_L.
Qed.
#[local] Hint Resolve regs_alter_received : keeps.

Lemma regs_at_insert_recv (w : W) a d :
  is_Some (m_recvDataForwardedFromProducer (fwd w) !! a) ->
  keeps_at regs (on_fwd (upd! m_recvDataForwardedFromProducer ::= <[a := d]>)) w.
Proof.
  intros Ha r w' [= _ <-] Hw. apply (fwd_ok_recv w); [|done]. unfold recv.
  rewrite dom_insert_L. apply elem_of_dom in Ha. set_solver.
Qed.

(** Both registers of a received block change. *)
Lemma regs_at_update_block {A} (w : W) a d i (k : unit -> M W A) :
  is_Some (m_recvDataForwardedFromProducer (fwd w) !! a) ->
  is_Some (m_allReceivedData (fwd w) !! a) ->
  (forall u, keeps regs (k u)) ->
  keeps_at regs (do* on_fwd (upd! m_recvDataForwardedFromProducer ::= <[a := d]>);
                 bind (on_fwd (upd! m_allReceivedData ::= <[a := i]>)) k) w.
Proof.
  intros Ha Hi Hk. apply keeps_at_seq; [typeclasses eauto|by apply regs_at_insert_recv|].
  intros u w1 [= _ <-]. apply keeps_at_bind; [typeclasses eauto| |done].
  intros r w' [= _ <-] Hw. match type of Hw with fwd_ok ?v => apply (fwd_ok_received v); [|exact Hw] end.
  cbn. rewrite dom_insert_L. apply elem_of_dom in Hi. set_solver.
Qed.

Lemma regs_schedule addr retry :
  keeps regs (Forwarding.scheduleValidationOfConsumedData addr retry).
Proof. unfold Forwarding.scheduleValidationOfConsumedData. keeps. Qed.
#[local] Hint Resolve regs_schedule : keeps.

Lemma regs_validateDataBlock addr src blk blk' ts dirty nack :
  keeps regs (Forwarding.validateDataBlock addr src blk blk' ts dirty nack).
Proof.
  apply keeps_of_at. intros w. unfold Forwarding.validateDataBlock.
  apply keeps_at_massert. intros _. apply keeps_at_get, keeps_at_massert. intros _.
  destruct (m_recvDataForwardedFromProducer (fwd w) !! addr) as [d|] eqn:Ed; [|done].
  destruct (m_allReceivedData (fwd w) !! addr) as [i|] eqn:Ei; [|done].
  apply keeps_at_lift. intros [[same blk1] blk2] _.
  apply regs_at_update_block; [done|done|]. intros _.
  unfold Forwarding.blockValidated, Forwarding.scheduleNext. keeps.
Qed.

Lemma regs_setAccessOnForwardBlock addr off len wr :
  keeps regs (Forwarding.setAccessOnForwardBlock addr off len wr).
Proof.
  apply keeps_of_at. intros w. unfold Forwarding.setAccessOnForwardBlock. apply keeps_at_get.
  destruct (m_recvDataForwardedFromProducer (fwd w) !! addr) as [d|] eqn:Ed; [|done].
  destruct (m_allReceivedData (fwd w) !! addr) as [i|] eqn:Ei; [|done].
  apply keeps_at_lift. intros m1 _. apply keeps_at_lift. intros m2 _.
  assert (forall d i, keeps_at regs
    (do* on_fwd (upd! m_recvDataForwardedFromProducer ::= <[addr := d]>);
     on_fwd (upd! m_allReceivedData ::= <[addr := i]>)) w) as Hk.
  { intros d' i'. apply keeps_at_seq; [typeclasses eauto|by apply regs_at_insert_recv|].
    intros u w1 [= _ <-] r w' [= _ <-] Hw.
    match type of Hw with fwd_ok ?v => apply (fwd_ok_received v); [|exact Hw] end.
    cbn. rewrite dom_insert_L. apply elem_of_dom_2 in Ei. set_solver. }
  destruct wr; [apply keeps_at_lift; intros m3 _|apply keeps_at_ret]; apply Hk.
Qed.

(** *** Sent blocks *)

Lemma forwardings_ok_modified last rest :
  forwardings_ok (last :: rest) -> forwardings_ok (last <| fi_modified := true |> :: rest).
Proof. intros (l & r & [= -> ->] & H). by exists (l <| fi_modified := true |>), r. Qed.

Lemma again_sent_ok c p p' :
  forwardings_ok (pi_forwardings p) -> Forwarding.again_sent c p = Ok p' ->
  forwardings_ok (pi_forwardings p').
Proof.
  intros (l & r & Hl & Hr). unfold Forwarding.again_sent. rewrite Hl. intros [= <-].
  cbn. destruct (fi_modified l) eqn:Hm.
  - eexists _, (l :: r). split; [done|]. by constructor.
  - by eexists _, r.
Qed.

(** One entry of the log of sent blocks changes. *)
Lemma fwd_ok_sent_entry (w : W) a p p' :
  m_allSentData (fwd w) !! a = Some p -> forwardings_ok (pi_forwardings p') ->
  fwd_ok w -> fwd_ok (w <| fwd := (fwd w) <| m_allSentData ::= <[a := p']> |> |>).
Proof.
  intros Ha Hp [? ? Hd Hf ? ? ? ? ? ? ?]. split; try done.
  - cbn. rewrite dom_insert_L, Hd. apply elem_of_dom_2 in Ha. set_solver.
  - cbn. by apply map_Forall_insert_2.
Qed.

Lemma regs_setAccessOnProducedBlock addr off len wr :
  keeps regs (Forwarding.setAccessOnProducedBlock addr off len wr).
Proof.
  apply keeps_of_at. intros w. unfold Forwarding.setAccessOnProducedBlock. apply keeps_at_get.
  destruct (m_allSentData (fwd w) !! addr) as [p|] eqn:Ep; [|done].
  destruct wr; cbn [when]; [|by intros a w' [= _ <-]].
  apply keeps_at_lift. intros n _. destruct (pi_forwardings p) as [|last rest] eqn:Ef; [done|].
  intros r w' [= _ <-] Hw. eapply fwd_ok_sent_entry; [done| |done]. cbn.
  apply forwardings_ok_modified. rewrite <- Ef. by apply (fo_forwardings w Hw addr).
Qed.
(** The log of sent blocks after one more forwarding of line [a]. *)
Definition logged (c : MachineID) (a : Z) (f : Fwd) (all : gmap Z ProducerInfo) : Prop :=
  if has a (m_sentDataForwardedToConsumer f)
  then exists p p', m_allSentData f !! a = Some p /\ Forwarding.again_sent c p = Ok p' /\
         all = <[a := p']> (m_allSentData f)
  else all = std_insert a (Forwarding.new_ProducerInfo c curTick) (m_allSentData f).

Lemma addConsumer_inv addr c p sw (w w' : W) :
  Forwarding.addConsumer addr c p sw w = Ok (tt, w') ->
  exists all db pr, logged c addr (fwd w) all /\ canProduce w = Ok true /\ cm w' = cm w /\
    (m_powered (cm w) = true -> m_hwTransPrio (fwd w) = NC_PRIO_VALUE -> pr = NC_PRIO_VALUE) /\
    fwd w' = (fwd w)
      <| m_consumerTurnedProducer := m_consumerTurnedProducer (fwd w) ||
           (no_consumers w && has_producer w) |>
      <| m_hasSentDataToConsumer ::= union {[c]} |> <| m_hwTransPrio := pr |>
      <| m_allSentData := all |> <| m_sentDataForwardedToConsumer ::= std_insert addr db |>.
Proof.
  unfold Forwarding.addConsumer. intros H.
  apply bind_ok in H as (? & ? & [= <- <-] & H).
  apply bind_ok in H as (prod & ? & [->%isProducer_inv ->]%lift_ok & H).
  apply bind_ok in H as (? & w1 & H1 & H).
  apply bind_ok in H as (? & w2 & [= _ <-] & H).
  apply bind_ok in H as ([] & w3 & H3 & H).
  apply bind_ok in H as (? & ? & [= <- <-] & H).
  apply bind_ok in H as (can & w4 & H4 & H).
  apply bind_ok in H as (? & ? & [-> ->]%massert_ok & H).
  apply bind_ok in H as (blk & ? & [_ ->]%lift_ok & H).
  apply bind_ok in H as (? & w5 & H5 & H).
  apply bind_ok in H as (db & ? & [_ ->]%lift_ok & H).
  apply bind_ok in H as (? & w6 & [= _ <-] & H).
  apply bind_ok in H as (? & ? & [= <- <-] & H).
  apply bind_ok in H as (? & ? & [_ ->]%lift_ok & [_ ->]%ret_ok).
  assert (fwd w1 = (fwd w) <| m_consumerTurnedProducer := m_consumerTurnedProducer (fwd w) ||
    (no_consumers w && has_producer w) |> /\ cm w1 = cm w) as [Hf1 Hc1].
  { unfold unless in H1. destruct (no_consumers w); cbn [negb] in H1.
    - apply bind_ok in H1 as (b & ? & [->%hasConsumedData_inv ->]%lift_ok & H1).
      unfold when in H1. destruct (has_producer w).
      + injection H1 as _ <-. split; [|done]. cbn. by rewrite orb_true_r.
      + m_inv. cbn. rewrite orb_false_r. by destruct w as [? []].
    - m_inv. cbn. rewrite orb_false_r. by destruct w as [? []]. }
  pose proof (switchHwPrio_power _ _ _ _ _ H3) as Hpw. cbn in Hpw. rewrite Hc1, Hf1 in Hpw.
  apply switchHwPrio_inv in H3 as [pr ->]. cbn in Hpw.
  match type of H5 with context [has addr (m_sentDataForwardedToConsumer (fwd ?v))] =>
    assert (w4 = v /\ canProduce v = Ok true) as [-> Hcan] end.
  { destruct (m_abortFlag _); m_inv. done. }
  unfold canProduce, isConsumer in Hcan. cbn in Hcan, H5. rewrite Hf1 in Hcan, H5. cbn in Hcan, H5.
  assert (exists all, logged c addr (fwd w) all /\ cm w5 = cm w /\
    fwd w5 = (fwd w1) <| m_hasSentDataToConsumer ::= union {[c]} |> <| m_hwTransPrio := pr |>
               <| m_allSentData := all |>) as (all & Hlog & Hc5 & Hf5).
  { unfold logged. destruct (has addr _).
    - destruct (m_allSentData (fwd w) !! addr) as [q|] eqn:Eq; [|done]. m_inv.
      match goal with H : on_fwd _ _ = _ |- _ => injection H as _ <- end.
      eexists. split; [by eauto|]. split; [done|]. cbn. by rewrite Hf1.
    - injection H5 as _ <-. eexists. split; [done|]. split; [done|]. cbn. by rewrite Hf1. }
  exists all, db, pr. do 4 (split; [done|]). cbn. by rewrite Hf5, Hf1.
Qed.

Lemma regs_addConsumer addr c p sw : keeps regs (Forwarding.addConsumer addr c p sw).
Proof.
  intros w [] w' H Hw.
  apply addConsumer_inv in H as (all & db & pr & Hlog & Hcan & Hc & Hpr & Hf).
  destruct Hw as [Hs Hp Hd Hfw Hrc Hr Ht Ho Hpow Hnc Hoff] eqn:Ew; clear Ew.
  assert (no_consumers w' = false) as Hn.
  { unfold no_consumers. rewrite Hf. cbn. apply bool_decide_eq_false. set_solver. }
  assert (has_producer w' = has_producer w) as Hh by (unfold has_producer; by rewrite Hf).
  assert (isConsumer w' = isConsumer w) as Hi by (unfold isConsumer; by rewrite Hf).
  assert (dom all = {[addr]} ∪ dom (m_sentDataForwardedToConsumer (fwd w)) /\
    map_Forall (fun _ p => forwardings_ok (pi_forwardings p)) all) as [Hdom Hall].
  { unfold logged in Hlog. destruct (has addr _) eqn:Ehas.
    - destruct Hlog as (q & q' & Hq & Hag & ->). rewrite dom_insert_L, Hd. split; [done|].
      apply map_Forall_insert_2; [|done]. eapply again_sent_ok; [by apply (Hfw addr)|done].
    - subst all. rewrite dom_std_insert, Hd. split; [done|]. intros k x Hk.
      apply lookup_std_insert_Some in Hk as [Hk|(-> & -> & _)]; [by apply (Hfw k)|].
      cbn. by eexists _, []. }
  split; rewrite ?Hn, ?Hh, ?Hc; try done.
  - unfold emptyb. symmetry. apply bool_decide_eq_false. rewrite Hf. cbn.
    rewrite <- dom_empty_iff_L, dom_std_insert. set_solver.
  - intros _. by apply (canProduce_mono w); [done|rewrite Hi].
  - rewrite Hf. cbn. by rewrite dom_std_insert, Hdom.
  - by rewrite Hf.
  - rewrite Hf. cbn. by rewrite Hrc.
  - rewrite Hf. unfold recv. cbn. done.
  - rewrite Hf. cbn. destruct (no_consumers w), (has_producer w); cbn in *;
      rewrite ?orb_true_r, ?orb_false_r; done.
  - rewrite Hf. cbn. destruct (no_consumers w), (has_producer w); cbn in *;
      rewrite ?orb_false_r; try done. apply orb_false_iff in Ht as [_ ->]. apply andb_false_r.
  - intros Hp'. rewrite Hf. cbn. by apply Hpr, Hnc.
Qed.

(** *** A block is consumed *)

(** The registers up to fields the invariant does not mention. *)
Definition calm (w w' : W) : Prop :=
  fwd_same (fwd w) (fwd w') /\ m_powered (cm w') = m_powered (cm w).

#[local] Instance calm_preorder : PreOrder calm.
Proof.
  split; [done|]. intros x y z [H1 E1] [H2 E2]. split; [|congruence].
  unfold fwd_same in *. destruct_and!. split_and!; congruence.
Qed.

Lemma calm_on_ctl {A} (m : M Ctl A) : keeps calm (on_ctl m).
Proof. by apply keeps_zoom_any. Qed.
Lemma calm_on_prof {A} (m : M XactProfiler A) : keeps calm (on_prof m).
Proof. by apply keeps_zoom_any. Qed.
Lemma calm_on_lvm {A} (m : M LazyVM.LazyVM A) : keeps calm (on_lvm m).
Proof. by apply keeps_zoom_any. Qed.
Lemma calm_on_ichk {A} (m : M XactIsolationChecker.XactIsolationChecker A) :
  keeps calm (on_ichk m).
Proof. by apply keeps_zoom_any. Qed.
#[local] Hint Resolve calm_on_ctl calm_on_prof calm_on_lvm calm_on_ichk : keeps.
#[local] Hint Extern 2 (keeps calm _) => (intros ? ? ? [= _ <-]; done) : keeps.

Lemma calm_setAbortFlag addr src t prio sw f : keeps calm (setAbortFlag addr src t prio sw f).
Proof. unfold setAbortFlag, forget_checked, moveTo. keeps. Qed.
#[local] Hint Resolve calm_setAbortFlag : keeps.

Lemma calm_switchHwPrio p sw b : keeps calm (switchHwPrio p sw b).
Proof. unfold switchHwPrio. keeps. Qed.
#[local] Hint Resolve calm_switchHwPrio : keeps.

Lemma calm_notifyReceiveNack addr ts t prio sw id wr :
  keeps calm (ConflictManager.notifyReceiveNack addr ts t prio sw id wr).
Proof.
  unfold ConflictManager.notifyReceiveNack, ConflictManager.stalls_receiveNack, isIllegalNack.
  keeps.
Qed.
#[local] Hint Resolve calm_notifyReceiveNack : keeps.

(** Both registers have the block, from a known producer. *)
Record got (a : Z) (w w' : W) : Prop := {
  got_sent : m_hasSentDataToConsumer (fwd w') = m_hasSentDataToConsumer (fwd w);
  got_data : m_sentDataForwardedToConsumer (fwd w') = m_sentDataForwardedToConsumer (fwd w);
  got_all : m_allSentData (fwd w') = m_allSentData (fwd w);
  got_ctp : m_consumerTurnedProducer (fwd w') = m_consumerTurnedProducer (fwd w);
  got_ptc : m_producerTurnedConsumer (fwd w') = m_producerTurnedConsumer (fwd w);
  got_recv : recv (fwd w') = {[a]} ∪ recv (fwd w);
  got_received : dom (m_allReceivedData (fwd w')) = {[a]} ∪ dom (m_allReceivedData (fwd w));
  got_power : m_powered (cm w') = m_powered (cm w)
}.

Lemma insertReceived_got a db src (w w' : W) u :
  Forwarding.insertReceived a db src w = Ok (u, w') ->
  got a w w' /\
  m_hasReceivedDataFromProducer (fwd w') = m_hasReceivedDataFromProducer (fwd w).
Proof.
  unfold Forwarding.insertReceived. intros H.
  apply bind_ok in H as (d & ? & [_ ->]%lift_ok & H).
  apply bind_ok in H as (? & w1 & [= _ <-] & H). injection H as _ <-.
  split; [|done]. split; try done; unfold recv; cbn; by rewrite dom_std_insert.
Qed.

Lemma got_calm a (w w1 w2 : W) : got a w w1 -> calm w1 w2 -> got a w w2.
Proof.
  intros [? ? ? ? ? Hr ? ?] [(? & ? & Hr2 & ? & ? & ? & ? & ?) ?].
  split; try congruence. unfold recv in *. by rewrite Hr2.
Qed.

Lemma becomeConsumer_got a db src (w w' : W) u :
  Forwarding.becomeConsumer a db src w = Ok (u, w') ->
  got a w w' /\ m_hasReceivedDataFromProducer (fwd w') = src.
Proof.
  unfold Forwarding.becomeConsumer. intros H.
  apply bind_ok in H as (? & ? & [= <- <-] & H).
  apply bind_ok in H as (b & ? & [_ ->]%lift_ok & H).
  apply bind_ok in H as (? & w1 & H1 & H). kept calm in H1 by keeps.
  apply bind_ok in H as (? & w2 & H2 & H). apply insertReceived_got in H2 as [H2 _].
  apply bind_ok in H as (? & w3 & [= _ <-] & H).
  apply bind_ok in H as (? & w4 & [= _ <-] & H).
  kept calm in H by (unfold Forwarding.scheduleValidationOfConsumedData; keeps).
  destruct H as [(? & Hp & Hr2 & ? & ? & ? & ? & ?) ?]. cbn in *. split; [|done].
  destruct H1 as [(? & ? & Hr1 & Hall & ? & ? & ? & ?) ?], H2 as [? ? ? ? ? Hr Hrc ?].
  split; try congruence. unfold recv in *. by rewrite Hr2, Hr, Hr1.
Qed.

(** A transaction without power that accepted the block. *)
Definition may_consume (src : MachineID) (w : W) : Prop :=
  m_powered (cm w) = false /\ src <> createInvalidMachineID /\
  exists a p sw, Forwarding.shouldAcceptForwardedDataFromProducer a src p sw w = Ok true.

(** An accepted block does not take the right to produce away. *)
Lemma accepted_canProduce src (w w' : W) :
  may_consume src w -> no_consumers w = false -> canProduce w = Ok true ->
  canProduce w' = Ok true.
Proof.
  intros (_ & _ & a & p & sw & Ha) Hn Hc. unfold canProduce in *.
  destruct isProducerPolicy as [b|]; [|done]. cbn in *. destruct b; [|done].
  unfold Forwarding.shouldAcceptForwardedDataFromProducer in Ha.
  destruct fwdMechanism; try done; cbn in *;
    repeat match type of Ha with
    | (if ?b then _ else _) = _ => destruct b eqn:?; cbn in *
    | rbind (rassert ?b) _ = _ => destruct (rassert b); [|done]; cbn in Ha
    | rbind (isProducer w) _ = _ =>
        destruct (isProducer w) as [q|] eqn:Hq; [|done]; cbn in Ha;
        apply isProducer_inv in Hq; rewrite Hn in Hq; by subst
    end; done.
Qed.

Lemma got_fwd_ok a src (w w1 w' : W) :
  fwd_ok w -> may_consume src w ->
  fwd_same (fwd w) ((fwd w1) <| m_producerTurnedConsumer := m_producerTurnedConsumer (fwd w) |>) ->
  m_powered (cm w1) = m_powered (cm w) ->
  m_producerTurnedConsumer (fwd w1) =
    m_producerTurnedConsumer (fwd w) || (negb (has_producer w) && negb (no_consumers w)) ->
  got a w1 w' -> has_producer w' = true -> fwd_ok w'.
Proof.
  intros [Hs Hp Hd Hfw Hrc Hr Ht Ho Hpow Hnc Hoff] Hmay (H1 & H2 & H3 & H4 & H5 & H6 & H7 & _) Hc Hptc
    [G1 G2 G3 G4 G5 G6 G7 G8] Hh. cbn in H1, H2, H3, H4, H5, H6, H7.
  assert (no_consumers w' = no_consumers w) as Hn by (unfold no_consumers; by rewrite G1, H1).
  split; rewrite ?Hn, ?Hh.
  - by rewrite G2, H6.
  - intros Hf. eapply accepted_canProduce; eauto.
  - by rewrite G2, H6, G3, H5.
  - rewrite G3, H5. done.
  - symmetry. apply negb_true_iff, bool_decide_eq_false.
    rewrite <- dom_empty_iff_L, G7. set_solver.
  - rewrite G6, G7, H4. unfold recv in *. rewrite H3. set_solver.
  - rewrite G4, G5, H7, Hptc, orb_assoc, Ht. by destruct (no_consumers w), (has_producer w).
  - rewrite G4, G5, H7, Hptc. destruct (no_consumers w), (has_producer w); cbn in *;
      rewrite ?orb_false_r, ?orb_true_r; try done. apply orb_false_iff in Ht as [-> _]. done.
  - destruct Hmay as [Hm _]. rewrite G8, Hc, Hm. done.
  - destruct Hmay as [Hm _]. rewrite G8, Hc, Hm. done.
  - intros Hf. destruct Hmay as (_ & _ & ? & ? & ? & Ha). unfold fwd_is in Hf.
    apply bool_decide_eq_true in Hf.
    by unfold Forwarding.shouldAcceptForwardedDataFromProducer in Ha; rewrite Hf in Ha.
Qed.

Lemma notifyForwarded_regs addr blk src ts p sw (w w' : W) :
  Forwarding.notifyForwardedDataFromProducer addr blk src ts p sw w = Ok (tt, w') ->
  may_consume src w -> fwd_ok w -> fwd_ok w'.
Proof.
  unfold Forwarding.notifyForwardedDataFromProducer. intros H Hmay Hw.
  apply bind_ok in H as (? & ? & [= <- <-] & H).
  apply bind_ok in H as (c & ? & [->%hasConsumedData_inv ->]%lift_ok & H).
  apply bind_ok in H as (? & w1 & H1 & H).
  do 2 apply bind_ok in H as (? & ? & [_ ->]%massert_ok & H).
  apply bind_ok in H as (uid & ? & [_ ->]%lift_ok & H).
  apply bind_ok in H as (? & ? & [_ ->]%massert_ok & H).
  apply bind_ok in H as (st & ? & [_ ->]%lift_ok & H).
  apply bind_ok in H as (? & w2 & H2 & H). kept calm in H2 by keeps.
  apply bind_ok in H as (? & ? & [= <- <-] & H).
  apply bind_ok in H as (? & w3 & H3 & H).
  kept regs in H by (unfold Forwarding.checkSpecLimits; keeps). apply H. clear H.
  assert (w1 = w <| fwd := (fwd w) <| m_producerTurnedConsumer :=
    m_producerTurnedConsumer (fwd w) || (negb (has_producer w) && negb (no_consumers w)) |> |>)
    as ->.
  { unfold unless in H1. destruct (has_producer w); cbn [negb].
    - m_inv. cbn. rewrite orb_false_r. by destruct w as [? []].
    - apply bind_ok in H1 as (q & ? & [->%isProducer_inv ->]%lift_ok & H1). unfold when in H1.
      destruct (no_consumers w); cbn [negb andb] in *; m_inv.
      + rewrite orb_false_r. by destruct w as [? []].
      + match goal with H : on_fwd _ _ = _ |- _ => injection H as _ <- end.
        by rewrite orb_true_r. }
  destruct H2 as [(E1 & E2 & E3 & E4 & E5 & E6 & E7 & E8) Hc2].
  cbn in E1, E2, E3, E4, E5, E6, E7, E8, Hc2.
  apply (got_fwd_ok addr src w w2); [done|done|by repeat split|done|done| |].
  - destruct (isConsumer w2); cbn [negb] in H3;
      [by apply insertReceived_got in H3 as [? _]|by apply becomeConsumer_got in H3 as [? _]].
  - destruct (isConsumer w2) eqn:Hi; cbn [negb] in H3.
    + apply insertReceived_got in H3 as [_ Hp]. unfold has_producer. rewrite Hp, E2.
      apply consumer_has_producer; [done|]. unfold isConsumer in *. by rewrite <- E3.
    + apply becomeConsumer_got in H3 as [_ Hp]. unfold has_producer. rewrite Hp.
      destruct Hmay as (_ & Hs & _). apply negb_true_iff, bool_decide_eq_false, Hs.
Qed.

(** *** The interface manager *)

Lemma regs_isolateTransactionLoad addr : keeps regs (InterfaceManager.isolateTransactionLoad addr).
Proof. unfold InterfaceManager.isolateTransactionLoad. keeps. Qed.
#[local] Hint Resolve regs_isolateTransactionLoad : keeps.

Lemma regs_xactReplacement addr src cap stale spec :
  keeps regs (InterfaceManager.xactReplacement addr src cap stale spec).
Proof.
  unfold InterfaceManager.xactReplacement, InterfaceManager.replace_stale,
    InterfaceManager.replace_spec, InterfaceManager.replace_read,
    InterfaceManager.replacement_abort. keeps.
Qed.

Lemma regs_initiateCommitTransaction others :
  keeps regs (InterfaceManager.initiateCommitTransaction others).
Proof. unfold InterfaceManager.initiateCommitTransaction. keeps. Qed.

(** Registers at rest. *)
Lemma fwd_ok_reset (w : W) f :
  m_hasSentDataToConsumer f = ∅ -> m_hasReceivedDataFromProducer f = createInvalidMachineID ->
  m_recvDataForwardedFromProducer f = ∅ -> m_allReceivedData f = ∅ -> m_allSentData f = ∅ ->
  m_sentDataForwardedToConsumer f = ∅ -> m_consumerTurnedProducer f = false ->
  m_producerTurnedConsumer f = false ->
  (m_powered (cm w) = true -> m_hwTransPrio f = NC_PRIO_VALUE) -> fwd_ok (w <| fwd := f |>).
Proof.
  intros H1 H2 H3 H4 H5 H6 H7 H8 H9.
  assert (no_consumers (w <| fwd := f |>) = true) as Hn
    by (unfold no_consumers; cbn; rewrite H1; by apply bool_decide_eq_true).
  assert (has_producer (w <| fwd := f |>) = false) as Hp
    by (unfold has_producer; cbn; rewrite H2, bool_decide_eq_true_2; done).
  split; rewrite ?Hn, ?Hp; unfold recv; cbn; rewrite ?H3, ?H4, ?H5, ?H6, ?H7, ?H8; done.
Qed.

Lemma regs_profileHtmFwdTransaction aborted i :
  keeps regs (profileHtmFwdTransaction aborted i).
Proof.
  unfold profileHtmFwdTransaction, profile_producer, profile_consumer, profile_power,
    profile_no_power, type_rate, incr. keeps.
Qed.

Lemma regs_nacked_changed l : keeps regs (InterfaceManager.nacked_changed l).
Proof.
  induction l as [|[a d] l IH]; cbn [InterfaceManager.nacked_changed]; unfold incr; keeps.
Qed.
#[local] Hint Resolve regs_profileHtmFwdTransaction regs_nacked_changed : keeps.

Lemma regs_commit_forwarding : keeps regs InterfaceManager.commit_forwarding.
Proof.
  apply keeps_of_at. intros w. unfold InterfaceManager.commit_forwarding, when.
  destruct config_allowEarlyValueFwd; [|by apply keeps_at_of, keeps_ret; apply _].
  apply keeps_at_get, keeps_at_massert. intros Hc%negb_true_iff.
  intros u w' H Hw.
  apply bind_ok in H as (? & w1 & H1 & H).
  assert (fwd w1 = fwd w /\ cm w1 = cm w) as [Hf Hcm].
  { unfold unless in H1. destruct (_ =? _); m_inv; [done|]. by injection H1 as _ <-. }
  apply bind_ok in H as (? & ? & [_ ->]%lift_ok & H).
  apply bind_ok in H as (? & w2 & [= _ <-] & H).
  apply bind_ok in H as (? & ? & [_ ->]%lift_ok & H).
  apply bind_ok in H as (? & w3 & H3 & H).
  assert (w3 = w1 <| ctl := (ctl w1) <| m_atCommit := false |> |>) as ->
    by (unfold when in H3; m_case).
  apply bind_ok in H as (? & w4 & [= _ <-] & H).
  apply bind_ok in H as (? & w5 & [= _ <-] & [_ ->]%massert_ok).
  apply fwd_ok_reset; cbn; rewrite ?Hf, ?Hcm; try done.
  - apply Chain.not_consumer_recv in Hc. unfold recv in Hc. by apply dom_empty_iff_L.
  - intros Hp. by apply (fo_prio w Hw).
Qed.
#[local] Hint Resolve regs_commit_forwarding : keeps.

Lemma regs_commitTransaction pkt : keeps regs (InterfaceManager.commitTransaction pkt).
Proof.
  unfold InterfaceManager.commitTransaction, InterfaceManager.commit_outermost,
    InterfaceManager.commit_versioning, InterfaceManager.commit_eager_lazy,
    InterfaceManager.profile_nacked, InterfaceManager.commit_lazy_lazy,
    InterfaceManager.commit_logtm, InterfaceManager.clear_checked,
    InterfaceManager.commit_stats, ConflictManager.commitTransaction,
    ConflictManager.clearPossibleCycle, incr. keeps.
Qed.

Lemma regs_abort_forwarding : keeps regs InterfaceManager.abort_forwarding.
Proof.
  intros w u w' H Hw. unfold InterfaceManager.abort_forwarding, when in H.
  destruct config_allowEarlyValueFwd; [|by m_inv].
  apply bind_ok in H as (? & ? & [= <- <-] & H).
  apply bind_ok in H as (? & w1 & H1 & H). kept regs in H1 by keeps.
  apply bind_ok in H as (? & ? & [_ ->]%lift_ok & H).
  apply bind_ok in H as (? & w2 & H2 & H). kept regs in H2 by keeps.
  apply bind_ok in H as (? & ? & [_ ->]%lift_ok & H).
  apply bind_ok in H as (? & w3 & H3 & H).
  kept regs in H3 by (unfold InterfaceManager.discardForwardedDataFromL1DataCache,
    InterfaceManager.discard_forwarded, InterfaceManager.deallocate; keeps).
  assert (fwd_ok w3) as Hw3 by auto.
  apply bind_ok in H as (? & w4 & [= _ <-] & H).
  apply bind_ok in H as (? & w5 & [= _ <-] & H). injection H as _ <-.
  apply fwd_ok_reset; try done. intros Hp. by apply (fo_prio w3 Hw3).
Qed.
#[local] Hint Resolve regs_abort_forwarding : keeps.

Lemma regs_abortTransaction pkt : keeps regs (InterfaceManager.abortTransaction pkt).
Proof.
  unfold InterfaceManager.abortTransaction, profileHtmFailureFaultCause,
    InterfaceManager.abort_lazy, InterfaceManager.abort_eager_lazy,
    InterfaceManager.abort_lazy_lazy, InterfaceManager.abort_logtm,
    InterfaceManager.discardWriteSetFromL1DataCache, InterfaceManager.discard_written,
    InterfaceManager.deallocate, InterfaceManager.abort_stats, InterfaceManager.clear_checked,
    InterfaceManager.abort_at_commit, InterfaceManager.abort_level, InterfaceManager.abort_flag,
    ConflictManager.restartTransaction, ConflictManager.clearPossibleCycle, incr. keeps.
Qed.

(** A begin touches no register; what it asserts makes the power flag
    harmless. *)
Definition same_fwd (w w' : W) : Prop := fwd w' = fwd w.

#[local] Instance same_fwd_preorder : PreOrder same_fwd.
Proof. split; [done|]. intros x y z. unfold same_fwd. congruence. Qed.

Ltac solve_same_fwd := keeps;
  try (by apply keeps_zoom_any); try (by apply keeps_modify).

Lemma beginTransaction_fwd pkt (w w' : W) u :
  config_allowEarlyValueFwd = true -> InterfaceManager.beginTransaction pkt w = Ok (u, w') ->
  fwd w' = fwd w /\ has_producer w = false.
Proof.
  intros Hfwd H. split.
  { kept same_fwd in H by (unfold InterfaceManager.beginTransaction,
      InterfaceManager.assert_not_forwarding, InterfaceManager.begin_versioning,
      ConflictManager.beginTransaction, moveTo; solve_same_fwd). done. }
  unfold InterfaceManager.beginTransaction in H.
  apply bind_ok in H as (? & ? & [= <- <-] & H).
  do 3 apply bind_ok in H as (? & ? & [_ ->]%massert_ok & H).
  apply bind_ok in H as (? & w1 & [= _ <-] & H).
  do 3 apply bind_ok in H as (? & ? & [_ ->]%massert_ok & H).
  apply bind_ok in H as (? & w2 & [= _ <-] & H). apply bind_ok in H as (? & w2 & [= _ <-] & H).
  apply bind_ok in H as (? & w3 & H3 & H). kept same_fwd in H3 by solve_same_fwd.
  apply bind_ok in H as (? & w4 & H4 & H).
  kept same_fwd in H4 by (unfold ConflictManager.beginTransaction; solve_same_fwd).
  apply bind_ok in H as (? & w5 & H5 & _).
  unfold InterfaceManager.assert_not_forwarding in H5. rewrite Hfwd in H5. cbn [when] in H5. m_inv.
  match goal with H : hasConsumedData _ = Ok ?b |- _ =>
    apply hasConsumedData_inv in H; subst b end.
  match goal with H : negb (has_producer _) = true |- _ => apply negb_true_iff in H;
    unfold has_producer in *; by rewrite H4, H3 in H end.
Qed.

Lemma regs_beginTransaction pkt :
  chats_config _ -> keeps regs (InterfaceManager.beginTransaction pkt).
Proof.
  intros CC w [] w' H Hw. destruct (beginTransaction_fwd _ _ _ _ (cc_fwd CC) H) as [Hf Hp].
  pose proof (bg_prio _ _ (beginTransaction_begins CC pkt w w' H)) as Hnc. unfold prio in Hnc. rewrite Hf in Hnc.
  destruct Hw as [? ? ? ? ? ? ? ? ? ? ?].
  split; unfold no_consumers, has_producer, canProduce, isConsumer in *; rewrite ?Hf; done.
Qed.
End shared.

(** ** The system *)

Section system.
Context `{RS : RubySystem} `{CF : Config} {C : Type} `{DC : DataCache C}.
Notation W := (World C).
Context (CC : chats_config _).

Lemma regs_run_op (e : Env) o : keeps (regs (C := C)) (run_op e o).
Proof.
  destruct o; cbn [run_op]; keeps; eauto using regs_isolateTransactionLoad,
    regs_setAccessOnForwardBlock, regs_setAccessOnProducedBlock, regs_shouldNackLoad,
    regs_shouldNackStore, regs_xactReplacement, regs_validateDataBlock, regs_cancelTransaction,
    regs_notifyIllegalFailure, regs_initiateCommitTransaction, regs_notifyReceiveNack with keeps.
  - unfold InterfaceManager.addToRetiredReadSet. keeps.
  - unfold InterfaceManager.isolateTransactionStore. keeps.
  - unfold Forwarding.ValidateConsumedDataEvent_process. keeps.
  - unfold InterfaceManager.beginEscapeAction. keeps.
  - unfold InterfaceManager.endEscapeAction. keeps.
Qed.

Lemma regs_sendInvNack (e : Env) valid inflight rq :
  keeps (regs (C := C)) (fn_sendInvNack valid inflight rq).
Proof.
  unfold fn_sendInvNack, Forwarding.shouldForwardDataToConsumer,
    Forwarding.shouldBecomeProducer, Forwarding.refuse, Forwarding.addBlockToNackReg.
  keeps; eauto using regs_setAbortFlag, regs_addConsumer.
Qed.

Lemma regs_nackEvent (e : Env) reload nk : keeps (regs (C := C)) (nackEvent reload nk).
Proof.
  unfold nackEvent. keeps; eauto using regs_isIllegalNack, regs_getActionOnIllegalData.
Qed.

Lemma nackEvent_accepts (e : Env) reload nk (w w' : W) :
  nackEvent reload nk w = Ok (Event_Nack_Spec, w') ->
  Forwarding.shouldAcceptForwardedDataFromProducer (nk_addr nk) (nk_sender nk) (nk_prio nk)
    (nk_sw_prio nk) w = Ok true.
Proof.
  intros H. pose proof (nackEvent_spec CC e reload nk w w' H) as (-> & Hd & _).
  unfold nackEvent in H. rewrite (cc_fwd CC) in H.
  apply bind_ok in H as (il & w1 & H1 & H). destruct il.
  - m_inv. m_case. match goal with H : Event_Nack_Spec = _ |- _ => by destruct (_ && _) in H end.
  - apply isIllegalNack_legal in H1 as [-> _]; [|done]. m_inv. repeat m_case.
Qed.

(** The invariant of [Chain] with the registers of every processor. *)
Record reg_inv (n : Z) (s : Sys (C := C)) : Prop := {
  ri_inv : inv n s;
  ri_regs : forall p w, nodes s !! p = Some w -> fwd_ok w;
  ri_sender : forall nk, nk ∈ nacks s -> nk_sender nk <> createInvalidMachineID
}.

Lemma sender_L1 (e : Env) valid inflight rq nk (w w' : W) :
  fn_sendInvNack valid inflight rq w = Ok (nk, w') -> nk_sender nk <> createInvalidMachineID.
Proof.
  unfold fn_sendInvNack. intros H. m_inv.
  destruct valid; m_inv; [m_case|]; cbn; intros [=].
Qed.

(** Speculative data never reaches a power transaction. *)
Lemma consume_regs (e : Env) nk blk (w w' : W) :
  nk_sender nk <> createInvalidMachineID -> nk_sw_prio nk = false ->
  Forwarding.shouldAcceptForwardedDataFromProducer (nk_addr nk) (nk_sender nk) (nk_prio nk)
    (nk_sw_prio nk) w = Ok true ->
  nfd_notifyForwardedData blk nk w = Ok (tt, w') -> fwd_ok w -> fwd_ok w'.
Proof.
  intros Hs Hsw Ha H Hw. unfold nfd_notifyForwardedData in H.
  apply bind_ok in H as (? & ? & [_ ->]%massert_ok & H).
  apply (notifyForwarded_regs _ _ _ _ _ _ w) in H as Hr; [done| |done].
  split; [|by eauto]. apply notifyForwarded_prio in H as (_ & _ & H); [|done].
  destruct (m_powered (cm w)) eqn:Hp; [|done]. exfalso.
  unfold prio, prio_after_recv, isPowered in H. rewrite (fo_prio w Hw Hp), Hsw, Hp, Z.eqb_refl in H.
  by destruct isPowerTMPolicy.
Qed.

Lemma regs_set p w' (s : Sys (C := C)) :
  (forall q w, nodes s !! q = Some w -> fwd_ok w) -> fwd_ok w' ->
  forall q w, <[p := w']> (nodes s) !! q = Some w -> fwd_ok w.
Proof.
  intros H Hw q w Hq. apply lookup_insert_Some in Hq as [[_ <-]|[_ Hq]]; [done|by eapply H].
Qed.

Lemma reg_step n s s' :
  0 <= n < INT_MAX -> reg_inv n s -> step s s' -> reg_inv (n + 1) s'.
Proof.
  intros Hn [Hinv Hreg Hsend] Hstep. split; [by eapply inv_step| |].
  - destruct Hstep as [s p w e o w' Hp H|s p w e pkt w' Hp H|s p w e pkt w' Hp H
      |s p w e pkt w' Hp H|s p w a rq Hp H|s p w e valid inflight rq nk w' Hp Hrq H
      |s c w e reload nk ev w' Hp Hin Hc H Hne|s c w e reload nk blk w1 w' Hp Hin Hc H H'
      |s c w e reload nk cached blk dirty r w1 w' Hp Hin Hc H H']; cbn; try done;
      (eapply regs_set; [done|]); specialize (Hreg _ _ Hp).
    + by eapply regs_run_op.
    + by eapply regs_beginTransaction.
    + by eapply regs_commitTransaction.
    + by eapply regs_abortTransaction.
    + by eapply regs_sendInvNack.
    + by eapply regs_nackEvent.
    + destruct (accepted CC _ _ _ _ _ _ _ _ Hinv Hp Hin H) as (-> & _ & _ & _ & Hsw).
      eapply consume_regs; [by apply Hsend|done|by eapply nackEvent_accepts|done|done].
    + unfold vcd_validateConsumedData in H'. eapply regs_validateDataBlock; [exact H'|]. by eapply regs_nackEvent.
  - destruct Hstep; cbn; try done. intros k [->|Hk]%elem_of_cons; [by eapply sender_L1|by apply Hsend].
Qed.

Lemma reg_reachable k n s0 s :
  nsteps step k s0 s -> reg_inv n s0 -> 0 <= n -> n + Z.of_nat k <= INT_MAX ->
  reg_inv (n + Z.of_nat k) s.
Proof.
  intros H. revert n. induction H as [s|k s0 s1 s H _ IH]; intros n Hinv H0 Hn.
  { by rewrite Z.add_0_r. }
  replace (n + Z.of_nat (S k)) with (n + 1 + Z.of_nat k) by lia.
  apply IH; [eapply reg_step; [|done..]|..]; lia.
Qed.
End system.

(** ** The classification of a finished transaction *)

Section classify.
Context `{RS : RubySystem} `{CF : Config} `{E : Env} {C : Type} `{DC : DataCache C}.
Notation W := (World C).

(** The rows of the statistics: common, producer, consumer, both, power,
    power producer. *)
Definition kind (w : W) : Z :=
  match m_powered (cm w), negb (no_consumers w), has_producer w with
  | true, true, _ => 5
  | true, false, _ => 4
  | false, true, true => 3
  | false, false, true => 2
  | false, true, false => 1
  | false, false, false => 0
  end.

Definition rate (s : Stats) (j : Z) : Z := st_vectors s m_htm_transaction_executed_type_rate j.

(** The statistics up to other counters. *)
Definition same_rate (s s' : Stats) : Prop := forall j, rate s' j = rate s j.

#[export] Instance same_rate_preorder : PreOrder same_rate.
Proof. split; [done|]. intros x y z H1 H2 j. by rewrite H2, H1. Qed.

Lemma same_rate_sample d v n s : same_rate s (sample d v n s).
Proof. done. Qed.

Lemma same_rate_incr v i s :
  v <> m_htm_transaction_executed_type_rate -> same_rate s (vec_incr v i s).
Proof. intros Hv j. unfold rate, vec_incr. cbn. by rewrite bool_decide_eq_false_2 by congruence. Qed.

Lemma rate_incr i s j :
  rate (vec_incr m_htm_transaction_executed_type_rate i s) j =
  rate s j + (if j =? i then 1 else 0).
Proof.
  unfold rate, vec_incr. cbn. rewrite bool_decide_eq_true_2 by done. cbn.
  destruct (j =? i); lia.
Qed.

Lemma same_rate_forwardings i f s : same_rate s (count_forwardings i f s).
Proof.
  unfold count_forwardings. induction (size (fi_consumers f)) as [|n IH]; [done|]. cbn.
  etrans; [exact IH|]. by apply same_rate_incr.
Qed.

Lemma foldR_inv {A B} (f : B -> A -> res B) (P : A -> Prop) (R : relation B) `{!PreOrder R} l b :
  Forall P l -> (forall b x, P x -> exists b', f b x = Ok b' /\ R b b') ->
  exists b', foldR f b l = Ok b' /\ R b b'.
Proof.
  intros Hl Hf. revert b. induction Hl as [|x l Hx Hl IH]; intros b; cbn [foldR]; [by exists b|].
  destruct (Hf b x Hx) as (b1 & -> & H1). cbn [rbind]. destruct (IH b1) as (b2 & -> & H2).
  exists b2. split; [done|]. by etrans.
Qed.

Lemma profile_forwardings_ok aborted l s :
  forwardings_ok l -> exists s', profile_forwardings aborted l s = Ok s' /\ same_rate s s'.
Proof.
  intros (last & rest & -> & Hr). cbn [profile_forwardings].
  match goal with |- context [foldR _ ?s1 rest] =>
    destruct (foldR_inv (fun s f => let? _ := rassert (fi_modified f) in
      Ok (count_forwardings 1 f s)) (fun f => fi_modified f = true) same_rate rest s1)
      as (s' & Hs & Hrate) end.
  - done.
  - intros b f Hf. rewrite Hf. eexists. split; [done|]. apply same_rate_forwardings.
  - exists s'. split; [exact Hs|]. etrans; [apply same_rate_forwardings|exact Hrate].
Qed.

Lemma profile_sent_ok aborted (w : W) :
  fwd_ok w -> exists sent s', profile_sent aborted w = Ok (sent, s') /\ same_rate (st w) s' /\
    (producerForModifiedBlock sent = true -> m_allReceivedData (fwd w) <> ∅).
Proof.
  intros Hw. unfold profile_sent.
  set (R := fun (x y : SentSummary * Stats) => same_rate x.2 y.2 /\
    (producerForModifiedBlock y.1 = true ->
       producerForModifiedBlock x.1 = true \/ m_allReceivedData (fwd w) <> ∅)).
  assert (PreOrder R) as HR.
  { split; [intros x; split; [done|auto]|]. intros x y z [H1 H2] [H3 H4].
    split; [by etrans|]. intros H. destruct (H4 H); auto. }
  destruct (foldR_inv (profile_sent_block aborted (m_allReceivedData (fwd w)))
    (fun it => forwardings_ok (pi_forwardings it.2)) R (std_list (m_allSentData (fwd w)))
    (MkSentSummary false ∅ false, st w)) as ([sent s'] & Hf & Hr & Hm).
  - apply Forall_forall. intros [k p] Hk. apply elem_of_std_list in Hk.
    by apply (fo_forwardings w Hw k).
  - intros [x s1] [k p] Hp. cbn [profile_sent_block fst snd] in *.
    destruct (profile_forwardings_ok aborted (pi_forwardings p)
      (sample m_htm_producer_n_modified_produced_data (pi_timesModifiedAfterSharing p) 1 s1) Hp)
      as (s2 & Hs & Hrate). rewrite Hs. cbn [rbind]. eexists. split; [done|].
    split; [exact Hrate|]. cbn. intros [H|H]%orb_true_iff; [by left|right].
    intros He. rewrite He in H. done.
  - exists sent, s'. split; [exact Hf|]. split; [exact Hr|]. intros H. by destruct (Hm H).
Qed.

(** The transaction can end: the data it consumed is known, and if it is
    not aborted then it is also validated. *)
Record can_end (aborted : bool) (w : W) : Prop := {
  ce_consumed : consumed_ok w;
  ce_validated : aborted = false -> isConsumer w = false;
  ce_power : m_powered (cm w) = true -> isPowerTMPolicy = true
}.

Lemma hasConsumedData_ok (w : W) : consumed_ok w -> hasConsumedData w = Ok (has_producer w).
Proof.
  intros [Hv Hp]. unfold hasConsumedData. destruct (m_hasConsumedValidData (fwd w)) eqn:Ev.
  - by rewrite Hv.
  - destruct (has_producer w) eqn:Eh; [|done]. destruct (Hp eq_refl eq_refl) as [->| ->]; [done|].
    by destruct (isConsumer w).
Qed.

Lemma isPowerMode_ok (w : W) :
  (m_powered (cm w) = true -> isPowerTMPolicy = true) -> isPowerMode w = Ok (m_powered (cm w)).
Proof.
  intros H. unfold isPowerMode, isPowered. destruct (m_powered (cm w)); [|done].
  by rewrite H.
Qed.

Lemma profile_power_ok (w : W) aborted idx modified s :
  fwd_ok w -> m_powered (cm w) = true ->
  exists s', profile_power aborted idx (negb (no_consumers w)) (has_producer w) modified
      (w <| st := s |>) = Ok (tt, w <| st := s' |>) /\
    forall j, rate s' j = rate s j + (if j =? 2 * kind w + Z.b2z aborted then 1 else 0).
Proof.
  intros Hw Hp. unfold profile_power, kind. rewrite (fo_power w Hw Hp), Hp.
  set (row := 2 * (if negb (no_consumers w) then 5 else 4) + Z.b2z aborted).
  destruct (no_consumers w); cbn [negb].
  - exists (vec_incr m_htm_transaction_executed_type_rate row (vec_incr m_htm_powered_tx 0 s)).
    split; [reflexivity|]. intros j.
    rewrite rate_incr. by rewrite (same_rate_incr m_htm_powered_tx) by done.
  - eexists (vec_incr m_htm_powered_tx _ (vec_incr m_htm_transaction_executed_type_rate row s)).
    split; [reflexivity|]. intros j.
    rewrite (same_rate_incr m_htm_powered_tx) by done. by rewrite rate_incr.
Qed.

Lemma profile_no_power_ok (w : W) aborted idx modified modified_consumed s :
  fwd_ok w -> m_powered (cm w) = false ->
  exists s', profile_no_power aborted idx (negb (no_consumers w)) (has_producer w) modified
      modified_consumed (w <| st := s |>) = Ok (tt, w <| st := s' |>) /\
    forall j, rate s' j = rate s j + (if j =? 2 * kind w + Z.b2z aborted then 1 else 0).
Proof.
  intros Hw Hp. set (row := 2 * kind w + Z.b2z aborted).
  assert (forall k, k = kind w -> 2 * k + (if aborted then 1 else 0) = row) as Hrow
    by (intros k ->; by destruct aborted).
  unfold profile_no_power, type_rate.
  pose proof (fo_turned w Hw) as Ht. pose proof (fo_once w Hw) as Ho. unfold kind in Hrow.
  rewrite Hp in Hrow. destruct (no_consumers w), (has_producer w); cbn [negb andb] in *.
  - eexists (vec_incr m_htm_consumers_tx _ (vec_incr _ row s)).
    rewrite (Hrow 2) by done. split; [reflexivity|]. intros j.
    rewrite same_rate_incr by done. apply rate_incr.
  - exists (vec_incr m_htm_transaction_executed_type_rate row s).
    rewrite (Hrow 0) by done. split; [reflexivity|]. apply rate_incr.
  - rewrite (Hrow 3) by done. unfold bind, get. cbn.
    destruct (m_producerTurnedConsumer (fwd w)) eqn:E1,
      (m_consumerTurnedProducer (fwd w)) eqn:E2; try done; cbn;
      eexists (vec_incr _ 0 (vec_incr m_htm_producers_consumers_tx _ (vec_incr _ row s)));
      (split; [reflexivity|]); intros j; rewrite 2!same_rate_incr by done; apply rate_incr.
  - eexists (vec_incr m_htm_producers_tx _ (vec_incr _ row s)).
    rewrite (Hrow 1) by done. split; [reflexivity|]. intros j.
    rewrite same_rate_incr by done. apply rate_incr.
Qed.

(** The steps before the kind is counted change other statistics only. *)
Lemma sent_stats_ok (w : W) aborted :
  fwd_ok w -> exists sent s1, same_rate (st w) s1 /\
    (producerForModifiedBlock sent = true -> has_producer w = true) /\
    (if negb (no_consumers w) then
       let* r := lift (profile_sent aborted w) in do* on_st (fun _ => r.2); ret r.1
     else ret (MkSentSummary false ∅ false)) w = Ok (sent, w <| st := s1 |>).
Proof.
  intros Hw. destruct (no_consumers w); cbn [negb].
  - eexists _, (st w). split; [done|]. split; [|by destruct w]. done.
  - destruct (profile_sent_ok aborted w Hw) as (sent & s1 & Hs & Hr & Hm).
    exists sent, s1. split; [done|]. split.
    + intros H. rewrite (fo_received w Hw). by apply negb_true_iff, bool_decide_eq_false, Hm.
    + unfold bind. rewrite Hs. done.
Qed.

Lemma producer_stats_ok (w : W) sent s1 :
  (producerForModifiedBlock sent = true -> has_producer w = true) ->
  exists s2, same_rate s1 s2 /\ when (negb (no_consumers w))
    (profile_producer sent (has_producer w)) (w <| st := s1 |>) = Ok (tt, w <| st := s2 |>).
Proof.
  intros Hsent. destruct (no_consumers w); cbn [negb when]; [by exists s1|].
  unfold profile_producer.
  set (s' := sample m_htm_producer_transactions_nprod_commit
               (Z.of_nat (size (consumers sent))) 1 s1).
  destruct (producerForModifiedBlock sent); [rewrite Hsent by done|by exists s'].
  exists (vec_incr m_htm_transactions_produced_consumed_same 0 s').
  split; [|reflexivity]. trans s'; [done|]. by apply same_rate_incr.
Qed.

Lemma consumer_stats_ok (w : W) aborted recv s2 :
  exists s3, same_rate s2 s3 /\ when (has_producer w) (profile_consumer aborted recv)
    (w <| st := s2 |>) = Ok (tt, w <| st := s3 |>).
Proof.
  destruct (has_producer w); cbn [when]; [|by exists s2].
  destruct aborted; (eexists; split; [|reflexivity]); done.
Qed.

Lemma reconsumer_stats_ok (w : W) i s3 :
  exists s4, same_rate s3 s4 /\ when (m_reconsumer (fwd w)) (incr m_htm_reconsumer_tx i)
    (w <| st := s3 |>) = Ok (tt, w <| st := s4 |>).
Proof.
  destruct (m_reconsumer (fwd w)); cbn [when]; [|by exists s3].
  eexists. split; [|reflexivity]. by apply same_rate_incr.
Qed.

Lemma profile_prefix_ok (w : W) aborted idx :
  fwd_ok w -> can_end aborted w ->
  exists s1 m1 m2, same_rate (st w) s1 /\
    profileHtmFwdTransaction aborted idx w =
    (if m_powered (cm w)
     then profile_power aborted idx (negb (no_consumers w)) (has_producer w) m1
     else profile_no_power aborted idx (negb (no_consumers w)) (has_producer w) m1 m2)
      (w <| st := s1 |>).
Proof.
  intros Hw [Hc Hv Hp]. unfold profileHtmFwdTransaction.
  destruct (sent_stats_ok w aborted Hw) as (sent & s1 & Hs1 & Hsent & Hrun).
  run. rewrite (isProducer_ok w Hw). run. run_with Hrun.
  rewrite (hasConsumedData_ok w Hc). run.
  set (recv := if has_producer w then profile_received w else MkRecvSummary false ∅ MaxTick).
  assert (when (has_producer w) (massert ((isConsumer w && aborted) || negb (isConsumer w)))
    (w <| st := s1 |>) = Ok (tt, w <| st := s1 |>)) as H1.
  { destruct (has_producer w); [|done]. cbn [when].
    destruct aborted; [by destruct (isConsumer w)|]. by rewrite Hv. }
  run_with H1.
  destruct (producer_stats_ok w sent s1 Hsent) as (s2 & Hs2 & H2). run_with H2.
  destruct (consumer_stats_ok w aborted recv s2) as (s3 & Hs3 & H3). run_with H3.
  destruct (reconsumer_stats_ok w (if aborted then idx + 1 else 0) s3) as (s4 & Hs4 & H4).
  run_with H4. rewrite (isPowerMode_ok w Hp). run.
  exists s4, (hasModifiedBlock sent), (hasModifiedConsumedBlock recv).
  split; [|by destruct (m_powered (cm w))]. by etrans; [|etrans; [|etrans]].
Qed.

(** A finished transaction is counted once, in the row of its kind. *)
Lemma profile_counts (w : W) aborted idx :
  fwd_ok w -> can_end aborted w ->
  exists s', profileHtmFwdTransaction aborted idx w = Ok (tt, w <| st := s' |>) /\
    forall j, rate s' j = rate (st w) j + (if j =? 2 * kind w + Z.b2z aborted then 1 else 0).
Proof.
  intros Hw Hc. destruct (profile_prefix_ok w aborted idx Hw Hc) as (s1 & m1 & m2 & Hs & ->).
  destruct (m_powered (cm w)) eqn:Hp.
  - destruct (profile_power_ok w aborted idx m1 s1 Hw Hp) as (s' & -> & H).
    exists s'. split; [done|]. intros j. by rewrite H, Hs.
  - destruct (profile_no_power_ok w aborted idx m1 m2 s1 Hw Hp) as (s' & -> & H).
    exists s'. split; [done|]. intros j. by rewrite H, Hs.
Qed.
End classify.

Section consistent.
Context `{RS : RubySystem} `{CF : Config} {C : Type} `{DC : DataCache C}.
Notation W := (World C).
Context (CC : chats_config _).

(** Processors as the constructors leave them. *)
Definition fresh (s : Sys (C := C)) : Prop :=
  initial s /\
  forall p w, nodes s !! p = Some w -> fwd w = Fwd_init /\ m_powered (cm w) = false.

Lemma fresh_reg_inv s : fresh s -> reg_inv 0 s.
Proof.
  intros [Hi Hf]. split; [by apply inv_initial| |].
  - intros p w Hp. destruct (Hf p w Hp) as [H1 H2].
    replace w with (w <| fwd := Fwd_init |>) by (destruct w; cbn in H1; by subst).
    apply fwd_ok_reset; try done.
  - rewrite (in_nacks _ Hi). intros nk ?%elem_of_nil. done.
Qed.

(** C6: In the configurations of CHATS ([chats_config]), in every state the processors reach in
    fewer than 2^31 steps from their initial state, take a processor whose transaction can end:
    the data it consumed is known, it has validated all of it unless it aborts, and it is in
    power mode only under a power policy. Its forwarding registers are consistent (consumers are
    recorded exactly when blocks were sent, a producer exactly when blocks were received, a
    power transaction consumed nothing, and a transaction that both sent and received knows
    which came first), and the classification of the finished transaction returns without
    meeting one of its panics and counts it exactly once, in the row of its kind. *)
Theorem registers_consistent (e : Env) k s0 s p w aborted idx :
  fresh s0 -> nsteps step k s0 s -> Z.of_nat k <= INT_MAX -> nodes s !! p = Some w ->
  can_end aborted w ->
  fwd_ok w /\
  exists s', profileHtmFwdTransaction aborted idx w = Ok (tt, w <| st := s' |>) /\
    forall j, rate s' j = rate (st w) j + (if j =? 2 * kind w + Z.b2z aborted then 1 else 0).
Proof.
  intros H0 Hk Hn Hp Hc.
  assert (reg_inv (0 + Z.of_nat k) s) as Hinv
    by (apply (reg_reachable CC k 0 s0); [done|by apply fresh_reg_inv|lia|lia]).
  pose proof (ri_regs _ _ Hinv p w Hp) as Hw. split; [done|]. by apply profile_counts.
Qed.
End consistent.

#[local] Existing Instance ruby64.
#[local] Existing Instance demo_wrap.
#[local] Existing Instance demo_chats.

Lemma registers_consistent_witness :
  fwd_ok demo_consumed /\
  exists s', profileHtmFwdTransaction true 20 demo_consumed = Ok (tt, demo_consumed <| st := s' |>) /\
    forall j, rate s' j = rate (st demo_consumed) j + (if j =? 5 then 1 else 0).
Proof.
  apply (registers_consistent demo_chats_config demo_wrap 6 demo_sys0 demo_sys 1 demo_consumed true 20).
  - split; [exact demo_initial|]. intros p w Hw. cbn [nodes demo_sys0] in Hw.
    unfold demo_nodes in Hw.
    apply lookup_insert_Some in Hw as [[<- <-]|[_ [<- <-]%lookup_singleton_Some]]; done.
  - exact demo_steps.
  - vm_compute. discriminate.
  - apply demo_nodes_1.
  - split; [split|done|]; vm_compute; try done. by left.
Defined.
