(* ===== verification/Lifecycle.v ===== *)
(** * The life of a transaction

    With speculative state in the L1 cache and eager conflict detection, the
    configurations that can forward data: an idle processor begins, commits
    and aborts without meeting a failing assertion, a commit leaves the cache
    as it is and an abort removes exactly the speculative lines.  The LogTM
    configuration is treated at the end. *)

From S2P Require Import Prelude Address HTM XactProfiler CacheMemory TxState TxProfile Frame.
From S2P Require DataBlock IsolationManager LazyVM CommitArbiter EagerVM.
From S2P Require XactIsolationChecker XactValueChecker ConflictManager Forwarding.
From S2P Require Import InterfaceManager Chain FwdInv.
Import DataBlock (DataBlock).

#[local] Open Scope Z_scope.

Section lifecycle.
Context `{RS : RubySystem} `{CF : Config} `{E : Env} {C : Type} `{DC : DataCache C}.
Notation W := (World C).
Implicit Types w : W.

(** ** Idle and running *)

(** Forwarding registers at rest. *)
Record fwd_rest (f : Fwd) : Prop := {
  fr_consumers : m_hasSentDataToConsumer f = ∅;
  fr_producer : m_hasReceivedDataFromProducer f = createInvalidMachineID;
  fr_recv : m_recvDataForwardedFromProducer f = ∅;
  fr_received : m_allReceivedData f = ∅;
  fr_sent : m_allSentData f = ∅;
  fr_data : m_sentDataForwardedToConsumer f = ∅;
  fr_ctp : m_consumerTurnedProducer f = false;
  fr_ptc : m_producerTurnedConsumer f = false;
  fr_valid : m_hasConsumedValidData f = false;
  fr_event : validationEvent f = None
}.

(** No transaction: the state between an end and the next begin. *)
Record idle (w : W) : Prop := {
  id_level : m_transactionLevel (ctl w) = 0;
  id_escape : m_escapeLevel (ctl w) = 0;
  id_commit : m_atCommit (ctl w) = false;
  id_flag : m_abortFlag (ctl w) = false;
  id_cause : m_abortCause (ctl w) = Undefined;
  id_unroll : m_unrollingLogFlag (ctl w) = false;
  id_xid : m_htmXid (ctl w) = LONG_MIN;
  id_discarded : m_writeSetDiscarded (ctl w) = ∅;
  id_version : 0 <= m_version (ctl w);
  id_row : exists r, prof_row w = Some r /\ idle_row curCycle r;
  id_iso : IsolationManager.wf 0 (precise_read_set_tracking params) (iso w);
  id_ichk : ichk_ok w;
  id_rest : fwd_rest (fwd w);
  id_prio : m_hwTransPrio (fwd w) = NC_PRIO_VALUE;
  id_powered : m_powered (cm w) = false;
  id_doomed : m_doomed (cm w) = false
}.

(** A transaction, while it runs or ends. *)
Record alive (w : W) : Prop := {
  al_tx : in_tx w;
  al_fwd : fwd_ok w;
  al_commit : m_atCommit (ctl w) = true -> config_allowEarlyValueFwd = true;
  al_event : config_allowEarlyValueFwd = false -> validationEvent (fwd w) = None
}.

(** A transaction that runs. *)
Record running (w : W) : Prop := {
  rn_alive : alive w;
  rn_xid : m_htmXid (ctl w) <> LONG_MIN;
  rn_doomed : m_doomed (cm w) = false;
  rn_discarded : m_abortFlag (ctl w) = false -> m_writeSetDiscarded (ctl w) = ∅;
  rn_region : m_abortFlag (ctl w) = false -> forall r, prof_row w = Some r ->
    (m_atCommit (ctl w) = true <-> m_annotatedRegion r = COMMITTING)
}.

(** The lazy-eager configurations; the value checker has its own file. *)
Record el_config : Prop := {
  el_vm : lazy_vm params = true;
  el_cd : eager_cd params = true;
  el_values : value_checker params = false
}.
Context (EL : el_config).

(** ** Begin *)

(** A packet for a new transaction. *)
Record begin_ok (pkt : Packet) (w : W) : Prop := {
  bo_uid : m_currentHtmUid (ctl w) < pkt_htmTransactionUid pkt;
  bo_xid : pkt_htmXid pkt <> LONG_MIN;
  bo_power : req_isHTMPower pkt = true -> isPowerTMPolicy = true
}.

(** The conflict manager after a begin. *)
Definition begun_cm (power : bool) (c : ConflictManager) : ConflictManager :=
  let c := if m_lock_timestamp c then c
           else c <| m_timestamp := curCycle |> <| m_lock_timestamp := true |> in
  if power then c <| m_powered := true |> else c.

Lemma cm_begin_ok w power :
  m_transactionLevel (ctl w) = 1 -> (power = true -> isPowerTMPolicy = true) ->
  ConflictManager.beginTransaction power w = Ok (tt, w <| cm := begun_cm power (cm w) |>).
Proof.
  intros Hl Hp. unfold ConflictManager.beginTransaction, begun_cm, getTransactionLevel.
  run. rewrite Hl. cbn [Z.leb Z.compare Z.eqb Pos.eqb andb]. run.
  destruct (m_lock_timestamp (cm w)); cbn [negb when].
  - run. destruct power; cbn [when]; [rewrite Hp by done; done|]. by destruct w.
  - unfold on_cm at 1. unfold bind at 1, zoom. cbn.
    destruct power; cbn [when]; [rewrite Hp by done; done|done].
Qed.

Lemma wp_moveTo_enter w next r Q :
  0 <= m_version (ctl w) -> prof_row w = Some r -> idle_row curCycle r ->
  0 < m_transactionLevel (ctl w) -> next = TRANSACTIONAL \/ next = TRANSACTIONAL_POWER ->
  (forall p' r', own_row (m_version (ctl w)) (prof w) p' r' -> tx_row curCycle r' ->
     m_annotatedRegion r' = next -> Q tt (w <| prof := p' |>)) ->
  wp (moveTo next) Q w.
Proof.
  intros Hv Hr Hi Hl Hn HQ. unfold moveTo, on_prof. wp_simpl.
  destruct (moveTo_enter curCycle (getTransactionLevel w) (m_version (ctl w)) next (prof w) r)
    as (p' & r' & Hm & Ho & Ht' & Hreg); [done..|].
  unfold wp, getProcID. rewrite Hm. by eapply HQ.
Qed.

Lemma not_forwarding_ok w : idle w -> forall w', fwd w' = fwd w ->
  assert_not_forwarding w' = Ok (tt, w').
Proof.
  intros Hi w' Hf. unfold assert_not_forwarding. destruct config_allowEarlyValueFwd; [|done].
  cbn [when]. run.
  assert (no_consumers w' = true) as Hn.
  { unfold no_consumers. rewrite Hf, (fr_consumers _ (id_rest w Hi)). by apply bool_decide_eq_true. }
  assert (has_producer w' = false) as Hp.
  { unfold has_producer. rewrite Hf, (fr_producer _ (id_rest w Hi)). by rewrite bool_decide_eq_true_2. }
  assert (isProducer w' = Ok false) as ->.
  { unfold isProducer. rewrite Hn. cbn. by rewrite Hf, (fr_data _ (id_rest w Hi)). }
  run. unfold isConsumer. rewrite Hf, (fr_recv _ (id_rest w Hi)). cbn [negb emptyb]. run.
  assert (hasConsumedData w' = Ok false) as ->.
  { unfold hasConsumedData. by rewrite Hp, Hf, (fr_valid _ (id_rest w Hi)). }
  run. rewrite (fr_data _ (id_rest w Hi)), (fr_received _ (id_rest w Hi)), (fr_sent _ (id_rest w Hi)), (fr_ctp _ (id_rest w Hi)). run.
  by rewrite (fr_ptc _ (id_rest w Hi)).
Qed.

(** The fields of a transaction that has just begun. *)
Definition begun_ctl (pkt : Packet) (c : Ctl) : Ctl :=
  c <| m_transactionLevel := 1 |> <| m_currentHtmUid := pkt_htmTransactionUid pkt |>
    <| m_htmXid := pkt_htmXid pkt |> <| m_htmstart_tick := req_time pkt |>
    <| m_htmstart_instruction := req_instCount pkt |>.

Record begun (pkt : Packet) (w w' : W) : Prop := {
  bn_ctl : ctl w' = begun_ctl pkt (ctl w);
  bn_fwd : fwd w' = fwd w;
  bn_cm : cm w' = begun_cm (req_isHTMPower pkt) (cm w);
  bn_iso : iso w' = (iso w) <| IsolationManager.m_writeSet := ∅ |>;
  bn_cache : dcache w' = dcache w;
  bn_ichk : ichk w' = ichk w;
  bn_row : exists r', own_row (m_version (ctl w)) (prof w) (prof w') r' /\
    tx_row curCycle r' /\
    m_annotatedRegion r' = (if req_isHTMPower pkt then TRANSACTIONAL_POWER else TRANSACTIONAL)
}.

Lemma begin_begun pkt w :
  idle w -> begin_ok pkt w -> exists w', beginTransaction pkt w = Ok (tt, w') /\ begun pkt w w'.
Proof.
  intros Hi [Hu Hx Hp]. destruct (id_row w Hi) as (r & Hr & Hrow).
  enough (wp (beginTransaction pkt) (fun _ => begun pkt w) w) as Hwp.
  { apply wp_ok in Hwp as ([] & w' & ? & ?). eauto. }
  unfold beginTransaction, on_ctl, on_iso. wp_simpl.
  rewrite (id_level w Hi), (id_escape w Hi), (id_commit w Hi), (id_unroll w Hi), (id_xid w Hi).
  do 4 (split; [done|]). split; [by apply Z.ltb_lt|]. split; [done|].
  unfold IsolationManager.beginTransaction. wp_simpl.
  eapply wp_call; [apply cm_begin_ok; [cbn; by rewrite (id_level w Hi)|done]|].
  wp_simpl. eapply wp_call; [by apply (not_forwarding_ok w)|]. wp_simpl.
  unfold begin_versioning. rewrite (el_vm EL), (el_cd EL). cbn [unless]. wp_simpl.
  match goal with |- context [isPowerMode ?v] => assert (isPowerMode v = Ok (req_isHTMPower pkt)) as -> end.
  { unfold isPowerMode, isPowered, begun_cm. cbn.
    destruct (req_isHTMPower pkt), (m_lock_timestamp (cm w)); cbn; rewrite ?(id_powered w Hi);
      rewrite ?Hp by done; done. }
  wp_simpl. eapply wp_moveTo_enter; [exact (id_version w Hi)|exact Hr|done| | |].
  { cbn. rewrite (id_level w Hi). done. }
  { destruct (req_isHTMPower pkt); auto. }
  intros p' r' Ho Ht Hreg. wp_simpl.
  match goal with |- context [isAborting ?v] => assert (isAborting v = false) as -> end.
  { unfold isAborting. cbn. rewrite (id_flag w Hi). apply andb_false_r. }
  cbn [when]. wp_simpl.
  assert (forall w', wp (when config_allowEarlyValueFwd (massert (m_hwTransPrio (fwd w) =? NC_PRIO_VALUE)))
    (fun _ => begun pkt w) w' <-> begun pkt w w') as ->.
  { intros w'. rewrite (id_prio w Hi), Z.eqb_refl. unfold when.
    destruct config_allowEarlyValueFwd; wp_simpl; naive_solver. }
  split; try done; cbn; [unfold begun_ctl, upd; cbn -[Z.add]; by rewrite (id_level w Hi)|by exists r'].
Qed.

Lemma begun_running pkt w w' : idle w -> begin_ok pkt w -> begun pkt w w' -> running w'.
Proof.
  intros Hi [Hu Hx Hp] [Hc Hf Hcm Hiso _ Hk (r' & Ho & Ht & Hreg)].
  destruct (id_row w Hi) as (r & Hr & _).
  assert (prof_row w' = Some r') as Hrow.
  { unfold prof_row. rewrite Hc. cbn. by eapply own_row_lookup. }
  assert (isConsumer w' = false) as Hcons.
  { unfold isConsumer. by rewrite Hf, (fr_recv _ (id_rest w Hi)). }
  assert (has_producer w' = false) as Hprod.
  { unfold has_producer. rewrite Hf, (fr_producer _ (id_rest w Hi)). by rewrite bool_decide_eq_true_2. }
  assert (forall P : Prop, m_annotatedRegion r' = ABORTING \/ m_annotatedRegion r' = COMMITTING -> P)
    as Hno by (intros P [H|H]; rewrite Hreg in H; by destruct (req_isHTMPower pkt)).
  split; [split|..].
  - split; rewrite ?Hc, ?Hf, ?Hiso; cbn; try done.
    + apply (id_escape w Hi).
    + apply (id_version w Hi).
    + exists r'. split; [done|]. split; [done|]. rewrite (id_flag w Hi).
      split; [done|]. intros H. apply Hno. by left.
    + intros _. apply (id_cause w Hi).
    + destruct (id_iso w Hi) as [? ? ? ? ? ? ?]. split; cbn; try done.
    + unfold ichk_ok. rewrite Hk, Hc. apply (id_ichk w Hi).
    + split; rewrite Hprod; [rewrite Hf, (fr_valid _ (id_rest w Hi))|]; done.
    + apply (id_unroll w Hi).
    + rewrite Hcm. unfold begun_cm. destruct (req_isHTMPower pkt); [by auto|].
      destruct (m_lock_timestamp (cm w)); cbn; by rewrite (id_powered w Hi).
  - replace w' with (w' <| fwd := fwd w |>) by (destruct w'; cbn in Hf; by subst).
    apply fwd_ok_reset; apply (id_rest w Hi) || (intros _; apply (id_prio w Hi)).
  - rewrite Hc. cbn. by rewrite (id_commit w Hi).
  - intros _. rewrite Hf. apply (fr_event _ (id_rest w Hi)).
  - by rewrite Hc.
  - rewrite Hcm. unfold begun_cm. destruct (req_isHTMPower pkt), (m_lock_timestamp (cm w)); cbn;
      apply (id_doomed w Hi).
  - intros _. rewrite Hc. apply (id_discarded w Hi).
  - intros _ r0 Hr0. rewrite Hrow in Hr0. injection Hr0 as <-. rewrite Hc. cbn.
    rewrite (id_commit w Hi). split; [done|]. intros H. apply Hno. by right.
Qed.

(** ** Commit *)

(** Without forwarding the registers never leave their rest. *)
Lemma off_rest w :
  config_allowEarlyValueFwd = false -> alive w -> fwd_rest (fwd w).
Proof.
  intros Hon Hr. pose proof (al_event w Hr Hon) as Hev.
  pose proof Hon as Hoff%negb_false_iff. pose proof (al_fwd w Hr) as Hf.
  assert (no_consumers w = true) as Hn.
  { destruct (no_consumers w) eqn:Hn; [done|]. pose proof (fo_can w Hf Hn) as Hc.
    unfold canProduce in Hc. destruct isProducerPolicy as [[]|]; try done. cbn in Hc.
    unfold fwd_is in Hoff. apply bool_decide_eq_true in Hoff. by rewrite Hoff in Hc. }
  pose proof (fo_off w Hf Hoff) as Hp.
  pose proof (fo_sent w Hf) as Hsd. rewrite Hn in Hsd. symmetry in Hsd.
  apply bool_decide_eq_true in Hsd.
  pose proof (fo_received w Hf) as Hrd. rewrite Hp in Hrd. symmetry in Hrd.
  apply negb_false_iff, bool_decide_eq_true in Hrd.
  pose proof (fo_turned w Hf) as Ht. rewrite Hn in Ht. cbn in Ht. apply orb_false_iff in Ht as [? ?].
  split; try done.
  - by apply bool_decide_eq_true in Hn.
  - unfold has_producer in Hp. by apply negb_false_iff, bool_decide_eq_true in Hp.
  - apply dom_empty_iff_L. pose proof (fo_recv_all w Hf) as H1. rewrite Hrd, dom_empty_L in H1.
    unfold recv in H1. set_solver.
  - apply dom_empty_iff_L. by rewrite <- (fo_sent_all w Hf), Hsd, dom_empty_L.
  - destruct (m_hasConsumedValidData (fwd w)) eqn:Hv; [|done].
    pose proof (co_valid w (it_consumed w (al_tx w Hr)) Hv) as Hx. by rewrite Hp in Hx.
Qed.

Context {DL : DataCacheLaws C}.

(** The look-ups a commit makes are for lines. *)
Record lookups_ok (w : W) : Prop := {
  lk_cache : dc_ok (dcache w);
  lk_nacked : forall a, a ∈ dom (m_nackedAddressesReg (fwd w)) -> is_line a;
  lk_sent : forall a, a ∈ dom (m_sentDataForwardedToConsumer (fwd w)) -> is_line a
}.

Lemma try_ok c a t : dc_ok c -> is_line a -> exists r, dc_tryCacheAccess a t c = Ok r.
Proof.
  intros Hc Ha. destruct (dc_line c a) as [[perm blk]|] eqn:Eq.
  - eexists. by eapply dc_try_hit.
  - eexists. by apply dc_try_miss.
Qed.

Lemma cachedBlock_ok w a : dc_ok (dcache w) -> is_line a -> exists r, cachedBlock a w = Ok r.
Proof.
  intros Hc Ha. unfold cachedBlock. rewrite (proj2 Ha).
  destruct (try_ok (dcache w) a ST) as [[b|] ->]; [done..|by eexists|]. by apply try_ok.
Qed.

Lemma std_list_Forall {A} (P : Z -> Prop) (m : gmap Z A) :
  (forall a, a ∈ dom m -> P a) -> Forall (fun it => P it.1) (std_list m).
Proof.
  intros H. apply Forall_forall. intros [a x] Hx. unfold std_list in Hx.
  apply list_elem_of_omap in Hx as (k & _ & Hk). destruct (m !! k) eqn:Eq; [|done].
  cbn in Hk. simplify_eq. apply H, elem_of_dom. by eexists.
Qed.

(** [w'] differs from [w] in statistics that do not count transactions. *)
Definition only_stats w w' : Prop := exists s', w' = w <| st := s' |> /\ same_rate (st w) s'.

Lemma nacked_changed_ok l w :
  dc_ok (dcache w) -> Forall (fun it => is_line it.1) l ->
  exists b w', nacked_changed l w = Ok (b, w') /\ only_stats w w'.
Proof.
  intros Hc Hl. revert w Hc. induction Hl as [|[a db] l Ha Hl IH]; intros w Hc;
    cbn [nacked_changed].
  { eexists _, w. split; [done|]. exists (st w). split; [by destruct w|done]. }
  run. destruct (cachedBlock_ok w a Hc Ha) as [r Hr]. rewrite Hr. run. destruct r as [blk|].
  - destruct (DataBlock.equal blk db); [by apply IH|]. eexists _, w. split; [done|].
    exists (st w). split; [by destruct w|done].
  - unfold incr, on_st. run.
    destruct (IH (w <| st := vec_incr m_htm_transaction_power_modified 0 (st w) |>)) as
      (b & w' & Hw & s' & -> & Hs); [done|]. eexists _, _. split; [exact Hw|].
    exists s'. split; [done|]. etrans; [|exact Hs]. by apply same_rate_incr.
Qed.

Lemma profile_nacked_ok w :
  lookups_ok w -> exists w', profile_nacked w = Ok (tt, w') /\
    exists s', w' = w <| st := s' |> <| fwd := (fwd w) <| m_nackedAddressesReg := ∅ |> |> /\
      same_rate (st w) s'.
Proof.
  intros [Hc Hn _]. unfold profile_nacked. run.
  destruct (emptyb (m_nackedAddressesReg (fwd w))) eqn:He; cbn [unless].
  - apply bool_decide_eq_true in He. eexists. split; [done|]. exists (st w). split; [|done].
    destruct w as [c f ? ? ? ? ? ? ? ? ? ?], f. cbn in *. by subst.
  - destruct (nacked_changed_ok (std_list (m_nackedAddressesReg (fwd w))) w) as
      (b & w' & Hw & s' & -> & Hs); [done|by apply std_list_Forall|].
    run_with Hw. unfold incr, on_st, on_fwd. run. eexists. split; [reflexivity|].
    eexists. split; [reflexivity|]. cbn. etrans; [exact Hs|]. by apply same_rate_incr.
Qed.

Lemma check_produced_ok w : lookups_ok w -> check_produced w = Ok tt.
Proof.
  intros [Hc _ Hs]. unfold check_produced. apply (std_list_Forall is_line) in Hs.
  induction Hs as [|[a db] l Ha Hl IH]; [done|]. cbn [foldR fst].
  destruct (cachedBlock_ok w a Hc Ha) as [r ->]. exact IH.
Qed.

Lemma commit_forwarding_ok w :
  alive w -> lookups_ok w -> isConsumer w = false -> validationEvent (fwd w) = None ->
  exists s' f', commit_forwarding w =
      Ok (tt, w <| st := s' |> <| ctl := (ctl w) <| m_atCommit := false |> |> <| fwd := f' |>) /\
    same_rate (st w) s' /\ fwd_rest f'.
Proof.
  intros Hr Hl Hc Hev. unfold commit_forwarding.
  destruct config_allowEarlyValueFwd eqn:Hon; cbn [when].
  2:{ exists (st w), (fwd w). split; [|split; [done|by apply off_rest]].
      destruct (m_atCommit (ctl w)) eqn:Ha; [by rewrite (al_commit w Hr Ha) in Hon|].
      destruct w as [c ? ? ? ? ? ? ? ? ? ? ?], c. cbn in *. by subst. }
  run. rewrite Hc. run.
  set (s1 := if m_hwTransPrio (fwd w) =? NC_PRIO_VALUE then st w
             else sample m_htm_PiC_committed (m_hwTransPrio (fwd w)) 1 (st w)).
  assert (unless (m_hwTransPrio (fwd w) =? NC_PRIO_VALUE)
    (on_st (sample m_htm_PiC_committed (m_hwTransPrio (fwd w)) 1)) w = Ok (tt, w <| st := s1 |>)) as H1.
  { subst s1. destruct (_ =? _); [|done]. by destruct w. }
  run_with H1. rewrite (hasConsumedData_ok w (it_consumed w (al_tx w Hr))). run.
  unfold on_ctl, on_fwd. run. rewrite (isProducer_ok w (al_fwd w Hr)). run.
  match goal with |- context [@when W ?b (lift (check_produced w))] =>
    assert (forall v : W, when b (lift (check_produced w)) v = Ok (tt, v)) as H2 end.
  { intros v. rewrite check_produced_ok by done. by destruct (no_consumers w). }
  rewrite (bind_run _ _ _ _ _ (H2 _)). run. rewrite Hev.
  eexists s1, _. split; [reflexivity|]. split.
  - subst s1. by destruct (_ =? _).
  - split; try done. cbn. apply Chain.not_consumer_recv in Hc. unfold recv in Hc.
    by apply dom_empty_iff_L.
Qed.

(** The state of the version management after the commit of [w]. *)
Lemma commit_eager_lazy_ok w :
  alive w -> lookups_ok w -> isConsumer w = false -> validationEvent (fwd w) = None ->
  exists s' f', commit_eager_lazy w =
      Ok (tt, w <| st := s' |> <| ctl := (ctl w) <| m_atCommit := false |> |> <| fwd := f' |>) /\
    (forall j, rate s' j = rate (st w) j + (if j =? 2 * kind w then 1 else 0)) /\ fwd_rest f'.
Proof.
  intros Hr Hl Hc Hev. unfold commit_eager_lazy.
  destruct (profile_nacked_ok w Hl) as (w1 & H1 & s1 & -> & Hs1). run_with H1.
  set (w1 := w <| st := s1 |> <| fwd := (fwd w) <| m_nackedAddressesReg := ∅ |> |>).
  assert (fwd_ok w1) as Hf by (by destruct (al_fwd w Hr)).
  assert (in_tx w1) as Ht by (by apply (in_tx_frame w); try apply Hr).
  destruct (profile_counts w1 false 0) as (s2 & H2 & Hs2); [done| |].
  { split; [apply (it_consumed _ Ht)|done|apply (it_power _ Ht)]. }
  run_with H2. unfold on_st. run.
  match goal with |- context [commit_forwarding ?w2] => set (w3 := w2) end.
  destruct (commit_forwarding_ok w3) as (s' & f' & -> & Hs3 & Hf'); [|by destruct Hl|done..|].
  { destruct Hr as [? ? ? ?]. split; try done.
    - by apply (in_tx_frame w1).
    - by apply (fwd_ok_ext w1). }
  exists s', f'. split; [reflexivity|]. split; [|done]. intros j. rewrite Hs3. cbn.
  change (rate s2 j = rate (st w) j + (if j =? 2 * kind w then 1 else 0)).
  rewrite Hs2. change (kind w1) with (kind w). cbn [Z.b2z]. rewrite Z.add_0_r. cbn. by rewrite Hs1.
Qed.

(** The conflict manager after a commit. *)
Definition committed_cm (c : ConflictManager) : ConflictManager :=
  c <| m_lock_timestamp := false |> <| m_numRetries := 0 |> <| m_powered := false |>
    <| m_receivedNack := false |> <| m_abortedByNack := false |> <| m_possible_cycle := false |>.

Lemma cm_commit_ok w :
  m_transactionLevel (ctl w) = 1 -> m_doomed (cm w) = false ->
  ConflictManager.commitTransaction w = Ok (tt, w <| cm := committed_cm (cm w) |>).
Proof.
  intros Hl Hd. unfold ConflictManager.commitTransaction, getTransactionLevel, on_cm.
  run. rewrite Hl, Hd. reflexivity.
Qed.

Lemma clear_checked_ok w :
  0 <= m_version (ctl w) -> ichk_ok w ->
  exists i', clear_checked w = Ok (tt, w <| ichk := i' |>) /\
    XactIsolationChecker.same_shape (ichk w) i'.
Proof.
  intros Hv Hk.
  enough (wp clear_checked (fun _ w' => exists i', w' = w <| ichk := i' |> /\
    XactIsolationChecker.same_shape (ichk w) i') w) as Hwp.
  { apply wp_ok in Hwp as ([] & w' & ? & i' & -> & ?). by exists i'. }
  unfold clear_checked. destruct (isolation_checker params) eqn:Hck; cbn [when].
  2:{ wp_simpl. exists (ichk w). split; [by destruct w|apply XactIsolationChecker.same_shape_refl]. }
  destruct (Hk Hck) as [Hn Hw]. wp_simpl. apply wp_ichk_row.
  { apply XactIsolationChecker.on_readSet_ok; [done|lia]. }
  intros i1 Hs1. apply wp_ichk_row.
  { cbn. apply XactIsolationChecker.on_writeSet_ok; [by apply Hs1|].
    rewrite (XactIsolationChecker.ss_num _ _ Hs1). lia. }
  cbn. intros i2 Hs2. exists i2. split; [done|]. by eapply XactIsolationChecker.same_shape_trans.
Qed.

Lemma same_shape_ok w w' :
  ichk_ok w -> m_version (ctl w') = m_version (ctl w) ->
  XactIsolationChecker.same_shape (ichk w) (ichk w') -> ichk_ok w'.
Proof.
  intros Hi Hv Hss Hck. destruct (Hi Hck) as [H1 H2]. rewrite Hv.
  split; [by rewrite (XactIsolationChecker.ss_num _ _ Hss)|by apply Hss].
Qed.

(** The profiler's row of this processor. *)
Definition in_region (w : W) (region : AnnotatedRegion) : Prop :=
  exists r, prof_row w = Some r /\ tx_row curCycle r /\ m_annotatedRegion r = region.

Lemma enter_committing w :
  running w -> m_abortFlag (ctl w) = false ->
  exists p', unless (m_atCommit (ctl w)) (moveTo COMMITTING) w = Ok (tt, w <| prof := p' |>) /\
    in_region (w <| prof := p' |>) COMMITTING /\
    m_currentWaitForRetryRegion p' = m_currentWaitForRetryRegion (prof w).
Proof.
  intros Hr Hf. pose proof (al_tx w (rn_alive w Hr)) as Ht.
  destruct (it_row w Ht) as (r & Hrow & Htx & _). pose proof (rn_region w Hr Hf r Hrow) as Hreg.
  destruct (m_atCommit (ctl w)) eqn:Ha; cbn [unless].
  - exists (prof w). split; [by destruct w|]. split; [|done]. exists r. naive_solver.
  - enough (wp (moveTo COMMITTING) (fun _ w' => exists p', w' = w <| prof := p' |> /\
      in_region (w <| prof := p' |>) COMMITTING /\
      m_currentWaitForRetryRegion p' = m_currentWaitForRetryRegion (prof w)) w) as Hwp.
    { apply wp_ok in Hwp as ([] & w' & ? & p' & -> & ?). by exists p'. }
    eapply wp_moveTo_inside; [apply (it_version w Ht)|exact Hrow|done|done| |].
    { intros Hx. by apply Hreg in Hx. }
    intros p' r' Ho Ht' Hreg'. exists p'. split; [done|]. split; [|apply Ho].
    exists r'. split; [|done]. eapply own_row_lookup; [exact Hrow|exact Ho].
Qed.

Lemma leave_region w region next :
  0 <= m_version (ctl w) -> in_region w region -> region = COMMITTING \/ region = ABORTING ->
  next = DEFAULT \/ next = ABORT_HANDLER ->
  (let dest := exit_region (m_currentWaitForRetryRegion (prof w)) next in
   dest = DEFAULT \/ AnnotatedRegion_isAbortHandlerRegion dest = true) ->
  exists p' r', moveTo next w = Ok (tt, w <| prof := p' |>) /\
    prof_row (w <| prof := p' |>) = Some r' /\ idle_row curCycle r'.
Proof.
  intros Hv (r & Hrow & Htx & <-) Hreg Hn Hd.
  destruct (moveTo_outside curCycle (getTransactionLevel w) (m_version (ctl w)) next (prof w) r)
    as (p' & r' & Hm & Ho & _ & Hi); [done..|].
  exists p', r'. unfold moveTo, on_prof. run. unfold zoom, getProcID. rewrite Hm.
  split; [done|]. split; [|done]. eapply own_row_lookup; [exact Hrow|exact Ho].
Qed.

(** What a commit leaves. *)
Record committed (w w' : W) : Prop := {
  cd_cache : dcache w' = dcache w;
  cd_iso : iso w' = IsolationManager.IsolationManager_init;
  cd_cm : cm w' = committed_cm (cm w);
  cd_uid : m_currentHtmUid (ctl w') = m_currentHtmUid (ctl w);
  cd_rate : forall j, rate (st w') j = rate (st w) j + (if j =? 2 * kind w then 1 else 0)
}.

(** A commit up to the last move of the profiler. *)
Record ended (w w' : W) : Prop := {
  ed_done : committed w w';
  ed_ctl : ctl w' =
    (ctl w) <| m_atCommit := false |> <| m_lastFailureCause := HTM.INVALID |>
      <| m_htmstart_tick := 0 |> <| m_htmstart_instruction := 0 |>;
  ed_rest : fwd_rest (fwd w');
  ed_prio : m_hwTransPrio (fwd w') = NC_PRIO_VALUE;
  ed_ichk : ichk_ok w';
  ed_row : in_region w' COMMITTING;
  ed_wait : m_currentWaitForRetryRegion (prof w') = m_currentWaitForRetryRegion (prof w)
}.

Lemma alive_prof w p' :
  m_abortFlag (ctl w) = false -> alive w -> in_region (w <| prof := p' |>) COMMITTING ->
  alive (w <| prof := p' |>).
Proof.
  intros Hf [[? ? ? _ ? ? ? [? ?] ? ? ?] ? ? ?] (r & Hr & Ht & Hreg). split; try done.
  - split; try done. exists r. split; [done|]. split; [done|]. cbn. by rewrite Hf, Hreg.
  - by apply (fwd_ok_ext w).
Qed.

Lemma iso_commit_ok w :
  IsolationManager.wf 1 (precise_read_set_tracking params) (iso w) ->
  on_iso (IsolationManager.commitTransaction (precise_read_set_tracking params)) w =
  Ok (tt, w <| iso := IsolationManager.IsolationManager_init |>).
Proof.
  intros Hi. unfold on_iso. erewrite zoom_run by (apply IsolationManager.commit_ok;
    apply (IsolationManager.wf_read_precise _ _ _ Hi)). done.
Qed.

Lemma commit_outermost_ok pkt w :
  running w -> m_abortFlag (ctl w) = false -> lookups_ok w -> isConsumer w = false ->
  validationEvent (fwd w) = None ->
  exists w', commit_outermost pkt w = Ok (tt, w') /\ ended w w'.
Proof.
  intros Hr Hf Hl Hc Hev. pose proof (rn_alive w Hr) as Ha. pose proof (al_tx w Ha) as Ht.
  unfold commit_outermost. run.
  destruct (enter_committing w Hr Hf) as (p' & H1 & Hreg & Hwait). run_with H1.
  rewrite (el_values EL). cbn [when]. run.
  destruct (commit_eager_lazy_ok (w <| prof := p' |>)) as (s' & f' & H2 & Hs & Hrest);
    [by apply alive_prof|by destruct Hl|done..|].
  unfold commit_versioning. rewrite (el_vm EL), (el_cd EL). run_with H2.
  erewrite bind_run by (apply cm_commit_ok; [exact (it_level w Ht)|exact (rn_doomed w Hr)]).
  erewrite bind_run by (apply iso_commit_ok; exact (it_iso w Ht)).
  match goal with |- context [bind clear_checked _ ?v] =>
    destruct (clear_checked_ok v (it_version w Ht) (it_ichk w Ht)) as (i' & H5 & Hss) end.
  run_with H5.
  erewrite bind_run by (apply massert_run, bool_decide_eq_true; exact (rn_discarded w Hr Hf)).
  erewrite bind_run by (apply massert_run, bool_decide_eq_true; exact (it_cause w Ht Hf)).
  unfold commit_stats, on_ctl, on_fwd, on_st. run. eexists. split; [reflexivity|].
  assert (forall l s, same_rate s (fold_left (fun s t => sample m_htm_percentage_executed_on_abort t
    (u64 (req_time pkt - m_htmstart_tick (ctl w))) s) l s)) as Hsr.
  { induction l as [|t l IH]; [done|]. intros s. cbn [fold_left]. etrans; [|apply IH]. done. }
  split; try done.
  - split; try done. intros j. etrans; [exact (Hsr _ _ j)|]. exact (Hs j).
  - by destruct Hrest.
  - apply (same_shape_ok w); [exact (it_ichk w Ht)|done|exact Hss].
Qed.

(** A commit, from start to end. *)
Lemma commit_idle pkt w :
  running w -> m_abortFlag (ctl w) = false -> lookups_ok w -> isConsumer w = false ->
  validationEvent (fwd w) = None ->
  exists w', commitTransaction pkt w = Ok (tt, w') /\ idle w' /\ committed w w'.
Proof.
  intros Hr Hf Hl Hc Hev. pose proof (al_tx w (rn_alive w Hr)) as Ht.
  unfold commitTransaction. run. rewrite (it_level w Ht), Hf, (proj2 (Z.eqb_neq _ _) (rn_xid w Hr)).
  change (1 <? 1) with false. change (1 <=? 1) with true. cbn [negb Z.eqb Pos.eqb when]. run.
  destruct (commit_outermost_ok pkt w) as (w1 & H1 & [[H2 H3 H4 H5 H6] Hctl Hrest Hprio Hk Hreg Hwait]);
    [done..|]. run_with H1. unfold on_ctl. run.
  match goal with |- context [moveTo DEFAULT ?v] =>
    destruct (leave_region v COMMITTING DEFAULT) as (p' & r' & H7 & Hrow & Hid) end.
  { rewrite Hctl. apply (it_version w Ht). }
  { exact Hreg. }
  { by left. }
  { by left. }
  { by left. }
  rewrite H7. eexists. split; [reflexivity|]. split; [|by split].
  split; cbn; rewrite ?Hctl; cbn; try done.
  - by rewrite (it_level w Ht).
  - apply (it_escape w Ht).
  - apply (it_cause w Ht Hf).
  - apply (it_unroll w Ht).
  - apply (rn_discarded w Hr Hf).
  - apply (it_version w Ht).
  - exists r'. split; [|done]. unfold prof_row in *. cbn in *. by rewrite Hctl in Hrow.
  - rewrite H3. apply IsolationManager.wf_init.
  - unfold ichk_ok in *. cbn. by rewrite Hctl in *.
  - by rewrite H4.
  - rewrite H4. apply (rn_doomed w Hr).
Qed.

(** ** Abort *)

Definition written w : gset Z := dom (IsolationManager.m_writeSet (iso w)).

(** The cache holds the speculative lines: what the transaction wrote, unless
    the line is known to be gone, and what it consumed. *)
Record spec_lines (w : W) : Prop := {
  sl_cache : dc_ok (dcache w);
  sl_written a : a ∈ written w -> a ∉ m_writeSetDiscarded (ctl w) ->
    exists perm blk, dc_line (dcache w) a = Some (perm, blk) /\ permits perm ST = true;
  sl_discarded : m_writeSetDiscarded (ctl w) ⊆ written w;
  sl_gone a : a ∈ m_writeSetDiscarded (ctl w) -> dc_line (dcache w) a = None;
  sl_recv a : a ∈ recv (fwd w) -> is_line a /\
    exists perm blk, dc_line (dcache w) a = Some (perm, blk) /\ permits perm LD = true
}.

(** [w'] is [w] without the lines [X], with [D] as the discarded lines. *)
Definition gone (X D : gset Z) (w w' : W) : Prop :=
  exists c, w' = w <| dcache := c |> <| ctl := (ctl w) <| m_writeSetDiscarded := D |> |> /\
    dc_ok c /\ forall a, is_line a ->
      dc_line c a = if bool_decide (a ∈ X) then None else dc_line (dcache w) a.

Lemma gone_start w : dc_ok (dcache w) -> gone ∅ (m_writeSetDiscarded (ctl w)) w w.
Proof.
  intros Hc. exists (dcache w). split; [by destruct w as [[] ? ? ? ? ? ? ? ? ? ? ?]|]. split; [done|].
  intros a _. by rewrite bool_decide_eq_false_2 by set_solver.
Qed.

Lemma gone_drop X D D' a w w' c' :
  gone X D w w' -> is_line a -> dc_ok c' -> dc_line c' a = None ->
  (forall b, is_line b -> b <> a -> dc_line c' b = dc_line (dcache w') b) ->
  gone ({[a]} ∪ X) D' w
    (w' <| dcache := c' |> <| ctl := (ctl w') <| m_writeSetDiscarded := D' |> |>).
Proof.
  intros (c & -> & _ & Hl) Ha Hok Hn Ho. exists c'. split; [done|]. split; [done|].
  intros b Hb. destruct (decide (b = a)) as [->|Hne].
  - by rewrite bool_decide_eq_true_2 by set_solver.
  - rewrite Ho by done. cbn. rewrite Hl by done. apply (f_equal (fun b : bool => if b then _ else _)).
    apply bool_decide_ext. set_solver.
Qed.

Lemma discard_forwarded_ok a X D w w' perm blk :
  in_tx w -> gone X D w w' -> is_line a -> a ∉ X ->
  dc_line (dcache w) a = Some (perm, blk) -> permits perm LD = true ->
  exists w'', discard_forwarded a w' = Ok (tt, w'') /\
    gone ({[a]} ∪ X) (D ∪ ({[a]} ∩ written w)) w w''.
Proof.
  intros Ht Hg Ha Hx Hl Hp. pose proof Hg as (c & Hw & Hc & Hlines). unfold discard_forwarded. run.
  assert (dc_line (dcache w') a = Some (perm, blk)) as Hhit.
  { rewrite Hw. cbn. by rewrite Hlines, bool_decide_eq_false_2 by done. }
  assert (dc_ok (dcache w')) as Hok by by rewrite Hw.
  rewrite (proj2 Ha), (dc_try_hit _ a LD perm blk Hok Ha Hhit), Hp. run.
  unfold deallocate. run.
  destruct (dc_dealloc_hit (dcache w') a Hok Ha) as (c' & -> & Hok' & Hn & Ho); [by rewrite Hhit|].
  run. assert (checkWriteSignature a w' = Ok (bool_decide (a ∈ written w))) as ->.
  { unfold checkWriteSignature. rewrite Hw. cbn.
    rewrite (IsolationManager.isInWriteSet_ok _ _ _ _ (it_iso w Ht)), (proj2 Ha).
    f_equal. apply has_dom. }
  run. assert (m_writeSetDiscarded (ctl w') = D) as HD by by rewrite Hw.
  eexists. split.
  2:{ apply (gone_drop X D _ a w w' c'); done. }
  unfold when, on_ctl. case_bool_decide as Hin.
  - unfold zoom, modify. do 2 f_equal. unfold upd. cbn. do 2 f_equal. rewrite HD. set_solver.
  - assert (D ∪ ({[a]} ∩ written w) = D) as -> by set_solver. rewrite <- HD.
    by destruct w' as [[] ? ? ? ? ? ? ? ? ? ? ?].
Qed.

Lemma discard_forwarded_all l X D w w' :
  in_tx w -> NoDup l -> gone X D w w' ->
  (forall a, a ∈ l -> a ∉ X /\ is_line a /\
     exists perm blk, dc_line (dcache w) a = Some (perm, blk) /\ permits perm LD = true) ->
  exists w'', forM l discard_forwarded w' = Ok (tt, w'') /\
    gone (list_to_set l ∪ X) (D ∪ (list_to_set l ∩ written w)) w w''.
Proof.
  intros Ht Hnd. revert X D w'. induction Hnd as [|a l Hin Hnd IH]; intros X D w' Hg Hl.
  - exists w'. split; [done|]. cbn [list_to_set].
    assert (∅ ∪ X = X) as -> by set_solver.
    by assert (D ∪ (∅ ∩ written w) = D) as -> by set_solver.
  - destruct (Hl a) as (Hx & Ha & perm & blk & Hc & Hp); [set_solver|].
    destruct (discard_forwarded_ok a X D w w' perm blk Ht Hg Ha Hx Hc Hp) as (w1 & H1 & Hg1).
    cbn [forM]. rewrite (bind_run _ _ _ _ _ H1).
    destruct (IH _ _ w1 Hg1) as (w2 & -> & Hg2).
    + intros b Hb. destruct (Hl b) as (? & ? & ?); [set_solver|]. split; [|done]. set_solver.
    + exists w2. split; [done|]. cbn [list_to_set].
      replace ({[a]} ∪ list_to_set l ∪ X) with (list_to_set l ∪ ({[a]} ∪ X) : gset Z) by set_solver.
      by replace (D ∪ (({[a]} ∪ list_to_set l) ∩ written w)) with
        (D ∪ ({[a]} ∩ written w) ∪ (list_to_set l ∩ written w)) by set_solver.
Qed.

(** A written line is in the cache, unless it is recorded as discarded. *)
Definition line_or_gone (X D : gset Z) (w : W) (a : Z) : Prop :=
  is_line a /\ (a ∈ D -> a ∈ X \/ dc_line (dcache w) a = None) /\
  (a ∉ D -> a ∉ X /\
     exists perm blk, dc_line (dcache w) a = Some (perm, blk) /\ permits perm ST = true).

Lemma discard_written_ok a X D w w' :
  gone X D w w' -> line_or_gone X D w a ->
  exists w'', discard_written a w' = Ok (tt, w'') /\ gone ({[a]} ∪ X) (D ∖ {[a]}) w w''.
Proof.
  intros Hg (Ha & Hin & Hout). pose proof Hg as (c & Hw & Hc & Hlines).
  assert (m_writeSetDiscarded (ctl w') = D) as HD by by rewrite Hw.
  assert (dc_ok (dcache w')) as Hok by by rewrite Hw.
  unfold discard_written, on_ctl. run. rewrite (proj2 Ha), HD.
  destruct (decide (a ∈ D)) as [Hd|Hd].
  - rewrite bool_decide_eq_true_2 by done.
    assert (dc_line (dcache w') a = None) as Hn.
    { rewrite Hw. cbn. rewrite Hlines by done. case_bool_decide; [done|]. by destruct (Hin Hd). }
    rewrite dc_try_miss by done. run. eexists. split; [reflexivity|].
    pose proof (gone_drop X D (D ∖ {[a]}) a w w' (dcache w') Hg Ha Hok Hn (fun _ _ _ => eq_refl)) as Hg'.
    by destruct w' as [[] ? ? ? ? ? ? ? ? ? ? ?]; cbn in *; subst.
  - rewrite bool_decide_eq_false_2 by done. destruct (Hout Hd) as (Hx & perm & blk & Hl & Hp).
    assert (dc_line (dcache w') a = Some (perm, blk)) as Hhit.
    { rewrite Hw. cbn. by rewrite Hlines, bool_decide_eq_false_2 by done. }
    rewrite (dc_try_hit _ a ST perm blk Hok Ha Hhit), Hp. run. unfold deallocate. run.
    destruct (dc_dealloc_hit (dcache w') a Hok Ha) as (c' & Hde & Hok' & Hn & Ho); [by rewrite Hhit|].
    cbn. rewrite Hde. eexists. split; [reflexivity|].
    pose proof (gone_drop X D (D ∖ {[a]}) a w w' c' Hg Ha Hok' Hn Ho) as Hg'.
    by destruct w' as [[] ? ? ? ? ? ? ? ? ? ? ?]; cbn in *; subst.
Qed.

Lemma discard_written_all l X D w w' :
  NoDup l -> gone X D w w' -> (forall a, a ∈ l -> line_or_gone X D w a) ->
  exists w'', forM l discard_written w' = Ok (tt, w'') /\
    gone (list_to_set l ∪ X) (D ∖ list_to_set l) w w''.
Proof.
  intros Hnd. revert X D w'. induction Hnd as [|a l Hin Hnd IH]; intros X D w' Hg Hl.
  - exists w'. split; [done|]. cbn [list_to_set].
    assert (∅ ∪ X = X) as -> by set_solver. by assert (D ∖ ∅ = D) as -> by set_solver.
  - destruct (discard_written_ok a X D w w') as (w1 & H1 & Hg1); [done|apply Hl; set_solver|].
    cbn [forM]. rewrite (bind_run _ _ _ _ _ H1).
    destruct (IH _ _ w1 Hg1) as (w2 & -> & Hg2).
    + intros b Hb. destruct (Hl b) as (Hb1 & Hb2 & Hb3); [set_solver|].
      assert (b <> a) by (by intros ->).
      split; [done|]. split; [set_solver|]. intros Hb4. destruct Hb3 as [? ?]; [set_solver|].
      split; [set_solver|done].
    + exists w2. split; [done|]. cbn [list_to_set].
      replace ({[a]} ∪ list_to_set l ∪ X) with (list_to_set l ∪ ({[a]} ∪ X) : gset Z) by set_solver.
      by replace (D ∖ ({[a]} ∪ list_to_set l)) with (D ∖ {[a]} ∖ list_to_set l : gset Z) by set_solver.
Qed.

Lemma gone_fwd X D f w w' : gone X D w w' -> gone X D (w <| fwd := f |>) (w' <| fwd := f |>).
Proof. intros (c & -> & Hc & Hl). by exists c. Qed.

Lemma list_to_set_keys {A} (m : gmap Z A) : list_to_set (std_keys m) =@{gset Z} dom m.
Proof. apply set_eq. intros x. by rewrite elem_of_list_to_set, elem_of_std_keys, elem_of_dom. Qed.

Lemma abort_forwarding_ok w :
  alive w -> spec_lines w ->
  exists s' f' w', abort_forwarding w = Ok (tt, w' <| fwd := f' |>) /\
    gone (recv (fwd w)) (m_writeSetDiscarded (ctl w) ∪ (recv (fwd w) ∩ written w))
      (w <| st := s' |>) w' /\
    same_rate (st w) s' /\ fwd_rest f'.
Proof.
  intros Ha Hl. unfold abort_forwarding.
  destruct config_allowEarlyValueFwd eqn:Hon; cbn [when].
  2:{ pose proof (off_rest w Hon Ha) as Hrest. exists (st w), (fwd w), w.
      split; [by destruct w|]. split; [|done]. unfold recv. rewrite (fr_recv _ Hrest), dom_empty_L.
      replace (m_writeSetDiscarded (ctl w) ∪ (∅ ∩ written w)) with (m_writeSetDiscarded (ctl w))
        by set_solver.
      replace (w <| st := st w |>) with w by by destruct w. apply gone_start, Hl. }
  run.
  set (s1 := if m_hwTransPrio (fwd w) =? NC_PRIO_VALUE then st w
             else sample m_htm_PiC_aborted (m_hwTransPrio (fwd w)) 1 (st w)).
  assert (unless (m_hwTransPrio (fwd w) =? NC_PRIO_VALUE)
    (on_st (sample m_htm_PiC_aborted (m_hwTransPrio (fwd w)) 1)) w = Ok (tt, w <| st := s1 |>)) as H1.
  { subst s1. destruct (_ =? _); [|done]. by destruct w. }
  run_with H1. rewrite (isProducer_ok w (al_fwd w Ha)). run.
  set (s2 := if negb (no_consumers w) then sample m_htm_producer_transactions_nprod_abort
               (Z.of_nat (size (all_consumers w))) 1 s1 else s1).
  assert (when (negb (no_consumers w)) (on_st (sample m_htm_producer_transactions_nprod_abort
    (Z.of_nat (size (all_consumers w))) 1)) (w <| st := s1 |>) = Ok (tt, w <| st := s2 |>)) as H2.
  { subst s2. by destruct (no_consumers w). }
  run_with H2. rewrite (hasConsumedData_ok w (it_consumed w (al_tx w Ha))). run.
  destruct (discard_forwarded_all (std_keys (m_recvDataForwardedFromProducer (fwd w))) ∅
    (m_writeSetDiscarded (ctl w)) (w <| st := s2 |>) (w <| st := s2 |>)) as (w3 & H3 & Hg).
  { apply (in_tx_frame w); try done. apply Ha. }
  { apply NoDup_std_keys. }
  { pose (v := w <| st := s2 |>). exact (gone_start v (sl_cache w Hl)). }
  { intros a Hin%elem_of_std_keys%elem_of_dom. split; [set_solver|]. by apply (sl_recv w Hl). }
  unfold discardForwardedDataFromL1DataCache. run. erewrite bind_run by exact H3. unfold on_fwd. run.
  eexists s2, _, w3. split; [reflexivity|]. split; [|split].
  - rewrite list_to_set_keys, (right_id_L ∅ (∪)) in Hg. exact Hg.
  - subst s2 s1. by destruct (no_consumers w), (_ =? _).
  - done.
Qed.

(** A power transaction forgets the blocks it nacked for. *)
Lemma forget_nacked_ok w b :
  exists s' f', when b (unless (emptyb (m_nackedAddressesReg (fwd w)))
      (do* incr m_htm_transaction_power_modified 2;
       on_fwd (set! m_nackedAddressesReg := ∅))) w = Ok (tt, w <| st := s' |> <| fwd := f' |>) /\
    same_rate (st w) s' /\
    (f' = fwd w \/ f' = (fwd w) <| m_nackedAddressesReg := ∅ |>).
Proof.
  destruct b; cbn [when]; [destruct (emptyb _) eqn:He; cbn [unless]|].
  - exists (st w), (fwd w). split; [by destruct w|]. by split; [|left].
  - unfold incr, on_st, on_fwd. run. eexists _, _. split; [reflexivity|].
    split; [by apply same_rate_incr|by right].
  - exists (st w), (fwd w). split; [by destruct w|]. by split; [|left].
Qed.

Lemma alive_nacked w s f :
  f = fwd w \/ f = (fwd w) <| m_nackedAddressesReg := ∅ |> ->
  alive w -> alive (w <| st := s |> <| fwd := f |>).
Proof.
  intros Hf [H1 H2 H3 H4]. destruct Hf as [-> | ->]; (split; [..|done|done]);
    try (by apply (in_tx_frame w)); by destruct H2.
Qed.

Lemma spec_lines_gone w w' s f :
  spec_lines w -> IsolationManager.wf 1 (precise_read_set_tracking params) (iso w) ->
  gone (recv (fwd w)) (m_writeSetDiscarded (ctl w) ∪ (recv (fwd w) ∩ written w))
    (w <| st := s |>) w' ->
  exists w'', discardWriteSetFromL1DataCache (w' <| fwd := f |>) = Ok (tt, w'') /\
    gone (written w ∪ recv (fwd w)) ∅ (w <| st := s |> <| fwd := f |>) w''.
Proof.
  intros Hl Hwf Hg. apply (gone_fwd _ _ f) in Hg.
  assert (iso w' = iso w) as Hiso by (by destruct Hg as (c & Hw & _); apply (f_equal iso) in Hw).
  unfold discardWriteSetFromL1DataCache, IsolationManager.getWriteSet. run.
  destruct (discard_written_all (std_keys (IsolationManager.m_writeSet (iso w))) _ _ _ _
    (NoDup_std_keys _) Hg) as (w2 & H2 & Hg2).
  { intros a Ha%elem_of_std_keys. destruct Ha as [x Hx]. pose proof (elem_of_dom_2 _ _ _ Hx) as Hin.
    split; [by eapply (IsolationManager.wf_write_line _ _ _ Hwf)|]. split.
    - intros [Hd|Hd]%elem_of_union; [right; by apply (sl_gone w Hl)|left; set_solver].
    - intros [Hd Hr]%not_elem_of_union. split; [unfold written in Hr; set_solver|].
      by apply (sl_written w Hl). }
  cbn. rewrite Hiso. erewrite bind_run by exact H2. run.
  rewrite list_to_set_keys in Hg2.
  replace (_ ∖ dom _) with (∅ : gset Z) in Hg2.
  2:{ pose proof (sl_discarded w Hl). unfold written in *. set_solver. }
  exists w2. split; [|done]. destruct Hg2 as (c & -> & _). by apply massert_run, bool_decide_eq_true.
Qed.

Lemma abort_eager_lazy_ok w :
  alive w -> spec_lines w ->
  exists s' f' c, abort_eager_lazy w =
      Ok (tt, w <| st := s' |> <| fwd := f' |> <| dcache := c |>
                <| ctl := (ctl w) <| m_writeSetDiscarded := ∅ |> <| m_atCommit := false |> |>) /\
    same_rate (st w) s' /\ fwd_rest f' /\ m_hwTransPrio f' = NC_PRIO_VALUE /\ dc_ok c /\
    forall a, is_line a -> dc_line c a =
      if bool_decide (a ∈ written w ∪ recv (fwd w)) then None else dc_line (dcache w) a.
Proof.
  intros Ha Hl. pose proof (al_tx w Ha) as Ht. unfold abort_eager_lazy. run.
  rewrite (isPowerMode_ok w (it_power w Ht)). run.
  destruct (forget_nacked_ok w (m_powered (cm w))) as (s1 & f1 & H1 & Hs1 & Hf1). run_with H1.
  set (w1 := w <| st := s1 |> <| fwd := f1 |>).
  assert (recv (fwd w1) = recv (fwd w)) as Hrecv by (by destruct Hf1; subst w1 f1).
  destruct (abort_forwarding_ok w1) as (s2 & f2 & w2 & H2 & Hg & Hs2 & Hrest).
  { by apply alive_nacked. }
  { destruct Hl. split; try done. by rewrite Hrecv. }
  run_with H2. unfold on_fwd, on_ctl. run.
  destruct (spec_lines_gone w1 w2 s2 (f2 <| m_hwTransPrio := NC_PRIO_VALUE |>)) as (w3 & H3 & Hg3).
  { destruct Hl. split; try done. by rewrite Hrecv. }
  { apply (it_iso w Ht). }
  { exact Hg. }
  erewrite bind_run by exact H3. destruct Hg3 as (c & -> & Hc & Hlines).
  rewrite Hrecv in Hlines. exists s2, (f2 <| m_hwTransPrio := NC_PRIO_VALUE |>), c.
  split; [|split; [by etrans|]; split; [by destruct Hrest|done]].
  destruct (m_atCommit (ctl w)) eqn:Hat; cbn [when].
  - rewrite (al_commit w Ha Hat). done.
  - unfold ret. do 3 f_equal. destruct w as [[] ? ? ? ? ? ? ? ? ? ? ?]. cbn in *. by subst.
Qed.

(** What the CPU and the counters promise at an abort: a cause that agrees
    with the one recorded here, counters in range, a known region to wait in. *)
Record abort_ok (cause : HtmFailureFaultCause) (w : W) : Prop := {
  ab_valid : cause <> HTM.INVALID;
  ab_agrees : exists precise, preciseFaultCause cause w = Ok precise;
  ab_retries : INT_MIN <= m_numRetries (cm w) + 1 <= INT_MAX;
  ab_sizes : IsolationManager.getReadSetSize (iso w) +
             IsolationManager.getWriteSetSize (iso w) <= INT_MAX;
  ab_wait : m_currentWaitForRetryRegion (prof w) = XactProfiler.INVALID \/
    AnnotatedRegion_isAbortHandlerRegion (m_currentWaitForRetryRegion (prof w)) = true
}.

Lemma alive_failure w c s :
  alive w -> alive (w <| ctl := (ctl w) <| m_lastFailureCause := c |> |> <| st := s |>).
Proof.
  intros [[? ? ? ? ? ? ? [? ?] ? ? ?] [? ? ? ? ? ? ? ? ? ? ?] ? ?].
  split; [split| |..]; try done; split; done.
Qed.

Lemma profileFailure_ok cause w :
  alive w -> abort_ok cause w ->
  exists s', profileHtmFailureFaultCause cause w =
      Ok (tt, w <| ctl := (ctl w) <| m_lastFailureCause := cause |> |> <| st := s' |>) /\
    forall j, rate s' j = rate (st w) j + (if j =? 2 * kind w + 1 then 1 else 0).
Proof.
  intros Ha [Hv [precise Hp] _ _ _]. unfold profileHtmFailureFaultCause, on_ctl.
  rewrite bool_decide_eq_false_2 by done. run.
  change (preciseFaultCause cause (w <| ctl := (ctl w) <| m_lastFailureCause := cause |> |>))
    with (preciseFaultCause cause w). rewrite Hp. run. unfold incr, on_st. run.
  set (idx := cause_index precise).
  set (s1 := sample (m_htm_aborted_tx_xid_cause idx) (m_htmXid (ctl w)) 1
               (vec_incr m_htm_transaction_abort_cause idx (st w))).
  pose proof (alive_failure w cause s1 Ha) as Hw1.
  destruct (profile_counts _ true idx (al_fwd _ Hw1)) as (s2 & H2 & Hs2).
  { split; [apply (it_consumed _ (al_tx _ Hw1))|done|apply (it_power _ (al_tx _ Hw1))]. }
  erewrite bind_run by exact H2. eexists. split; [reflexivity|]. intros j.
  etrans; [exact (Hs2 j)|]. done.
Qed.

(** The conflict manager after an abort: one retry more, the same age. *)
Definition restarted_cm (c : ConflictManager) : ConflictManager :=
  c <| m_numRetries := m_numRetries c + 1 |> <| m_possible_cycle := false |>
    <| m_sentNack := false |> <| m_receivedNack := false |> <| m_abortedByNack := false |>
    <| m_doomed := false |> <| m_powered := false |>.

Lemma cm_restart_ok w :
  INT_MIN <= m_numRetries (cm w) + 1 <= INT_MAX ->
  ConflictManager.restartTransaction w = Ok (tt, w <| cm := restarted_cm (cm w) |>).
Proof.
  intros Hn. unfold ConflictManager.restartTransaction, on_cm, zoom. run.
  by rewrite signed_ok.
Qed.

Record aborted (w w' : W) : Prop := {
  ar_cache : forall a, is_line a -> dc_line (dcache w') a =
    if bool_decide (a ∈ written w ∪ recv (fwd w)) then None else dc_line (dcache w) a;
  ar_ok : dc_ok (dcache w');
  ar_iso : iso w' = IsolationManager.IsolationManager_init;
  ar_cm : cm w' = restarted_cm (cm w);
  ar_uid : m_currentHtmUid (ctl w') = m_currentHtmUid (ctl w);
  ar_rate : forall j, rate (st w') j = rate (st w) j + (if j =? 2 * kind w + 1 then 1 else 0)
}.

Lemma abort_lazy_ok pkt w :
  alive w -> spec_lines w -> abort_ok (req_htmAbortCause pkt) w ->
  exists s' f' c i',  abort_lazy pkt w =
      Ok (tt, w <| st := s' |> <| fwd := f' |> <| dcache := c |>
                <| ctl := (ctl w) <| m_writeSetDiscarded := ∅ |> <| m_atCommit := false |>
                            <| m_htmXid := LONG_MIN |> |>
                <| cm := restarted_cm (cm w) |>
                <| iso := IsolationManager.IsolationManager_init |> <| ichk := i' |>) /\
    same_rate (st w) s' /\ fwd_rest f' /\ m_hwTransPrio f' = NC_PRIO_VALUE /\ dc_ok c /\
    XactIsolationChecker.same_shape (ichk w) i' /\
    forall a, is_line a -> dc_line c a =
      if bool_decide (a ∈ written w ∪ recv (fwd w)) then None else dc_line (dcache w) a.
Proof.
  intros Ha Hl [_ _ Hn Hsz _]. pose proof (al_tx w Ha) as Ht. unfold abort_lazy. run.
  rewrite (el_values EL), (el_cd EL). cbn [when]. run.
  destruct (abort_eager_lazy_ok w Ha Hl) as (s1 & f' & c & H1 & Hs1 & Hrest & Hp & Hc & Hlines).
  run_with H1. unfold abort_stats, on_st, on_ctl. run.
  erewrite bind_run by (apply cm_restart_ok; exact Hn). run.
  match goal with |- context [signed ?z] => assert (signed z = Ok z) as -> end.
  { apply signed_ok. split; [|exact Hsz]. cbn.
    unfold IsolationManager.getReadSetSize, IsolationManager.getWriteSetSize.
    pose proof (Zle_0_nat (size (IsolationManager.m_readSet (iso w)))).
    pose proof (Zle_0_nat (size (IsolationManager.m_writeSet (iso w)))). unfold INT_MIN. lia. }
  run. erewrite bind_run by (apply (zoom_run iso); reflexivity). cbn beta.
  match goal with |- context [clear_checked ?v] =>
    destruct (clear_checked_ok v (it_version w Ht) (it_ichk w Ht)) as (i' & H5 & Hss) end.
  rewrite H5. eexists _, f', c, i'. split; [reflexivity|]. done.
Qed.

(** The profiler follows the abort: a running transaction enters the aborting
    region, one whose flag was raised is there already. *)
Lemma abort_flag_ok w w1 :
  alive w -> m_transactionLevel (ctl w1) = 0 ->
  prof w1 = prof w -> m_version (ctl w1) = m_version (ctl w) ->
  m_abortFlag (ctl w1) = m_abortFlag (ctl w) -> m_abortCause (ctl w1) = m_abortCause (ctl w) ->
  exists p' c', abort_flag w1 = Ok (tt, w1 <| prof := p' |> <| ctl := c' |>) /\
    in_region (w1 <| prof := p' |> <| ctl := c' |>) ABORTING /\
    m_currentWaitForRetryRegion p' = m_currentWaitForRetryRegion (prof w) /\
    m_abortCause c' = Undefined /\ exists addr, c' =
      (ctl w1) <| m_abortFlag := false |> <| m_abortCause := Undefined |> <| m_abortAddress := addr |>.
Proof.
  intros Ha Hlev Hp Hv Hf Hc. pose proof (al_tx w Ha) as Ht.
  destruct (it_row w Ht) as (r & Hrow & Htx & Hreg).
  assert (prof_row w1 = Some r) as Hrow1 by (unfold prof_row; by rewrite Hp, Hv).
  unfold abort_flag. run. destruct (m_abortFlag (ctl w1)) eqn:Hflag.
  - exists (prof w1), ((ctl w1) <| m_abortFlag := false |> <| m_abortCause := Undefined |>
                             <| m_abortAddress := 0 |>).
    split; [unfold on_ctl, zoom; run; by destruct w1|]. split; [|by rewrite Hp; split; [|split; [|eexists]]].
    exists r. split; [exact Hrow1|]. split; [done|]. by apply Hreg.
  - enough (wp (moveTo ABORTING) (fun _ w' => exists p', w' = w1 <| prof := p' |> /\
      in_region (w1 <| prof := p' |>) ABORTING /\
      m_currentWaitForRetryRegion p' = m_currentWaitForRetryRegion (prof w)) w1) as Hwp.
    { apply wp_ok in Hwp as ([] & w' & Hm & p' & -> & Hin & Hw). rewrite Hm.
      pose proof (it_cause w Ht (eq_sym Hf)) as Hcause. rewrite <- Hc in Hcause.
      exists p', (ctl w1). split; [by destruct w1|].
      replace (w1 <| prof := p' |> <| ctl := ctl w1 |>) with (w1 <| prof := p' |>) by by destruct w1.
      do 3 (split; [done|]). exists (m_abortAddress (ctl w1)). clear -Hflag Hcause.
      destruct (ctl w1). cbn in *. by subst. }
    eapply wp_moveTo_inside; [rewrite Hv; apply (it_version w Ht)|exact Hrow1|done|done| |].
    { intros Hx. apply Hreg in Hx. by rewrite <- Hf in Hx. }
    intros p' r' Ho Ht' Hreg'. exists p'. split; [done|]. split; [|rewrite <- Hp; apply Ho].
    exists r'. split; [|done]. eapply own_row_lookup; [exact Hrow1|exact Ho].
Qed.

(** An abort, from start to end. *)
Lemma abort_idle pkt w :
  running w -> spec_lines w -> abort_ok (req_htmAbortCause pkt) w ->
  exists w', abortTransaction pkt w = Ok (tt, w') /\ idle w' /\ aborted w w'.
Proof.
  intros Hr Hl Hab. pose proof (rn_alive w Hr) as Ha. pose proof (al_tx w Ha) as Ht.
  unfold abortTransaction. run.
  rewrite (it_level w Ht), (it_escape w Ht), (proj2 (Z.eqb_neq _ _) (rn_xid w Hr)).
  cbn [negb Z.eqb Pos.eqb]. run. rewrite (el_vm EL).
  destruct (profileFailure_ok _ w Ha Hab) as (s1 & H1 & Hs1). run_with H1.
  set (w1 := w <| ctl := (ctl w) <| m_lastFailureCause := req_htmAbortCause pkt |> |> <| st := s1 |>).
  destruct (abort_lazy_ok pkt w1) as (s2 & f2 & c & i' & H2 & Hs2 & Hrest & Hp & Hc & Hss & Hlines).
  { by apply alive_failure. }
  { by destruct Hl. }
  { by destruct Hab. }
  run_with H2. unfold abort_at_commit. rewrite (el_cd EL). cbn [negb andb]. run.
  erewrite bind_run by (instantiate (2 := tt); unfold unless; by destruct config_allowEarlyValueFwd).
  unfold abort_level. run.
  match goal with |- context [negb (m_unrollingLogFlag ?v)] =>
    replace (m_unrollingLogFlag v) with false by exact (eq_sym (it_unroll w Ht)) end.
  cbn [negb]. unfold on_ctl. run.
  match goal with |- context [bind abort_flag _ ?v] =>
    destruct (abort_flag_ok w v Ha) as (p' & c' & H3 & Hin & Hw & Hcause & addr & Hc'); [done..|] end.
  run_with H3.
  match goal with |- context [moveTo ABORT_HANDLER ?v] =>
    destruct (leave_region v ABORTING ABORT_HANDLER) as (p2 & r' & H4 & Hrow & Hid) end.
  { rewrite Hc'. exact (it_version w Ht). }
  { exact Hin. }
  { by right. }
  { by right. }
  { cbn. rewrite Hw. unfold exit_region. destruct (ab_wait _ w Hab) as [-> |Hh]; [by right|].
    destruct (_ && _); by right. }
  rewrite H4. eexists. split; [reflexivity|]. subst c'. split.
  - split; try done.
    + exact (it_escape w Ht).
    + exact (it_unroll w Ht).
    + exact (it_version w Ht).
    + by exists r'.
    + by apply (same_shape_ok w); [apply (it_ichk w Ht)| |].
  - split; try done. cbn. intros j. by rewrite Hs2, Hs1.
Qed.

(** ** What runs in between *)

Lemma running_iso w i :
  IsolationManager.wf 1 (precise_read_set_tracking params) i -> running w ->
  running (w <| iso := i |>).
Proof.
  intros Hwf [[[? ? ? ? ? _ ? [? ?] ? ? ?] Hf ? ?] ? ? ? ?]. split; try done.
  split; try done. by apply (fwd_ok_ext w).
Qed.

Lemma running_ichk w i :
  XactIsolationChecker.same_shape (ichk w) i -> running w -> running (w <| ichk := i |>).
Proof.
  intros Hss [[Ht Hf ? ?] ? ? ? ?]. split; try done. split; try done.
  - by apply in_tx_ichk.
  - by apply (fwd_ok_ext w).
Qed.

Lemma store_running w addr :
  0 <= addr < 2 ^ 64 -> running w ->
  exists w', isolateTransactionStore addr w = Ok (tt, w') /\ running w' /\
    iso w' = (iso w) <| IsolationManager.m_writeSet ::=
               std_insert (makeLineAddress addr) IsolationManager.RETIRED_STORE |> /\
    ctl w' = ctl w /\ fwd w' = fwd w /\ cm w' = cm w /\ dcache w' = dcache w.
Proof.
  intros Ha Hr. pose proof (al_tx w (rn_alive w Hr)) as Ht.
  pose proof (makeLineAddress_is_line addr Ha) as [Hla Hli].
  pose proof (IsolationManager.wf_add_write _ _ _ _ Hla (it_iso w Ht)) as Hwf.
  rewrite Hli in Hwf. pose proof (running_iso w _ Hwf Hr) as Hr1.
  unfold isolateTransactionStore. run. rewrite (it_level w Ht). cbn [Z.ltb Z.compare]. run.
  erewrite bind_run by (apply (zoom_run iso), IsolationManager.add_write_ok). cbn beta.
  rewrite Hli. destruct (isolation_checker params) eqn:Hck; cbn [when].
  - destruct (it_ichk w Ht Hck) as [Hn Hw].
    edestruct (XactIsolationChecker.on_writeSet_ok (m_version (ctl w))) as (i' & Hi & Hss);
      [exact Hw|split; [apply (it_version w Ht)|exact Hn]|].
    unfold on_ichk. erewrite zoom_run by exact Hi. eexists. split; [reflexivity|].
    split; [by apply running_ichk|done].
  - eexists. split; [reflexivity|]. done.
Qed.

Lemma same_nacked_changed {T} (f : W -> T) l :
  (forall w s, f (w <| st := s |>) = f w) -> keeps (same_field f) (nacked_changed l).
Proof.
  intros Hf. induction l as [|[a d] l IH]; cbn [nacked_changed]; unfold incr; keeps.
  apply same_field_modify. intros w. apply Hf.
Qed.

(** A commit that returns has validated everything it consumed. *)
Lemma commit_validated pkt w w' :
  config_allowEarlyValueFwd = true -> m_transactionLevel (ctl w) = 1 ->
  commitTransaction pkt w = Ok (tt, w') -> isConsumer w = false.
Proof.
  intros Hon Hl H. unfold commitTransaction in H.
  apply bind_ok in H as (? & ? & [= <- <-] & H). rewrite Hl in H. cbn [Z.ltb Z.compare] in H.
  do 3 apply bind_ok in H as (? & ? & [_ ->]%massert_ok & H).
  apply bind_ok in H as (? & w1 & H1 & _). cbn [Z.eqb Pos.eqb when] in H1.
  unfold commit_outermost in H1. apply bind_ok in H1 as (? & ? & [= <- <-] & H).
  pose (R := same_field (fun w : W => m_recvDataForwardedFromProducer (fwd w))).
  apply bind_ok in H as (? & w2 & H2 & H). kept R in H2 by (subst R; unfold moveTo; keeps).
  rewrite (el_values EL) in H. apply bind_ok in H as (? & ? & [= _ <-] & H).
  apply bind_ok in H as (? & w3 & H3 & _). unfold commit_versioning in H3.
  rewrite (el_vm EL), (el_cd EL) in H3. unfold commit_eager_lazy in H3.
  apply bind_ok in H3 as (? & w4 & H4 & H).
  kept R in H4 by (subst R; unfold profile_nacked, incr; keeps; by apply same_nacked_changed).
  apply bind_ok in H as (? & w5 & H5 & H).
  kept R in H5 by (subst R; unfold profileHtmFwdTransaction, profile_producer, profile_consumer,
    profile_power, profile_no_power, type_rate, incr; keeps).
  apply bind_ok in H as (? & ? & [= <- <-] & H).
  do 2 apply bind_ok in H as (? & ? & [= _ <-] & H).
  unfold commit_forwarding in H. rewrite Hon in H. cbn [when] in H.
  apply bind_ok in H as (? & ? & [= <- <-] & H).
  apply bind_ok in H as (? & ? & [Hc%negb_true_iff _]%massert_ok & _).
  unfold isConsumer in *. cbn in Hc. by rewrite H5, H4, H2 in Hc.
Qed.

(** ** The life of a transaction *)

(** C26: From the idle state, in a system with eager detection and lazy versioning and without
    the value checker, the begin of a transaction returns if its identifier is larger than the
    last one, its static identifier is valid, and power mode is asked for only under a power
    policy: no assertion on the state left by its predecessor fails. It leaves a running
    transaction with an empty write set, no abort pending and the cache as it was; a first
    attempt gets the current cycle as its age, a retry keeps the age of its first attempt. *)
Theorem begin_enters pkt w :
  idle w -> begin_ok pkt w ->
  exists w', beginTransaction pkt w = Ok (tt, w') /\ running w' /\ written w' = ∅ /\
    m_abortFlag (ctl w') = false /\ dcache w' = dcache w /\
    m_timestamp (cm w') = (if m_lock_timestamp (cm w) then m_timestamp (cm w) else curCycle) /\
    m_powered (cm w') = req_isHTMPower pkt.
Proof.
  intros Hi Hb. destruct (begin_begun pkt w Hi Hb) as (w' & H & Hw). exists w'.
  split; [done|]. split; [by eapply begun_running|]. destruct Hw as [Hc _ Hcm Hiso Hd _ _].
  unfold written. rewrite Hc, Hcm, Hiso. split; [apply dom_empty_L|]. split; [apply (id_flag w Hi)|].
  split; [done|]. unfold begun_cm.
  destruct (m_lock_timestamp (cm w)), (req_isHTMPower pkt); (split; [done|]);
    done || apply (id_powered w Hi).
Qed.

(** C3: A running transaction that is not to abort commits exactly when [canCommitTransaction]
    says so. The system detects conflicts eagerly and versions lazily, without the value
    checker; the transaction is not nested, the addresses it nacked or forwarded are lines, and
    no validation event is scheduled once no consumed block is pending. If it can, the commit
    returns: the processor is idle again, ready for the next begin, the cache is as it was (what
    was speculative is now architectural), read and write set are empty, age and retries are
    forgotten, and the transaction is counted once, as a commit of its kind. If it can not,
    because consumed blocks still wait for their validation, the commit does not pass its
    assertions. *)
Theorem commit_exact pkt w :
  running w -> m_abortFlag (ctl w) = false -> lookups_ok w ->
  (isConsumer w = false -> validationEvent (fwd w) = None) ->
  exists can, canCommitTransaction w = Ok can /\
    if can then exists w', commitTransaction pkt w = Ok (tt, w') /\ idle w' /\ committed w w'
    else forall r, commitTransaction pkt w <> Ok r.
Proof.
  intros Hr Hf Hl Hev. pose proof (al_tx w (rn_alive w Hr)) as Ht.
  exists (negb (isConsumer w)). split.
  - unfold canCommitTransaction. rewrite (el_cd EL), Hf.
    destruct config_allowEarlyValueFwd eqn:Hon; [|by rewrite (it_fwd w Ht (proj1 (negb_false_iff _) Hon))].
    unfold isConsumer. by rewrite negb_involutive.
  - destruct (isConsumer w) eqn:Hc; cbn [negb]; [|by apply commit_idle; auto].
    intros [[] w'] H. destruct config_allowEarlyValueFwd eqn:Hon.
    + by rewrite (commit_validated pkt w w' Hon (it_level w Ht) H) in Hc.
    + by rewrite (it_fwd w Ht (proj1 (negb_false_iff _) Hon)) in Hc.
Qed.

(** C2: An abort of a running transaction returns, whether or not its abort flag was raised
    before. The system detects conflicts eagerly and versions lazily in the L1 cache, without
    the value checker; the transaction is not nested. The CPU reports a cause that agrees with
    the recorded one, the counters of retries and of the set sizes are in the range of [int],
    and the cache holds the speculative lines, apart from written ones known to be discarded.
    Exactly the lines the transaction wrote or consumed are removed from the cache; every other
    line keeps its permission and data. The processor is idle again, with one retry more and the
    same age, and the transaction is counted once, as an abort of its kind. *)
Theorem abort_restores pkt w :
  running w -> spec_lines w -> abort_ok (req_htmAbortCause pkt) w ->
  exists w', abortTransaction pkt w = Ok (tt, w') /\ idle w' /\ aborted w w'.
Proof. apply abort_idle. Qed.
End lifecycle.

(** ** LogTM *)

Section logtm.
Context `{RS : RubySystem} `{CF : Config} `{E : Env} {C : Type} `{DC : DataCache C}.
Notation W := (World C).
Implicit Types w : W.

Definition xid w : Z := m_htmXid (ctl w).

Lemma same_xid_abort pkt : lazy_vm params = false -> keeps (same_field xid) (abortTransaction pkt).
Proof.
  intros Hvm. unfold abortTransaction, profileHtmFailureFaultCause, profileHtmFwdTransaction,
    profile_producer, profile_consumer, profile_power, profile_no_power, type_rate, incr,
    abort_logtm, clear_checked, ConflictManager.restartTransaction, abort_at_commit,
    abort_level, abort_flag, moveTo. rewrite Hvm. keeps.
Qed.

Lemma same_xid_unroll : keeps (same_field xid) endLogUnroll.
Proof.
  unfold endLogUnroll, ConflictManager.restartTransaction, clear_checked. keeps.
Qed.

Lemma begin_xid pkt w r : beginTransaction pkt w = Ok r -> xid w = LONG_MIN.
Proof.
  destruct r as [[] w']. unfold beginTransaction. intros H.
  apply bind_ok in H as (? & ? & [= <- <-] & H).
  do 3 apply bind_ok in H as (? & ? & [_ ->]%massert_ok & H).
  apply bind_ok in H as (? & ? & [= _ <-] & H).
  do 2 apply bind_ok in H as (? & ? & [_ ->]%massert_ok & H).
  by apply bind_ok in H as (? & ? & [?%Z.eqb_eq _]%massert_ok & _).
Qed.

Lemma abort_xid pkt w r : abortTransaction pkt w = Ok r -> xid w <> LONG_MIN.
Proof.
  destruct r as [[] w']. unfold abortTransaction. intros H.
  apply bind_ok in H as (? & ? & [= <- <-] & H).
  do 2 apply bind_ok in H as (? & ? & [_ ->]%massert_ok & H).
  by apply bind_ok in H as (? & ? & [?%negb_true_iff%Z.eqb_neq _]%massert_ok & _).
Qed.

(** C36: With eager version management (LogTM), an aborted transaction can not be retried:
    neither the abort nor the end of the log unroll resets the identifier of the static
    transaction, so that the assertion on it at the next begin fails. *)
Theorem logtm_retry_fails pkt pkt' w w1 w2 :
  lazy_vm params = false -> abortTransaction pkt w = Ok (tt, w1) ->
  w2 = w1 \/ endLogUnroll w1 = Ok (tt, w2) ->
  is_ok (beginTransaction pkt' w2) = false.
Proof.
  intros Hvm Ha Hu. destruct (beginTransaction pkt' w2) as [r|e] eqn:Hb; [exfalso|done].
  apply begin_xid in Hb. pose proof (abort_xid _ _ _ Ha) as Hx.
  apply (same_xid_abort pkt Hvm) in Ha. unfold same_field in Ha.
  destruct Hu as [->|Hu%same_xid_unroll]; [congruence|]. unfold same_field in Hu. congruence.
Qed.
End logtm.

(** ** Witnesses *)

#[local] Existing Instance ruby64.
#[local] Existing Instance demo_wrap.
#[local] Existing Instance demo_chats.

Lemma demo_el : el_config.
Proof. by split. Qed.

Lemma demo_idle_idle v : 0 <= v < 2 -> idle (demo_idle v).
Proof.
  intros Hv. split; try done.
  - cbn. lia.
  - exists (MkProcRegions zeroes DEFAULT 90 90 false false zeroes). split.
    + unfold prof_row. cbn [prof demo_idle m_procs ctl Ctl_init m_version].
      apply lookup_replicate_2. lia.
    + split; try done; [by left|]. intros r Hr. by destruct r.
Qed.

Lemma begin_enters_witness :
  exists w', beginTransaction demo_pkt (demo_idle 0) = Ok (tt, w') /\ running w' /\
    written w' = ∅ /\ m_abortFlag (ctl w') = false /\ dcache w' = XactValueChecker.demo_l1 /\
    m_timestamp (cm w') = 100 /\ m_powered (cm w') = false.
Proof.
  refine (begin_enters demo_el demo_pkt (demo_idle 0) _ _); [by apply demo_idle_idle|].
  by split.
Defined.

Lemma demo_begun_running v : 0 <= v < 2 -> is_ok (beginTransaction demo_pkt (demo_idle v)) = true ->
  running (demo_begun v).
Proof.
  intros Hv Hok. pose proof (demo_idle_idle v Hv) as Hi.
  assert (begin_ok demo_pkt (demo_idle v)) as Hb by by split.
  destruct (begin_begun demo_el demo_pkt (demo_idle v) Hi Hb) as (w' & H & Hw).
  apply (begun_running demo_pkt (demo_idle v)); [done..|].
  unfold demo_begun, after. by rewrite H.
Qed.

Lemma demo_l1_ok : cache_wf XactValueChecker.demo_l1.
Proof. apply cache_wfb_ok. vm_compute. reflexivity. Qed.

Lemma commit_exact_witness :
  exists can, canCommitTransaction (demo_begun 0) = Ok can /\
    if can then exists w', commitTransaction demo_pkt (demo_begun 0) = Ok (tt, w') /\
                  idle w' /\ committed (demo_begun 0) w'
    else forall r, commitTransaction demo_pkt (demo_begun 0) <> Ok r.
Proof.
  apply (commit_exact demo_el demo_pkt (demo_begun 0)).
  - apply demo_begun_running; [lia|vm_compute; reflexivity].
  - vm_compute. reflexivity.
  - split.
    + replace (dcache (demo_begun 0)) with XactValueChecker.demo_l1 by (vm_compute; reflexivity).
      exact demo_l1_ok.
    + replace (m_nackedAddressesReg (fwd (demo_begun 0))) with (∅ : gmap Z DataBlock)
        by (vm_compute; reflexivity). set_solver.
    + replace (m_sentDataForwardedToConsumer (fwd (demo_begun 0))) with (∅ : gmap Z DataBlock)
        by (vm_compute; reflexivity). set_solver.
  - vm_compute. reflexivity.
Defined.

Definition demo_abort_pkt : Packet := demo_pkt <| req_htmAbortCause := EXCEPTION |>.

Lemma demo_wrote_running : running demo_wrote.
Proof.
  pose proof (demo_begun_running 0) as Hr.
  destruct (store_running (demo_begun 0) 0) as (w' & H & Hw & _);
    [lia|apply Hr; [lia|vm_compute; reflexivity]|].
  unfold demo_wrote, after. by rewrite H.
Qed.

Lemma abort_restores_witness :
  written demo_wrote = {[0]} /\
  exists w', abortTransaction demo_abort_pkt demo_wrote = Ok (tt, w') /\ idle w' /\
    aborted demo_wrote w'.
Proof.
  assert (written demo_wrote = {[0]}) as Hwr by (vm_compute; reflexivity).
  split; [exact Hwr|]. apply (abort_restores demo_el demo_abort_pkt demo_wrote).
  - exact demo_wrote_running.
  - assert (dcache demo_wrote = XactValueChecker.demo_l1) as Hc by (vm_compute; reflexivity).
    assert (m_writeSetDiscarded (ctl demo_wrote) = ∅) as Hd by (vm_compute; reflexivity).
    assert (recv (fwd demo_wrote) = ∅) as Hrv by (vm_compute; reflexivity).
    split; rewrite ?Hc, ?Hd, ?Hrv.
    + exact demo_l1_ok.
    + rewrite Hwr. intros a ->%elem_of_singleton _. eexists Read_Write, _. split; [|reflexivity].
      vm_compute. reflexivity.
    + set_solver.
    + set_solver.
    + set_solver.
  - split; try (vm_compute; split; discriminate).
    + discriminate.
    + eexists. vm_compute. reflexivity.
    + vm_compute. discriminate.
    + left. vm_compute. reflexivity.
Defined.

(** LogTM: one empty transaction. *)
Definition demo_logtm : Config :=
  default_params <| lazy_vm := false |> <| eager_cd := true |>
    <| conflict_resolution := "requester_stalls_cda_base" |>.
#[local] Existing Instance demo_logtm | 0.

Definition demo_log_idle : World CacheMemory :=
  (demo_idle 0) <| evm := EagerVM.MkEagerVM EagerVM.Ready 0 {[0 := 4096]} 0 |>.
Definition demo_log_begun : World CacheMemory := after (beginTransaction demo_pkt) demo_log_idle.
Definition demo_log_aborted : World CacheMemory :=
  after (abortTransaction demo_abort_pkt) demo_log_begun.

Lemma logtm_retry_fails_witness : is_ok (beginTransaction demo_pkt demo_log_aborted) = false.
Proof.
  refine (logtm_retry_fails demo_abort_pkt demo_pkt demo_log_begun demo_log_aborted
    demo_log_aborted _ _ _).
  - reflexivity.
  - apply (after_ok (abortTransaction demo_abort_pkt)). vm_compute. reflexivity.
  - left. reflexivity.
Defined.
