(* ===== verification/Validation.v ===== *)
(** * Validation of consumed blocks

    A consumer runs ahead with speculative data and asks for each consumed
    line again until it gets it with coherence permissions
    ([validateDataBlock] in
    [mem/ruby/htm/TransactionInterfaceManager.cc]).  This file proves what
    the comparison decides and what it leaves in the cache, and the course
    of the validation: which line is asked for next, when the transaction
    stops being a consumer, and when it has to abort. *)

From S2P Require Import Prelude Address HTM XactProfiler CacheMemory TxState Frame.
From S2P Require WriteMask DataBlock IsolationManager ConflictManager Forwarding.
From S2P Require Import Chain FwdInv Lifecycle.
Import DataBlock (DataBlock, byte, mask_wf).

#[local] Open Scope Z_scope.

(** ** The comparison *)

Section compare.
Context `{RS : RubySystem} `{CF : Config}.

Lemma memcpy_all dst src :
  length dst = DataBlock.nbytes -> length src = DataBlock.nbytes ->
  DataBlock.memcpy dst 0 src getBlockSizeBytes = Ok src.
Proof.
  intros Hd Hs. pose proof block_bytes_pos. pose proof DataBlock.nbytes_Z.
  unfold DataBlock.memcpy. rewrite Hd, Hs.
  rewrite !(proj2 (Z.leb_le _ _)) by lia. cbn [andb]. rewrite Z.add_0_l.
  f_equal. rewrite take_0, take_ge, drop_ge by (unfold DataBlock.nbytes in *; lia).
  by rewrite app_nil_r.
Qed.

Lemma equal_bytes d e :
  DataBlock.wf d -> DataBlock.wf e ->
  (DataBlock.equal d e = true <->
   forall i, 0 <= i < getBlockSizeBytes -> byte d i = byte e i).
Proof.
  intros Hd He. unfold DataBlock.equal. rewrite bool_decide_eq_true.
  rewrite !take_ge by (unfold DataBlock.wf in *; lia). split.
  - intros Heq i _. unfold byte. by rewrite Heq.
  - by apply DataBlock.byte_ext.
Qed.

(** The blocks of a comparison are lines. *)
Record blocks_ok (d : DataForwarded) (cached blk : DataBlock) : Prop := {
  bk_data : DataBlock.wf (df_data d);
  bk_mask : mask_wf (df_mask d);
  bk_cached : DataBlock.wf cached;
  bk_blk : DataBlock.wf blk
}.

(** The bytes a verdict is about: with the removal of false sharing those
    the transaction accessed, otherwise the whole line. *)
Definition compared (d : DataForwarded) (i : Z) : bool :=
  negb (remove_false_sharing_forward params) || WriteMask.bit (df_mask d) i.

(** The line in the cache: what was consumed, and the transaction's own
    stores. *)
Record own_stores (written : Z -> bool) (d : DataForwarded) (cached : DataBlock) (dirty : bool)
    : Prop := {
  os_clean : dirty = false -> forall i, written i = false;
  os_mask i : written i = true -> WriteMask.bit (df_mask d) i = true;
  os_rest i : 0 <= i < getBlockSizeBytes -> written i = false ->
    byte cached i = byte (df_data d) i
}.

Lemma assign_all d e : DataBlock.wf d -> DataBlock.wf e ->
  DataBlock.assign_op d e = Ok (d <| DataBlock.m_data := DataBlock.m_data e |>).
Proof. intros Hd He. unfold DataBlock.assign_op. by rewrite memcpy_all. Qed.

Lemma copy_all d : DataBlock.wf d ->
  DataBlock.copy d = Ok (DataBlock.MkDataBlock (DataBlock.m_data d) true).
Proof.
  intros Hd. unfold DataBlock.copy. rewrite memcpy_all; [done|apply length_replicate|done].
Qed.

(** The masked comparison. *)
Lemma compare_masked d cached blk dirty :
  remove_false_sharing_forward params = true -> blocks_ok d cached blk ->
  exists ok kept cache', Forwarding.compareBlocks d cached blk dirty = Ok (ok, kept, cache') /\
    DataBlock.wf kept /\ DataBlock.wf cache' /\
    (ok = true <-> forall i, 0 <= i < getBlockSizeBytes -> WriteMask.bit (df_mask d) i = true ->
                     byte (df_data d) i = byte blk i) /\
    (forall i, 0 <= i < getBlockSizeBytes -> byte kept i = byte blk i) /\
    (DataBlock.equal (df_data d) blk = true -> cache' = cached) /\
    (DataBlock.equal (df_data d) blk = false -> forall i, 0 <= i < getBlockSizeBytes ->
       byte cache' i = if dirty && WriteMask.bit (df_mask d) i then byte cached i
                       else byte blk i).
Proof.
  intros Hrfs [Hd Hm Hc Hb]. unfold Forwarding.compareBlocks. rewrite Hrfs. cbn [orb].
  destruct (DataBlock.comparePartial_ok _ _ _ Hd Hb Hm) as (ok & -> & Hok). cbn [rbind].
  pose proof (equal_bytes _ _ Hd Hb) as Heq.
  destruct (DataBlock.equal (df_data d) blk) eqn:E; cbn [negb].
  { eexists _, _, _. split; [reflexivity|]. naive_solver. }
  rewrite assign_all by done. cbn [rbind]. destruct dirty; cbn [andb].
  - rewrite copy_all by done. cbn [rbind]. rewrite assign_all by done. cbn [rbind].
    destruct (DataBlock.copyPartial_ok (cached <| DataBlock.m_data := DataBlock.m_data blk |>)
      (DataBlock.MkDataBlock (DataBlock.m_data cached) true) (df_mask d))
      as (c' & -> & Hw & _ & Hby); [done..|]. cbn [rbind].
    eexists _, _, _. split; [reflexivity|]. naive_solver.
  - rewrite assign_all by done. cbn [rbind]. eexists _, _, _. split; [reflexivity|]. naive_solver.
Qed.

(** C4: The verdict of a validation is exact and a block that passes is the right one.  The
    comparison of a consumed line with the data that arrives returns; its verdict is positive
    exactly when every compared byte (each byte the transaction accessed if false sharing is
    removed, each byte of the line otherwise) was predicted correctly.  If it is positive, the
    line left in the cache is the arrived data overlaid with the transaction's own stores. *)
Theorem validation_exact (written : Z -> bool) d cached blk dirty :
  blocks_ok d cached blk -> own_stores written d cached dirty ->
  exists ok kept cache', Forwarding.compareBlocks d cached blk dirty = Ok (ok, kept, cache') /\
    DataBlock.wf kept /\ DataBlock.wf cache' /\
    (ok = true <-> forall i, 0 <= i < getBlockSizeBytes -> compared d i = true ->
                     byte (df_data d) i = byte blk i) /\
    (ok = true -> forall i, 0 <= i < getBlockSizeBytes ->
       byte cache' i = if written i then byte cached i else byte blk i).
Proof.
  intros Hbk [Hcl Hmask Hrest]. unfold compared.
  destruct (remove_false_sharing_forward params) eqn:Hrfs; cbn [negb orb].
  - destruct (compare_masked d cached blk dirty Hrfs Hbk)
      as (ok & kept & cache' & -> & Hk & Hc & Hok & _ & Hsame & Hdiff).
    exists ok, kept, cache'. do 4 (split; [done|]). intros Ht i Hi.
    rewrite Ht in Hok. pose proof (proj1 Hok eq_refl) as Hv. clear Hok.
    destruct (DataBlock.equal (df_data d) blk) eqn:E.
    + rewrite (Hsame eq_refl).
      pose proof (proj1 (equal_bytes _ _ (bk_data _ _ _ Hbk) (bk_blk _ _ _ Hbk)) E) as Hby.
      destruct (written i) eqn:Hw; [done|]. by rewrite Hrest, Hby.
    + rewrite (Hdiff eq_refl i Hi). destruct dirty; cbn [andb]; [|by rewrite Hcl].
      destruct (WriteMask.bit (df_mask d) i) eqn:Hb.
      * destruct (written i) eqn:Hw; [done|]. by rewrite Hrest, Hv.
      * destruct (written i) eqn:Hw; [|done]. by rewrite Hmask in Hb.
  - unfold Forwarding.compareBlocks. rewrite Hrfs. cbn [orb]. destruct Hbk as [Hd Hm Hc Hb].
    destruct dirty.
    + eexists _, _, _. split; [reflexivity|]. do 2 (split; [done|]). pose proof (equal_bytes _ _ Hd Hb) as He.
      split; [naive_solver|]. intros Ht i Hi. destruct (written i) eqn:Hw; [done|].
      rewrite Hrest by done. by apply (proj1 He Ht).
    + eexists _, _, _. split; [reflexivity|]. do 2 (split; [done|]). pose proof (equal_bytes _ _ Hc Hb) as He.
      split.
      * rewrite He. split; intros H i Hi; [intros _|]; specialize (H i Hi);
          rewrite Hrest in * by (try apply Hcl; done); [done|by apply H].
      * intros Ht i Hi. rewrite Hcl by done. by apply (proj1 He Ht).
Qed.
End compare.

(** ** The course of the validation *)

Section course.
Context `{RS : RubySystem} `{CF : Config} `{E : Env} {C : Type} `{DC : DataCache C}.
Notation W := (World C).
Implicit Types w : W.

(** Forwarding with eager conflict detection, under a policy that does not
    stall the requester. *)
Record fwd_config : Prop := {
  fc_fwd : config_allowEarlyValueFwd = true;
  fc_stalls : isRequesterStallsPolicy = Ok false;
  fc_cd : eager_cd params = true
}.
Context (FC : fwd_config).

(** A consumer whose validation event has fired. *)
Record validating (w : W) : Prop := {
  vl_tx : in_tx w;
  vl_flag : m_abortFlag (ctl w) = false;
  vl_event : validationEvent (fwd w) = None;
  vl_all : recv (fwd w) ⊆ dom (m_allReceivedData (fwd w))
}.

(** The naive mechanism also limits the number of attempts. *)
Definition verdict (d : DataForwarded) (ok : bool) : bool :=
  if fwd_is naive then ok && (u32 (df_nVal d + 1) <=? u32 (n_val_fwd params)) else ok.

(** The registers after the comparison. *)
Definition compared_regs (addr : Z) (src : MachineID) (d : DataForwarded) (i : ConsumerInfo)
    (kept : DataBlock) (f : Fwd) : Fwd :=
  f <| m_recvDataForwardedFromProducer ::=
         <[addr := d <| df_nVal ::= fun n => u32 (n + 1) |> <| df_data := kept |>]> |>
    <| m_allReceivedData ::= <[addr := i <| ci_timesVal ::= fun n => u32 (n + 1) |>
                                         <| ci_producers ::= ({[src]} ∪.) |>]> |>.

(** What both kinds of answer have in common. *)
Definition judge (addr : Z) (v : bool) : M W unit :=
  unless v (setAbortFlag addr createInvalidMachineID NonTrans NC_PRIO_VALUE false
              Forwarding.flag_validation).

Lemma isConsumer_some w addr d :
  m_recvDataForwardedFromProducer (fwd w) !! addr = Some d -> isConsumer w = true.
Proof.
  intros Hd. unfold isConsumer, emptyb. apply negb_true_iff, bool_decide_eq_false.
  intros He. by rewrite He in Hd.
Qed.

Lemma validate_run addr src cached blk ts dirty isNack w d i ok kept cache' :
  m_recvDataForwardedFromProducer (fwd w) !! addr = Some d ->
  m_allReceivedData (fwd w) !! addr = Some i ->
  Forwarding.compareBlocks d cached blk dirty = Ok (ok, kept, cache') ->
  Forwarding.validateDataBlock addr src cached blk ts dirty isNack w =
  (do* judge addr (verdict d ok);
   do* (if negb isNack then Forwarding.blockValidated addr
        else let* w := get in unless (isAborting w) (Forwarding.scheduleNext addr));
   ret (verdict d ok, cache')) (w <| fwd := compared_regs addr src d i kept (fwd w) |>).
Proof.
  intros Hd Hi Hc. unfold Forwarding.validateDataBlock. rewrite (fc_fwd FC). run.
  rewrite (isConsumer_some w addr d Hd). run. rewrite Hd, Hi. run.
  change (Forwarding.compareBlocks (d <| df_nVal ::= fun n => u32 (n + 1) |>) cached blk dirty)
    with (Forwarding.compareBlocks d cached blk dirty).
  rewrite Hc. run. unfold on_fwd. run. rewrite (fc_stalls FC). run.
  unfold judge, verdict. destruct isNack; cbn [negb]; [|done]. run. done.
Qed.

Lemma compared_in_tx addr src d i kept w :
  m_recvDataForwardedFromProducer (fwd w) !! addr = Some d -> in_tx w ->
  in_tx (w <| fwd := compared_regs addr src d i kept (fwd w) |>).
Proof.
  intros Hd Ht. apply (in_tx_ext w); try done.
  rewrite (isConsumer_some w addr d Hd). eapply isConsumer_some. apply lookup_insert_eq.
Qed.

(** The verdict decides about the abort, and about nothing else. *)
Lemma judge_ok addr v w :
  in_tx w -> m_abortFlag (ctl w) = false ->
  exists w', judge addr v w = Ok (tt, w') /\ in_tx w' /\ fwd w' = fwd w /\
    isAborting w' = negb v /\ m_abortFlag (ctl w') = negb v /\
    if v then w' = w else m_abortCause (ctl w') = SpecValidation.
Proof.
  intros Ht Hf. unfold judge. destruct v; cbn [unless negb].
  - exists w. do 3 (split; [done|]). by rewrite in_tx_aborting.
  - destruct (setAbortFlag_raises w addr createInvalidMachineID NonTrans NC_PRIO_VALUE false
      Forwarding.flag_validation (fc_cd FC) Ht Hf) as (w' & -> & Hr & Hc); [by left|].
    exists w'. destruct (flag_raised_in_tx _ _ _ Ht Hr) as (Ht' & Hf' & _).
    destruct (flag_raised_frame _ _ _ Hr) as (Hfw & _).
    do 3 (split; [done|]). rewrite in_tx_aborting by done. split; [done|]. split; [done|].
    injection Hc as <-. done.
Qed.

Lemma scheduleNext_ok addr w :
  in_tx w -> isAborting w = false -> validationEvent (fwd w) = None ->
  recv (fwd w) ⊆ dom (m_allReceivedData (fwd w)) -> addr ∈ recv (fwd w) ->
  exists next, Forwarding.scheduleNext addr w =
      Ok (tt, w <| fwd := (fwd w) <| validationEvent := Some next |> |>) /\
    next = default 0 (match std_next (m_recvDataForwardedFromProducer (fwd w)) addr with
                      | Some n => Some n
                      | None => std_begin (m_recvDataForwardedFromProducer (fwd w)) end).
Proof.
  intros Ht Ha Hev Hall Hin. set (m := m_recvDataForwardedFromProducer (fwd w)).
  assert (forall next, next ∈ dom m -> Forwarding.scheduleValidationOfConsumedData next false w =
    Ok (tt, w <| fwd := (fwd w) <| validationEvent := Some next |> |>)) as Hs.
  { intros next Hn. unfold Forwarding.scheduleValidationOfConsumedData. run.
    rewrite Hev, Ha. run. rewrite (has_dom next), bool_decide_eq_true_2 by done. run.
    rewrite (has_dom next), bool_decide_eq_true_2 by (unfold recv in Hall; set_solver). by run. }
  unfold Forwarding.scheduleNext. run. fold m.
  destruct (std_next m addr) as [n|] eqn:En.
  - exists n. split; [|done]. apply Hs, elem_of_dom. by apply std_next_in in En as [? _].
  - destruct (std_begin_Some m) as [n Hn].
    { intros Hm. unfold recv in Hin. fold m in Hin. by rewrite Hm in Hin. }
    exists n. rewrite Hn. split; [|done]. apply Hs, elem_of_dom. by apply std_begin_in.
Qed.

(** ** Round robin *)

(** The next line after the [i]-th in the order of the map. *)
Lemma head_filter_sorted (l : list Z) i a :
  StronglySorted Z.le l -> NoDup l -> l !! i = Some a ->
  head (filter (fun j => a < j) l) = l !! S i.
Proof.
  revert i. induction l as [|x l IH]; intros i Hs Hnd Hi; [done|].
  apply StronglySorted_inv in Hs as [Hs Hx]. apply NoDup_cons in Hnd as [Hnx Hnd].
  destruct i as [|i]; cbn in Hi.
  - injection Hi as ->. rewrite filter_cons_False by lia.
    destruct l as [|y l]; [done|]. rewrite filter_cons_True; [done|].
    apply Forall_cons in Hx as [Hx _]. assert (a <> y) by set_solver. lia.
  - rewrite filter_cons_False; [by apply IH|].
    pose proof (list_elem_of_lookup_2 _ _ _ Hi) as Hin.
    rewrite Forall_forall in Hx. specialize (Hx a Hin). lia.
Qed.

Lemma next_cyclic {A} (m : gmap Z A) i a :
  std_keys m !! i = Some a ->
  match std_next m a with Some n => Some n | None => std_begin m end =
  std_keys m !! ((i + 1) mod length (std_keys m))%nat.
Proof.
  intros Hi. unfold std_next, std_begin.
  rewrite (head_filter_sorted _ i a (sorted_std_keys m) (NoDup_std_keys m) Hi).
  pose proof (lookup_lt_Some _ _ _ Hi) as Hlt.
  destruct (decide (S i = length (std_keys m))) as [He|He].
  - rewrite (lookup_ge_None_2 _ (S i)) by lia.
    replace (i + 1)%nat with (length (std_keys m)) by lia.
    rewrite Nat.Div0.mod_same. by destruct (std_keys m).
  - rewrite Nat.mod_small by lia. replace (i + 1)%nat with (S i) by lia.
    destruct (lookup_lt_is_Some_2 (std_keys m) (S i)) as [y Hy]; [lia|]. by rewrite Hy.
Qed.

Notation pending w := (m_recvDataForwardedFromProducer (fwd w)).

(** The event fires: the line is asked for. *)
Definition fired w : W := w <| fwd := (fwd w) <| validationEvent := None |> |>.

Lemma std_keys_insert {A} (m : gmap Z A) k x v :
  m !! k = Some x -> std_keys (<[k := v]> m) = std_keys m.
Proof. intros Hk. unfold std_keys. by rewrite dom_insert_lookup_L by eauto. Qed.

Lemma compared_dom addr src d i kept w :
  pending w !! addr = Some d -> m_allReceivedData (fwd w) !! addr = Some i ->
  let f := compared_regs addr src d i kept (fwd w) in
  recv f = recv (fwd w) /\ dom (m_allReceivedData f) = dom (m_allReceivedData (fwd w)) /\
  std_keys (m_recvDataForwardedFromProducer f) = std_keys (pending w) /\
  validationEvent f = validationEvent (fwd w).
Proof.
  intros Hd Hi. cbn. unfold recv. cbn. rewrite !dom_insert_lookup_L by eauto.
  by rewrite (std_keys_insert _ _ d).
Qed.

Lemma received_info w addr d :
  validating w -> pending w !! addr = Some d -> exists i, m_allReceivedData (fwd w) !! addr = Some i.
Proof.
  intros Hv Hd. apply elem_of_dom, (vl_all w Hv). apply elem_of_dom. by eexists.
Qed.

Lemma nacked_run addr src cached blk ts dirty w d k ok kept cache' :
  validating w -> pending w !! addr = Some d ->
  Forwarding.compareBlocks d cached blk dirty = Ok (ok, kept, cache') ->
  std_keys (pending w) !! k = Some addr ->
  exists w', Forwarding.validateDataBlock addr src cached blk ts dirty true w =
      Ok ((verdict d ok, cache'), w') /\
    std_keys (pending w') = std_keys (pending w) /\
    if verdict d ok
    then validating (fired w') /\
      validationEvent (fwd w') =
      std_keys (pending w) !! ((k + 1) mod length (std_keys (pending w)))%nat
    else m_abortFlag (ctl w') = true /\ m_abortCause (ctl w') = SpecValidation /\
      validationEvent (fwd w') = None.
Proof.
  intros Hv Hd Hc Hk. destruct (received_info w addr d Hv Hd) as [i Hi].
  rewrite (validate_run addr src cached blk ts dirty true w d i ok kept cache' Hd Hi Hc).
  destruct (compared_dom addr src d i kept w Hd Hi) as (Hr & Ha & Hkeys & Hev).
  pose proof (compared_in_tx addr src d i kept w Hd (vl_tx w Hv)) as Ht1.
  set (f1 := compared_regs addr src d i kept (fwd w)) in *. clearbody f1.
  set (w1 := w <| fwd := f1 |>) in *.
  destruct (judge_ok addr (verdict d ok) w1 Ht1 (vl_flag w Hv))
    as (w2 & H2 & Ht2 & Hf2 & Hab & Hfl & Hcase).
  run_with H2. cbn [negb]. run. rewrite Hab. destruct (verdict d ok); cbn [negb unless].
  - subst w2. destruct (scheduleNext_ok addr w1 Ht2 Hab) as (next & H3 & Hnext).
    { cbn. rewrite Hev. apply Hv. }
    { cbn. rewrite Hr, Ha. apply Hv. }
    { cbn. rewrite Hr. apply elem_of_dom. by eexists. }
    run_with H3. eexists. split; [reflexivity|]. split; [exact Hkeys|]. split.
    + split; [by apply (in_tx_frame w1)|exact Hfl|done|]. cbn. unfold recv in *. cbn.
      rewrite Hr, Ha. apply Hv.
    + cbn. rewrite <- (next_cyclic (pending w) k addr Hk). cbn in Hnext.
      unfold std_next, std_begin in *. rewrite Hkeys in Hnext. rewrite Hnext.
      destruct (head _) eqn:Eh; [done|].
      destruct (std_keys (pending w)) eqn:El; [by rewrite lookup_nil in Hk|done].
  - run. eexists. split; [reflexivity|]. rewrite Hf2. split; [exact Hkeys|].
    split; [exact Hfl|]. split; [exact Hcase|]. cbn. rewrite Hev. apply Hv.
Qed.

(** One validation that is nacked with the predicted value. *)
Definition nacked_step w w' : Prop :=
  exists addr src cached blk ts dirty cache', validationEvent (fwd w) = Some addr /\
    Forwarding.validateDataBlock addr src cached blk ts dirty true (fired w) =
    Ok ((true, cache'), w').

Lemma validate_inv addr src cached blk ts dirty isNack w r w' :
  Forwarding.validateDataBlock addr src cached blk ts dirty isNack w = Ok (r, w') ->
  exists d ok kept cache', pending w !! addr = Some d /\
    Forwarding.compareBlocks d cached blk dirty = Ok (ok, kept, cache').
Proof.
  unfold Forwarding.validateDataBlock. intros H.
  apply bind_ok in H as (? & ? & [_ ->]%massert_ok & H).
  apply bind_ok in H as (? & ? & [= <- <-] & H).
  apply bind_ok in H as (? & ? & [_ ->]%massert_ok & H).
  destruct (pending w !! addr) as [d|]; [|done].
  destruct (m_allReceivedData (fwd w) !! addr) as [i|]; [|done].
  apply bind_ok in H as ([[ok kept] c] & ? & [H1 _]%lift_ok & _).
  by exists d, ok, kept, c.
Qed.

Lemma nacked_steps k j w w' :
  nsteps nacked_step j w w' -> validating (fired w) ->
  validationEvent (fwd w) = std_keys (pending w) !! k ->
  (k < length (std_keys (pending w)))%nat ->
  validating (fired w') /\ std_keys (pending w') = std_keys (pending w) /\
  validationEvent (fwd w') =
    std_keys (pending w) !! ((k + j) mod length (std_keys (pending w)))%nat.
Proof.
  intros Hn. revert k. induction Hn as [w|j w w1 w' Hs Hn IH]; intros k Hv Hev Hk.
  - by rewrite Nat.add_0_r, Nat.mod_small.
  - destruct Hs as (addr & src & cached & blk & ts & dirty & c & Ha & Hs).
    destruct (validate_inv _ _ _ _ _ _ _ _ _ _ Hs) as (d & ok & kept & c' & Hd & Hc).
    rewrite Ha in Hev. symmetry in Hev.
    destruct (nacked_run addr src cached blk ts dirty (fired w) d k ok kept c' Hv Hd Hc Hev)
      as (w1' & H1 & Hkeys & Hcase).
    rewrite Hs in H1. injection H1 as Hver _ <-. rewrite <- Hver in Hcase.
    destruct Hcase as [Hv1 Hev1]. change (pending (fired w)) with (pending w) in *.
    set (n := length (std_keys (pending w))) in *.
    destruct (IH ((k + 1) mod n)%nat) as (IH1 & IH2 & IH3).
    + done.
    + by rewrite Hkeys.
    + rewrite Hkeys. apply Nat.mod_upper_bound. lia.
    + rewrite Hkeys in *. fold n in IH3. do 2 (split; [done|]). rewrite IH3. f_equal.
      rewrite Nat.Div0.add_mod_idemp_l. f_equal. lia.
Qed.

(** A validation that is nacked returns.  If the value still agrees, the line stays pending
    and the next pending line in address order is asked for, from the last one on the first; if it
    does not, the transaction has to abort, with the validation as its cause, and nothing more is
    asked for. *)
Theorem validation_nacked addr src cached blk ts dirty w d k ok kept cache' :
  validating w -> pending w !! addr = Some d ->
  Forwarding.compareBlocks d cached blk dirty = Ok (ok, kept, cache') ->
  std_keys (pending w) !! k = Some addr ->
  exists w', Forwarding.validateDataBlock addr src cached blk ts dirty true w =
      Ok ((verdict d ok, cache'), w') /\
    std_keys (pending w') = std_keys (pending w) /\
    if verdict d ok
    then validating (fired w') /\
      validationEvent (fwd w') =
      std_keys (pending w) !! ((k + 1) mod length (std_keys (pending w)))%nat
    else m_abortFlag (ctl w') = true /\ m_abortCause (ctl w') = SpecValidation /\
      validationEvent (fwd w') = None.
Proof. apply nacked_run. Qed.

(** C22: No pending line is forgotten. Under eager conflict detection and a policy that does not
    stall the requester (under the others a nack may abort the transaction), a validation event
    for a pending line is scheduled and the transaction is not aborting. While the answers are
    nacks with the predicted values, there is always a pending line that is asked for, and the
    call that handles its next answer returns, whatever the verdict; and every pending line is
    asked for again within one round, that is, within as many validations as lines are
    pending. *)
Theorem validation_round_robin w b :
  validating (fired w) -> validationEvent (fwd w) <> None ->
  (forall a, validationEvent (fwd w) = Some a -> a ∈ recv (fwd w)) -> b ∈ recv (fwd w) ->
  (forall i w1, nsteps nacked_step i w w1 -> exists a d,
     validationEvent (fwd w1) = Some a /\ pending w1 !! a = Some d /\
     forall src cached blk ts dirty ok kept cache',
       Forwarding.compareBlocks d cached blk dirty = Ok (ok, kept, cache') ->
       exists w2, Forwarding.validateDataBlock a src cached blk ts dirty true (fired w1) =
         Ok ((verdict d ok, cache'), w2)) /\
  exists j, (j < length (std_keys (pending w)))%nat /\
    forall w', nsteps nacked_step j w w' ->
      validating (fired w') /\ validationEvent (fwd w') = Some b.
Proof.
  intros Hv Hne Hin Hb. destruct (validationEvent (fwd w)) as [a|] eqn:Ha; [|done].
  assert (forall x, x ∈ recv (fwd w) -> exists k, std_keys (pending w) !! k = Some x) as Hidx.
  { intros x Hx. apply list_elem_of_lookup_1, elem_of_std_keys, elem_of_dom, Hx. }
  destruct (Hidx a (Hin a eq_refl)) as [k Hk]. destruct (Hidx b Hb) as [l Hl].
  pose proof (lookup_lt_Some _ _ _ Hk) as Hklt. pose proof (lookup_lt_Some _ _ _ Hl) as Hllt.
  set (n := length (std_keys (pending w))) in *. split.
  { intros i w1 Hs. destruct (nacked_steps k i w w1 Hs Hv) as (H1 & H2 & H3);
      [by rewrite Ha, Hk|done|]. fold n in H3.
    destruct (lookup_lt_is_Some_2 (std_keys (pending w)) ((k + i) mod n)) as [x Hx];
      [apply Nat.mod_upper_bound; lia|].
    assert (is_Some (pending w1 !! x)) as [d Hd].
    { apply elem_of_std_keys. rewrite H2. by eapply list_elem_of_lookup_2. }
    exists x, d. split; [by rewrite H3|]. split; [done|]. intros src cached blk ts dirty ok kept c Hc.
    rewrite <- H2 in Hx.
    destruct (nacked_run x src cached blk ts dirty (fired w1) d _ ok kept c H1 Hd Hc Hx)
      as (w2 & H4 & _). by exists w2. }
  exists ((l + (n - k)) mod n)%nat. split; [apply Nat.mod_upper_bound; lia|].
  intros w' Hs. destruct (nacked_steps k _ w w' Hs Hv) as (H1 & _ & H3);
    [by rewrite Ha, Hk|done|]. split; [done|]. rewrite H3. fold n. rewrite <- Hl. f_equal.
  rewrite Nat.Div0.add_mod_idemp_r. replace (k + (l + (n - k)))%nat with (l + 1 * n)%nat by lia.
  rewrite Nat.Div0.mod_add. by apply Nat.mod_small.
Qed.

(** ** Data with permissions *)

(** The registers once a line got its permissions. *)
Definition erased (addr : Z) (f : Fwd) : Fwd :=
  f <| m_recvDataForwardedFromProducer ::= delete addr |>
    <| m_allReceivedData ::= alter (fun i => i <| ci_tickValidated := curTick |>) addr |>
    <| m_hasValidatedAnyData := true |>.

Lemma blockValidated_run addr w more aborting :
  is_line addr -> addr ∈ recv (fwd w) ->
  isConsumer (w <| fwd := erased addr (fwd w) |>) = more -> isAborting w = aborting ->
  Forwarding.blockValidated addr w =
  if negb more && negb aborting
  then Ok (tt, w <| fwd := (erased addr (fwd w)) <| m_hasConsumedValidData := true |>
                             <| m_consumerLowPrio := false |> |>)
  else if aborting then Ok (tt, w <| fwd := erased addr (fwd w) |>) else Err EUndef.
Proof.
  intros Hl Hin <- <-. unfold Forwarding.blockValidated, on_fwd. run.
  unfold isBlockConsumed. rewrite (proj2 Hl), has_dom, bool_decide_eq_true_2 by done. run.
  change (isAborting _) with (isAborting w).
  change (isConsumer _) with (isConsumer (w <| fwd := erased addr (fwd w) |>)).
  destruct (isConsumer _), (isAborting w); by run.
Qed.

Lemma last_one (X : gset Z) a : a ∈ X -> X ∖ {[a]} = ∅ <-> X = {[a]}.
Proof.
  intros Ha. split; [|intros ->; set_solver]. intros He. apply set_eq. intros x.
  rewrite elem_of_singleton. split; [|by intros ->]. intros Hx.
  destruct (decide (x = a)) as [|Hne]; [done|].
  assert (x ∈ X ∖ {[a]}) as H by (by apply elem_of_difference; rewrite elem_of_singleton).
  rewrite He in H. by apply elem_of_empty in H.
Qed.

Lemma permitted_run addr src cached blk ts dirty w d ok kept cache' :
  validating w -> is_line addr -> pending w !! addr = Some d ->
  Forwarding.compareBlocks d cached blk dirty = Ok (ok, kept, cache') ->
  exists w1, isConsumer (w1 <| fwd := erased addr (fwd w1) |>) = bool_decide (recv (fwd w) <> {[addr]}) /\
    recv (erased addr (fwd w1)) = recv (fwd w) ∖ {[addr]} /\
    isAborting w1 = negb (verdict d ok) /\ m_abortFlag (ctl w1) = negb (verdict d ok) /\
    (verdict d ok = false -> m_abortCause (ctl w1) = SpecValidation) /\
    validationEvent (fwd w1) = None /\
    Forwarding.validateDataBlock addr src cached blk ts dirty false w =
    (do* Forwarding.blockValidated addr; ret (verdict d ok, cache')) w1 /\
    addr ∈ recv (fwd w1).
Proof.
  intros Hv Hl Hd Hc. destruct (received_info w addr d Hv Hd) as [i Hi].
  rewrite (validate_run addr src cached blk ts dirty false w d i ok kept cache' Hd Hi Hc).
  destruct (compared_dom addr src d i kept w Hd Hi) as (Hr & Ha & Hkeys & Hev).
  pose proof (compared_in_tx addr src d i kept w Hd (vl_tx w Hv)) as Ht1.
  set (f1 := compared_regs addr src d i kept (fwd w)) in *. clearbody f1.
  destruct (judge_ok addr (verdict d ok) (w <| fwd := f1 |>) Ht1 (vl_flag w Hv))
    as (w2 & H2 & Ht2 & Hf2 & Hab & Hfl & Hcase).
  assert (addr ∈ recv (fwd w)) as Hin by (apply elem_of_dom; by eexists).
  assert (recv (erased addr f1) = recv (fwd w) ∖ {[addr]}) as Her.
  { unfold recv, erased in *. cbn. by rewrite dom_delete_L, Hr. }
  cbn in Hf2. rewrite <- Hf2 in Her, Hr, Hev. exists w2. split.
  { unfold isConsumer, emptyb. rewrite <- bool_decide_not. apply bool_decide_ext.
    rewrite <- dom_empty_iff_L. cbn. unfold recv in Her. cbn in Her. rewrite Her.
    rewrite last_one by exact Hin. done. }
  do 3 (split; [done|]). split; [intros Hx; by rewrite Hx in Hcase|].
  split; [by rewrite Hev; apply Hv|]. split; [|by rewrite Hr].
  run_with H2. done.
Qed.

(** C27: The validation of the last pending line settles a transaction that is not aborting,
    with eager conflict detection and under a policy that does not stall the requester. When its
    data arrives with coherence permissions the call returns and no line is pending any more: if
    the prediction was right the transaction has consumed valid data only, nothing is scheduled
    and it may commit; if it was wrong the transaction has to abort, with the validation as its
    cause. *)
Theorem validation_settles addr src cached blk ts dirty w d ok kept cache' :
  validating w -> is_line addr -> pending w !! addr = Some d -> recv (fwd w) = {[addr]} ->
  Forwarding.compareBlocks d cached blk dirty = Ok (ok, kept, cache') ->
  exists w', Forwarding.validateDataBlock addr src cached blk ts dirty false w =
      Ok ((verdict d ok, cache'), w') /\
    recv (fwd w') = ∅ /\ validationEvent (fwd w') = None /\
    InterfaceManager.canCommitTransaction w' = Ok true /\
    m_abortFlag (ctl w') = negb (verdict d ok) /\
    if verdict d ok then m_hasConsumedValidData (fwd w') = true
    else m_abortCause (ctl w') = SpecValidation.
Proof.
  intros Hv Hl Hd Hone Hc.
  destruct (permitted_run addr src cached blk ts dirty w d ok kept cache' Hv Hl Hd Hc)
    as (w1 & Hcons & Hrec & Hab & Hfl & Hcause & Hev & -> & Hin).
  rewrite Hone, bool_decide_eq_false_2 in Hcons by auto.
  assert (recv (erased addr (fwd w1)) = ∅) as Hrec' by set_solver.
  assert (forall w', ctl w' = ctl w1 -> recv (fwd w') = ∅ ->
    InterfaceManager.canCommitTransaction w' = Ok true) as Hcan.
  { intros w' Hctl Hrw. unfold InterfaceManager.canCommitTransaction.
    rewrite (fc_cd FC), (fc_fwd FC), Hctl. destruct (m_abortFlag (ctl w1)); [done|].
    unfold emptyb. unfold recv in Hrw. apply dom_empty_iff_L in Hrw. by rewrite Hrw. }
  pose proof (blockValidated_run addr w1 _ _ Hl Hin Hcons Hab) as Hb.
  destruct (verdict d ok); cbn [negb andb] in Hb; run_with Hb;
    eexists; (split; [reflexivity|]); (split; [exact Hrec'|]); (split; [exact Hev|]);
    (split; [by apply Hcan|]); (split; [exact Hfl|]); [done|by apply Hcause].
Qed.

(** C40: While other lines are pending, the validation of a line whose data arrived with
    coherence permissions and was predicted correctly has no defined result: the search for the
    next line increments the iterator of the entry that was just erased. The transaction is not
    aborting, and the policy does not stall the requester. *)
Theorem validation_pending_undefined addr src cached blk ts dirty w d ok kept cache' :
  validating w -> is_line addr -> pending w !! addr = Some d -> recv (fwd w) <> {[addr]} ->
  Forwarding.compareBlocks d cached blk dirty = Ok (ok, kept, cache') ->
  verdict d ok = true ->
  Forwarding.validateDataBlock addr src cached blk ts dirty false w = Err EUndef.
Proof.
  intros Hv Hl Hd Hmore Hc Hok.
  destruct (permitted_run addr src cached blk ts dirty w d ok kept cache' Hv Hl Hd Hc)
    as (w1 & Hcons & _ & Hab & _ & _ & _ & -> & Hin).
  rewrite bool_decide_eq_true_2 in Hcons by done. rewrite Hok in Hab.
  apply bind_err. by rewrite (blockValidated_run addr w1 _ _ Hl Hin Hcons Hab).
Qed.
End course.

(** ** Witnesses *)

#[local] Existing Instance ruby64.
#[local] Existing Instance demo_wrap.
#[local] Existing Instance demo_chats.

Lemma demo_fwd_config : fwd_config.
Proof. by split. Qed.

Lemma demo_mask_wf : mask_wf WriteMask.new.
Proof. by split. Qed.

Lemma demo_block_wf : DataBlock.wf DataBlock.alloc.
Proof. apply DataBlock.wf_alloc. Qed.

Definition demo_df : DataForwarded := MkDataForwarded DataBlock.alloc false WriteMask.new 0.

Lemma demo_blocks_ok : blocks_ok demo_df DataBlock.alloc DataBlock.alloc.
Proof. split; [apply demo_block_wf|apply demo_mask_wf|apply demo_block_wf..]. Qed.

Lemma validation_exact_witness :
  exists ok kept cache',
    Forwarding.compareBlocks demo_df DataBlock.alloc DataBlock.alloc false = Ok (ok, kept, cache') /\
    DataBlock.wf kept /\ DataBlock.wf cache' /\
    (ok = true <-> forall i, 0 <= i < getBlockSizeBytes -> compared demo_df i = true ->
                     byte (df_data demo_df) i = byte DataBlock.alloc i) /\
    (ok = true -> forall i, 0 <= i < getBlockSizeBytes ->
       byte cache' i = if (fun _ => false) i then byte DataBlock.alloc i else byte DataBlock.alloc i).
Proof.
  apply (validation_exact (fun _ => false) demo_df DataBlock.alloc DataBlock.alloc false).
  - exact demo_blocks_ok.
  - by split.
Defined.

(** Two lines are consumed. *)
Definition demo_nack2 : Nack :=
  MkNack 64 (MkMachineID MachineType_L1Cache 0) (MkMachineID MachineType_L1Cache 1) 100 0 false
    true 7.
Definition demo_two : World CacheMemory :=
  after (nfd_notifyForwardedData DataBlock.alloc demo_nack2) demo_consumed.

(** A transaction with empty sets, from its fields. *)
Lemma in_tx_fields (w : World CacheMemory) r :
  m_transactionLevel (ctl w) = 1 -> m_escapeLevel (ctl w) = 0 -> 0 <= m_version (ctl w) ->
  prof_row w = Some r -> tx_row curCycle r -> m_annotatedRegion r <> ABORTING ->
  m_abortFlag (ctl w) = false -> m_abortCause (ctl w) = Undefined ->
  iso w = IsolationManager.IsolationManager_init -> m_unrollingLogFlag (ctl w) = false ->
  m_powered (cm w) = false -> m_hasConsumedValidData (fwd w) = false -> isConsumer w = true ->
  in_tx w.
Proof.
  intros Hl He Hv Hr Ht Hreg Hf Hc Hi Hu Hp Hcv Hcons.
  split; try done; try congruence.
  - exists r. rewrite Hf. by split; [|split].
  - rewrite Hi. apply IsolationManager.wf_init.
  - split; rewrite Hcv; [done|]. intros _ _. by left.
Qed.

Lemma demo_two_validating : validating (fired demo_two).
Proof.
  split.
  - eapply in_tx_fields; try (vm_compute; (reflexivity || discriminate)).
    split; try (vm_compute; (reflexivity || discriminate)).
    + by split.
    + intros r Hr. by destruct r; vm_compute.
  - vm_compute. reflexivity.
  - reflexivity.
  - assert (recv (fwd (fired demo_two)) = {[0; 64]}) as -> by (vm_compute; reflexivity).
    assert (dom (m_allReceivedData (fwd (fired demo_two))) = {[0; 64]}) as ->
      by (vm_compute; reflexivity).
    done.
Qed.

Definition demo_src : MachineID := MkMachineID MachineType_L1Cache 0.

(** The comparison of the demo blocks. *)
Lemma demo_compare d :
  df_data d = DataBlock.alloc ->
  Forwarding.compareBlocks d DataBlock.alloc DataBlock.alloc false =
  Ok (true, DataBlock.alloc, DataBlock.alloc).
Proof.
  intros Hd. unfold Forwarding.compareBlocks. cbn [remove_false_sharing_forward params orb].
  change (remove_false_sharing_forward params) with false. cbn [orb]. by rewrite Hd.
Qed.

Lemma validation_nacked_witness :
  exists w', Forwarding.validateDataBlock 64 demo_src DataBlock.alloc DataBlock.alloc 100 false true
      (fired demo_two) = Ok ((true, DataBlock.alloc), w') /\
    validationEvent (fwd w') = Some 0.
Proof.
  destruct (validation_nacked demo_fwd_config 64 demo_src DataBlock.alloc DataBlock.alloc 100 false
    (fired demo_two) demo_df 1 true DataBlock.alloc DataBlock.alloc) as (w' & H & _ & Hc).
  - exact demo_two_validating.
  - vm_compute. reflexivity.
  - apply demo_compare. reflexivity.
  - vm_compute. reflexivity.
  - exists w'. split; [exact H|]. destruct Hc as [_ Hev].
    exact (eq_trans Hev ltac:(vm_compute; reflexivity)).
Defined.

Lemma validation_round_robin_witness :
  (exists w2, Forwarding.validateDataBlock 0 demo_src DataBlock.alloc DataBlock.alloc 100 false true
     (fired demo_two) = Ok ((true, DataBlock.alloc), w2)) /\
  exists j, (j < 2)%nat /\ forall w', nsteps nacked_step j demo_two w' ->
    validating (fired w') /\ validationEvent (fwd w') = Some 64.
Proof.
  assert (length (std_keys (m_recvDataForwardedFromProducer (fwd demo_two))) = 2%nat) as Hlen
    by (vm_compute; reflexivity).
  assert (recv (fwd demo_two) = {[0; 64]}) as Hr by (vm_compute; reflexivity).
  rewrite <- Hlen. destruct (validation_round_robin demo_fwd_config demo_two 64) as [Hret Hj].
  - exact demo_two_validating.
  - vm_compute. discriminate.
  - assert (validationEvent (fwd demo_two) = Some 0) as -> by (vm_compute; reflexivity).
    intros a [= <-]. rewrite Hr. set_solver.
  - rewrite Hr. set_solver.
  - split; [|exact Hj]. destruct (Hret 0%nat demo_two (nsteps_O _ _)) as (a & d & Ha & Hd & H).
    assert (a = 0) as -> by (vm_compute in Ha; by injection Ha as <-).
    specialize (H demo_src DataBlock.alloc DataBlock.alloc 100 false true
      DataBlock.alloc DataBlock.alloc).
    destruct H as [w2 H]; [apply demo_compare; vm_compute in Hd; by injection Hd as <-|].
    by exists w2.
Defined.

Lemma demo_one_validating : validating (fired demo_consumed).
Proof.
  split.
  - eapply in_tx_fields; try (vm_compute; (reflexivity || discriminate)).
    split; try (vm_compute; (reflexivity || discriminate)).
    + by split.
    + intros r Hr. by destruct r; vm_compute.
  - vm_compute. reflexivity.
  - reflexivity.
  - assert (recv (fwd (fired demo_consumed)) = {[0]}) as -> by (vm_compute; reflexivity).
    assert (dom (m_allReceivedData (fwd (fired demo_consumed))) = {[0]}) as ->
      by (vm_compute; reflexivity).
    done.
Qed.

Lemma validation_settles_witness :
  exists w', Forwarding.validateDataBlock 0 demo_src DataBlock.alloc DataBlock.alloc 100 false false
      (fired demo_consumed) = Ok ((true, DataBlock.alloc), w') /\
    recv (fwd w') = ∅ /\ validationEvent (fwd w') = None /\
    InterfaceManager.canCommitTransaction w' = Ok true /\ m_abortFlag (ctl w') = false /\
    m_hasConsumedValidData (fwd w') = true.
Proof.
  apply (validation_settles demo_fwd_config 0 demo_src DataBlock.alloc DataBlock.alloc 100 false
    (fired demo_consumed) demo_df true DataBlock.alloc DataBlock.alloc).
  - exact demo_one_validating.
  - by split.
  - vm_compute. reflexivity.
  - vm_compute. reflexivity.
  - apply demo_compare. reflexivity.
Defined.

Lemma validation_pending_undefined_witness :
  Forwarding.validateDataBlock 0 demo_src DataBlock.alloc DataBlock.alloc 100 false false
    (fired demo_two) = Err EUndef.
Proof.
  apply (validation_pending_undefined demo_fwd_config 0 demo_src DataBlock.alloc DataBlock.alloc 100
    false (fired demo_two) demo_df true DataBlock.alloc DataBlock.alloc).
  - exact demo_two_validating.
  - by split.
  - vm_compute. reflexivity.
  - assert (recv (fwd (fired demo_two)) = {[0; 64]}) as -> by (vm_compute; reflexivity).
    intros He%(f_equal (fun X : gset Z => bool_decide (64 ∈ X))). vm_compute in He. discriminate He.
  - apply demo_compare. reflexivity.
  - reflexivity.
Defined.
