(* ===== verification/RubyHTM.v ===== *)
(** * The commands of the runtime

    [mem/ruby/htm/htm.cc]: what the pseudo-instructions of a program and of
    its transaction runtime do to the memory system: the annotated regions of
    the profiler, the log of LogTM and the fallback lock.  The commands find
    the transaction manager of their processor in the vector of managers of
    the system. *)

From S2P Require Import Prelude Address XactProfiler TxState.
From S2P Require HTM EagerVM InterfaceManager.
Import HTM (params, Config, lazy_vm).

#[local] Open Scope Z_scope.

(** The managers of the system, the profiler if there is one, and the count
    of fallback-lock acquisitions. *)
Record Ruby (C : Type) := MkRuby {
  mgrs : list (World C);
  xprof : option XactProfiler;
  flAcquisitions : Z
}.
Arguments MkRuby {C}. Arguments mgrs {C}. Arguments xprof {C}. Arguments flAcquisitions {C}.

#[global] Instance eta_Ruby {C} : Eta (Ruby C) := fun s =>
  MkRuby (mgrs s) (xprof s) (flAcquisitions s).

Section ops.
Context `{RS : RubySystem} `{CF : Config} `{E : Env} {C : Type}.
Context (startCycle : Z).
Notation W := (World C).
Notation RW := (Ruby C).

Definition getTransactionInterfaceManager (version : Z) : M RW W :=
  let* s := get in
  let* w := lift (vec_at EAssert (mgrs s) version) in
  do* massert (m_version (ctl w) =? version);
  ret w.

(** An operation of one manager. *)
Definition on_mgr {A} (cpuId : Z) (m : M W A) : M RW A :=
  let* w := getTransactionInterfaceManager cpuId in
  let* r := lift (m w) in
  do* upd! mgrs ::= <[Z.to_nat cpuId := r.2]>;
  ret r.1.

(** [getTransactionInterfaceManager(i)->getTransactionLevel()]. *)
Definition level_of (s : RW) (i : Z) : Z :=
  match mgrs s !! Z.to_nat i with Some w => getTransactionLevel w | None => 0 end.

Definition on_xprof (m : XactProfiler -> res (unit * XactProfiler)) : M RW unit :=
  let* s := get in
  match xprof s with
  | Some p => let* r := lift (m p) in set! xprof := Some r.2
  | None => ret tt
  end.

Definition notifyPseudoInst : M RW unit :=
  let* s := get in
  on_xprof (profileCurrentAnnotatedRegion curCycle startCycle (level_of s)).

(** The region whose number the instruction carries. *)
Definition valid_region (reg : Z) : res AnnotatedRegion :=
  let? _ := rassert ((0 <=? reg) && (reg <? Z.of_nat (region_idx INVALID))) in
  vec_at EAssert regions reg.

Definition notifyPseudoInstWork (begin : bool) (cpuId reg : Z) : M RW unit :=
  let* region := lift (valid_region reg) in
  let* s := get in
  if bool_decide (xprof s = None) then ret tt
  else if begin then
    let* wait :=
      if region_eqb region ABORT_HANDLER_HASLOCK then
        let* w := getTransactionInterfaceManager cpuId in
        lift (getWaitForRetryRegionFromPreviousAbortCause w)
      else ret INVALID in
    on_xprof (beginRegion curCycle (level_of s) wait cpuId region)
  else on_xprof (endRegion curCycle startCycle (level_of s cpuId) cpuId region).

(** [true]: the program has to walk the log, which teaches the simulator the
    translations of its pages.  Address 0 shuts all logs down. *)
Definition setupLog (cpuId addr : Z) : M RW bool :=
  if lazy_vm params then ret false else
  let* w := getTransactionInterfaceManager cpuId in
  if EagerVM.isReady (evm w) then
    let* s := get in
    do* (if addr =? 0 then
           forM (seqZ 0 (Z.of_nat (length (mgrs s)))) (fun i => on_mgr i (on_evm EagerVM.shutdownLog))
         else massert (EagerVM.m_logBaseVAddr (evm w) =? addr));
    ret false
  else
    do* on_mgr cpuId (on_evm (EagerVM.setLogBaseVirtualAddress addr));
    ret true.

Definition endLogUnroll (cpuId : Z) : M RW unit :=
  if lazy_vm params then ret tt else on_mgr cpuId InterfaceManager.endLogUnroll.

Definition getLogNumEntries (cpuId : Z) : M RW Z :=
  if lazy_vm params then ret 0
  else let* w := getTransactionInterfaceManager cpuId in lift (InterfaceManager.getLogNumEntries w).

Definition getCommitStatus (cpuId : Z) : Z := 0.

Definition isHtmFailureFaultCauseMemoryPower (cpuId : Z) : M RW bool :=
  let* w := getTransactionInterfaceManager cpuId in
  ret (isTransactionAbortedByRemotePower w).

Definition notifyFallbackLockAcquired (cpuId htmXid : Z) : M RW unit :=
  do* upd! flAcquisitions ::= Z.add 1;
  on_mgr cpuId (InterfaceManager.profileFlAcquisition htmXid).

Definition notifyFallbackLockRelease (cpuId htmXid : Z) : M RW unit :=
  on_mgr cpuId (InterfaceManager.profileFlRelease htmXid).

(** ** Shutdown and restart of the logs *)

(** The managers sit at their own numbers, and every log is ready. *)
Definition logs_ready (s : RW) : Prop :=
  forall i w, mgrs s !! i = Some w ->
    m_version (ctl w) = Z.of_nat i /\ EagerVM.m_initStatus (evm w) = EagerVM.Ready.

Definition shut (w : W) : W :=
  w <| evm := (evm w) <| EagerVM.m_initStatus := EagerVM.Invalid |> <| EagerVM.m_logTLB := ∅ |> |>.

Lemma getManager_run i w s :
  mgrs s !! i = Some w -> m_version (ctl w) = Z.of_nat i ->
  getTransactionInterfaceManager (Z.of_nat i) s = Ok (w, s).
Proof.
  intros Hw Hv. unfold getTransactionInterfaceManager. run.
  rewrite (vec_at_ok _ _ _ w); [|lia|by rewrite Nat2Z.id]. run. by rewrite Hv, Z.eqb_refl.
Qed.

Lemma on_mgr_run {A} i w (m : M W A) a w' s :
  mgrs s !! i = Some w -> m_version (ctl w) = Z.of_nat i -> m w = Ok (a, w') ->
  on_mgr (Z.of_nat i) m s = Ok (a, s <| mgrs ::= <[i := w']> |>).
Proof.
  intros Hw Hv Hm. unfold on_mgr. run_with (getManager_run i w s Hw Hv). rewrite Hm. run.
  by rewrite Nat2Z.id.
Qed.

Lemma shutdown_run w :
  EagerVM.m_initStatus (evm w) = EagerVM.Ready ->
  on_evm EagerVM.shutdownLog w = Ok (tt, shut w).
Proof.
  intros Hr. destruct w as [c f m i l a [] st d p ic vc]. cbn in Hr. subst. reflexivity.
Qed.

Lemma shutdown_all_run l0 l s :
  mgrs s = map shut l0 ++ l ->
  (forall i w, l !! i = Some w ->
     m_version (ctl w) = Z.of_nat (length l0 + i) /\ EagerVM.m_initStatus (evm w) = EagerVM.Ready) ->
  forM (seqZ (Z.of_nat (length l0)) (Z.of_nat (length l)))
    (fun i => on_mgr i (on_evm EagerVM.shutdownLog)) s =
  Ok (tt, s <| mgrs := map shut (l0 ++ l) |>).
Proof.
  revert l0 s. induction l as [|w l IH]; intros l0 s Hs Hl.
  - rewrite app_nil_r. cbn. rewrite app_nil_r in Hs. destruct s. cbn in *. by subst.
  - cbn [length]. rewrite seqZ_cons by lia. cbn [forM].
    destruct (Hl 0%nat w eq_refl) as [Hv Hr]. rewrite Nat.add_0_r in Hv.
    assert (mgrs s !! length l0 = Some w) as Hw.
    { rewrite Hs, lookup_app_r, length_map, Nat.sub_diag; [done|by rewrite length_map]. }
    rewrite (bind_run _ _ _ _ _ (on_mgr_run _ _ _ _ _ _ Hw Hv (shutdown_run w Hr))).
    replace (Z.succ (Z.of_nat (length l0))) with (Z.of_nat (length (l0 ++ [w])))
      by (rewrite length_app; cbn; lia).
    replace (Z.pred (Z.of_nat (S (length l)))) with (Z.of_nat (length l)) by lia.
    rewrite (IH (l0 ++ [w])).
    + rewrite <- app_assoc. reflexivity.
    + cbn. rewrite Hs, insert_app_r_alt by by rewrite length_map.
      rewrite length_map, Nat.sub_diag. cbn. rewrite map_app, <- app_assoc. reflexivity.
    + intros i w' Hi. destruct (Hl (S i) w' Hi) as [H1 H2]. rewrite length_app. cbn.
      split; [|done]. rewrite H1. f_equal. lia.
Qed.

(** The runtime can move its log: after the shutdown no log translates
    anything, and the next set-up starts from the new address. *)
Theorem log_restart i addr w s :
  lazy_vm params = false -> logs_ready s -> mgrs s !! i = Some w ->
  exists s1 s2, setupLog (Z.of_nat i) 0 s = Ok (false, s1) /\ mgrs s1 = map shut (mgrs s) /\
    setupLog (Z.of_nat i) addr s1 = Ok (true, s2) /\
    mgrs s2 !! i = Some ((shut w) <| evm := (evm (shut w)) <| EagerVM.m_initStatus := EagerVM.BaseAddress |>
                            <| EagerVM.m_logBaseVAddr := addr |> |>).
Proof.
  intros Hlz Hr Hw. destruct (Hr i w Hw) as [Hv Hs].
  pose proof (shutdown_all_run [] (mgrs s) s eq_refl Hr) as Hall. cbn [length app Z.of_nat] in Hall.
  assert (setupLog (Z.of_nat i) 0 s = Ok (false, s <| mgrs := map shut (mgrs s) |>)) as H1.
  { unfold setupLog. rewrite Hlz. run_with (getManager_run i w s Hw Hv).
    unfold EagerVM.isReady. rewrite Hs, bool_decide_eq_true_2 by done. run.
    change (0 =? 0) with true. cbn iota. by rewrite (bind_run _ _ _ _ _ Hall). }
  assert (mgrs (s <| mgrs := map shut (mgrs s) |>) !! i = Some (shut w)) as Hw1.
  { cbn. by rewrite list_lookup_fmap, Hw. }
  eexists _, _. split; [exact H1|]. split; [done|]. split.
  - unfold setupLog. rewrite Hlz. run_with (getManager_run i (shut w) _ Hw1 Hv).
    unfold EagerVM.isReady. rewrite bool_decide_eq_false_2 by done. cbn iota.
    rewrite (bind_run _ _ _ _ _ (on_mgr_run i (shut w) _ tt
      ((shut w) <| evm := (evm (shut w)) <| EagerVM.m_initStatus := EagerVM.BaseAddress |>
         <| EagerVM.m_logBaseVAddr := addr |> |>) _ Hw1 Hv eq_refl)). reflexivity.
  - cbn. apply list_lookup_insert_eq. rewrite length_map. by apply lookup_lt_Some in Hw.
Qed.
End ops.
