(* ===== verification/RequestTable.v ===== *)
(** * The sequencer's request table

    [mem/ruby/system/Sequencer.cc]: the requests of a processor that wait for
    the caches, one list per cache line.  [makeRequest] admits a request and
    either issues it to the first-level cache or appends it to the list of
    its line; [readCallback] and [writeCallback] complete requests from the
    front of a list.  The virtual functions that
    [mem/ruby/system/TransactionalSequencer.cc] overrides are arguments here,
    and the file Sequencer supplies them.

    A completed request frees room, and the processor's ports that were
    refused earlier send their requests again at once: [trySendRetries]
    re-enters [makeRequest] in the middle of a callback.  What the ports send
    each time is the field [retries] of the state, so a theorem about every
    state is about every way the ports interfere.

    Not modelled: latency histograms, and the modes that warm up or cool down
    the caches, in which no program runs. *)

From S2P Require Import Prelude Address HTM XactProfiler CacheMemory TxState.
From S2P Require DataBlock EagerVM InterfaceManager.
Import DataBlock (DataBlock).
Import InterfaceManager (Packet, pkt_addr, pkt_size, pkt_data, pkt_isRead,
  pkt_isHtmTransactional, pkt_htmTransactionUid, req_isInstFetch).

#[local] Open Scope Z_scope.

(** ** Packets *)

Inductive HtmCmd := HTMStart | HTMCommit | HTMCancel | HTMAbort | HTMIsolate.

#[global] Instance HtmCmd_eq_dec : EqDecision HtmCmd.
Proof. solve_decision. Defined.

(** What the sequencer reads and writes of a packet, next to what it hands to
    the transaction manager.  [sp_id] is the identity of the object. *)
Record SPacket := MkSPacket {
  sp_id : Z;
  sp_pkt : Packet;
  pkt_isWrite : bool;
  pkt_isFlush : bool;
  pkt_isLLSC : bool;
  pkt_needsResponse : bool;
  (** The bytes a masked write stores; none for other packets. *)
  pkt_byteEnable : option (list bool);
  (** [cmd == MemCmd::SwapReq], and the function of an atomic operation. *)
  pkt_isSwapReq : bool;
  pkt_atomicOp : option (list Z -> list Z);
  req_isSwap : bool;
  req_isLockedRMW : bool;
  req_storeCheck : bool;
  req_htmCmd : option HtmCmd;
  req_vaddr : option Z;
  req_pc : option Z;
  req_extraData : option Z;
  pkt_isAtLSQHead : bool;
  pkt_isHtmForwardedDataValidation : bool;
  pkt_htmForwardedData : bool;
  (** [htmStoreToLog] with [htmLoggedStoreAddr]. *)
  pkt_htmStoreToLog : option Z;
  pkt_htmAccessFailed : bool;
  pkt_htmReturnReason : HtmCacheFailure
}.

#[global] Instance eta_SPacket : Eta SPacket := fun x =>
  MkSPacket (sp_id x) (sp_pkt x) (pkt_isWrite x) (pkt_isFlush x) (pkt_isLLSC x)
    (pkt_needsResponse x) (pkt_byteEnable x) (pkt_isSwapReq x) (pkt_atomicOp x)
    (req_isSwap x) (req_isLockedRMW x) (req_storeCheck x) (req_htmCmd x) (req_vaddr x)
    (req_pc x) (req_extraData x) (pkt_isAtLSQHead x) (pkt_isHtmForwardedDataValidation x)
    (pkt_htmForwardedData x) (pkt_htmStoreToLog x) (pkt_htmAccessFailed x)
    (pkt_htmReturnReason x).

Definition getAddr (p : SPacket) : Z := pkt_addr (sp_pkt p).
Definition getSize (p : SPacket) : Z := pkt_size (sp_pkt p).
Definition isRead (p : SPacket) : bool := pkt_isRead (sp_pkt p).
Definition isInstFetch (p : SPacket) : bool := req_isInstFetch (sp_pkt p).
Definition isHtmTransactional (p : SPacket) : bool := pkt_isHtmTransactional (sp_pkt p).
Definition uid_of (p : SPacket) : Z := pkt_htmTransactionUid (sp_pkt p).

Definition getHtmTransactionUid (p : SPacket) : res Z :=
  let? _ := rassert (isHtmTransactional p) in Ok (uid_of p).

Definition isHTMCmd (p : SPacket) : bool := bool_decide (req_htmCmd p <> None).
Definition is_cmd (c : HtmCmd) (p : SPacket) : bool := bool_decide (req_htmCmd p = Some c).
Definition isHtmStoreToLog (p : SPacket) : bool := bool_decide (pkt_htmStoreToLog p <> None).

Definition with_data (d : list Z) (p : SPacket) : SPacket :=
  p <| sp_pkt ::= fun k => k <| pkt_data := d |> |>.

(** ** Requests *)

Inductive RequestStatus :=
| RequestStatus_Ready
| RequestStatus_Issued
| RequestStatus_BufferFull
| RequestStatus_Aliased
| RequestStatus_AliasedNotIssued
| RequestStatus_WaitUntilLogged
| RequestStatus_NULL.

#[global] Instance RequestStatus_eq_dec : EqDecision RequestStatus.
Proof. solve_decision. Defined.

Record SequencerRequest := MkSequencerRequest {
  sr_pkt : SPacket;
  m_type : RubyRequestType;
  m_second_type : RubyRequestType;
  issue_time : Z;
  reissue_time : Z;
  suppressed : bool
}.

#[global] Instance eta_SequencerRequest : Eta SequencerRequest := fun x =>
  MkSequencerRequest (sr_pkt x) (m_type x) (m_second_type x) (issue_time x) (reissue_time x)
    (suppressed x).

Definition is_type (t : RubyRequestType) (r : SequencerRequest) : bool :=
  bool_decide (m_type r = t).

(** [LD], [Load_Linked] or [IFETCH]: what [readCallback] completes. *)
Definition read_type (t : RubyRequestType) : bool :=
  match t with LD | Load_Linked | IFETCH => true | _ => false end.

Definition isDataReadRequest (t : RubyRequestType) : bool :=
  match t with LD | Load_Linked => true | _ => false end.

(** The message put into the queue of the first-level cache. *)
Record RubyRequest := MkRubyRequest {
  msg_addr : Z;
  msg_size : Z;
  msg_Type : RubyRequestType;
  msg_htmFromTransaction : bool;
  msg_htmTransactionUid : Z;
  msg_Transactional : TransactionBit;
  msg_transactionalPriority : Z;
  msg_swTransactionalPriority : bool
}.

#[global] Instance eta_RubyRequest : Eta RubyRequest := fun x =>
  MkRubyRequest (msg_addr x) (msg_size x) (msg_Type x) (msg_htmFromTransaction x)
    (msg_htmTransactionUid x) (msg_Transactional x) (msg_transactionalPriority x)
    (msg_swTransactionalPriority x).

(** The two log writes of a transactional store and their progress. *)
Record LogRequestInfo := MkLogRequestInfo {
  logAddrPkt : SPacket;
  logDataPkt : SPacket;
  logAddrPktStatus : RequestStatus;
  logDataPktStatus : RequestStatus;
  outstanding : Z;
  completed : Z;
  logIndex : Z;
  log_vaddr : Z;
  log_paddr : Z
}.

#[global] Instance eta_LogRequestInfo : Eta LogRequestInfo := fun x =>
  MkLogRequestInfo (logAddrPkt x) (logDataPkt x) (logAddrPktStatus x) (logDataPktStatus x)
    (outstanding x) (completed x) (logIndex x) (log_vaddr x) (log_paddr x).

(** ** State *)

(** What leaves the sequencer: messages to the first-level cache, completed
    accesses ([ruby_hit_callback]) and answers to transactional commands. *)
Inductive Output :=
| Enqueue (msg : RubyRequest)
| HitCallback (pkt : SPacket)
| HtmResponse (pkt : SPacket) (code : HtmCacheFailure).

Record Seq := MkSeq {
  sq_version : Z;
  m_RequestTable : gmap Z (list SequencerRequest);
  m_outstanding_count : Z;
  m_max_outstanding_requests : Z;
  m_deadlock_threshold : Z;
  deadlockCheckEvent : bool;
  (** The lines blocked in the controller by a locked read. *)
  m_block_map : gset Z;
  m_commitPending : bool;
  m_failedCallback : bool;
  m_specCallback : bool;
  m_failedStorePkt : option Z;
  m_stalled : bool;
  m_lastStateBeforeStall : AnnotatedRegion;
  m_lastAbortHtmUid : Z;
  outstandingTransLockedRMWAccesses : gmap Z Z;
  m_logRequestTable : gmap Z (list LogRequestInfo);
  m_pendingLogging : gmap Z bool;
  writeBufferHitEvent : option SPacket;
  lazyCommitCheckEvent : option SPacket;
  (** The identity of the next packet the sequencer creates. *)
  sq_next_id : Z;
  (** What left so far, newest first. *)
  sq_out : list Output;
  (** What the ports send at the coming calls of [trySendRetries]. *)
  retries : list (list SPacket)
}.

#[global] Instance eta_Seq : Eta Seq := fun x =>
  MkSeq (sq_version x) (m_RequestTable x) (m_outstanding_count x)
    (m_max_outstanding_requests x) (m_deadlock_threshold x) (deadlockCheckEvent x)
    (m_block_map x) (m_commitPending x) (m_failedCallback x) (m_specCallback x)
    (m_failedStorePkt x) (m_stalled x) (m_lastStateBeforeStall x) (m_lastAbortHtmUid x)
    (outstandingTransLockedRMWAccesses x) (m_logRequestTable x) (m_pendingLogging x)
    (writeBufferHitEvent x) (lazyCommitCheckEvent x) (sq_next_id x) (sq_out x) (retries x).

(** The constructors of [Sequencer] and [TransactionalSequencer]. *)
Definition Seq_init (version max_outstanding_requests deadlock_threshold : Z)
    (ports : list (list SPacket)) : res Seq :=
  let? _ := rassert (0 <? max_outstanding_requests) in
  let? _ := rassert (0 <? deadlock_threshold) in
  Ok (MkSeq version ∅ 0 max_outstanding_requests deadlock_threshold false ∅ false false false
        None false XactProfiler.INVALID 0 ∅ ∅ ∅ None None 0 [] ports).

(** The sequencer, the world of its processor, and the managers of the other
    processors. *)
Record SeqWorld (C : Type) := MkSeqWorld {
  sq : Seq;
  wd : World C;
  peers : list (World C)
}.
Arguments MkSeqWorld {C}. Arguments sq {C}. Arguments wd {C}. Arguments peers {C}.

#[global] Instance eta_SeqWorld {C} : Eta (SeqWorld C) := fun x =>
  MkSeqWorld (sq x) (wd x) (peers x).

(** The simulator's mode, and the lines a first-level cache lets the
    sequencer lock. *)
Class SeqEnv := {
  draining : bool;
  isX86 : bool;
  mandatoryQueueLatency : RubyRequestType -> Z
}.

(** The entry of a line as the sequencer uses it: the processor that holds
    its load-linked monitor (-1 for none), the undo-log mark, the block. *)
Class SeqCache (C : Type) := {
  sc_locked : Z -> C -> res (option Z);
  sc_setLocked : Z -> Z -> C -> res C;
  sc_setHtmLogPending : Z -> bool -> C -> res C;
  sc_write : Z -> DataBlock -> C -> res C
}.

#[global] Instance CacheMemory_SeqCache `{RubySystem} : SeqCache CacheMemory := {|
  sc_locked a c := let? e := CacheMemory.lookup a c in Ok (m_locked <$> e);
  sc_setLocked a v c := let? r := CacheMemory.setLocked a v c in Ok r.2;
  sc_setHtmLogPending a b c := let? r := CacheMemory.setHtmLogPending a b c in Ok r.2;
  sc_write a d c := let? r := CacheMemory.on_entry a (fun e => e <| m_DataBlk := d |>) c in Ok r.2
|}.

Section base.
Context `{RS : RubySystem} `{CF : Config} `{E : Env} {C : Type} `{DC : DataCache C}.
Context `{SE : SeqEnv} `{SC : SeqCache C}.
Notation SW := (SeqWorld C).

Definition on_sq {A} (m : M Seq A) : M SW A := zoom sq (fun x s => s <| sq := x |>) m.

Definition emit (o : Output) : M SW unit := on_sq (upd! sq_out ::= cons o).

(** [m_RequestTable[a]]. *)
Definition requests (a : Z) (s : Seq) : list SequencerRequest := default [] (m_RequestTable s !! a).

Definition set_requests (a : Z) (l : list SequencerRequest) : M SW unit :=
  on_sq (upd! m_RequestTable ::= <[a := l]>).

Definition isBlocked (a : Z) (s : Seq) : bool := bool_decide (a ∈ m_block_map s).
Definition blockOnQueue (a : Z) : M SW unit := on_sq (upd! m_block_map ::= ({[a]} ∪.)).
Definition unblock (a : Z) : M SW unit := on_sq (upd! m_block_map ::= fun m => m ∖ {[a]}).

(** ** Load-linked monitors *)

Definition on_dcache (f : C -> res C) : M SW unit :=
  let* s := get in
  let* c := lift (f (dcache (wd s))) in
  upd! wd ::= fun w => w <| dcache := c |>.

Definition locked_line (claddr : Z) (s : SW) : res (option Z) := sc_locked claddr (dcache (wd s)).

Definition llscLoadLinked (claddr : Z) : M SW unit :=
  let* s := get in
  let* line := lift (locked_line claddr s) in
  match line with
  | Some _ => on_dcache (sc_setLocked claddr (sq_version (sq s)))
  | None => ret tt
  end.

Definition llscClearMonitor (claddr : Z) : M SW unit :=
  let* s := get in
  let* line := lift (locked_line claddr s) in
  match line with
  | Some v => when (v =? sq_version (sq s)) (on_dcache (sc_setLocked claddr (-1)))
  | None => ret tt
  end.

Definition llscStoreConditional (claddr : Z) : M SW bool :=
  let* s := get in
  let* line := lift (locked_line claddr s) in
  match line with
  | Some v => do* on_dcache (sc_setLocked claddr (-1)); ret (v =? sq_version (sq s))
  | None => ret false
  end.

(** ** Insertion *)

Definition canCoalesceRequest (pkt : SPacket) (lastSeqReq : SequencerRequest) : bool :=
  let other := sr_pkt lastSeqReq in
  if isHtmTransactional pkt then
    if negb (isHtmTransactional other) then false
    else if negb (uid_of other =? uid_of pkt) then false
    else true
  else if isHtmTransactional other then false
  else true.

(** [Sequencer::insertRequest].  Its last assertion compares the status of
    the new request with itself. *)
Definition base_insertRequest (pkt : SPacket) (primary_type secondary_type : RubyRequestType)
    : M SW RequestStatus :=
  let* s := get in
  do* when (negb (deadlockCheckEvent (sq s)) && negb draining)
        (on_sq (set! deadlockCheckEvent := true));
  let line_addr := makeLineAddress (getAddr pkt) in
  let seq_req_list := requests line_addr (sq s) in
  let coalesces := match last seq_req_list with
                   | Some seq_req => canCoalesceRequest pkt seq_req
                   | None => true
                   end in
  if negb coalesces then ret RequestStatus_AliasedNotIssued else
  let l := seq_req_list ++
             [MkSequencerRequest pkt primary_type secondary_type curCycle 0 false] in
  do* set_requests line_addr l;
  do* on_sq (upd! m_outstanding_count ::= Z.add 1);
  ret (if Nat.ltb 1 (length l) then RequestStatus_Aliased else RequestStatus_Ready).

Definition markRemoved : M SW unit := on_sq (upd! m_outstanding_count ::= fun n => n - 1).

(** ** Deadlock check *)

(** A request past the threshold that was not sent again since. *)
Definition deadlocked (threshold : Z) (r : SequencerRequest) : bool :=
  negb (u64 (curCycle - issue_time r) <? threshold) && negb (issue_time r <? reissue_time r).

Definition total_requests (t : gmap Z (list SequencerRequest)) : Z :=
  map_fold (fun _ l n => Z.of_nat (length l) + n) 0 t.

Definition wakeup : M SW unit :=
  do* massert (negb draining);
  let* s := get in
  let t := m_RequestTable (sq s) in
  if bool_decide (map_Forall
       (fun _ l => Forall (fun r => deadlocked (m_deadlock_threshold (sq s)) r = false) l) t)
  then
    do* massert (m_outstanding_count (sq s) =? total_requests t);
    on_sq (set! deadlockCheckEvent := (0 <? m_outstanding_count (sq s)))
  else panic.

(** ** Issue *)

Section virtual.
(** What [TransactionalSequencer] overrides, and the ports' retries. *)
Context (trySendRetries : M SW unit).
Context (canMakeRequest : SPacket -> M SW bool).
Context (insertRequest : SPacket -> RubyRequestType -> RubyRequestType -> M SW RequestStatus).
Context (setFlagsPreIssueRequest : SPacket -> RubyRequest -> M SW RubyRequest).
Context (hitCallback : SequencerRequest -> DataBlock -> bool -> bool -> M SW DataBlock).

(** [Sequencer::setFlagsPreIssueRequest]. *)
Definition base_setFlagsPreIssueRequest (pkt : SPacket) (msg : RubyRequest) : RubyRequest :=
  if isHtmTransactional pkt
  then msg <| msg_htmFromTransaction := true |> <| msg_htmTransactionUid := uid_of pkt |>
  else msg.

Definition issueRequest (pkt : SPacket) (secondary_type : RubyRequestType) : M SW unit :=
  let* msg := setFlagsPreIssueRequest pkt
    (MkRubyRequest (getAddr pkt) (getSize pkt) secondary_type false 0 NonTrans 0 false) in
  do* massert (0 <? mandatoryQueueLatency secondary_type);
  emit (Enqueue msg).

Definition htmCmdToRubyRequestType (pkt : SPacket) : res RubyRequestType :=
  match req_htmCmd pkt with
  | Some HTMStart => Ok HTM_Start
  | Some HTMCommit => Ok HTM_Commit
  | Some HTMCancel => Ok HTM_Cancel
  | Some HTMAbort => Ok HTM_Abort
  | _ => Err EPanic
  end.

(** The primary and the secondary type of a request; the transactional
    protocol sends a store-conditional as a store. *)
Definition request_types (pkt : SPacket) : res (RubyRequestType * RubyRequestType) :=
  if pkt_isLLSC pkt then
    if pkt_isWrite pkt then Ok (Store_Conditional, ST)
    else let? _ := rassert (isRead pkt) in Ok (Load_Linked, LD)
  else if req_isLockedRMW pkt then
    if pkt_isWrite pkt then Ok (Locked_RMW_Write, ST)
    else let? _ := rassert (isRead pkt) in Ok (Locked_RMW_Read, ST)
  else if pkt_isWrite pkt then Ok (ST, ST)
  else if isRead pkt then
    if isHTMCmd pkt then let? t := htmCmdToRubyRequestType pkt in Ok (t, t)
    else if isInstFetch pkt then Ok (IFETCH, IFETCH)
    else if isX86 && req_storeCheck pkt then Ok (RMW_Read, ST)
    else Ok (LD, LD)
  else if pkt_isFlush pkt then Ok (FLUSH, FLUSH)
  else Err EPanic.

(** [Sequencer::makeRequest]. *)
Definition base_makeRequest (pkt : SPacket) : M SW RequestStatus :=
  let* can := canMakeRequest pkt in
  if negb can then ret RequestStatus_BufferFull else
  let* types := lift (request_types pkt) in
  let '(primary_type, secondary_type) := types in
  let* s := get in
  if isBlocked (makeLineAddress (getAddr pkt)) (sq s) &&
     negb (bool_decide (primary_type = Locked_RMW_Write)) then ret RequestStatus_Aliased else
  let* status := insertRequest pkt primary_type secondary_type in
  match status with
  | RequestStatus_Ready => do* issueRequest pkt secondary_type; ret RequestStatus_Issued
  | RequestStatus_AliasedNotIssued => ret RequestStatus_AliasedNotIssued
  | RequestStatus_Aliased => ret RequestStatus_Issued
  | _ => throw EAssert
  end.

(** ** Completion *)

Definition ruby_hit_callback (pkt : SPacket) : M SW unit :=
  do* emit (HitCallback pkt);
  trySendRetries.

(** [data.setData(pkt)]. *)
Definition setData_pkt (data : DataBlock) (pkt : SPacket) : res DataBlock :=
  let? offset := getOffset (getAddr pkt) in
  let? _ := rassert (offset + getSize pkt <=? getBlockSizeBytes) in
  match pkt_byteEnable pkt with
  | None => DataBlock.setData data (pkt_data (sp_pkt pkt)) offset (getSize pkt)
  | Some enable =>
      foldR (fun d (x : nat * (bool * Z)) =>
               if x.2.1 then DataBlock.setByte d (offset + Z.of_nat x.1) x.2.2 else Ok d)
        data (imap pair (zip enable (pkt_data (sp_pkt pkt))))
  end.

(** The data a completed access moves between the packet and the block. *)
Definition transfer (pkt : SPacket) (type : RubyRequestType) (data : DataBlock)
    (llscSuccess : bool) : res (SPacket * DataBlock) :=
  if pkt_isFlush pkt then Ok (pkt, data) else
  let? offset := getOffset (getAddr pkt) in
  if read_type type || bool_decide (type = RMW_Read) || bool_decide (type = Locked_RMW_Read) then
    let? d := DataBlock.getData data offset (getSize pkt) in
    Ok (with_data d pkt, data)
  else if pkt_isSwapReq pkt then
    match pkt_atomicOp pkt with
    | Some op =>
        let? _ := rassert (negb (req_isSwap pkt)) in
        let? d := DataBlock.getData data offset (getSize pkt) in
        let? data' := DataBlock.setData data (op d) offset (getSize pkt) in
        Ok (with_data d pkt, data')
    | None => Err EPanic
    end
  else if req_isSwap pkt then
    let? _ := rassert (bool_decide (pkt_byteEnable pkt = None)) in
    let overwrite_val := pkt_data (sp_pkt pkt) in
    let? d := DataBlock.getData data offset (getSize pkt) in
    let? data' := DataBlock.setData data overwrite_val offset (getSize pkt) in
    Ok (with_data d pkt, data')
  else if negb (bool_decide (type = Store_Conditional)) || llscSuccess then
    let? data' := setData_pkt data pkt in
    Ok (pkt, data')
  else Ok (pkt, data).

(** [Sequencer::hitCallback]: the block afterwards, and the completed packet
    on its way to the processor. *)
Definition base_hitCallback (srequest : SequencerRequest) (data : DataBlock) (llscSuccess : bool)
    : M SW (SPacket * DataBlock) :=
  let pkt := sr_pkt srequest in
  do* when (is_type Load_Linked srequest) (llscLoadLinked (makeLineAddress (getAddr pkt)));
  let* r := lift (transfer pkt (m_type srequest) data llscSuccess) in
  do* ruby_hit_callback r.1;
  ret r.

(** The checks that all requests completed together belong to one
    transaction or to none. *)
Definition same_transaction (currentUid : Z) (pkt : SPacket) : bool :=
  if negb (currentUid =? 0) then isHtmTransactional pkt && (uid_of pkt =? currentUid)
  else negb (isHtmTransactional pkt).

Definition uid_or (currentUid : Z) (pkt : SPacket) : Z :=
  if isHtmTransactional pkt then uid_of pkt else currentUid.

(** [seq_req_list.pop_front()]; the list may have grown meanwhile. *)
Definition pop_front (address : Z) : M SW unit :=
  on_sq (upd! m_RequestTable ::= alter tail address).

(** [setExtraData] on the request of the packet at the front. *)
Definition with_extra (b : bool) (r : SequencerRequest) : SequencerRequest :=
  r <| sr_pkt ::= fun p => p <| req_extraData := Some (if b then 1 else 0) |> |>.

(** The body of the loop of [writeCallback] for a request that is not a
    read. *)
Definition complete_write (address : Z) (seq_req : SequencerRequest) (data : DataBlock)
    (ruby_request : bool) : M SW DataBlock :=
  let* r :=
    if negb (is_type Store_Conditional seq_req) then
      do* llscClearMonitor address; ret (true, seq_req)
    else
      let* success := llscStoreConditional address in
      ret (success, with_extra success seq_req) in
  let '(success, seq_req) := r in
  do* (if is_type Locked_RMW_Read seq_req then blockOnQueue address
       else when (is_type Locked_RMW_Write seq_req) (unblock address));
  do* when ruby_request (massert (issue_time seq_req <=? curCycle));
  do* markRemoved;
  hitCallback seq_req data success (negb ruby_request).

(** The loop of [writeCallback]: [true] when it ended before the bound [n]
    on its iterations. *)
Fixpoint write_loop (n : nat) (address : Z) (noCoales ruby_request : bool) (currentUid : Z)
    (data : DataBlock) : M SW (bool * DataBlock) :=
  match n with
  | O => ret (false, data)
  | S n =>
      let* s := get in
      match requests address (sq s) with
      | [] => ret (true, data)
      | seq_req :: _ =>
          if noCoales && negb ruby_request then
            do* issueRequest (sr_pkt seq_req) (m_second_type seq_req);
            ret (true, data)
          else
            do* (if ruby_request then massert (negb (read_type (m_type seq_req)))
                 else massert (same_transaction currentUid (sr_pkt seq_req)));
            let uid := if ruby_request then uid_or currentUid (sr_pkt seq_req) else currentUid in
            if pkt_isHtmForwardedDataValidation (sr_pkt seq_req) && negb ruby_request then
              do* issueRequest (sr_pkt seq_req) (m_second_type seq_req);
              ret (true, data)
            else
              let* data :=
                if negb (read_type (m_type seq_req)) then
                  complete_write address seq_req data ruby_request
                else
                  do* massert (negb ruby_request);
                  do* markRemoved;
                  hitCallback seq_req data true (negb ruby_request) in
              do* pop_front address;
              write_loop n address noCoales false uid data
      end
  end.

(** An upper bound on the iterations: every request in the table and every
    packet the ports can still send. *)
Definition loop_bound (s : Seq) : nat :=
  S (Z.to_nat (total_requests (m_RequestTable s)) + length (concat (retries s))).

(** The entry of a line that has no requests left goes. *)
Definition free_line (address : Z) : M SW unit :=
  let* s := get in
  match requests address (sq s) with
  | [] => on_sq (upd! m_RequestTable ::= delete address)
  | _ :: _ => ret tt
  end.

Definition check_line (address : Z) : M SW unit :=
  do* massert (address =? makeLineAddress address);
  let* s := get in
  massert (has address (m_RequestTable (sq s))).

(** [Sequencer::writeCallback]. *)
Definition base_writeCallback (address : Z) (data : DataBlock) (noCoales : bool)
    : M SW DataBlock :=
  do* check_line address;
  let* s := get in
  let* r := write_loop (loop_bound (sq s)) address noCoales true 0 data in
  do* free_line address;
  do* trySendRetries;
  ret r.2.

Fixpoint read_loop (n : nat) (address : Z) (ruby_request : bool) (currentUid : Z)
    (data : DataBlock) : M SW (bool * DataBlock) :=
  match n with
  | O => ret (false, data)
  | S n =>
      let* s := get in
      match requests address (sq s) with
      | [] => ret (true, data)
      | seq_req :: _ =>
          do* (if ruby_request then massert (read_type (m_type seq_req))
               else massert (same_transaction currentUid (sr_pkt seq_req)));
          let uid := if ruby_request then uid_or currentUid (sr_pkt seq_req) else currentUid in
          if negb (read_type (m_type seq_req)) ||
             (pkt_isHtmForwardedDataValidation (sr_pkt seq_req) && negb ruby_request) then
            do* issueRequest (sr_pkt seq_req) (m_second_type seq_req);
            ret (true, data)
          else
            do* when ruby_request (massert (issue_time seq_req <=? curCycle));
            do* markRemoved;
            let* data := hitCallback seq_req data true (negb ruby_request) in
            do* pop_front address;
            read_loop n address false uid data
      end
  end.

(** [Sequencer::readCallback]. *)
Definition base_readCallback (address : Z) (data : DataBlock) : M SW DataBlock :=
  do* check_line address;
  let* s := get in
  let* r := read_loop (loop_bound (sq s)) address true 0 data in
  do* free_line address;
  do* trySendRetries;
  ret r.2.

Definition writeCallbackScFail (address : Z) (writeCallback : M SW DataBlock) : M SW DataBlock :=
  do* llscClearMonitor address;
  writeCallback.
End virtual.
End base.
