(* ===== verification/Sequencer.v ===== *)
(** * The transactional sequencer

    [mem/ruby/system/TransactionalSequencer.cc]: the commands of the
    processor that begin, commit and abort transactions, the admission of
    requests (with the room that LogTM reserves for its log writes), nacked
    requests and their retries, the completion of transactional accesses, and
    the undo-log writes of LogTM.  Every operation runs on the request table
    of the file RequestTable and on the world of its processor; a call of the
    transaction manager sees this sequencer as its environment. *)

From S2P Require Import Prelude Address HTM XactProfiler CacheMemory TxState RequestTable.
From S2P Require DataBlock LazyVM CommitArbiter EagerVM InterfaceManager Forwarding.
From S2P Require XactIsolationChecker XactValueChecker ConflictManager.
Import DataBlock (DataBlock).
Import InterfaceManager (Packet, MkPacket, pkt_addr, pkt_size, pkt_data, pkt_isRead,
  pkt_isHtmTransactional, pkt_htmTransactionUid, req_isInstFetch, req_htmAbortCause,
  req_requestorId).

#[local] Open Scope Z_scope.

Section ops.
Context `{RS : RubySystem} `{CF : Config} `{E : Env} {C : Type} `{DC : DataCache C}.
Context `{SE : SeqEnv} `{SC : SeqCache C}.
Notation W := (World C).
Notation SW := (SeqWorld C).

(** ** Calls of the transaction manager *)

(** [isStalled] and [getPacketFromRequestTable] as the manager calls them. *)
Definition head_uid (a : Z) (s : Seq) : option Z :=
  match requests a s with
  | r :: _ => if isHtmTransactional (sr_pkt r) then Some (uid_of (sr_pkt r)) else None
  | [] => None
  end.

Definition seq_env (s : Seq) : Env := {|
  curTick := curTick;
  curCycle := curCycle;
  seq_isStalled := m_stalled s;
  seq_packetUid a := head_uid a s;
  seq_makeRequest := seq_makeRequest;
  ticksToCycles := ticksToCycles;
  uninit_bool := uninit_bool;
  overflow_wraps := overflow_wraps;
  enableL0DowngradeOnL1Gets := enableL0DowngradeOnL1Gets
|}.

Definition mgr {A} (m : Env -> M W A) : M SW A := fun s =>
  match m (seq_env (sq s)) (wd s) with
  | Ok (a, w) => Ok (a, s <| wd := w |>)
  | Err e => Err e
  end.

(** A query of the manager. *)
Definition ask {A} (f : W -> res A) : M SW A := let* s := get in lift (f (wd s)).

Definition lazy_lazy : bool := lazy_vm params && negb (eager_cd params).

(** ** Abort *)

Definition suppress (r : SequencerRequest) : SequencerRequest :=
  if isHtmTransactional (sr_pkt r) then r <| suppressed := true |> else r.

Definition suppressOutstandingRequests : M SW unit :=
  on_sq (upd! m_RequestTable ::= fmap (map suppress)).

(** A locked read that waits for its write holds the line blocked. *)
Definition release_locked : M SW unit :=
  let* s := get in
  match std_keys (outstandingTransLockedRMWAccesses (sq s)) with
  | [] => ret tt
  | [blockedAddr] =>
      do* unblock blockedAddr;
      on_sq (upd! outstandingTransLockedRMWAccesses ::= delete blockedAddr)
  | _ => throw EAssert
  end.

Definition abortTransaction (pkt : SPacket) : M SW unit :=
  let* s := get in
  do* massert (isAborting (wd s) || is_cmd HTMAbort pkt);
  do* on_sq (set! m_stalled := false);
  do* on_sq (set! m_lastStateBeforeStall := XactProfiler.INVALID);
  do* mgr (fun E' => InterfaceManager.abortTransaction (E := E') (sp_pkt pkt));
  let* uid := lift (getHtmTransactionUid pkt) in
  do* on_sq (set! m_lastAbortHtmUid := uid);
  do* suppressOutstandingRequests;
  let* s := get in
  do* unless (lazy_vm params) (massert (emptyb (m_logRequestTable (sq s))));
  release_locked.

(** ** Commands *)

Definition schedule_commit_check (pkt : SPacket) : M SW unit :=
  let* s := get in
  match lazyCommitCheckEvent (sq s) with
  | Some _ => ret tt
  | None => on_sq (set! lazyCommitCheckEvent := Some pkt)
  end.

(** A command that finds the abort flag set. *)
Definition command_aborting (pkt : SPacket) : M SW unit :=
  if is_cmd HTMAbort pkt then abortTransaction pkt
  else
    let* s := get in
    when (m_commitPending (sq s))
      (do* massert (is_cmd HTMCommit pkt);
       let* can := ask InterfaceManager.canCommitTransaction in
       if can then on_sq (set! m_commitPending := false)
       else schedule_commit_check pkt).

Definition command_start (pkt : SPacket) : M SW unit :=
  do* mgr (fun E' => InterfaceManager.beginTransaction (E := E') (sp_pkt pkt));
  let* _ := ask isPowerMode in
  ret tt.

Definition command_commit (pkt : SPacket) : M SW unit :=
  let* can := ask InterfaceManager.canCommitTransaction in
  if can then
    let* _ := ask isPowerMode in
    do* mgr (fun E' => InterfaceManager.commitTransaction (E := E') (sp_pkt pkt));
    do* on_sq (set! m_commitPending := false);
    do* on_sq (set! m_lastStateBeforeStall := XactProfiler.INVALID);
    on_sq (set! m_stalled := false)
  else
    let* s := get in
    let* others := mgr (fun E' => InterfaceManager.initiateCommitTransaction (E := E') (peers s)) in
    do* (set! peers := others);
    do* on_sq (set! m_commitPending := true);
    schedule_commit_check pkt.

(** The causes for which the processor may abort before the flag is set. *)
Definition cpu_abort_cause (c : HtmFailureFaultCause) : bool :=
  match c with LSQ | EXCEPTION | INTERRUPT | DISABLED => true | _ => false end.

Definition command_isolate (pkt : SPacket) : M SW unit :=
  let addr := makeLineAddress (getAddr pkt) in
  let* in_set := ask (checkReadSignature addr) in
  if negb (precise_read_set_tracking params) && negb in_set then panic else
  do* (if in_set then ret tt
       else
         do* massert (precise_read_set_tracking params);
         do* mgr (fun _ => InterfaceManager.isolateTransactionLoad addr);
         let* retired := ask (InterfaceManager.inRetiredReadSet addr) in
         massert (negb retired));
  let* retired := ask (InterfaceManager.inRetiredReadSet addr) in
  unless retired (mgr (fun E' => InterfaceManager.addToRetiredReadSet (E := E') addr)).

Definition notifyXactionEvent (pkt : SPacket) : M SW unit :=
  let* s := get in
  if isAborting (wd s) then command_aborting pkt else
  match req_htmCmd pkt with
  | Some HTMStart => command_start pkt
  | Some HTMCommit => command_commit pkt
  | Some HTMCancel =>
      do* massert (getProcID (wd s) =? sq_version (sq s));
      mgr (fun E' => cancelTransaction (E := E'))
  | Some HTMAbort =>
      if cpu_abort_cause (req_htmAbortCause (sp_pkt pkt)) then abortTransaction pkt else panic
  | Some HTMIsolate => command_isolate pkt
  | None => panic
  end.

(** ** Stalls *)

(** An access of the running transaction, or a non-transactional one. *)
Definition not_lingering (pkt : SPacket) (s : Seq) : bool :=
  negb (isHtmTransactional pkt) || negb (m_lastAbortHtmUid s =? uid_of pkt).

Definition checkForStall (pkt : SPacket) : M SW unit :=
  let* s := get in
  when (pkt_isAtLSQHead pkt && negb (isAborting (wd s)) && negb (m_stalled (sq s)) &&
        not_lingering pkt (sq s))
    (do* on_sq (set! m_stalled := true);
     do* massert (region_eqb (m_lastStateBeforeStall (sq s)) XactProfiler.INVALID);
     let* region := ask getCurrentRegion in
     do* on_sq (set! m_lastStateBeforeStall := region);
     mgr (fun E' => moveTo (E := E')
            (if isHtmTransactional pkt then STALLED else STALLED_NONTRANS))).

(** The end of a stall: the access at the head of the queue completed. *)
Definition leave_stall (pkt : SPacket) : M SW unit :=
  let* s := get in
  when (m_stalled (sq s) && pkt_isAtLSQHead pkt && negb (isAborting (wd s)) &&
        not_lingering pkt (sq s))
    (let state := m_lastStateBeforeStall (sq s) in
     do* when (isHtmTransactional pkt)
           (do* massert (inTransaction (wd s));
            if config_allowEarlyValueFwd
            then massert (region_eqb state TRANSACTIONAL ||
                          region_eqb state TRANSACTIONAL_SPECULATING)
            else massert (region_eqb state TRANSACTIONAL));
     do* mgr (fun E' => moveTo (E := E') state);
     do* on_sq (set! m_lastStateBeforeStall := XactProfiler.INVALID);
     on_sq (set! m_stalled := false)).

(** ** Admission *)

Definition num_reserved_mshrs (pkt : SPacket) : M SW Z :=
  let* s := get in
  let pending := m_pendingLogging (sq s) in
  let reserved := 2 * Z.of_nat (size pending) in
  if pkt_isWrite pkt && isHtmTransactional pkt then
    let address := makeLineAddress (getAddr pkt) in
    let* written := ask (checkWriteSignature address) in
    ret (if negb written && negb (has address pending) then reserved + 2 else reserved)
  else match pkt_htmStoreToLog pkt with
  | Some logged =>
      do* massert (negb (isHtmTransactional pkt));
      do* massert (default false (pending !! makeLineAddress logged));
      ret (reserved - 2)
  | None => ret reserved
  end.

Definition canMakeRequest (pkt : SPacket) : M SW bool :=
  let* reserved := if lazy_vm params then ret 0 else num_reserved_mshrs pkt in
  let* s := get in
  ret (bool_decide (m_failedStorePkt (sq s) = Some (sp_id pkt)) ||
       negb ((m_max_outstanding_requests (sq s) <=? m_outstanding_count (sq s) + reserved) &&
             negb (is_cmd HTMAbort pkt))).

Definition numOutstandingWrites (address : Z) : M SW Z :=
  let* s := get in
  do* massert (has address (m_RequestTable (sq s)));
  ret (Z.of_nat (length (filter (fun r => pkt_isWrite (sr_pkt r) = true)
                           (requests address (sq s))))).

(** LogTM: a store that will log its block reserves the room for it. *)
Definition reserve_logging (pkt : SPacket) (status : RequestStatus) : M SW unit :=
  let address := makeLineAddress (getAddr pkt) in
  let* written := if pkt_isWrite pkt && isHtmTransactional pkt
                  then ask (checkWriteSignature address) else ret true in
  unless written
    (let* s := get in
     let pending := m_pendingLogging (sq s) in
     match status with
     | RequestStatus_Ready =>
         do* massert (negb (has address pending));
         on_sq (upd! m_pendingLogging ::= <[address := true]>)
     | RequestStatus_Aliased =>
         do* massert (Nat.ltb 1 (length (requests address (sq s))));
         let* numStoresFound := numOutstandingWrites address in
         do* massert (0 <? numStoresFound);
         if numStoresFound =? 1 then
           do* massert (negb (has address pending));
           on_sq (upd! m_pendingLogging ::= <[address := true]>)
         else massert (has address pending || has address (m_logRequestTable (sq s)))
     | _ => massert (bool_decide (status = RequestStatus_AliasedNotIssued))
     end).

(** Without precise tracking a load enters the read set when it issues. *)
Definition isolate_issued (pkt : SPacket) (primary_type secondary_type : RubyRequestType)
    (status : RequestStatus) : M SW unit :=
  when (isHtmTransactional pkt && isRead pkt)
    (do* massert (negb (pkt_isWrite pkt));
     do* massert (isDataReadRequest secondary_type || bool_decide (primary_type = RMW_Read) ||
                  bool_decide (primary_type = Locked_RMW_Read));
     when (bool_decide (status = RequestStatus_Ready) ||
           bool_decide (status = RequestStatus_Aliased))
       (let addr := makeLineAddress (getAddr pkt) in
        let* s := get in
        if inTransaction (wd s) then
          let* in_set := ask (checkReadSignature addr) in
          unless in_set (mgr (fun _ => InterfaceManager.isolateTransactionLoad addr))
        else panic)).

Definition insertRequest (pkt : SPacket) (primary_type secondary_type : RubyRequestType)
    : M SW RequestStatus :=
  let* s := get in
  if bool_decide (m_failedStorePkt (sq s) = Some (sp_id pkt)) then
    do* on_sq (set! m_failedStorePkt := None);
    ret RequestStatus_Ready
  else
    let* status := base_insertRequest pkt primary_type secondary_type in
    do* when (isHtmTransactional pkt && (bool_decide (primary_type = Locked_RMW_Read) ||
                                         bool_decide (primary_type = Locked_RMW_Write)))
          (massert (req_isLockedRMW pkt));
    do* unless (lazy_vm params) (reserve_logging pkt status);
    do* unless (precise_read_set_tracking params)
          (isolate_issued pkt primary_type secondary_type status);
    ret status.

(** The message carries the transaction's priorities; a validation gets a
    type of its own. *)
Definition setFlagsPreIssueRequest (pkt : SPacket) (msg : RubyRequest) : M SW RubyRequest :=
  let msg := base_setFlagsPreIssueRequest pkt msg in
  let* s := get in
  let addr := makeLineAddress (getAddr pkt) in
  let* msg :=
    if config_allowEarlyValueFwd && isBlockConsumed addr (wd s) then
      if pkt_isHtmForwardedDataValidation pkt then
        do* massert (msg_size msg =? getBlockSizeBytes);
        ret (msg <| msg_Type := HTM_Validate |>)
      else
        let isStore := negb (read_type (msg_Type msg)) in
        let* hit := lift (dc_tryCacheAccess addr LD (dcache (wd s))) in
        do* massert (bool_decide (hit <> None) || isStore ||
                     (m_specCallback (sq s) && negb (isHtmTransactional pkt)));
        ret msg
    else ret msg in
  if msg_htmFromTransaction msg then
    let* sw := ask getSwTransactionPriority in
    ret (msg <| msg_Transactional := getTransactionBit (wd s) |>
             <| msg_transactionalPriority := getTransactionPriority (wd s) |>
             <| msg_swTransactionalPriority := sw |>)
  else ret msg.

(** ** LogTM: accesses of the processor to the log *)

(** The word a log access writes. *)
Definition le_bytes (v : Z) : list Z := map (fun i => v / 2 ^ (8 * i) mod 256) (seqZ 0 8).
Definition le_word (l : list Z) : Z := foldr (fun b n => b + 256 * n) 0 (take 8 l).

(** [true]: no cache access is needed. *)
Definition interceptLogAccess (pkt : SPacket) : M SW bool :=
  do* massert (negb (lazy_vm params));
  match req_vaddr pkt with
  | None => throw EAssert
  | Some vaddr =>
      let* s := get in
      if InterfaceManager.isAccessToLog vaddr (wd s) then
        let* done :=
          if negb (InterfaceManager.isLogReady (wd s)) then
            do* mgr (fun _ => InterfaceManager.setupLogTranslation vaddr (getAddr pkt));
            ret false
          else if isUnrollingLog (wd s) then
            let* signal := ask (InterfaceManager.isEndLogUnrollSignal (Some vaddr)
                                  (pkt_isWrite pkt) (le_word (pkt_data (sp_pkt pkt)))) in
            if signal then
              do* massert (pkt_isWrite pkt);
              do* mgr (fun E' => InterfaceManager.endLogUnroll (E := E'));
              ret true
            else do* massert (negb (pkt_isWrite pkt)); ret false
          else ret false in
        if done then ret true else
        let* paddr := ask (InterfaceManager.translateLogAddress vaddr) in
        if negb (getAddr pkt =? paddr) then panic else ret false
      else ret false
  end.

(** ** Requests *)

Section ports.
(** The ports that were refused send again. *)
Context (trySendRetries : M SW unit).

Definition rubyHtmCallback (pkt : SPacket) : M SW unit :=
  let* s := get in
  do* unless (isHTMCmd pkt)
        (do* massert (isHtmTransactional pkt);
         massert (isAborting (wd s) || (m_lastAbortHtmUid (sq s) =? uid_of pkt)));
  do* when (pkt_needsResponse pkt)
        (let* code :=
           if isRead pkt && negb (isInstFetch pkt) && negb (is_cmd HTMStart pkt) then
             if m_commitPending (sq s) then do* massert (is_cmd HTMCommit pkt); ret None
             else let* c := ask getHtmTransactionalReqResponseCode in ret (Some c)
           else ret (Some NO_FAIL) in
         match code with
         | Some c => emit (HtmResponse (pkt <| pkt_htmReturnReason := c |>) c)
         | None => ret tt
         end);
  trySendRetries.

Notation base_make := (base_makeRequest canMakeRequest insertRequest setFlagsPreIssueRequest).

(** Lazy versioning with lazy detection: a store goes to the write buffer
    unless the buffer is being flushed. *)
Definition redirect_store (pkt : SPacket) : M SW RequestStatus :=
  let* s := get in
  if m_atCommit (ctl (wd s)) then base_make pkt
  else match writeBufferHitEvent (sq s) with
  | Some _ => ret RequestStatus_BufferFull
  | None =>
      do* mgr (fun _ => InterfaceManager.redirectStoreToWriteBuffer (sp_pkt pkt));
      do* on_sq (set! writeBufferHitEvent := Some pkt);
      ret RequestStatus_Issued
  end.

(** [true]: the access was the end of a log unroll and is complete. *)
Definition intercept (pkt : SPacket) : M SW bool :=
  match req_vaddr pkt with
  | None => ret false
  | Some vaddr =>
      let* s := get in
      if vaddr =? m_fallbackLockVirtualAddress (arb (wd s)).2 then
        do* mgr (fun _ => on_arb (CommitArbiter.on_htm (setFallbackLockPAddr (getAddr pkt))));
        ret false
      else if lazy_vm params then ret false
      else interceptLogAccess pkt
  end.

Definition makeRequest (pkt : SPacket) : M SW RequestStatus :=
  let* s := get in
  if isHTMCmd pkt then
    do* notifyXactionEvent pkt;
    do* rubyHtmCallback pkt;
    ret RequestStatus_Issued
  else if isHtmTransactional pkt &&
          (isAborting (wd s) || (uid_of pkt =? m_lastAbortHtmUid (sq s))) then
    if m_commitPending (sq s) then panic else
    do* massert (bool_decide (m_failedStorePkt (sq s) = None));
    do* rubyHtmCallback pkt;
    ret RequestStatus_Issued
  else
    let* done := intercept pkt in
    if done then
      do* ruby_hit_callback trySendRetries pkt;
      ret RequestStatus_Issued
    else if lazy_lazy && isHtmTransactional pkt then
      if pkt_isWrite pkt then redirect_store pkt
      else if req_isLockedRMW pkt then panic
      else if isX86 && isRead pkt && req_storeCheck pkt then
        base_make (pkt <| req_storeCheck := false |>)
      else base_make pkt
    else base_make pkt.

(** ** Nacked requests *)

(** The room reserved for a store that was nacked is given back with the
    last store to its line. *)
Definition failedCallbackCleanup (pkt : SPacket) : M SW unit :=
  let* s := get in
  do* massert (m_failedCallback (sq s));
  unless (lazy_vm params)
    (let address := makeLineAddress (getAddr pkt) in
     when (has address (m_pendingLogging (sq s)))
       (let n := length (requests address (sq s)) in
        if negb (pkt_isWrite pkt) then massert (Nat.ltb 1 n)
        else
          let* written := ask (checkWriteSignature address) in
          do* massert (isHtmTransactional pkt && negb written);
          if Nat.eqb n 1 then on_sq (upd! m_pendingLogging ::= delete address)
          else
            let* numStoresFound := numOutstandingWrites address in
            if numStoresFound =? 1 then on_sq (upd! m_pendingLogging ::= delete address)
            else massert (1 <? numStoresFound))).

(** [None]: nothing is left to do for this packet. *)
Definition failure_reason (pkt : SPacket) : M SW (option SPacket) :=
  let* s := get in
  if pkt_isWrite pkt || isAborting (wd s) then
    if pkt_isWrite pkt && config_allowEarlyValueFwd &&
       negb (isBlockConsumed (makeLineAddress (getAddr pkt)) (wd s)) &&
       pkt_isHtmForwardedDataValidation pkt then ret None
    else
      do* when (pkt_isWrite pkt && negb (isAborting (wd s)))
            (let* uid := lift (getHtmTransactionUid pkt) in
             massert (m_lastAbortHtmUid (sq s) =? uid));
      let* reason := ask getHtmTransactionalReqResponseCode in
      ret (Some (pkt <| pkt_htmReturnReason := reason |>))
  else ret (Some pkt).

Definition handleFailedCallback (srequest : SequencerRequest) : M SW unit :=
  let address := makeLineAddress (getAddr (sr_pkt srequest)) in
  let* s := get in
  do* massert (m_failedCallback (sq s));
  let* r := failure_reason (sr_pkt srequest) in
  match r with
  | None => ret tt
  | Some pkt =>
      do* (if is_type Locked_RMW_Read srequest then
             do* massert (isBlocked address (sq s)); unblock address
           else massert (negb (isBlocked address (sq s))));
      let pkt := pkt <| pkt_htmAccessFailed := true |> in
      do* checkForStall pkt;
      if config_allowEarlyValueFwd && pkt_isHtmForwardedDataValidation pkt then ret tt
      else
        do* ruby_hit_callback trySendRetries pkt;
        failedCallbackCleanup pkt
  end.

(** ** Completed accesses *)

Definition validation_callback (pkt : SPacket) : M SW unit :=
  let addr := makeLineAddress (getAddr pkt) in
  do* massert (getSize pkt =? getBlockSizeBytes);
  let* s := get in
  if isAborting (wd s) || isBlockConsumed addr (wd s) then ret tt
  else
    let* uid := if inTransaction (wd s)
                then let* u := lift (getHtmTransactionUid pkt) in ret (Some u) else ret None in
    if bool_decide (uid = Some (m_currentHtmUid (ctl (wd s)))) then
      unless (isConsumer (wd s))
        (when (negb (m_atCommit (ctl (wd s))) && negb (isAborting (wd s)))
           (mgr (fun E' => moveTo (E := E') TRANSACTIONAL)))
    else
      let* u := lift (getHtmTransactionUid pkt) in
      massert (u <=? m_lastAbortHtmUid (sq s)).

(** Early value forwarding: the access is recorded on a consumed or a
    produced block; [None] for a validation, which is complete. *)
Definition forwarding_callback (pkt : SPacket) : M SW (option SPacket) :=
  if config_allowEarlyValueFwd then
    let addr := makeLineAddress (getAddr pkt) in
    let* s := get in
    if pkt_isHtmForwardedDataValidation pkt then
      do* validation_callback pkt; ret None
    else if isBlockConsumed addr (wd s) then
      let* offset := lift (getOffset (getAddr pkt)) in
      do* mgr (fun _ => Forwarding.setAccessOnForwardBlock addr offset (getSize pkt)
                          (pkt_isWrite pkt));
      ret (Some (pkt <| pkt_htmForwardedData := true |>))
    else if isBlockProduced addr (wd s) then
      let* offset := lift (getOffset (getAddr pkt)) in
      do* mgr (fun E' => Forwarding.setAccessOnProducedBlock (E := E') addr offset (getSize pkt)
                           (pkt_isWrite pkt));
      ret (Some pkt)
    else ret (Some pkt)
  else ret (Some pkt).

Definition trans_read_type (t : RubyRequestType) : bool :=
  read_type t || bool_decide (t = Locked_RMW_Read) || bool_decide (t = RMW_Read).

Definition handleTransactionalWrite (pkt : SPacket) : M SW unit :=
  let* s := get in
  do* massert (pkt_isWrite pkt);
  do* massert (isHtmTransactional pkt);
  do* massert (inTransaction (wd s));
  let* written := ask (checkWriteSignature (getAddr pkt)) in
  do* unless written
        (mgr (fun E' => InterfaceManager.isolateTransactionStore (E := E') (getAddr pkt)));
  match req_pc pkt with
  | Some _ => massert (bool_decide (req_vaddr pkt <> None))
  | None =>
      do* massert lazy_lazy;
      do* massert (m_atCommit (ctl (wd s)));
      massert (getSize pkt =? getBlockSizeBytes)
  end.

(** The packet tells the processor that its transaction aborts. *)
Definition handleTransactionalRead (srequest : SequencerRequest) (pkt : SPacket) : M SW SPacket :=
  let* s := get in
  do* massert (trans_read_type (m_type srequest));
  do* massert (isHtmTransactional pkt);
  do* massert (bool_decide (req_pc pkt <> None));
  if isAborting (wd s) then
    let* reason := ask getHtmTransactionalReqResponseCode in
    do* massert (negb (bool_decide (reason = NO_FAIL)) || isCancelledTransaction (wd s));
    ret (pkt <| pkt_htmReturnReason := reason |>)
  else ret pkt.

(** How a transactional access goes on: complete, or to the processor, where
    a load may have to take bytes of the write buffer. *)
Inductive TransHit :=
| Completed (data : DataBlock)
| ToProcessor (pkt : SPacket) (bypassTransLoad : bool).

Definition transactional_callback (srequest : SequencerRequest) (pkt : SPacket)
    (data : DataBlock) : M SW TransHit :=
  if isHtmTransactional pkt then
    let read := trans_read_type (m_type srequest) in
    let* pkt := if read then handleTransactionalRead srequest pkt
                else do* handleTransactionalWrite pkt; ret pkt in
    let* s := get in
    if lazy_lazy then
      if m_atCommit (ctl (wd s)) then
        let* data := if read then ret data
                     else mgr (fun E' => InterfaceManager.mergeDataFromWriteBuffer (E := E')
                                           (sp_pkt pkt) data) in
        do* trySendRetries;
        ret (Completed data)
      else if read then ret (ToProcessor pkt true)
      else throw EAssert
    else ret (ToProcessor pkt false)
  else ret (ToProcessor pkt false).

(** The value checker and the isolation checker watch every access. *)
Definition check_access (srequest : SequencerRequest) (pkt : SPacket) (data : DataBlock)
    : M SW unit :=
  let* s := get in
  let v := sq_version (sq s) in
  do* when (value_checker params)
        (if pkt_isWrite pkt then
           mgr (fun _ => on_vchk (XactValueChecker.notifyWrite v (isHtmTransactional pkt)
                                    (getAddr pkt) (getSize pkt) (pkt_data (sp_pkt pkt))))
         else
           let* offset := lift (getOffset (getAddr pkt)) in
           let* bytes := lift (DataBlock.getData data offset (getSize pkt)) in
           let* passed := lift (XactValueChecker.xactValueCheck v (getAddr pkt) (getSize pkt)
                                  bytes (vchk (wd s))) in
           if passed then ret tt else panic);
  when (isolation_checker params && negb (isAborting (wd s)))
    (let* passed := lift (XactIsolationChecker.checkXACTIsolation v (getAddr pkt)
                            (isHtmTransactional pkt) (m_type srequest) (ichk (wd s))) in
     if passed then ret tt else panic).

(** The response is the packet itself: what is written to it later still
    reaches the processor. *)
Definition patch (p : SPacket) (o : Output) : Output :=
  match o with
  | HitCallback q => if sp_id q =? sp_id p then HitCallback p else o
  | _ => o
  end.

(** ** LogTM: log writes *)

Section nested.
(** [Sequencer::writeCallback] for the store whose log writes are done. *)
Context (storeCallback : Z -> DataBlock -> M SW DataBlock).

(** Both log writes are done: the store they were for completes. *)
Definition store_logged (store_addr address : Z) (data : DataBlock) : M SW unit :=
  do* on_dcache (sc_setHtmLogPending store_addr false);
  let* s := get in
  let* hit := lift (dc_tryCacheAccess store_addr ST (dcache (wd s))) in
  match hit with
  | None => throw EAssert
  | Some storeData =>
      let* storeData := storeCallback store_addr storeData in
      do* on_dcache (sc_write store_addr storeData);
      do* when (value_checker params)
            (mgr (fun _ => on_vchk (XactValueChecker.notifyLoggedDataBlock (sq_version (sq s))
                                      address data)));
      let* s := get in
      do* massert (has store_addr (m_logRequestTable (sq s)));
      on_sq (upd! m_logRequestTable ::= delete store_addr)
  end.

Definition handleStoresToLog (address : Z) (pkt : SPacket) (data : DataBlock) : M SW DataBlock :=
  do* massert (pkt_isWrite pkt);
  let* s := get in
  match pkt_htmStoreToLog pkt with
  | None => throw EAssert
  | Some logged =>
      let store_addr := makeLineAddress logged in
      match m_logRequestTable (sq s) !! store_addr with
      | Some [log] =>
          let log := log <| outstanding ::= fun n => n - 1 |> <| completed ::= Z.add 1 |> in
          do* on_sq (upd! m_logRequestTable ::= <[store_addr := [log]]>);
          let bytes := pkt_data (sp_pkt pkt) in
          let* data :=
            if sp_id pkt =? sp_id (logAddrPkt log) then
              do* massert (le_word bytes =? makeLineAddress (log_vaddr log));
              let* offset := lift (getOffset (getAddr pkt)) in
              lift (DataBlock.setData data bytes offset (getSize pkt))
            else
              do* massert (sp_id pkt =? sp_id (logDataPkt log));
              do* massert (getSize pkt =? getBlockSizeBytes);
              lift (DataBlock.setData data bytes 0 getBlockSizeBytes) in
          do* when ((outstanding log =? 0) && (completed log =? 2))
                (store_logged store_addr address data);
          ret data
      | _ => throw EAssert
      end
  end.

(** [TransactionalSequencer::hitCallback]. *)
Definition hitCallback (srequest : SequencerRequest) (data : DataBlock)
    (llscSuccess was_coalesced : bool) : M SW DataBlock :=
  let* s := get in
  if m_failedCallback (sq s) then do* handleFailedCallback srequest; ret data else
  let* f := forwarding_callback (sr_pkt srequest) in
  match f with
  | None => ret data
  | Some pkt =>
      if isHtmStoreToLog pkt then
        handleStoresToLog (makeLineAddress (getAddr pkt)) pkt data
      else
        do* leave_stall pkt;
        let* t := transactional_callback srequest pkt data in
        match t with
        | Completed data => ret data
        | ToProcessor pkt bypassTransLoad =>
            do* check_access srequest pkt data;
            let* r := base_hitCallback trySendRetries (srequest <| sr_pkt := pkt |>) data
                        llscSuccess in
            do* when bypassTransLoad
                  (let* k := mgr (fun _ => InterfaceManager.bypassLoadFromWriteBuffer
                                             (sp_pkt r.1) r.2) in
                   on_sq (upd! sq_out ::= map (patch (r.1 <| sp_pkt := k |>))));
            ret r.2
        end
  end.
End nested.

(** A log write completes the store it was for, which is transactional and
    therefore no log write: two levels are enough. *)
Definition storeCallback (address : Z) (data : DataBlock) : M SW DataBlock :=
  base_writeCallback trySendRetries setFlagsPreIssueRequest
    (hitCallback (fun _ _ => throw EUndef)) address data false.

Definition seq_writeCallback (address : Z) (data : DataBlock) (noCoales : bool)
    : M SW DataBlock :=
  base_writeCallback trySendRetries setFlagsPreIssueRequest (hitCallback storeCallback)
    address data noCoales.

Definition seq_readCallback (address : Z) (data : DataBlock) : M SW DataBlock :=
  base_readCallback trySendRetries setFlagsPreIssueRequest (hitCallback storeCallback)
    address data.

(** A packet the sequencer creates: a write that is not transactional. *)
Definition new_packet (addr size : Z) (data : list Z) (requestor uid : Z) : M SW SPacket :=
  let* s := get in
  do* on_sq (upd! sq_next_id ::= fun n => n - 1);
  ret (MkSPacket (sq_next_id (sq s) - 1)
         (MkPacket addr size data false false uid (-1) false false HTM.INVALID requestor curTick 0)
         true false false true None false None false false false None None None None
         false false false None false NO_FAIL).

Definition buildLogPackets (mainPkt : SPacket) (datablock : DataBlock) : M SW LogRequestInfo :=
  do* massert (isHtmTransactional mainPkt);
  match req_vaddr mainPkt with
  | None => throw EAssert
  | Some vaddr =>
      let* i := mgr (fun _ => on_evm (EagerVM.buildLogPackets vaddr datablock)) in
      let requestor := req_requestorId (sp_pkt mainPkt) in
      let* d := new_packet (EagerVM.logDataPtr i) getBlockSizeBytes (EagerVM.logDataValue i)
                  requestor (uid_of mainPkt) in
      let* a := new_packet (EagerVM.logAddressPtr i) 8 (le_bytes (EagerVM.logAddressValue i))
                  requestor (uid_of mainPkt) in
      let logged := Some (getAddr mainPkt) in
      ret (MkLogRequestInfo (a <| pkt_htmStoreToLog := logged |>)
             (d <| pkt_htmStoreToLog := logged |>) RequestStatus_NULL RequestStatus_NULL 0 0
             (EagerVM.logIndex i) vaddr (makeLineAddress (getAddr mainPkt)))
  end.

(** One log write, unless it was issued before. *)
Definition issue_log (status : RequestStatus) (pkt : SPacket) : M SW (RequestStatus * Z) :=
  if bool_decide (status = RequestStatus_Issued) then ret (status, 0)
  else
    let* st := base_make pkt in
    ret (st, if bool_decide (st = RequestStatus_Issued) then 1 else 0).

Definition makeLogRequests (log : LogRequestInfo) : M SW (bool * LogRequestInfo) :=
  let* a := issue_log (logAddrPktStatus log) (logAddrPkt log) in
  let log := log <| logAddrPktStatus := a.1 |> <| outstanding ::= Z.add a.2 |> in
  if negb (bool_decide (a.1 = RequestStatus_Issued)) then ret (false, log) else
  let* d := issue_log (logDataPktStatus log) (logDataPkt log) in
  let log := log <| logDataPktStatus := d.1 |> <| outstanding ::= Z.add d.2 |> in
  ret (bool_decide (d.1 = RequestStatus_Issued), log).

(** [true]: the store has to wait until its log writes are done. *)
Definition logTransactionalStores (seq_req : SequencerRequest) (address : Z) (data : DataBlock)
    : M SW bool :=
  do* massert (isHtmTransactional (sr_pkt seq_req));
  do* massert (negb (lazy_vm params));
  do* massert (eager_cd params);
  let* s := get in
  if has address (m_pendingLogging (sq s)) then
    let* written := ask (checkWriteSignature address) in
    do* massert (negb written);
    let* n := numOutstandingWrites address in
    do* massert (0 <? n);
    do* on_dcache (sc_setHtmLogPending address true);
    do* mgr (fun E' => InterfaceManager.isolateTransactionStore (E := E') address);
    do* massert (negb (has address (m_logRequestTable (sq s))));
    let* log := buildLogPackets (sr_pkt seq_req) data in
    let* r := makeLogRequests log in
    let '(issued, log) := r in
    if issued then
      do* on_sq (upd! m_pendingLogging ::= delete address);
      do* on_sq (upd! m_logRequestTable ::= <[address := [log]]>);
      ret true
    else panic
  else ret false.

(** ** Callbacks of the protocol *)

Definition speculative (address : Z) (s : SW) : bool :=
  config_allowEarlyValueFwd && isBlockConsumed address (wd s).

Definition readCallback (address : Z) (data : DataBlock) : M SW DataBlock :=
  let* s := get in
  do* on_sq (set! m_specCallback := speculative address s);
  seq_readCallback address data.

(** A locked read keeps the line blocked until its write. *)
Definition track_locked (address : Z) (trans : bool) (type : RubyRequestType) : M SW unit :=
  when trans
    (let* s := get in
     let n := default 0 (outstandingTransLockedRMWAccesses (sq s) !! address) in
     if bool_decide (type = Locked_RMW_Read) then
       do* massert (n =? 0);
       on_sq (upd! outstandingTransLockedRMWAccesses ::= <[address := 1]>)
     else when (bool_decide (type = Locked_RMW_Write))
       (do* massert (n =? 1);
        on_sq (upd! outstandingTransLockedRMWAccesses ::= delete address))).

(** A block restored from the log is noted for the value checker. *)
Definition note_unrolled (address : Z) (data : DataBlock) : M SW unit :=
  let* s := get in
  when (negb (lazy_vm params) && value_checker params && isUnrollingLog (wd s))
    (let* written := ask (checkWriteSignature address) in
     when written
       (mgr (fun _ => on_vchk (XactValueChecker.notifyUnrolledDataBlock (sq_version (sq s))
                                 address data)))).

Definition rmw_or_write (r : SequencerRequest) : bool :=
  pkt_isWrite (sr_pkt r) || is_type RMW_Read r || is_type Locked_RMW_Read r.

(** The request that decides how a write callback goes on: the first one,
    or on a speculative response the first locked read. *)
Definition deciding_request (spec : bool) (first : SequencerRequest) (l : list SequencerRequest)
    : SequencerRequest :=
  if spec && Nat.ltb 1 (length l)
  then default first (head (filter (fun r => is_type Locked_RMW_Read r = true) l))
  else first.

Definition writeCallback (address : Z) (data : DataBlock) (noCoales : bool) : M SW DataBlock :=
  let* s := get in
  do* massert (negb (m_failedCallback (sq s)));
  do* check_line address;
  let spec := speculative address s in
  do* on_sq (set! m_specCallback := spec);
  match requests address (sq s) with
  | [] => throw EAssert
  | (first :: _) as l =>
      if spec && negb (rmw_or_write first) then
        let* data := seq_readCallback address data in
        do* mgr (fun E' => InterfaceManager.isolateTransactionStore (E := E') address);
        ret data
      else
        let seq_req := deciding_request spec first l in
        do* massert (rmw_or_write seq_req);
        let trans := isHtmTransactional (sr_pkt seq_req) in
        let* skipCallback := if trans && negb (lazy_vm params)
                             then logTransactionalStores seq_req address data
                             else ret false in
        if skipCallback then ret data else
        let* data := seq_writeCallback address data noCoales in
        do* track_locked address trans (m_type seq_req);
        do* note_unrolled address data;
        ret data
  end.

(** A validation reached a line that is gone: its requests are flushed. *)
Definition invalidCallback (address : Z) (data : DataBlock) (write : bool) : M SW DataBlock :=
  let* s := get in
  do* massert (config_allowEarlyValueFwd &&
               (negb (inTransaction (wd s)) ||
                (isBlockConsumed address (wd s) && isAborting (wd s))));
  do* check_line address;
  match requests address (sq s) with
  | [] => panic
  | r :: _ =>
      do* massert (pkt_isHtmForwardedDataValidation (sr_pkt r));
      do* on_sq (set! m_failedCallback := true);
      let* data := if write then seq_writeCallback address data false
                   else seq_readCallback address data in
      do* on_sq (set! m_failedCallback := false);
      ret data
  end.

(** The front requests of all lines that were sent again. *)
Definition getNumReissuedRequests (s : Seq) : res Z :=
  map_fold (fun _ l n =>
      let? n := n in
      match l with
      | [] => Err EUndef
      | r :: _ => Ok (if negb (reissue_time r =? 0) then n + 1 else n)
      end) (Ok 0) (m_RequestTable s).

(** Nothing but retries is outstanding: the processor is stalled. *)
Definition updateReissueTime (address : Z) : M SW unit :=
  let* s := get in
  let l := map (fun r => r <| reissue_time := curCycle |>) (requests address (sq s)) in
  do* set_requests address l;
  let* s := get in
  let* n := lift (getNumReissuedRequests (sq s)) in
  when (n =? Z.of_nat (size (m_RequestTable (sq s))))
    (let l := map (fun r => r <| sr_pkt ::= fun p => p <| pkt_isAtLSQHead := true |> |>) l in
     do* set_requests address l;
     forM l (fun r => checkForStall (sr_pkt r))).

(** Is a request of a nacked line a store, or else a read for a store? *)
Definition any_write (l : list SequencerRequest) : bool :=
  existsb (fun r => pkt_isWrite (sr_pkt r)) l.
Definition any_rmw (l : list SequencerRequest) : bool :=
  existsb (fun r => is_type RMW_Read r || is_type Locked_RMW_Read r) l.

(** The abort flag that a nack of a consumed block raises: the last argument
    is in the position of the write-set flag. *)
Definition nack_consumed (address : Z) (remote_nacker : MachineID) (remote_trans : TransactionBit)
    : M SW unit :=
  let* s := get in
  unless (isAborting (wd s))
    (mgr (fun E' => setAbortFlag (E := E') address remote_nacker remote_trans 0 false
                      (no_flags <| af_wset := true |>))).

Definition failed_write (address : Z) (data : DataBlock) (seq_req : SequencerRequest)
    (l : list SequencerRequest) : M SW unit :=
  let* s := get in
  let pkt := sr_pkt seq_req in
  if any_write l then
    do* massert (bool_decide (m_failedStorePkt (sq s) = None));
    if suppressed seq_req || (isAborting (wd s) && isHtmTransactional pkt) then
      let* _ := seq_writeCallback address data false in ret tt
    else
      do* on_sq (set! m_failedStorePkt := Some (sp_id pkt));
      do* updateReissueTime address;
      let* s := get in
      let pkt := match requests address (sq s) with r :: _ => sr_pkt r | [] => pkt end in
      let* _ := makeRequest pkt in ret tt
  else
    do* massert (any_rmw l);
    let* _ := seq_writeCallback address data false in ret tt.

Definition failedCallback (address : Z) (data : DataBlock) (remote_timestamp : Z)
    (remote_trans : TransactionBit) (remote_priority : Z) (remote_sw_priority : bool)
    (remote_nacker : MachineID) (write : bool) : M SW unit :=
  do* on_sq (set! m_failedCallback := true);
  let* s := get in
  match requests address (sq s) with
  | [] => throw EAssert
  | (seq_req :: _) as l =>
      let pkt := sr_pkt seq_req in
      do* (if config_allowEarlyValueFwd && isBlockConsumed address (wd s)
           then nack_consumed address remote_nacker remote_trans
           else
             let* uid := lift (getHtmTransactionUid pkt) in
             unless (uid =? m_lastAbortHtmUid (sq s))
               (mgr (fun E' => InterfaceManager.notifyReceiveNack (E := E') address
                                 remote_timestamp remote_trans remote_priority
                                 remote_sw_priority remote_nacker write)));
      do* (if write then failed_write address data seq_req l
           else let* _ := seq_readCallback address data in ret tt);
      on_sq (set! m_failedCallback := false)
  end.

(** ** Events *)

Definition writeBufferEvent : M SW unit :=
  let* s := get in
  match writeBufferHitEvent (sq s) with
  | None => throw EAssert
  | Some pkt =>
      do* on_sq (set! writeBufferHitEvent := None);
      ruby_hit_callback trySendRetries pkt
  end.

Definition lazyCommitEvent : M SW unit :=
  let* s := get in
  match lazyCommitCheckEvent (sq s) with
  | None => throw EAssert
  | Some pkt =>
      do* on_sq (set! lazyCommitCheckEvent := None);
      let* _ := makeRequest pkt in ret tt
  end.

(** A validation is a write of the whole line by the running transaction. *)
Definition validateConsumedData (addr : Z) : M SW unit :=
  let* s := get in
  let* p := new_packet addr getBlockSizeBytes [] LazyVM.invldRequestorId
              (m_currentHtmUid (ctl (wd s))) in
  let pkt := p <| sp_pkt ::= fun k => k <| pkt_isHtmTransactional := true |> |>
               <| pkt_isHtmForwardedDataValidation := true |> in
  unless (isAborting (wd s))
    (let* status := makeRequest pkt in
     unless (bool_decide (status = RequestStatus_Issued) ||
             bool_decide (status = RequestStatus_Aliased))
       (mgr (fun _ => Forwarding.scheduleValidationOfConsumedData addr true))).
End ports.

(** ** Retries of the ports

    Each call hands over the next list of [retries]; [n] calls are nested at
    most. *)
Fixpoint send_retries (n : nat) : M SW unit :=
  match n with
  | O => ret tt
  | S n =>
      let* s := get in
      match retries (sq s) with
      | [] => ret tt
      | l :: rest =>
          do* on_sq (set! retries := rest);
          forM l (fun p => let* _ := makeRequest (send_retries n) p in ret tt)
      end
  end.

Definition trySendRetries : M SW unit :=
  let* s := get in send_retries (length (retries (sq s))).
End ops.
