(* ===== verification/SeqInv.v ===== *)
(** * Invariants of the sequencer

    What holds of the request table and of the room for requests between any
    two operations of the sequencer, whatever the processor's ports send in
    between. *)

From S2P Require Import Prelude Address HTM XactProfiler CacheMemory TxState RequestTable Sequencer.
From S2P Require DataBlock LazyVM CommitArbiter EagerVM InterfaceManager Forwarding.
From S2P Require IsolationManager XactIsolationChecker XactValueChecker ConflictManager.
Import DataBlock (DataBlock).

#[local] Open Scope Z_scope.

(** Split off the first operation of a run. *)
Tactic Notation "step" hyp(H) "as" ident(x) ident(s1) ident(Hx) :=
  apply bind_ok in H; destruct H as (x & s1 & Hx & H).

(** ** Counting requests *)

Section totals.
Implicit Types t : gmap Z (list SequencerRequest).

Lemma total_insert_new t a l :
  t !! a = None -> total_requests (<[a := l]> t) = Z.of_nat (length l) + total_requests t.
Proof. intros Ha. unfold total_requests. rewrite map_fold_insert_L; [done| |done]. intros. lia. Qed.

Lemma total_delete t a l :
  t !! a = Some l -> total_requests t = Z.of_nat (length l) + total_requests (delete a t).
Proof.
  intros Ha. rewrite <- (insert_delete_id t a l Ha) at 1.
  apply total_insert_new. apply lookup_delete_eq.
Qed.

Lemma total_insert t a l :
  total_requests (<[a := l]> t) =
  total_requests t - Z.of_nat (length (default [] (t !! a))) + Z.of_nat (length l).
Proof.
  destruct (t !! a) as [l0|] eqn:Ha; cbn [default].
  - rewrite <- insert_delete_eq, total_insert_new by apply lookup_delete_eq.
    rewrite (total_delete t a l0 Ha). unfold default, id. lia.
  - rewrite total_insert_new by done. unfold default. cbn [length]. lia.
Qed.

Lemma total_nonneg t : 0 <= total_requests t.
Proof.
  unfold total_requests. apply (map_fold_weak_ind (fun n _ => 0 <= n)); [done|]. intros. lia.
Qed.

Lemma total_at_least t a : Z.of_nat (length (default [] (t !! a))) <= total_requests t.
Proof.
  destruct (t !! a) as [l|] eqn:Ha; cbn.
  - rewrite (total_delete t a l Ha). pose proof (total_nonneg (delete a t)). lia.
  - apply total_nonneg.
Qed.

Lemma total_pop t a r l :
  t !! a = Some (r :: l) -> total_requests (alter tail a t) = total_requests t - 1.
Proof.
  intros Ha. assert (alter tail a t = <[a := l]> t) as ->.
  { apply map_eq. intros i. rewrite lookup_alter, lookup_insert. by case_decide; subst; rewrite ?Ha. }
  rewrite total_insert, Ha. unfold default, id. cbn [length]. lia.
Qed.

Lemma total_fmap (f : list SequencerRequest -> list SequencerRequest) t :
  (forall l, length (f l) = length l) -> total_requests (f <$> t) = total_requests t.
Proof.
  intros Hf. induction t as [|a l t Ha IH] using map_ind; [by rewrite fmap_empty|].
  rewrite fmap_insert, !total_insert_new, IH, Hf by (rewrite ?lookup_fmap, ?Ha; done). done.
Qed.
End totals.

(** ** Packets that may share a line *)

(** The transaction a packet belongs to, if any. *)
Definition key (p : SPacket) : option Z := if isHtmTransactional p then Some (uid_of p) else None.

Lemma canCoalesceRequest_key pkt r :
  canCoalesceRequest pkt r = bool_decide (key pkt = key (sr_pkt r)).
Proof.
  unfold canCoalesceRequest, key. destruct (isHtmTransactional pkt), (isHtmTransactional (sr_pkt r));
    cbn; try done.
  destruct (Z.eqb_spec (uid_of (sr_pkt r)) (uid_of pkt)) as [He|He]; cbn; symmetry.
  - apply bool_decide_eq_true. by rewrite He.
  - apply bool_decide_eq_false. congruence.
Qed.

(** What the ports send: no log writes. *)
Definition from_port (p : SPacket) : Prop := pkt_htmStoreToLog p = None.

Section inv.
Context `{RS : RubySystem} `{CF : Config} `{E : Env} {C : Type} `{DC : DataCache C}.
Context `{SE : SeqEnv} `{SC : SeqCache C}.
Notation W := (World C).
Notation SW := (SeqWorld C).
Implicit Types (s : SW) (x : Seq) (p : SPacket).

Definition line p : Z := makeLineAddress (getAddr p).

(** A request that waits on line [a]: an access to that line, and a log
    write is for a store to another line. *)
Record waits_on (a : Z) p : Prop := {
  wo_line : line p = a;
  wo_cmd : req_htmCmd p = None;
  wo_log : forall v, pkt_htmStoreToLog p = Some v -> makeLineAddress v <> a
}.

(** The state of the table when [k] requests are completed but not removed
    yet, and only the lists of the lines [busy] may be empty.  The last field is the
    room: every store that still has to log its block finds two free
    entries. *)
Record seq_ok (k : Z) (busy : Z -> Prop) x : Prop := {
  ok_count : total_requests (m_RequestTable x) = m_outstanding_count x + k;
  ok_waits a l r : m_RequestTable x !! a = Some l -> r ∈ l -> waits_on a (sr_pkt r);
  ok_key a l r r' : m_RequestTable x !! a = Some l -> r ∈ l -> r' ∈ l ->
    key (sr_pkt r) = key (sr_pkt r');
  ok_full a : m_RequestTable x !! a = Some [] -> busy a;
  ok_ports : Forall from_port (concat (retries x));
  ok_event p : lazyCommitCheckEvent x = Some p -> from_port p;
  ok_lazy : lazy_vm params = true -> m_pendingLogging x = ∅;
  ok_room : m_outstanding_count x + 2 * Z.of_nat (size (m_pendingLogging x)) <=
            m_max_outstanding_requests x
}.

(** The fields [seq_ok] is about. *)
Definition core x : gmap Z (list SequencerRequest) * Z * Z * gmap Z bool * list (list SPacket) *
    option SPacket :=
  (m_RequestTable x, m_outstanding_count x, m_max_outstanding_requests x, m_pendingLogging x,
   retries x, lazyCommitCheckEvent x).

Lemma seq_ok_core k b x y : core x = core y -> seq_ok k b x -> seq_ok k b y.
Proof. intros [= H1 H2 H3 H4 H5 H6] []. by split; rewrite <- ?H1, <- ?H2, <- ?H3, <- ?H4, <- ?H5, <- ?H6. Qed.

Definition len (a : Z) s : nat := length (requests a (sq s)).

(** What every request of the processor respects. *)
Definition safe s s' : Prop :=
  forall k b, seq_ok k b (sq s) -> seq_ok k b (sq s') /\ (forall a, (len a s <= len a s')%nat).

#[export] Instance safe_preorder : PreOrder safe.
Proof.
  split; [done|]. intros s1 s2 s3 H1 H2 k b Hok. destruct (H1 k b Hok) as [Hok2 Hl1].
  destruct (H2 k b Hok2) as [Hok3 Hl2]. split; [done|].
  intros a. specialize (Hl1 a). specialize (Hl2 a). lia.
Qed.

Definition same_core : relation SW := same_field (fun s => core (sq s)).

Lemma same_core_safe s s' : same_core s s' -> safe s s'.
Proof.
  intros H k b Hok. split; [eapply seq_ok_core; [symmetry; exact H|done]|]. intros a. unfold len, requests.
  injection H as Ht _ _ _ _ _. by rewrite Ht.
Qed.

Lemma keeps_core_safe {A} (m : M SW A) : keeps same_core m -> keeps safe m.
Proof. apply keeps_mono. intros s s'. apply same_core_safe. Qed.

(** ** Operations that leave the table alone *)

Lemma mgr_run {A} (m : Env -> M W A) s a s' :
  mgr m s = Ok (a, s') -> sq s' = sq s /\ peers s' = peers s.
Proof. unfold mgr. destruct (m _ _) as [[b w]|]; [|done]. by intros [= <- <-]. Qed.

Lemma keeps_mgr {A} (m : Env -> M W A) : keeps same_core (mgr m).
Proof. intros s a s' H. apply mgr_run in H as [H _]. unfold same_core, same_field. by rewrite H. Qed.

Lemma keeps_ask {A} (f : W -> res A) : keeps same_core (ask f).
Proof. unfold ask, same_core. keeps. Qed.

Lemma keeps_emit o : keeps same_core (emit o).
Proof. unfold emit, on_sq, same_core. keeps. Qed.

Lemma keeps_on_dcache f : keeps same_core (on_dcache f).
Proof. unfold on_dcache, same_core. keeps. Qed.

Lemma keeps_blockOnQueue a : keeps same_core (blockOnQueue a).
Proof. unfold blockOnQueue, on_sq, same_core. keeps. Qed.

Lemma keeps_unblock a : keeps same_core (unblock a).
Proof. unfold unblock, on_sq, same_core. keeps. Qed.

Hint Resolve keeps_mgr keeps_ask keeps_emit keeps_on_dcache keeps_blockOnQueue keeps_unblock : keeps.
Hint Extern 3 (keeps safe _) => (apply keeps_core_safe) : keeps.

Lemma keeps_set_sq (f : Seq -> Seq) :
  (forall x, core (f x) = core x) -> keeps same_core (on_sq (modify f)).
Proof. intros H s a s' [= _ <-]. apply H. Qed.

Hint Extern 1 (keeps same_core (on_sq (modify _))) =>
  (apply keeps_set_sq; intros ?; reflexivity) : keeps.
Hint Extern 1 (keeps same_core (modify _)) =>
  (intros ? ? ? [= _ <-]; reflexivity) : keeps.

Lemma keeps_llscLoadLinked a : keeps same_core (llscLoadLinked a).
Proof. unfold llscLoadLinked. keeps. Qed.

Lemma keeps_llscClearMonitor a : keeps same_core (llscClearMonitor a).
Proof. unfold llscClearMonitor. keeps. Qed.

Lemma keeps_llscStoreConditional a : keeps same_core (llscStoreConditional a).
Proof. unfold llscStoreConditional. keeps. Qed.

Lemma keeps_checkForStall p : keeps same_core (checkForStall p).
Proof. unfold checkForStall. keeps. Qed.

Lemma keeps_leave_stall p : keeps same_core (leave_stall p).
Proof. unfold leave_stall. keeps. Qed.

Lemma keeps_setFlags p msg : keeps same_core (setFlagsPreIssueRequest p msg).
Proof. unfold setFlagsPreIssueRequest. keeps. Qed.

Lemma keeps_issueRequest p t : keeps same_core (issueRequest setFlagsPreIssueRequest p t).
Proof. unfold issueRequest. keeps. apply keeps_setFlags. Qed.

Lemma keeps_release_locked : keeps same_core release_locked.
Proof. unfold release_locked. keeps. Qed.

Lemma keeps_intercept p : keeps same_core (intercept p).
Proof. unfold intercept, interceptLogAccess. keeps. Qed.

Lemma keeps_numOutstandingWrites a : keeps same_core (numOutstandingWrites a).
Proof. unfold numOutstandingWrites. keeps. Qed.

Lemma keeps_forwarding_callback p : keeps same_core (forwarding_callback p).
Proof. unfold forwarding_callback, validation_callback. keeps. Qed.

Lemma keeps_check_access r p d : keeps same_core (check_access r p d).
Proof. unfold check_access. keeps. Qed.

Lemma keeps_handleTransactionalRead r p : keeps same_core (handleTransactionalRead r p).
Proof. unfold handleTransactionalRead. keeps. Qed.

Lemma keeps_handleTransactionalWrite p : keeps same_core (handleTransactionalWrite p).
Proof. unfold handleTransactionalWrite. keeps. Qed.

Hint Resolve keeps_llscLoadLinked keeps_llscClearMonitor keeps_llscStoreConditional
  keeps_checkForStall keeps_leave_stall keeps_issueRequest keeps_release_locked keeps_intercept
  keeps_numOutstandingWrites keeps_forwarding_callback keeps_check_access
  keeps_handleTransactionalRead keeps_handleTransactionalWrite keeps_setFlags : keeps.

(** ** Admission *)

(** A store that will have to log its block. *)
Definition will_log p s : bool :=
  pkt_isWrite p && isHtmTransactional p &&
  (match checkWriteSignature (line p) (wd s) with Ok b => negb b | Err _ => false end) &&
  negb (has (line p) (m_pendingLogging (sq s))).

Definition is_failed p s : Prop := m_failedStorePkt (sq s) = Some (sp_id p).

Lemma num_reserved_run p s n s' :
  from_port p -> num_reserved_mshrs p s = Ok (n, s') ->
  s' = s /\ n = 2 * Z.of_nat (size (m_pendingLogging (sq s))) + (if will_log p s then 2 else 0).
Proof.
  intros Hp H. unfold num_reserved_mshrs, will_log in *. rewrite Hp in H. m_inv.
  destruct (pkt_isWrite p && isHtmTransactional p); cbn [andb]; m_inv; [|split; [done|lia]].
  unfold ask in *. m_inv. split; [done|]. fold (line p) in *.
  match goal with H : checkWriteSignature _ _ = Ok _ |- _ => rewrite H end.
  destruct x; cbn [negb andb]; [lia|]. destruct (has _ _); cbn [negb]; lia.
Qed.

(** Admitted: the request waits already, or there is room for it and for the
    log writes it will need. *)
Lemma canMakeRequest_run p s b s' :
  from_port p -> req_htmCmd p = None -> canMakeRequest p s = Ok (b, s') ->
  s' = s /\ (b = true -> ~ is_failed p s ->
    if lazy_vm params then m_outstanding_count (sq s) < m_max_outstanding_requests (sq s)
    else m_outstanding_count (sq s) + 2 * Z.of_nat (size (m_pendingLogging (sq s))) +
         (if will_log p s then 2 else 0) < m_max_outstanding_requests (sq s)).
Proof.
  intros Hp Hc H. unfold canMakeRequest in H. m_inv.
  assert (x0 = s /\ x = if lazy_vm params then 0
    else 2 * Z.of_nat (size (m_pendingLogging (sq s))) + (if will_log p s then 2 else 0))
    as [-> ->].
  { destruct (lazy_vm params); [m_inv; done|]. by apply num_reserved_run in H. }
  split; [done|]. intros Hb Hf. rewrite bool_decide_eq_false_2 in Hb by done. cbn [orb] in Hb.
  unfold is_cmd in Hb. rewrite Hc, bool_decide_eq_false_2, andb_true_r in Hb by done.
  apply negb_true_iff, Z.leb_gt in Hb. destruct (lazy_vm params); lia.
Qed.

(** A request enters its list, and [logs] tells whether it reserves the room
    for its log writes. *)
Record inserted p (logs : bool) x x' : Prop := {
  in_table : exists r, sr_pkt r = p /\
    m_RequestTable x' = <[line p := requests (line p) x ++ [r]]> (m_RequestTable x);
  in_key r : last (requests (line p) x) = Some r -> key p = key (sr_pkt r);
  in_count : m_outstanding_count x' = m_outstanding_count x + 1;
  in_max : m_max_outstanding_requests x' = m_max_outstanding_requests x;
  in_pending : m_pendingLogging x' =
    if logs then <[line p := true]> (m_pendingLogging x) else m_pendingLogging x;
  in_new : logs = true -> m_pendingLogging x !! line p = None;
  in_retries : retries x' = retries x;
  in_event : lazyCommitCheckEvent x' = lazyCommitCheckEvent x
}.

Lemma requests_lookup a x l : m_RequestTable x !! a = Some l -> requests a x = l.
Proof. unfold requests. by intros ->. Qed.

Lemma elem_requests a x r :
  r ∈ requests a x -> exists l, m_RequestTable x !! a = Some l /\ r ∈ l.
Proof.
  unfold requests. destruct (m_RequestTable x !! a) as [l|]; cbn; [eauto|]. by intros ?%elem_of_nil.
Qed.

Lemma ok_same_key k b x a r r' :
  seq_ok k b x -> last (requests a x) = Some r -> r' ∈ requests a x ->
  key (sr_pkt r') = key (sr_pkt r).
Proof.
  intros Hok Hl Hr'. apply last_Some_elem_of in Hl.
  apply elem_requests in Hr' as (l & Ha & Hr'). rewrite (requests_lookup _ _ _ Ha) in Hl.
  by eapply ok_key.
Qed.

Lemma seq_ok_inserted k b x x' p logs :
  seq_ok k b x -> inserted p logs x x' -> waits_on (line p) p ->
  (lazy_vm params = true -> logs = false) ->
  m_outstanding_count x + 2 * Z.of_nat (size (m_pendingLogging x)) + (if logs then 2 else 0) <
    m_max_outstanding_requests x ->
  seq_ok k b x'.
Proof.
  intros Hok [(r & Hr & Ht) Hk Hc Hm Hp Hn Hre Hev] Hw Hlz Hroom.
  assert (forall r', r' ∈ requests (line p) x ++ [r] ->
    waits_on (line p) (sr_pkt r') /\ key (sr_pkt r') = key p) as Hnew.
  { intros r' [Hr'|Hr'%list_elem_of_singleton]%elem_of_app; [|by subst].
    split; [apply elem_requests in Hr' as (l & Ha & Hr'); by eapply ok_waits|].
    destruct (last (requests (line p) x)) as [r0|] eqn:El.
    - rewrite (Hk r0 eq_refl). by eapply ok_same_key.
    - apply last_None in El. rewrite El in Hr'. by apply elem_of_nil in Hr'. }
  split.
  - rewrite Ht, Hc, total_insert. fold (requests (line p) x). rewrite length_app; cbn [length].
    pose proof (ok_count _ _ _ Hok). unfold requests. lia.
  - rewrite Ht. intros a l r' [[<- <-]|[_ Ha]]%lookup_insert_Some Hr'; [by apply Hnew|].
    by eapply ok_waits.
  - rewrite Ht. intros a l r1 r2 [[<- <-]|[_ Ha]]%lookup_insert_Some H1 H2; [|by eapply ok_key].
    destruct (Hnew _ H1) as [_ ->], (Hnew _ H2) as [_ ->]. done.
  - rewrite Ht. intros a [[_ H]|[_ Ha]]%lookup_insert_Some; [|by eapply ok_full].
    by apply app_nil in H as [_ ?].
  - rewrite Hre. by eapply ok_ports.
  - rewrite Hev. by eapply ok_event.
  - intros Hl. rewrite Hp, (Hlz Hl). by eapply ok_lazy.
  - rewrite Hc, Hm, Hp. destruct logs; [|lia].
    rewrite map_size_insert_None by auto. lia.
Qed.

Lemma on_sq_ok f s u s' : on_sq (modify f) s = Ok (u, s') -> s' = s <| sq := f (sq s) |>.
Proof. by intros [= _ <-]. Qed.

(** Inversion of a run, through the assignments to the sequencer's fields. *)
Ltac q_inv :=
  m_inv;
  repeat (match goal with
  | H : on_sq (modify _) _ = Ok _ |- _ => apply on_sq_ok in H; subst
  | H : set_requests _ _ _ = Ok _ |- _ => apply on_sq_ok in H; subst
  | H : markRemoved _ = Ok _ |- _ => apply on_sq_ok in H; subst
  | H : pop_front _ _ = Ok _ |- _ => apply on_sq_ok in H; subst
  | H : when ?b _ _ = Ok _ |- _ => destruct b eqn:?; cbn [when] in H
  | H : unless ?b _ _ = Ok _ |- _ => destruct b eqn:?; cbn [unless] in H
  end; m_inv).

Lemma base_insertRequest_run p t1 t2 s st s' :
  base_insertRequest p t1 t2 s = Ok (st, s') ->
  wd s' = wd s /\
  ((st = RequestStatus_AliasedNotIssued /\ core (sq s') = core (sq s)) \/
   ((st = RequestStatus_Ready \/ st = RequestStatus_Aliased) /\ inserted p false (sq s) (sq s'))).
Proof.
  unfold base_insertRequest. intros H. step H as w s0 H0. apply get_ok in H0 as [-> ->].
  step H as u s1 H1.
  assert (wd s1 = wd s /\ core (sq s1) = core (sq s)) as [Hw Hc].
  { q_inv; done. }
  clear H1. fold (line p) in *.
  destruct (match last _ with Some _ => _ | None => _ end) eqn:Hco; cbn [negb] in H; q_inv;
    [|split; [done|by left]].
  split; [exact Hw|]. right. split; [destruct (Nat.ltb _ _); auto|].
  injection Hc as Ht Hn Hm Hp Hr He. split; cbn; try congruence.
  - eexists. split; [|by rewrite Ht]. done.
  - intros r Hr'. rewrite Hr' in Hco. rewrite canCoalesceRequest_key in Hco.
    by apply bool_decide_eq_true in Hco.
  - rewrite Hn. lia.
Qed.

Lemma ask_ok {A} (f : W -> res A) s a s' : ask f s = Ok (a, s') -> s' = s /\ f (wd s) = Ok a.
Proof. unfold ask. intros H. m_inv. done. Qed.

Lemma numOutstandingWrites_ok a s n s' : numOutstandingWrites a s = Ok (n, s') -> s' = s.
Proof. unfold numOutstandingWrites. intros H. by m_inv. Qed.

Lemma reserve_logging_run p st s u s' :
  reserve_logging p st s = Ok (u, s') ->
  s' = s \/
  (will_log p s = true /\ (st = RequestStatus_Ready \/ st = RequestStatus_Aliased) /\
   s' = s <| sq := (sq s) <| m_pendingLogging ::= <[line p := true]> |> |>).
Proof.
  unfold reserve_logging. intros H. step H as w s0 H0. fold (line p) in *.
  assert (s0 = s /\ (w = false -> pkt_isWrite p && isHtmTransactional p = true /\
            checkWriteSignature (line p) (wd s) = Ok false)) as [-> Hw].
  { destruct (pkt_isWrite p && isHtmTransactional p); [|m_inv; done].
    apply ask_ok in H0 as [-> H0]. split; [done|]. by intros ->. }
  destruct w; cbn [unless] in H; [m_inv; by left|]. destruct (Hw eq_refl) as [Hp Hsig].
  clear H0 Hw.
  step H as w s0 H1. apply get_ok in H1 as [-> ->].
  assert (negb (has (line p) (m_pendingLogging (sq s))) = true -> will_log p s = true) as Hlog.
  { intros Hn. unfold will_log. by rewrite Hp, Hsig, Hn. }
  destruct st; q_inv; try (by left); try (right; split; [by apply Hlog|auto]).
  match goal with H : numOutstandingWrites _ _ = Ok _ |- _ => apply numOutstandingWrites_ok in H end.
  subst. m_case; q_inv; (by left) || (right; split; [by apply Hlog|auto]).
Qed.

Lemma insertRequest_run p t1 t2 s st s' :
  insertRequest p t1 t2 s = Ok (st, s') ->
  core (sq s') = core (sq s) \/
  (~ is_failed p s /\ exists logs, inserted p logs (sq s) (sq s') /\
    (logs = true -> lazy_vm params = false /\ will_log p s = true)).
Proof.
  unfold insertRequest. intros H. step H as w s0 H0. apply get_ok in H0 as [-> ->].
  case_bool_decide as Hf; [q_inv; by left|].
  step H as st1 s1 H1. step H as u s2 H2. step H as u2 s3 H3. step H as u3 s4 H4. m_inv.
  assert (s2 = s1) as -> by (q_inv; done). clear H2.
  assert (core (sq s4) = core (sq s3)) as Hc.
  { assert (keeps same_core (unless (precise_read_set_tracking params)
      (isolate_issued p t1 t2 st1))) as K by (unfold isolate_issued; keeps).
    by apply K in H4. }
  clear H4. apply base_insertRequest_run in H1 as [Hw Hi].
  assert (s3 = s1 \/ (lazy_vm params = false /\ will_log p s1 = true /\
    (st1 = RequestStatus_Ready \/ st1 = RequestStatus_Aliased) /\
    s3 = s1 <| sq := (sq s1) <| m_pendingLogging ::= <[line p := true]> |> |>)) as Hs3.
  { destruct (lazy_vm params); cbn [unless] in H3; [q_inv; by left|].
    apply reserve_logging_run in H3 as [->|(? & ? & ->)]; [by left|by right]. }
  clear H3. destruct Hi as [[-> Hcore]|[Hst Hi]].
  - left. destruct Hs3 as [->|(_ & _ & [?|?] & _)]; congruence.
  - right. split; [done|]. destruct Hs3 as [->|(Hlz & Hlog & _ & ->)].
    + exists false. split; [|done]. destruct Hi. injection Hc as ? ? ? ? ? ?.
      split; [destruct in_table0 as (r & ? & ?); exists r; split; congruence|..];
        (congruence || auto).
    + assert (will_log p s = true) as Hlog'.
      { unfold will_log in *. rewrite Hw in Hlog. by rewrite <- (in_pending _ _ _ _ Hi). }
      exists true. split; [|done]. destruct Hi. injection Hc as ? ? ? ? ? ?. cbn in *.
      split; [destruct in_table0 as (r & ? & ?); exists r; split; congruence|..];
        try (congruence || done).
      * intros _. unfold will_log in Hlog'. apply andb_true_iff in Hlog' as [_ Hh].
        by apply negb_true_iff, has_false in Hh.
Qed.

Lemma canMakeRequest_same p s b s' : canMakeRequest p s = Ok (b, s') -> s' = s.
Proof.
  unfold canMakeRequest, num_reserved_mshrs. intros H. step H as n s1 H1.
  assert (s1 = s) as ->; [|by m_inv]. destruct (lazy_vm params); [by m_inv|].
  step H1 as w s2 H2. m_inv. destruct (_ && _); q_inv.
  - by apply ask_ok in H as [-> _].
  - destruct (pkt_htmStoreToLog p); by m_inv.
Qed.

Lemma inserted_len p logs s s' a :
  inserted p logs (sq s) (sq s') -> (len a s <= len a s')%nat.
Proof.
  intros [(r & _ & Ht) _ _ _ _ _ _ _]. unfold len, requests. rewrite Ht.
  destruct (decide (a = line p)) as [->|Hne].
  - rewrite lookup_insert_eq. cbn. rewrite length_app. unfold requests. lia.
  - by rewrite lookup_insert_ne.
Qed.

(** A request that waits already, or one from the ports. *)
Definition sendable p s : Prop := req_htmCmd p = None /\ (from_port p \/ is_failed p s).

Notation base_make := (base_makeRequest canMakeRequest insertRequest setFlagsPreIssueRequest).

Lemma base_make_safe p s st s' : sendable p s -> base_make p s = Ok (st, s') -> safe s s'.
Proof.
  intros [Hc Hp] H. unfold base_makeRequest in H. step H as can s1 H1.
  pose proof (canMakeRequest_same _ _ _ _ H1) as ->.
  destruct can; cbn [negb] in H; [|m_inv; done].
  step H as ts s2 H2. apply lift_ok in H2 as [_ ->]. destruct ts as [t1 t2].
  step H as w s2 H2. apply get_ok in H2 as [-> ->].
  destruct (_ && _) in H; [m_inv; done|]. step H as st1 s2 H2.
  assert (safe s2 s') as Hs2.
  { destruct st1; m_inv; try done. kept same_core in H by (keeps). by apply same_core_safe. }
  etrans; [|exact Hs2]. clear H Hs2.
  apply insertRequest_run in H2 as [Hcore|(Hf & logs & Hi & Hl)]; [by apply same_core_safe|].
  destruct Hp as [Hp|]; [|done].
  apply canMakeRequest_run in H1 as [_ Hroom]; [|done..]. specialize (Hroom eq_refl Hf).
  intros k b Hok. split; [|intros a; by eapply inserted_len].
  eapply seq_ok_inserted; [done..| | |].
  - split; [done|done|]. intros v Hv. by rewrite Hp in Hv.
  - intros Hlz. destruct logs; [|done]. destruct (Hl eq_refl). congruence.
  - destruct (lazy_vm params) eqn:Hlz.
    + destruct logs; [by destruct (Hl eq_refl)|]. rewrite (ok_lazy _ _ _ Hok Hlz), map_size_empty. lia.
    + destruct logs; [destruct (Hl eq_refl) as [_ Hw]; rewrite Hw in Hroom; lia|].
      destruct (will_log p s); lia.
Qed.

(** ** Requests of the processor *)

Lemma seq_ok_suppress k b x :
  seq_ok k b x -> seq_ok k b (x <| m_RequestTable ::= fmap (map suppress) |>).
Proof.
  intros []. assert (forall r, sr_pkt (suppress r) = sr_pkt r) as Hs.
  { intros r. unfold suppress. by destruct (isHtmTransactional _). }
  split; cbn; try done.
  - rewrite total_fmap by apply length_map. done.
  - intros a l r. rewrite lookup_fmap. intros (l0 & Hl & ->)%fmap_Some (r0 & -> & Hr)%list_elem_of_fmap.
    rewrite Hs. eauto.
  - intros a l r r'. rewrite lookup_fmap. intros (l0 & Hl & ->)%fmap_Some
      (r0 & -> & Hr)%list_elem_of_fmap (r1 & -> & Hr1)%list_elem_of_fmap. rewrite !Hs. eauto.
  - intros a. rewrite lookup_fmap. intros (l0 & Hl & H0)%fmap_Some. symmetry in H0.
    apply map_eq_nil in H0 as ->. eauto.
Qed.

Lemma safe_suppress : keeps safe suppressOutstandingRequests.
Proof.
  unfold suppressOutstandingRequests. intros s u s' H k b Hok. q_inv. split.
  - by apply seq_ok_suppress.
  - intros a. unfold len, requests. cbn. rewrite lookup_fmap.
    destruct (m_RequestTable (sq s) !! a); cbn; [by rewrite length_map|done].
Qed.

Lemma safe_schedule p : from_port p -> keeps safe (schedule_commit_check p).
Proof.
  intros Hp. unfold schedule_commit_check. intros s u s' H. m_inv.
  destruct (lazyCommitCheckEvent (sq s)) eqn:He; q_inv; [done|].
  intros k b Hok. split; [|done]. destruct Hok. split; try done. cbn. by intros q [= <-].
Qed.
Hint Resolve safe_suppress safe_schedule : keeps.

Lemma safe_abort p : keeps safe (abortTransaction p).
Proof. unfold abortTransaction. keeps. Qed.
Hint Resolve safe_abort : keeps.

Lemma safe_command p : from_port p -> keeps safe (notifyXactionEvent p).
Proof.
  intros Hp. unfold notifyXactionEvent, command_aborting, command_start, command_commit,
    command_isolate. keeps.
Qed.

(** ** With the ports' retries *)

Lemma keeps_mgr_sq {A} (m : Env -> M W A) : keeps (same_field sq) (mgr m).
Proof. intros s a s' H. by apply mgr_run in H as [H _]. Qed.

Lemma keeps_ask_sq {A} (f : W -> res A) : keeps (same_field sq) (ask f).
Proof. intros s a s' H. by apply ask_ok in H as [-> _]. Qed.

Lemma intercept_sq p : keeps (same_field (sq (C := C))) (intercept p).
Proof. unfold intercept, interceptLogAccess. keeps; (apply keeps_mgr_sq || apply keeps_ask_sq). Qed.

Section ports.
Context (retry : M SW unit) (Hretry : keeps safe retry).
Hint Resolve Hretry : keeps.

Lemma safe_hit_callback p : keeps safe (ruby_hit_callback retry p).
Proof. unfold ruby_hit_callback. keeps. Qed.
Hint Resolve safe_hit_callback : keeps.

Lemma safe_rubyHtmCallback p : keeps safe (rubyHtmCallback retry p).
Proof. unfold rubyHtmCallback. keeps. Qed.

Lemma sendable_mono p s s' : sq s' = sq s -> sendable p s -> sendable p s'.
Proof. unfold sendable, is_failed. by intros ->. Qed.

Lemma redirect_store_safe p s st s' :
  sendable p s -> redirect_store p s = Ok (st, s') -> safe s s'.
Proof.
  intros Hp H. unfold redirect_store in H. step H as w s0 H0. apply get_ok in H0 as [-> ->].
  destruct (m_atCommit _); [by eapply base_make_safe|].
  destruct (writeBufferHitEvent _); [by m_inv|].
  kept same_core in H by (keeps). by apply same_core_safe.
Qed.

Lemma makeRequest_safe p s st s' :
  from_port p \/ sendable p s -> makeRequest retry p s = Ok (st, s') -> safe s s'.
Proof.
  intros Hp H. unfold makeRequest in H. step H as w s0 H0. apply get_ok in H0 as [-> ->].
  destruct (isHTMCmd p) eqn:Hcmd.
  { destruct Hp as [Hp|[Hc _]]; [|by unfold isHTMCmd in Hcmd; rewrite Hc in Hcmd].
    kept safe in H by (keeps; [by apply safe_command|apply safe_rubyHtmCallback]). done. }
  assert (sendable p s) as Hs.
  { destruct Hp as [Hp|]; [|done]. split; [|by left].
    unfold isHTMCmd in Hcmd. apply bool_decide_eq_false in Hcmd. by apply dec_stable in Hcmd. }
  destruct (_ && _) in H.
  { kept safe in H by (keeps; apply safe_rubyHtmCallback). done. }
  step H as done s1 H1. pose proof (intercept_sq p s done s1 H1) as Hsq.
  kept same_core in H1 by (keeps). etrans; [by apply same_core_safe|].
  apply (sendable_mono _ _ s1) in Hs; [|done].
  destruct done; [by kept safe in H by (keeps)|].
  destruct (_ && _) in H; [|by eapply base_make_safe].
  destruct (pkt_isWrite p); [by eapply redirect_store_safe|].
  destruct (req_isLockedRMW p); [m_inv|].
  destruct (_ && _) in H; (eapply base_make_safe; [|exact H]; exact Hs).
Qed.

Lemma safe_makeRequest p : from_port p -> keeps safe (makeRequest retry p).
Proof. intros Hp s st s'. apply makeRequest_safe. by left. Qed.
End ports.

Lemma safe_send_retries n : keeps safe (send_retries n).
Proof.
  induction n as [|n IH]; cbn [send_retries]; [keeps|]. intros s u s' H.
  step H as w s0 H0. apply get_ok in H0 as [-> ->].
  destruct (retries (sq s)) as [|l rest] eqn:Hr; [by m_inv|].
  step H as w s1 H1. apply on_sq_ok in H1 as ->. intros k b Hok.
  pose proof (ok_ports _ _ _ Hok) as Hp. rewrite Hr in Hp. cbn in Hp.
  apply Forall_app in Hp as [Hl Hrest].
  assert (keeps safe (forM l (fun p => let* _ := makeRequest (send_retries n) p in ret tt))) as K.
  { clear -Hl IH. induction Hl as [|p l Hp Hl IHl]; cbn [forM]; [keeps|].
    apply keeps_bind; [typeclasses eauto| |done]. keeps. by apply safe_makeRequest. }
  apply K in H. apply (H k b). destruct Hok. split; try done.
Qed.

Lemma safe_trySendRetries : keeps safe trySendRetries.
Proof. unfold trySendRetries. keeps. apply safe_send_retries. Qed.

(** ** Completion *)

(** Like [safe], for the lists of some lines only. *)
Definition safe_on (P : Z -> Prop) s s' : Prop :=
  forall k b, seq_ok k b (sq s) ->
    seq_ok k b (sq s') /\ (forall a, P a -> (len a s <= len a s')%nat).

#[export] Instance safe_on_preorder P : PreOrder (safe_on P).
Proof.
  split; [done|]. intros s1 s2 s3 H1 H2 k b Hok. destruct (H1 k b Hok) as [Hok2 Hl1].
  destruct (H2 k b Hok2) as [Hok3 Hl2]. split; [done|].
  intros a Ha. specialize (Hl1 a Ha). specialize (Hl2 a Ha). lia.
Qed.

Lemma safe_safe_on P s s' : safe s s' -> safe_on P s s'.
Proof. intros H k b Hok. destruct (H k b Hok). split; auto. Qed.

Lemma keeps_safe_on {A} P (m : M SW A) : keeps safe m -> keeps (safe_on P) m.
Proof. apply keeps_mono. intros s s'. apply safe_safe_on. Qed.

Lemma seq_ok_weaken k (b b' : Z -> Prop) x :
  (forall a, b a -> b' a) -> seq_ok k b x -> seq_ok k b' x.
Proof. intros H []. split; eauto. Qed.

Lemma seq_ok_removed k b s s' :
  markRemoved s = Ok (tt, s') -> seq_ok k b (sq s) -> seq_ok (k + 1) b (sq s').
Proof. intros H []. q_inv. split; cbn; try done; lia. Qed.

Lemma lookup_pop (t : gmap Z (list SequencerRequest)) a a' l :
  alter tail a t !! a' = Some l ->
  exists l0, t !! a' = Some l0 /\ (forall r, r ∈ l -> r ∈ l0) /\ (l = [] -> a' = a \/ l0 = []).
Proof.
  intros [[<- (l0 & Hl & ->)]|[Hne Hl]]%lookup_alter_Some.
  - exists l0. split; [done|]. split; [|by left]. destruct l0; [done|]. intros r. by right.
  - exists l. split; [done|]. split; [done|]. by right.
Qed.

Lemma seq_ok_popped k (b : Z -> Prop) a s s' :
  pop_front a s = Ok (tt, s') -> b a -> (0 < len a s)%nat ->
  seq_ok (k + 1) b (sq s) -> seq_ok k b (sq s') /\
  (forall a', a' <> a -> len a' s' = len a' s).
Proof.
  intros H Hb Hlen []. q_inv. split; cbn.
  - split; cbn; try done.
    + unfold len, requests in Hlen.
      destruct (m_RequestTable (sq s) !! a) as [[|r l]|] eqn:Ha; cbn in Hlen; try lia.
      rewrite (total_pop _ _ _ _ Ha). lia.
    + intros a' l r (l0 & Hl0 & Hin & _)%lookup_pop Hr. eauto.
    + intros a' l r r' (l0 & Hl0 & Hin & _)%lookup_pop Hr Hr'. eauto.
    + intros a' (l0 & Hl0 & _ & Hn)%lookup_pop. destruct (Hn eq_refl) as [->| ->]; [done|eauto].
  - intros a' Hne. unfold len, requests. cbn. by rewrite lookup_alter_ne.
Qed.

Lemma core_len s s' a : same_core s s' -> len a s' = len a s.
Proof. intros [= Ht _ _ _ _ _]. unfold len, requests. by rewrite Ht. Qed.

Lemma removed_len s s' a : markRemoved s = Ok (tt, s') -> len a s' = len a s.
Proof. intros H. by q_inv. Qed.

Lemma front_waits k b x a r l :
  seq_ok k b x -> requests a x = r :: l -> waits_on a (sr_pkt r).
Proof.
  intros Hok Hr. assert (r ∈ requests a x) as Hin by (rewrite Hr; left).
  apply elem_requests in Hin as (l' & Ha & Hin). by eapply ok_waits.
Qed.

Section loops.
Context (hit : SequencerRequest -> DataBlock -> bool -> bool -> M SW DataBlock).
Context (P : Z -> Prop) (a : Z).
Context (Hhit : forall r d l c, waits_on a (sr_pkt r) -> keeps (safe_on P) (hit r d l c)).

(** One request is completed and stays at the front of its list. *)
Definition one_completed s s' : Prop := forall k b, seq_ok k b (sq s) ->
  seq_ok (k + 1) b (sq s') /\ (forall a', P a' -> (len a' s <= len a' s')%nat).

Lemma completed_hit r d l c s d' s' :
  waits_on a (sr_pkt r) -> (do* markRemoved; hit r d l c) s = Ok (d', s') -> one_completed s s'.
Proof.
  intros Hw H k b Hok. step H as u s1 H1. destruct u.
  pose proof (seq_ok_removed _ _ _ _ H1 Hok) as Hok1.
  apply (Hhit _ _ _ _ Hw) in H. destruct (H _ _ Hok1) as [Hok' Hlen]. split; [done|].
  intros a' Ha'. rewrite <- (removed_len _ _ a' H1). auto.
Qed.

Lemma complete_write_ok r d rr s d' s' :
  waits_on a (sr_pkt r) -> complete_write hit a r d rr s = Ok (d', s') -> one_completed s s'.
Proof.
  intros Hw H k b Hok. unfold complete_write in H. step H as x s1 H1. destruct x as [success r'].
  step H as u s2 H2. step H as u2 s3 H3.
  assert (waits_on a (sr_pkt r')) as Hw'.
  { destruct (negb _) in H1; m_inv;
      match goal with H : (_, _) = (_, _) |- _ => injection H as -> -> end; destruct Hw; by split. }
  kept same_core in H1 by (keeps). kept same_core in H2 by (keeps). kept same_core in H3 by (keeps).
  assert (same_core s s3) as Hs by (etrans; [|done]; by etrans).
  apply (completed_hit _ _ _ _ _ _ _ Hw') in H. destruct (H k b) as [Hok' Hlen].
  { destruct (same_core_safe _ _ Hs k b Hok). done. }
  split; [done|]. intros a' Ha'. rewrite <- (core_len _ _ a' Hs). auto.
Qed.

(** What a loop over the requests of line [a] keeps; the list of [a] may end
    up empty. *)
Definition loop_ok s s' : Prop := forall k (b : Z -> Prop), b a -> seq_ok k b (sq s) ->
  seq_ok k b (sq s') /\ (forall a', P a' -> a' <> a -> (len a' s <= len a' s')%nat).

Lemma loop_ok_refl s : loop_ok s s.
Proof. by split. Qed.

Lemma loop_ok_trans s1 s2 s3 : loop_ok s1 s2 -> loop_ok s2 s3 -> loop_ok s1 s3.
Proof.
  intros H1 H2 k b Hb Hok. destruct (H1 k b Hb Hok) as [Hok2 Hl1].
  destruct (H2 k b Hb Hok2) as [Hok3 Hl2]. split; [done|].
  intros a' Ha' Hne. specialize (Hl1 a' Ha' Hne). specialize (Hl2 a' Ha' Hne). lia.
Qed.

Lemma loop_ok_core s s' : same_core s s' -> loop_ok s s'.
Proof.
  intros H k b _ Hok. destruct (same_core_safe _ _ H k b Hok). split; [done|]. auto.
Qed.

(** The completed request leaves the list, which did not shrink meanwhile. *)
Lemma loop_ok_pop s s1 s2 :
  P a -> (0 < len a s)%nat -> one_completed s s1 -> pop_front a s1 = Ok (tt, s2) -> loop_ok s s2.
Proof.
  intros HPa Hlen Hc Hpop k b Hb Hok. destruct (Hc k b Hok) as [Hok1 Hl].
  destruct (seq_ok_popped k b a s1 s2 Hpop Hb) as [Hok2 Hl2]; [|done|].
  - specialize (Hl a HPa). lia.
  - split; [done|]. intros a' Ha' Hne. rewrite Hl2 by done. auto.
Qed.

Lemma write_loop_ok n nc rr uid d s res s' k (b : Z -> Prop) :
  P a -> b a -> seq_ok k b (sq s) ->
  write_loop setFlagsPreIssueRequest hit n a nc rr uid d s = Ok (res, s') -> loop_ok s s'.
Proof.
  intros HPa Hb. revert rr uid d s. induction n as [|n IH]; intros rr uid d s Hok H;
    cbn [write_loop] in H; [m_inv; apply loop_ok_refl|].
  step H as w s0 H0. apply get_ok in H0 as [-> ->].
  destruct (requests a (sq s)) as [|r l] eqn:Hr; [m_inv; apply loop_ok_refl|].
  pose proof (front_waits _ _ _ _ _ _ Hok Hr) as Hw.
  destruct (nc && negb rr); [kept same_core in H by (keeps); by apply loop_ok_core|].
  step H as u s1 H1.
  assert (s1 = s) as -> by (destruct rr; by m_inv). clear H1.
  destruct (_ && _) in H; [kept same_core in H by (keeps); by apply loop_ok_core|].
  step H as d1 s1 H1. step H as u2 s2 H2. destruct u2.
  assert (loop_ok s s2) as Hit.
  { apply (loop_ok_pop s s1); [done|unfold len; rewrite Hr; cbn; lia| |done].
    destruct (negb (read_type _)); [by eapply complete_write_ok|].
    step H1 as u1 s0 H0. apply massert_ok in H0 as [_ ->]. by eapply completed_hit. }
  destruct (Hit k b Hb Hok) as [Hok2 _]. eapply loop_ok_trans; [exact Hit|]. by eapply IH.
Qed.

Lemma read_loop_ok n rr uid d s res s' k (b : Z -> Prop) :
  P a -> b a -> seq_ok k b (sq s) ->
  read_loop setFlagsPreIssueRequest hit n a rr uid d s = Ok (res, s') -> loop_ok s s'.
Proof.
  intros HPa Hb. revert rr uid d s. induction n as [|n IH]; intros rr uid d s Hok H;
    cbn [read_loop] in H; [m_inv; apply loop_ok_refl|].
  step H as w s0 H0. apply get_ok in H0 as [-> ->].
  destruct (requests a (sq s)) as [|r l] eqn:Hr; [m_inv; apply loop_ok_refl|].
  pose proof (front_waits _ _ _ _ _ _ Hok Hr) as Hw. step H as u s1 H1.
  assert (s1 = s) as -> by (destruct rr; by m_inv). clear H1.
  destruct (_ || _) in H; [kept same_core in H by (keeps); by apply loop_ok_core|].
  step H as u1 s1 H1. assert (s1 = s) as -> by (q_inv; done). clear H1.
  step H as u2 s1 H1. step H as d2 s2 H2. step H as u3 s3 H3. destruct u3.
  assert (loop_ok s s3) as Hit.
  { apply (loop_ok_pop s s2); [done|unfold len; rewrite Hr; cbn; lia| |done].
    eapply completed_hit; [done|]. by rewrite (bind_run _ _ _ _ _ H1). }
  destruct (Hit k b Hb Hok) as [Hok2 _]. eapply loop_ok_trans; [exact Hit|]. by eapply IH.
Qed.

Lemma loop_ok_busy s s' k b :
  loop_ok s s' -> seq_ok k b (sq s) -> seq_ok k (fun a' => b a' \/ a' = a) (sq s').
Proof.
  intros H Hok. apply H; [by right|]. eapply seq_ok_weaken; [|done]. by left.
Qed.

(** The entry of the line goes when its list is empty. *)
Lemma free_line_ok k (b : Z -> Prop) s u s' :
  free_line a s = Ok (u, s') -> seq_ok k (fun a' => b a' \/ a' = a) (sq s) ->
  seq_ok k b (sq s') /\ (forall a', len a' s' = len a' s).
Proof.
  intros H Hok. unfold free_line in H. step H as w s0 H0. apply get_ok in H0 as [-> ->].
  destruct (requests a (sq s)) as [|r l] eqn:Hr.
  - apply on_sq_ok in H as ->. split.
    + assert (total_requests (delete a (m_RequestTable (sq s))) =
              total_requests (m_RequestTable (sq s))) as Ht.
      { unfold requests in Hr. destruct (m_RequestTable (sq s) !! a) as [l|] eqn:Ha; cbn in Hr.
        - subst. by rewrite (total_delete _ a [] Ha).
        - by rewrite delete_id. }
      destruct Hok. split; cbn; try done.
      * by rewrite Ht.
      * intros a' l r [_ Ha]%lookup_delete_Some. eauto.
      * intros a' l r r' [_ Ha]%lookup_delete_Some. eauto.
      * intros a' [Hne Ha]%lookup_delete_Some. destruct (ok_full0 a' Ha); [done|congruence].
    + intros a'. unfold len, requests. cbn. destruct (decide (a' = a)) as [->|Hne].
      * rewrite lookup_delete_eq. unfold requests in Hr. by rewrite Hr.
      * by rewrite lookup_delete_ne.
  - m_inv. split; [|done]. destruct Hok. split; try done. intros a' Ha'.
    destruct (ok_full0 a' Ha') as [?| ->]; [done|]. unfold requests in Hr. by rewrite Ha' in Hr.
Qed.

End loops.

(** ** Log writes *)

(** No page of the undo log holds line [a]. *)
Definition log_apart (a : Z) (v : EagerVM.EagerVM) : Prop :=
  forall vpage ppage off, EagerVM.m_logTLB v !! vpage = Some ppage -> 0 <= off < 4096 ->
    0 <= ppage < 2 ^ 64 /\ ppage mod 4096 = 0 /\ makeLineAddress (ppage + off) <> a.

Lemma build_apart a vaddr d v i v' :
  log_apart a v -> EagerVM.buildLogPackets vaddr d v = Ok (i, v') ->
  makeLineAddress (EagerVM.logDataPtr i) <> a /\ makeLineAddress (EagerVM.logAddressPtr i) <> a.
Proof.
  intros Hap H. unfold EagerVM.buildLogPackets, EagerVM.addLogEntry in H. m_inv.
  match goal with H : (if ?b then _ else _) _ = Ok _ |- _ => destruct b; m_inv end. cbn.
  match goal with H : EagerVM.translateLogAddress ?x _ = Ok ?p |- _ => rename H into Ht, x into va, p into dp end.
  match goal with H : EagerVM.logtm_compute_addr_ptr_from_data_ptr _ = Ok ?p |- _ => rename H into Hp, p into ap end.
  unfold EagerVM.translateLogAddress in Ht. cbn in Ht.
  destruct (EagerVM.m_logTLB v !! _) as [pp|] eqn:Htlb; [|done]. injection Ht as <-.
  rewrite EagerVM.page_offset' in *. pose proof (Z.mod_pos_bound va 4096) as Hoff.
  destruct (Hap _ _ (va mod 4096) Htlb) as (Hr & Hal & Hline); [lia|].
  rewrite EagerVM.lor_page in * by lia. split; [done|].
  unfold EagerVM.logtm_compute_addr_ptr_from_data_ptr in Hp.
  destruct (rassert _) as [|] eqn:Ha1 in Hp; [|done]. cbn in Hp.
  destruct (rassert _) as [|] eqn:Ha2 in Hp; [|done]. injection Hp as <-.
  rewrite EagerVM.page_offset in *.
  assert ((pp + va mod 4096) mod 4096 = va mod 4096) as Hm.
  { rewrite <- Zplus_mod_idemp_l, Hal. apply Z.mod_mod. lia. }
  rewrite Hm in *. unfold rassert in Ha1. destruct (_ <? _) eqn:Hlt in Ha1; [|done].
  apply Z.ltb_lt in Hlt. change (_ * _) with 3584 in Hlt.
  assert (pp + va mod 4096 < 2 ^ 64) as Hr2.
  { pose proof (Z.div_mod pp 4096). assert (pp / 4096 < 2 ^ 52) by (apply Z.div_lt_upper_bound; lia). lia. }
  rewrite EagerVM.page_addr, Hm by lia.
  replace (pp + va mod 4096 - va mod 4096) with pp by lia.
  change EagerVM.LOG_PAGE_SIZE_BYTES with 4096. change EagerVM.LOG_CACHE_BLOCK_SIZE with 64.
  pose proof (Z.div_pos (va mod 4096) 64). assert (va mod 4096 / 64 < 56) by (apply Z.div_lt_upper_bound; lia).
  rewrite EagerVM.lor_page by lia.
  destruct (Hap _ _ (4096 - (va mod 4096 / 64 + 1) * 8) Htlb) as (_ & _ & Hl); [lia|done].
Qed.

(** A log write for a store to line [a]. *)
Definition log_write_for (a : Z) p : Prop :=
  req_htmCmd p = None /\ isHtmTransactional p = false /\ line p <> a /\
  exists v, pkt_htmStoreToLog p = Some v /\ makeLineAddress v = a.

Lemma base_make_log a p s st s' :
  log_write_for a p -> base_make p s = Ok (st, s') ->
  core (sq s') = core (sq s) \/ inserted p false (sq s) (sq s').
Proof.
  intros (_ & Ht & _ & _) H. unfold base_makeRequest in H. step H as can s1 H1.
  pose proof (canMakeRequest_same _ _ _ _ H1) as ->. clear H1.
  destruct can; cbn [negb] in H; [|m_inv; by left].
  step H as ts s2 H2. apply lift_ok in H2 as [_ ->]. destruct ts as [t1 t2].
  step H as w s2 H2. apply get_ok in H2 as [-> ->].
  destruct (_ && _) in H; [m_inv; by left|]. step H as st1 s2 H2.
  assert (core (sq s') = core (sq s2)) as Hc.
  { destruct st1; m_inv; try done. by kept same_core in H by (keeps). }
  apply insertRequest_run in H2 as [Hcore|(_ & logs & Hi & Hl)]; [left; congruence|].
  right. destruct logs.
  - destruct (Hl eq_refl) as [_ Hw]. unfold will_log in Hw. by rewrite Ht, andb_false_r in Hw.
  - destruct Hi as [(r & Hr & Htab) ? ? ? ? ? ? ?]. injection Hc as ? ? ? ? ? ?.
    split; [exists r; split; congruence|..]; (congruence || done).
Qed.

(** The table with the reservation of line [a] given back. *)
Definition unreserved (a : Z) x : Seq := x <| m_pendingLogging ::= delete a |>.

Definition roomy (j : Z) x : Prop :=
  m_outstanding_count x + j + 2 * Z.of_nat (size (m_pendingLogging x)) <=
  m_max_outstanding_requests x.

Lemma unreserved_ok k b a x :
  seq_ok k b x -> is_Some (m_pendingLogging x !! a) ->
  seq_ok k b (unreserved a x) /\ roomy 2 (unreserved a x).
Proof.
  intros Hok Ha. assert (roomy 2 (unreserved a x)) as Hr.
  { unfold roomy, unreserved. cbn. rewrite map_size_delete_Some by done.
    pose proof (ok_room _ _ _ Hok). pose proof (map_size_ne_0_lookup_2 (m_pendingLogging x) a Ha). lia. }
  split; [|done]. destruct Hok. split; cbn; try done.
  - intros Hlz. rewrite (ok_lazy0 Hlz). apply delete_empty.
  - unfold roomy, unreserved in Hr. cbn in Hr. lia.
Qed.

Lemma issue_log_ok k b a j p st s r s' :
  log_write_for a p -> 0 <= j -> issue_log st p s = Ok (r, s') ->
  seq_ok k b (unreserved a (sq s)) -> roomy (j + 1) (unreserved a (sq s)) ->
  seq_ok k b (unreserved a (sq s')) /\ roomy j (unreserved a (sq s')).
Proof.
  intros Hp Hj H Hok Hr. unfold issue_log in H. unfold roomy, unreserved in *. cbn in *.
  destruct (bool_decide _); [m_inv; split; [done|lia]|]. step H as st1 s1 H1. m_inv.
  destruct (base_make_log a _ _ _ _ Hp H1) as [Hc|Hi].
  - injection Hc as Ht Hn Hm Hpe Hre He. rewrite Hn, Hm, Hpe. split; [|lia].
    eapply seq_ok_core; [|exact Hok]. unfold core. cbn. congruence.
  - assert (inserted p false (unreserved a (sq s)) (unreserved a (sq s1))) as Hi'.
    { destruct Hi as [(e & He & Htab) ? ? ? Hpe ? ? ?].
      split; cbn; [exists e; split; done|..]; try done. by rewrite Hpe. }
    split; [|destruct Hi as [_ _ -> -> -> _ _ _]; lia].
    destruct Hp as (Hc & _ & Hne & v & Hv & Hva).
    eapply seq_ok_inserted; [exact Hok|exact Hi'| |done|cbn; lia].
    split; [done|done|]. intros v' Hv'. rewrite Hv in Hv'. injection Hv' as <-. congruence.
Qed.

Lemma makeLogRequests_ok k b a log s r s' :
  log_write_for a (logAddrPkt log) -> log_write_for a (logDataPkt log) ->
  makeLogRequests log s = Ok (r, s') -> seq_ok k b (sq s) -> is_Some (m_pendingLogging (sq s) !! a) ->
  r.1 = true -> seq_ok k b (unreserved a (sq s')).
Proof.
  intros Ha Hd H Hok Hpe Hr. unfold makeLogRequests in H. step H as x s1 H1.
  destruct (negb _); [m_inv; by subst|]. step H as y s2 H2. m_inv.
  destruct (unreserved_ok k b a _ Hok Hpe) as [Hok1 Hroom].
  destruct (issue_log_ok k b a 1 _ _ _ _ _ Ha ltac:(lia) H1 Hok1 Hroom) as [Hok2 Hroom2].
  by destruct (issue_log_ok k b a 0 _ _ _ _ _ Hd ltac:(lia) H2 Hok2 Hroom2).
Qed.

Lemma mgr_evm {A} (m : M EagerVM.EagerVM A) s a s' :
  mgr (fun _ => on_evm m) s = Ok (a, s') -> exists v', m (evm (wd s)) = Ok (a, v').
Proof.
  unfold mgr, on_evm, zoom. destruct (m (evm (wd s))) as [[b v]|]; [|done].
  intros [= <- _]. by exists v.
Qed.

Lemma buildLogPackets_run a main d s log s' :
  line main = a -> log_apart a (evm (wd s)) -> buildLogPackets main d s = Ok (log, s') ->
  same_core s s' /\ log_write_for a (logAddrPkt log) /\ log_write_for a (logDataPkt log).
Proof.
  intros Hm Hap H. assert (keeps same_core (buildLogPackets main d)) as K.
  { unfold buildLogPackets, new_packet. keeps. }
  split; [by apply K in H|]. clear K. unfold buildLogPackets in H.
  step H as u s1 H1. apply massert_ok in H1 as [_ ->]. destruct (req_vaddr main) as [va|]; [|done].
  step H as i s1 H1. apply mgr_evm in H1 as [v' H1]. apply (build_apart a) in H1 as [Hd Ha]; [|done].
  step H as pd s2 H2. step H as pa s3 H3. unfold new_packet in H2, H3. q_inv.
  split; (split; [done|split; [done|split; [done|exists (getAddr main); done]]]).
Qed.

Lemma isolate_evm a s u s' :
  mgr (fun E' => InterfaceManager.isolateTransactionStore (E := E') a) s = Ok (u, s') ->
  evm (wd s') = evm (wd s).
Proof.
  unfold mgr. destruct (InterfaceManager.isolateTransactionStore a (wd s)) as [[v w]|] eqn:Hi; [|done].
  intros [= _ <-]. cbn. revert Hi. unfold InterfaceManager.isolateTransactionStore.
  intros Hi. by kept (same_field (evm (C := C))) in Hi by (unfold on_iso, on_ichk; keeps).
Qed.

(** The reservation of a store becomes its two log writes. *)
Lemma logTransactionalStores_ok a r d s b s' :
  waits_on a (sr_pkt r) -> log_apart a (evm (wd s)) ->
  logTransactionalStores r a d s = Ok (b, s') -> safe_on (fun _ => False) s s'.
Proof.
  intros Hw Hap H k bz Hok. split; [|done]. unfold logTransactionalStores in H.
  step H as u1 s1 H1. apply massert_ok in H1 as [_ ->].
  step H as u2 s1 H1. apply massert_ok in H1 as [_ ->].
  step H as u3 s1 H1. apply massert_ok in H1 as [_ ->].
  step H as w s1 H1. apply get_ok in H1 as [-> ->].
  destruct (has a _) eqn:Hpe; [|by m_inv]. apply has_true in Hpe.
  step H as w s1 H1. apply ask_ok in H1 as [-> _]. step H as u4 s1 H1. apply massert_ok in H1 as [_ ->].
  step H as n s1 H1. apply numOutstandingWrites_ok in H1 as ->.
  step H as u5 s1 H1. apply massert_ok in H1 as [_ ->].
  step H as u6 s1 H1. step H as u7 s2 H2. step H as u8 s3 H3. apply massert_ok in H3 as [_ ->].
  assert (evm (wd s2) = evm (wd s)) as Hevm.
  { rewrite (isolate_evm _ _ _ _ H2). unfold on_dcache in H1. by m_inv. }
  kept same_core in H1 by (keeps). kept same_core in H2 by (keeps).
  step H as log s3 H3. apply (buildLogPackets_run a) in H3 as (Hc3 & Hla & Hld);
    [|by destruct Hw|by rewrite Hevm].
  assert (same_core s s3) as Hc by (etrans; [|done]; by etrans). clear H1 H2 Hc3.
  step H as x s4 H4. destruct x as [issued log'].
  destruct issued; [|done]. step H as u9 s5 H5. step H as u10 s6 H6. q_inv.
  destruct (same_core_safe _ _ Hc k bz Hok) as [Hok3 _].
  eapply seq_ok_core; [|eapply (makeLogRequests_ok k bz a); [exact Hla|exact Hld|exact H4|done| |done]].
  - done.
  - injection Hc as _ _ _ -> _ _. done.
Qed.

(** ** Retried stores *)

Lemma seq_ok_map (f : SequencerRequest -> SequencerRequest) k b a s u s' :
  (forall r, key (sr_pkt (f r)) = key (sr_pkt r)) ->
  (forall r, waits_on a (sr_pkt r) -> waits_on a (sr_pkt (f r))) ->
  requests a (sq s) <> [] -> set_requests a (map f (requests a (sq s))) s = Ok (u, s') ->
  seq_ok k b (sq s) -> seq_ok k b (sq s').
Proof.
  intros Hk Hw Hne H []. apply on_sq_ok in H as ->. unfold requests in *.
  destruct (m_RequestTable (sq s) !! a) as [l|] eqn:Ha; cbn in Hne; [|done]. cbn [default].
  split; cbn; try done.
  - rewrite total_insert, Ha. unfold default, id. rewrite length_map. lia.
  - intros a' l' r [[<- <-]|[_ Hl]]%lookup_insert_Some Hr; [|eauto].
    apply list_elem_of_fmap in Hr as (r0 & -> & Hr). eauto.
  - intros a' l' r r' [[<- <-]|[_ Hl]]%lookup_insert_Some Hr Hr'; [|eauto].
    apply list_elem_of_fmap in Hr as (r0 & -> & Hr). apply list_elem_of_fmap in Hr' as (r1 & -> & Hr').
    rewrite !Hk. eauto.
  - intros a' [[<- Hl]|[_ Hl]]%lookup_insert_Some; [|eauto]. by apply map_eq_nil in Hl.
Qed.

Lemma set_map_safe (f : SequencerRequest -> SequencerRequest) a s u s' :
  (forall r, key (sr_pkt (f r)) = key (sr_pkt r)) ->
  (forall r, waits_on a (sr_pkt r) -> waits_on a (sr_pkt (f r))) ->
  requests a (sq s) <> [] -> set_requests a (map f (requests a (sq s))) s = Ok (u, s') -> safe s s'.
Proof.
  intros Hk Hw Hne H k b Hok. split; [by eapply seq_ok_map|]. apply on_sq_ok in H as ->.
  intros a'. unfold len, requests. cbn. destruct (decide (a' = a)) as [->|Hn].
  - rewrite lookup_insert_eq. cbn. by rewrite length_map.
  - by rewrite lookup_insert_ne.
Qed.

Definition same_front : relation SW :=
  same_field (fun s => (m_RequestTable (sq s), m_failedStorePkt (sq s))).

Lemma front_checkForStall p : keeps same_front (checkForStall p).
Proof.
  unfold checkForStall, same_front, on_sq. keeps.
  - intros s1 x s2 H. by apply ask_ok in H as [-> _].
  - intros s1 x s2 H. apply mgr_run in H as [H _]. unfold same_field. by rewrite H.
Qed.

Lemma updateReissueTime_run a r l s u s' :
  requests a (sq s) = r :: l -> updateReissueTime a s = Ok (u, s') ->
  safe s s' /\ m_failedStorePkt (sq s') = m_failedStorePkt (sq s) /\
  exists r' l', requests a (sq s') = r' :: l' /\ sp_id (sr_pkt r') = sp_id (sr_pkt r).
Proof.
  intros Hr H. unfold updateReissueTime in H. step H as w s0 H0. apply get_ok in H0 as [-> ->].
  step H as u1 s1 H1. step H as w s0 H0. apply get_ok in H0 as [-> ->].
  step H as n s0 H0. apply lift_ok in H0 as [_ ->].
  pose proof H1 as H1'. apply on_sq_ok in H1'.
  assert (requests a (sq s1) = map (fun r => r <| reissue_time := curCycle |>) (requests a (sq s))) as Hr1.
  { subst s1. unfold requests at 1. cbn. by rewrite lookup_insert_eq. }
  apply set_map_safe in H1; [|done|by intros ? []|by rewrite Hr].
  assert (m_failedStorePkt (sq s1) = m_failedStorePkt (sq s)) as Hf1 by by subst.
  destruct (_ =? _) in H; cbn [when] in H.
  - step H as u2 s2 H2. rewrite <- Hr1 in H2. pose proof H2 as H2'. apply on_sq_ok in H2'.
    assert (requests a (sq s2) = map (fun r => r <| sr_pkt ::= fun p => p <| pkt_isAtLSQHead := true |> |>)
              (requests a (sq s1))) as Hr2.
    { subst s2. unfold requests at 1. cbn. by rewrite lookup_insert_eq. }
    apply set_map_safe in H2; [|done|intros ? []; by split|by rewrite Hr1, Hr].
    assert (m_failedStorePkt (sq s2) = m_failedStorePkt (sq s)) as Hf2 by (subst s2; done).
    pose proof H as H'. kept same_core in H by (keeps). kept same_front in H' by (keeps; apply front_checkForStall).
    split; [etrans; [exact H1|]; etrans; [exact H2|]; by apply same_core_safe|].
    injection H' as Ht Hf. split; [congruence|]. unfold requests at 1. rewrite Ht.
    fold (requests a (sq s2)). rewrite Hr2, Hr1, Hr. by eexists _, _.
  - m_inv. split; [done|]. split; [done|]. rewrite Hr1, Hr. by eexists _, _.
Qed.

Section callbacks.
Context (retry : M SW unit) (Hretry : keeps safe retry).
Hint Resolve Hretry : keeps.

Lemma base_writeCallback_ok hit (P : Z -> Prop) a d nc :
  P a -> (forall r d l c, waits_on a (sr_pkt r) -> keeps (safe_on P) (hit r d l c)) ->
  keeps (safe_on (fun a' => P a' /\ a' <> a))
    (base_writeCallback retry setFlagsPreIssueRequest hit a d nc).
Proof.
  intros HPa Hhit s d' s' H k b Hok. unfold base_writeCallback in H.
  step H as u s1 H1. assert (s1 = s) as -> by (unfold check_line in H1; by m_inv). clear H1.
  step H as w s1 H1. apply get_ok in H1 as [-> ->].
  step H as r s1 H1. step H as u1 s2 H2. step H as u2 s3 H3. m_inv.
  assert (loop_ok P a s s1) as Hl.
  { eapply (write_loop_ok hit P a Hhit _ _ _ _ _ _ _ _ k (fun a' => b a' \/ a' = a));
      [done|by right| |done]. eapply seq_ok_weaken; [|done]. by left. }
  pose proof (loop_ok_busy P a _ _ _ _ Hl Hok) as Hok1.
  destruct (free_line_ok _ _ _ _ _ _ H2 Hok1) as [Hok2 Hlen2].
  destruct (Hretry _ _ _ H3 _ _ Hok2) as [Hok3 Hlen3]. split; [done|]. intros a' [Ha' Hne].
  destruct (Hl k (fun a' => b a' \/ a' = a)) as [_ Hlen1];
    [by right|eapply seq_ok_weaken; [|done]; by left|].
  specialize (Hlen1 a' Ha' Hne). specialize (Hlen2 a'). specialize (Hlen3 a'). lia.
Qed.

Lemma base_readCallback_ok hit (P : Z -> Prop) a d :
  P a -> (forall r d l c, waits_on a (sr_pkt r) -> keeps (safe_on P) (hit r d l c)) ->
  keeps (safe_on (fun _ => False)) (base_readCallback retry setFlagsPreIssueRequest hit a d).
Proof.
  intros HPa Hhit s d' s' H k b Hok. unfold base_readCallback in H.
  step H as u s1 H1. assert (s1 = s) as -> by (unfold check_line in H1; by m_inv). clear H1.
  step H as w s1 H1. apply get_ok in H1 as [-> ->].
  step H as r s1 H1. step H as u1 s2 H2. step H as u2 s3 H3. m_inv.
  assert (loop_ok P a s s1) as Hl.
  { eapply (read_loop_ok hit P a Hhit _ _ _ _ _ _ _ k (fun a' => b a' \/ a' = a));
      [done|by right| |done]. eapply seq_ok_weaken; [|done]. by left. }
  pose proof (loop_ok_busy P a _ _ _ _ Hl Hok) as Hok1.
  destruct (free_line_ok _ _ _ _ _ _ H2 Hok1) as [Hok2 _].
  destruct (Hretry _ _ _ H3 _ _ Hok2) as [Hok3 _]. by split.
Qed.

(** ** The transactional sequencer's callbacks *)

Lemma safe_unreserve a : keeps safe (on_sq (upd! m_pendingLogging ::= delete a)).
Proof.
  intros s u s' H k b Hok. apply on_sq_ok in H as ->. split; [|done].
  destruct Hok. split; cbn; try done.
  - intros Hlz. rewrite (ok_lazy0 Hlz). apply delete_empty.
  - rewrite map_size_delete. destruct (m_pendingLogging (sq s) !! a); unfold id; lia.
Qed.
Hint Resolve safe_unreserve safe_hit_callback : keeps.

Lemma safe_handleFailedCallback r : keeps safe (handleFailedCallback retry r).
Proof. unfold handleFailedCallback, failure_reason, failedCallbackCleanup. keeps. Qed.

Lemma safe_transactional_callback r p d : keeps safe (transactional_callback retry r p d).
Proof. unfold transactional_callback. keeps. Qed.

Lemma safe_base_hitCallback r d l : keeps safe (base_hitCallback retry r d l).
Proof. unfold base_hitCallback. keeps. Qed.

Hint Resolve safe_handleFailedCallback safe_transactional_callback safe_base_hitCallback : keeps.
Hint Extern 3 (keeps (safe_on _) _) => (apply keeps_safe_on) : keeps.

Lemma safe_on_mono {A} (P Q : Z -> Prop) (m : M SW A) :
  (forall a, Q a -> P a) -> keeps (safe_on P) m -> keeps (safe_on Q) m.
Proof.
  intros HQ. apply keeps_mono. intros s s' H k b Hok. destruct (H k b Hok). split; auto.
Qed.

Lemma forwarding_callback_pkt p s q s' :
  forwarding_callback p s = Ok (Some q, s') ->
  pkt_htmStoreToLog q = pkt_htmStoreToLog p /\ getAddr q = getAddr p.
Proof.
  unfold forwarding_callback. intros H. destruct config_allowEarlyValueFwd; [|m_inv; by simplify_eq].
  step H as w s0 H0. m_inv. destruct (pkt_isHtmForwardedDataValidation p); [m_inv; by simplify_eq|].
  destruct (isBlockConsumed _ _); [m_inv; by simplify_eq|]. destruct (isBlockProduced _ _); m_inv; by simplify_eq.
Qed.

Lemma hitCallback_ok nested (P : Z -> Prop) a r d l c :
  (forall b d, b <> a -> keeps (safe_on P) (nested b d)) -> waits_on a (sr_pkt r) ->
  keeps (safe_on P) (hitCallback retry nested r d l c).
Proof.
  intros Hn Hw. unfold hitCallback. apply keeps_of_at. intros s. apply keeps_at_get.
  destruct (m_failedCallback (sq s)); [apply keeps_at_of; keeps|].
  apply keeps_at_seq; [typeclasses eauto|apply keeps_at_of; keeps|]. intros f s1 Hf.
  apply keeps_at_of. destruct f as [p|]; [|keeps].
  apply forwarding_callback_pkt in Hf as [Hlog Haddr].
  destruct (isHtmStoreToLog p); [|keeps]. unfold handleStoresToLog, store_logged.
  keeps. apply Hn. destruct Hw as [<- _ Hl]. apply Hl. congruence.
Qed.

Lemma storeCallback_ok b d : keeps (safe_on (fun a => a <> b)) (storeCallback retry b d).
Proof.
  unfold storeCallback. eapply safe_on_mono; [|apply (base_writeCallback_ok _ (fun _ => True))].
  - by intros.
  - done.
  - intros r d' l c Hw. apply (hitCallback_ok _ _ b); [|done]. intros. apply keeps_throw.
Qed.

Lemma hit_ok a r d l c :
  waits_on a (sr_pkt r) ->
  keeps (safe_on (fun a' => a' = a)) (hitCallback retry (storeCallback retry) r d l c).
Proof.
  intros Hw. apply (hitCallback_ok _ _ a); [|done]. intros b d' Hne.
  eapply safe_on_mono; [|apply storeCallback_ok]. cbn. by intros a' ->.
Qed.

(** Only the table matters from here on. *)
Definition fine : relation SW := safe_on (fun _ => False).

Lemma fine_of {A} P (m : M SW A) : keeps (safe_on P) m -> keeps fine m.
Proof. by apply safe_on_mono. Qed.

Lemma fine_writeCallback a d nc : keeps fine (seq_writeCallback retry a d nc).
Proof.
  unfold seq_writeCallback. eapply fine_of, (base_writeCallback_ok _ (fun a' => a' = a)); [done|].
  intros. by apply hit_ok.
Qed.

Lemma fine_readCallback a d : keeps fine (seq_readCallback retry a d).
Proof.
  unfold seq_readCallback. apply (base_readCallback_ok _ (fun a' => a' = a)); [done|].
  intros. by apply hit_ok.
Qed.

#[local] Instance fine_preorder : PreOrder fine.
Proof. apply safe_on_preorder. Qed.

Lemma safe_fine s s' : safe s s' -> fine s s'.
Proof. apply safe_safe_on. Qed.

Lemma core_fine {A} (m : M SW A) : keeps same_core m -> keeps fine m.
Proof. intros H. apply keeps_safe_on. by apply keeps_core_safe. Qed.

Hint Resolve fine_writeCallback fine_readCallback : keeps.
Hint Extern 4 (keeps fine _) => (apply core_fine) : keeps.
Hint Extern 5 (keeps fine _) => (apply keeps_safe_on) : keeps.

Lemma fine_readCallback_top a d : keeps fine (readCallback retry a d).
Proof. unfold readCallback. keeps. Qed.

Lemma deciding_in spec first l : first ∈ l -> deciding_request spec first l ∈ l.
Proof.
  intros Hf. unfold deciding_request. destruct (_ && _); [|done].
  destruct (head _) as [r|] eqn:Hh; [|done]. apply head_Some_elem_of in Hh.
  by apply list_elem_of_filter in Hh as [_ Hh].
Qed.

Lemma writeCallback_ok a d nc s d' s' :
  (lazy_vm params = false -> forall r, r ∈ requests a (sq s) -> isHtmTransactional (sr_pkt r) = true ->
     log_apart a (evm (wd s))) ->
  writeCallback retry a d nc s = Ok (d', s') -> fine s s'.
Proof.
  intros Hap H k b Hok. split; [|done]. unfold writeCallback in H.
  step H as w s0 H0. apply get_ok in H0 as [-> ->]. step H as u s0 H0. apply massert_ok in H0 as [_ ->].
  step H as u1 s0 H0. assert (s0 = s) as -> by (unfold check_line in H0; by m_inv). clear H0.
  step H as u2 s1 H1. apply on_sq_ok in H1.
  assert (same_core s s1) as Hc1 by by subst s1.
  assert (wd s1 = wd s) as Hw1 by by subst s1. clear H1.
  destruct (same_core_safe _ _ Hc1 k b Hok) as [Hok1 _].
  destruct (requests a (sq s)) as [|r l] eqn:Hr; [done|].
  destruct (_ && _) in H.
  { kept fine in H by (keeps). by destruct (H k b Hok1). }
  step H as u3 s2 H2. apply massert_ok in H2 as [_ ->]. step H as skip s2 H2.
  assert (fine s1 s2) as Hf.
  { destruct (_ && _) eqn:Hlz in H2; [|m_inv; done].
    apply andb_true_iff in Hlz as [Htr Hlz]. apply negb_true_iff in Hlz.
    assert (deciding_request (speculative a s) r (r :: l) ∈ requests a (sq s)) as Hin.
    { rewrite Hr. apply deciding_in. left. }
    refine (logTransactionalStores_ok _ _ _ _ _ _ _ _ H2);
      [|rewrite Hw1; by eapply Hap; [|rewrite <- Hr|]].
    apply elem_requests in Hin as (l' & Ha & Hin). exact (ok_waits _ _ _ Hok _ _ _ Ha Hin). }
  assert (fine s2 s') as Hf2.
  { destruct skip; [m_inv; done|].
    assert (keeps same_core (track_locked a (isHtmTransactional (sr_pkt (deciding_request (speculative a s) r (r :: l)))) (m_type (deciding_request (speculative a s) r (r :: l))))) as K
      by (unfold track_locked; keeps).
    step H as d1 s3 H3. step H as u4 s4 H4. step H as u5 s5 H5. m_inv.
    kept fine in H3 by (keeps). apply K in H4. kept same_core in H5 by (unfold note_unrolled; keeps).
    etrans; [exact H3|]. apply safe_fine, same_core_safe. by etrans. }
  destruct (Hf k b Hok1) as [Hok2 _]. by destruct (Hf2 k b Hok2).
Qed.

Lemma fine_invalidCallback a d w : keeps fine (invalidCallback retry a d w).
Proof. unfold invalidCallback, check_line. keeps. Qed.

Lemma failed_write_ok a d r l s u s' :
  requests a (sq s) = r :: l -> failed_write retry a d r (r :: l) s = Ok (u, s') -> fine s s'.
Proof.
  intros Hr H. unfold failed_write in H. step H as w s0 H0. apply get_ok in H0 as [-> ->].
  destruct (any_write _).
  - step H as u1 s0 H0. apply massert_ok in H0 as [_ ->].
    destruct (_ || _) in H; [by kept fine in H by (keeps)|].
    step H as u2 s1 H1. apply on_sq_ok in H1. step H as u3 s2 H2.
    assert (requests a (sq s1) = r :: l) as Hr1 by by subst s1.
    destruct (updateReissueTime_run _ _ _ _ _ _ Hr1 H2) as (Hs2 & Hf & r' & l' & Hr2 & Hid).
    step H as w s0 H0. apply get_ok in H0 as [-> ->]. rewrite Hr2 in H.
    step H as st s3 H3. m_inv. intros k b Hok.
    assert (seq_ok k b (sq s1)) as Hok1 by (eapply seq_ok_core; [|exact Hok]; by subst s1).
    destruct (Hs2 k b Hok1) as [Hok2 _].
    assert (safe s2 s3) as Hs3; [|split; [by destruct (Hs3 k b Hok2)|done]].
    eapply makeRequest_safe; [exact Hretry| |exact H3]. right.
    destruct (front_waits _ _ _ _ _ _ Hok2 Hr2) as [_ Hcmd _]. split; [done|right].
    unfold is_failed. rewrite Hf, Hid. by subst s1.
  - by kept fine in H by (keeps).
Qed.

Lemma failedCallback_ok a d ts tr pr sw n w : keeps fine (failedCallback retry a d ts tr pr sw n w).
Proof.
  intros s u s' H. unfold failedCallback in H. step H as u1 s1 H1. apply on_sq_ok in H1.
  step H as x s0 H0. apply get_ok in H0 as [-> ->].
  destruct (requests a (sq s1)) as [|r l] eqn:Hr; [done|].
  step H as u2 s2 H2. step H as u3 s3 H3. kept same_core in H by (keeps).
  assert (requests a (sq s2) = r :: l) as Hr2.
  { assert (keeps (same_field (sq (C := C))) (nack_consumed a n tr)) as K1.
    { unfold nack_consumed. keeps; apply keeps_mgr_sq. }
    destruct (_ && _) in H2; [apply K1 in H2; by rewrite H2|].
    kept (same_field (sq (C := C))) in H2 by (keeps; apply keeps_mgr_sq). by rewrite H2. }
  kept same_core in H2 by (unfold nack_consumed; keeps).
  etrans; [|apply safe_fine, same_core_safe, H]. etrans; [apply safe_fine, same_core_safe; etrans; [|exact H2]; by subst s1|].
  destruct w; [by eapply failed_write_ok|by kept fine in H3 by (keeps)].
Qed.

Lemma fine_writeBufferEvent : keeps fine (writeBufferEvent retry).
Proof. unfold writeBufferEvent, ruby_hit_callback. keeps. Qed.

Lemma lazyCommitEvent_ok : keeps fine (lazyCommitEvent retry).
Proof.
  intros s u s' H k b Hok. unfold lazyCommitEvent in H. step H as w s0 H0. apply get_ok in H0 as [-> ->].
  destruct (lazyCommitCheckEvent (sq s)) as [p|] eqn:He; [|done].
  step H as u1 s1 H1. apply on_sq_ok in H1. step H as st s2 H2. m_inv.
  apply (safe_makeRequest _ Hretry) in H2; [|by eapply ok_event].
  split; [|done]. apply H2. subst s1. destruct Hok. by split.
Qed.

Lemma fine_validateConsumedData a : keeps fine (validateConsumedData retry a).
Proof.
  intros s u s' H. unfold validateConsumedData in H. step H as w s0 H0. apply get_ok in H0 as [-> ->].
  step H as p s1 H1. assert (from_port p) as Hp by (unfold new_packet in H1; by m_inv).
  kept same_core in H1 by (unfold new_packet; keeps).
  etrans; [apply safe_fine, same_core_safe, H1|].
  kept fine in H by (keeps; apply keeps_safe_on; by apply safe_makeRequest). done.
Qed.

Lemma fine_wakeup : keeps fine wakeup.
Proof. unfold wakeup. keeps. Qed.

End callbacks.

End inv.
