(* ===== verification/SeqProps.v ===== *)
(** * What the sequencer guarantees

    The operations of the sequencer in any order, with the invariants of the
    file SeqInv after each of them; the end of every completion loop; the
    admission of the log writes of LogTM; and what an abort does to the
    requests of the aborted transaction. *)

From S2P Require Import Prelude Address HTM XactProfiler CacheMemory TxState RequestTable Sequencer.
From S2P Require Import SeqInv.
From S2P Require DataBlock LazyVM CommitArbiter EagerVM InterfaceManager Forwarding.
From S2P Require IsolationManager XactIsolationChecker XactValueChecker ConflictManager Lifecycle Chain.
Import DataBlock (DataBlock).
Import InterfaceManager (Packet, MkPacket).

#[local] Open Scope Z_scope.

(** ** The operations *)

(** What calls the sequencer: the processor's ports, the first-level cache,
    and its own events. *)
Inductive seq_op :=
| DoRequest (pkt : SPacket)
| DoRead (a : Z) (d : DataBlock)
| DoWrite (a : Z) (d : DataBlock) (noCoales : bool)
| DoScFail (a : Z) (d : DataBlock)
| DoFailed (a : Z) (d : DataBlock) (remote_timestamp : Z) (remote_trans : TransactionBit)
    (remote_priority : Z) (remote_sw_priority : bool) (nacker : MachineID) (write : bool)
| DoInvalid (a : Z) (d : DataBlock) (write : bool)
| DoWriteBuffer
| DoLazyCommit
| DoValidate (a : Z)
| DoWakeup.

Section ops.
Context `{RS : RubySystem} `{CF : Config} {C : Type} `{DC : DataCache C} `{SC : SeqCache C}.
Notation W := (World C).
Notation SW := (SeqWorld C).
Implicit Types (s : SW) (p : SPacket).

Definition run_op `{E : Env} `{SE : SeqEnv} (o : seq_op) : M SW unit :=
  match o with
  | DoRequest p => let* _ := makeRequest trySendRetries p in ret tt
  | DoRead a d => let* _ := readCallback trySendRetries a d in ret tt
  | DoWrite a d nc => let* _ := writeCallback trySendRetries a d nc in ret tt
  | DoScFail a d =>
      let* _ := writeCallbackScFail a (writeCallback trySendRetries a d false) in ret tt
  | DoFailed a d ts tr pr sw n w => failedCallback trySendRetries a d ts tr pr sw n w
  | DoInvalid a d w => let* _ := invalidCallback trySendRetries a d w in ret tt
  | DoWriteBuffer => writeBufferEvent trySendRetries
  | DoLazyCommit => lazyCommitEvent trySendRetries
  | DoValidate a => validateConsumedData trySendRetries a
  | DoWakeup => wakeup
  end.

(** The ports send no log writes, and no transaction accesses the pages of
    the undo log as program data. *)
Definition legal (o : seq_op) s : Prop :=
  match o with
  | DoRequest p => from_port p
  | DoWrite a _ _ | DoScFail a _ =>
      lazy_vm params = false -> forall r, r ∈ requests a (sq s) ->
      isHtmTransactional (sr_pkt r) = true -> log_apart a (evm (wd s))
  | _ => True
  end.

(** One operation, at some time; or a change of the world around the
    sequencer. *)
Inductive seq_step : SW -> SW -> Prop :=
| step_op (E : Env) (SE : SeqEnv) o s s' :
    legal o s -> run_op o s = Ok (tt, s') -> seq_step s s'
| step_world s w ps : seq_step s (s <| wd := w |> <| peers := ps |>).

Lemma run_op_fine `{E : Env} `{SE : SeqEnv} o s s' k b :
  legal o s -> run_op o s = Ok (tt, s') -> seq_ok k b (sq s) -> seq_ok k b (sq s').
Proof.
  pose proof safe_trySendRetries as Hr. intros Hl H Hok.
  assert (fine s s') as Hf; [|by destruct (Hf k b Hok)].
  destruct o; cbn [run_op legal] in *.
  - step H as st s1 H1. m_inv. apply safe_fine. by apply (safe_makeRequest _ Hr pkt Hl) in H1.
  - step H as st s1 H1. m_inv. by eapply fine_readCallback_top.
  - step H as st s1 H1. m_inv. by eapply writeCallback_ok.
  - step H as st s1 H1. m_inv. unfold writeCallbackScFail in H1. step H1 as u s2 H2.
    assert (evm (wd s2) = evm (wd s)) as He.
    { by kept (same_field (fun s : SW => evm (wd s))) in H2
        by (unfold llscClearMonitor, on_dcache; keeps). }
    apply keeps_llscClearMonitor in H2. etrans; [apply safe_fine, same_core_safe, H2|].
    eapply writeCallback_ok; [done| |exact H1]. rewrite He. injection H2 as Ht _ _ _ _ _.
    unfold requests in *. by rewrite Ht.
  - by eapply failedCallback_ok.
  - step H as st s1 H1. m_inv. by eapply fine_invalidCallback.
  - by eapply fine_writeBufferEvent.
  - by eapply lazyCommitEvent_ok.
  - by eapply fine_validateConsumedData.
  - by eapply fine_wakeup.
Qed.

Lemma steps_ok s s' k b : rtc seq_step s s' -> seq_ok k b (sq s) -> seq_ok k b (sq s').
Proof.
  intros Hr Hok. apply (rtc_inv seq_step (fun s => seq_ok k b (sq s)) s s'); [done..|].
  intros s1 s2 Hok1 Hs. revert Hok1. destruct Hs as [E SE o s1 s2 Hl H|s1 w ps]; [|done].
  intros Hok1. exact (run_op_fine _ _ _ _ _ Hl H Hok1).
Qed.

Lemma init_ok v max th ports x :
  Seq_init v max th ports = Ok x -> Forall from_port (concat ports) -> seq_ok 0 (fun _ => False) x.
Proof.
  intros H Hp. unfold Seq_init in H. unfold rassert in H.
  destruct (0 <? max) eqn:Hm; [|done]. cbn in H. destruct (0 <? th); [|done]. injection H as <-.
  apply Z.ltb_lt in Hm. split; cbn; try done. rewrite map_size_empty. lia.
Qed.

(** ** The completion loops end *)

(** Requests in the table, and packets the ports can still send. *)
Definition pending_work s : Z :=
  total_requests (m_RequestTable (sq s)) + Z.of_nat (length (concat (retries (sq s)))).

Definition within (n : Z) s s' : Prop := pending_work s' <= pending_work s + n.

#[local] Instance within_preorder : PreOrder (within 0).
Proof. unfold within. split; [intros ?; lia|intros ? ? ?; lia]. Qed.

Lemma within_mono {A} n n' (m : M SW A) : n <= n' -> keeps (within n) m -> keeps (within n') m.
Proof. intros Hn H s a s' Hr. apply H in Hr. unfold within in *. lia. Qed.

Lemma within_core {A} (m : M SW A) : keeps same_core m -> keeps (within 0) m.
Proof.
  apply keeps_mono. intros s s' [= Ht _ _ _ Hr _]. unfold within, pending_work.
  rewrite Ht, Hr. lia.
Qed.
Hint Extern 3 (keeps (within 0) _) => (apply within_core) : keeps.
Hint Resolve keeps_mgr keeps_ask keeps_emit keeps_on_dcache keeps_blockOnQueue keeps_unblock
  keeps_llscLoadLinked keeps_llscClearMonitor keeps_llscStoreConditional keeps_checkForStall
  keeps_leave_stall keeps_issueRequest keeps_release_locked keeps_intercept
  keeps_numOutstandingWrites keeps_forwarding_callback keeps_check_access
  keeps_handleTransactionalRead keeps_handleTransactionalWrite keeps_setFlags : keeps.
Hint Extern 1 (keeps same_core (on_sq (modify _))) =>
  (apply keeps_set_sq; intros ?; reflexivity) : keeps.
Hint Extern 1 (keeps same_core (modify _)) =>
  (intros ? ? ? [= _ <-]; reflexivity) : keeps.

Lemma within_set_sq (f : Seq -> Seq) :
  (forall x, m_RequestTable (f x) = m_RequestTable x /\ retries (f x) = retries x) ->
  keeps (within 0) (on_sq (C := C) (modify f)).
Proof.
  intros H s u s' Hr. apply on_sq_ok in Hr as ->. unfold within, pending_work. cbn.
  destruct (H (sq s)) as [-> ->]. lia.
Qed.
Hint Extern 2 (keeps (within 0) (on_sq (modify _))) =>
  (apply within_set_sq; intros ?; split; reflexivity) : keeps.

Lemma within_suppress : keeps (within 0) suppressOutstandingRequests.
Proof.
  intros s u s' H. apply on_sq_ok in H as ->. unfold within, pending_work. cbn.
  rewrite total_fmap by apply length_map. lia.
Qed.
Hint Resolve within_suppress : keeps.

Lemma within_markRemoved : keeps (within 0) markRemoved.
Proof. unfold markRemoved. keeps. Qed.

Lemma within_pop a : keeps (within 0) (pop_front a).
Proof.
  intros s u s' H. apply on_sq_ok in H as ->. unfold within, pending_work. cbn.
  destruct (m_RequestTable (sq s) !! a) as [[|r l]|] eqn:Ha.
  - assert (alter tail a (m_RequestTable (sq s)) = m_RequestTable (sq s)) as ->; [|lia].
    apply map_eq. intros i. rewrite lookup_alter. case_decide; subst; by rewrite ?Ha.
  - rewrite (total_pop _ _ _ _ Ha). lia.
  - rewrite alter_id; [lia|]. intros l Hl. congruence.
Qed.

Lemma pop_strict a s u s' :
  pop_front a s = Ok (u, s') -> (0 < len a s)%nat -> pending_work s' = pending_work s - 1.
Proof.
  intros H Hl. apply on_sq_ok in H as ->. unfold pending_work. cbn. unfold len, requests in Hl.
  destruct (m_RequestTable (sq s) !! a) as [[|r l]|] eqn:Ha; cbn in Hl; try lia.
  rewrite (total_pop _ _ _ _ Ha). lia.
Qed.

Lemma within_free_line a : keeps (within 0) (free_line a).
Proof.
  intros s u s' H. unfold free_line in H. step H as w s0 H0. apply get_ok in H0 as [-> ->].
  destruct (requests a (sq s)) eqn:Hr; [|m_inv; unfold within; lia].
  apply on_sq_ok in H as ->. unfold within, pending_work. cbn.
  destruct (m_RequestTable (sq s) !! a) as [l|] eqn:Ha.
  - rewrite (total_delete _ a l Ha). lia.
  - rewrite delete_id by done. lia.
Qed.
Hint Resolve within_markRemoved within_pop within_free_line : keeps.

Section loops.
Context `{E : Env} `{SE : SeqEnv}.

Lemma base_make_within p :
  keeps (within 1) (base_makeRequest canMakeRequest insertRequest setFlagsPreIssueRequest p).
Proof.
  intros s st s' H. unfold base_makeRequest in H. step H as can s1 H1.
  apply canMakeRequest_same in H1 as ->.
  destruct can; cbn [negb] in H; [|m_inv; unfold within; lia].
  step H as ts s2 H2. apply lift_ok in H2 as [_ ->]. destruct ts as [t1 t2].
  step H as w s2 H2. apply get_ok in H2 as [-> ->].
  destruct (_ && _) in H; [m_inv; unfold within; lia|]. step H as st1 s2 H2.
  assert (within 0 s2 s') as Hs2.
  { destruct st1; m_inv; try done. by kept (within 0) in H by (keeps). }
  assert (within 1 s s2); [|unfold within in *; lia]. clear H Hs2.
  apply insertRequest_run in H2 as [[= Ht _ _ _ Hr _]|(_ & logs & [(r & _ & Ht) _ _ _ _ _ Hr _] & _)];
    unfold within, pending_work; rewrite Ht, Hr; [lia|].
  rewrite total_insert, length_app. cbn. unfold requests. lia.
Qed.

Section ports.
Context (retry : M SW unit) (Hretry : keeps (within 0) retry).
Hint Resolve Hretry : keeps.

Lemma makeRequest_within p : keeps (within 1) (makeRequest retry p).
Proof.
  intros s st s' H. unfold makeRequest in H. step H as w s0 H0. apply get_ok in H0 as [-> ->].
  assert (within 0 s s' -> within 1 s s') as Hle by (unfold within; lia).
  destruct (isHTMCmd p).
  { apply Hle. kept (within 0) in H by (unfold notifyXactionEvent, command_aborting, command_start,
      command_commit, command_isolate, abortTransaction, schedule_commit_check, rubyHtmCallback; keeps).
    done. }
  destruct (_ && _) in H.
  { apply Hle. by kept (within 0) in H by (unfold rubyHtmCallback; keeps). }
  step H as done s1 H1. kept (within 0) in H1 by (keeps).
  destruct done.
  { apply Hle. kept (within 0) in H by (unfold ruby_hit_callback; keeps). by etrans. }
  assert (within 1 s1 s'); [clear Hle|unfold within in *; lia].
  destruct (_ && _) in H; [|by eapply base_make_within].
  destruct (pkt_isWrite p).
  - unfold redirect_store in H. step H as w s0 H0. apply get_ok in H0 as [-> ->].
    destruct (m_atCommit _); [by eapply base_make_within|].
    kept (within 0) in H by (keeps). unfold within in *. lia.
  - destruct (req_isLockedRMW p); [m_inv|].
    destruct (_ && _) in H; by eapply base_make_within.
Qed.
End ports.

Lemma send_within (f : SPacket -> M SW unit) l :
  (forall p, keeps (within 1) (f p)) -> keeps (within (Z.of_nat (length l))) (forM l f).
Proof.
  intros Hf. induction l as [|p l IH]; cbn [forM]; intros s u s' H.
  - m_inv. unfold within. lia.
  - step H as u1 s1 H1. apply Hf in H1. apply IH in H. unfold within in *. cbn [length]. lia.
Qed.

Lemma send_retries_within n : keeps (within 0) (send_retries n).
Proof.
  induction n as [|n IH]; cbn [send_retries]; [keeps|]. intros s u s' H.
  step H as w s0 H0. apply get_ok in H0 as [-> ->].
  destruct (retries (sq s)) as [|l rest] eqn:Hr; [by m_inv|].
  step H as w s1 H1. apply on_sq_ok in H1 as ->. apply send_within in H.
  - unfold within, pending_work in *. cbn in H. rewrite Hr. cbn [concat]. rewrite length_app. lia.
  - intros p s1 u1 s2 H2. step H2 as st s3 H3. m_inv. by apply (makeRequest_within _ IH) in H3.
Qed.

Lemma within_trySendRetries : keeps (within 0) trySendRetries.
Proof. unfold trySendRetries. keeps. apply send_retries_within. Qed.
Hint Resolve within_trySendRetries : keeps.

Section loop.
Context (hit : SequencerRequest -> DataBlock -> bool -> bool -> M SW DataBlock).
Context (Hhit : forall r d l c, keeps (within 0) (hit r d l c)).
Hint Resolve Hhit : keeps.

Lemma write_loop_within n a nc rr uid d :
  keeps (within 0) (write_loop setFlagsPreIssueRequest hit n a nc rr uid d).
Proof.
  revert rr uid d. induction n as [|n IH]; intros rr uid d; cbn [write_loop];
    unfold complete_write; keeps.
Qed.

Lemma base_writeCallback_within a d nc :
  keeps (within 0) (base_writeCallback trySendRetries setFlagsPreIssueRequest hit a d nc).
Proof. unfold base_writeCallback, check_line. keeps. apply write_loop_within. Qed.

Context (P : Z -> Prop) (a : Z) (HPa : P a).
Context (Hok : forall r d l c, waits_on a (sr_pkt r) -> keeps (safe_on P) (hit r d l c)).

(** One iteration takes one request away. *)
Lemma iteration_strict s s1 s2 u k b :
  seq_ok k b (sq s) -> (0 < len a s)%nat -> one_completed P s s1 -> within 0 s s1 ->
  pop_front a s1 = Ok (u, s2) -> pending_work s2 < pending_work s.
Proof.
  intros Hs Hl Hc Hw Hp. destruct (Hc k b Hs) as [_ Hlen]. specialize (Hlen a HPa).
  apply pop_strict in Hp; [|lia]. unfold within in Hw. lia.
Qed.

Lemma write_loop_ends n nc rr uid d s x s' k (b : Z -> Prop) :
  b a -> seq_ok k b (sq s) -> pending_work s < Z.of_nat n ->
  write_loop setFlagsPreIssueRequest hit n a nc rr uid d s = Ok (x, s') -> x.1 = true.
Proof.
  intros Hb. revert rr uid d s. induction n as [|n IH]; intros rr uid d s Hs Hn H;
    [pose proof (total_nonneg (m_RequestTable (sq s))); unfold pending_work in Hn; lia|].
  cbn [write_loop] in H. step H as w s0 H0. apply get_ok in H0 as [-> ->].
  destruct (requests a (sq s)) as [|r l] eqn:Hr; [by m_inv; subst|].
  pose proof (front_waits _ _ _ _ _ _ Hs Hr) as Hw.
  destruct (nc && negb rr); [by m_inv; subst|]. step H as u s1 H1.
  assert (s1 = s) as -> by (destruct rr; by m_inv). clear H1.
  destruct (_ && _) in H; [by m_inv; subst|].
  step H as d1 s1 H1. step H as u2 s2 H2. destruct u2.
  assert (0 < len a s)%nat as Hl by (unfold len; rewrite Hr; cbn; lia).
  assert (one_completed P s s1 /\ within 0 s s1) as [Hc Hwi].
  { destruct (negb (read_type _)).
    - split; [by eapply complete_write_ok|]. by kept (within 0) in H1 by (unfold complete_write; keeps).
    - step H1 as u1 s0 H0. apply massert_ok in H0 as [_ ->].
      split; [by eapply completed_hit|]. by kept (within 0) in H1 by (keeps). }
  pose proof (iteration_strict _ _ _ _ _ _ Hs Hl Hc Hwi H2) as Hlt.
  destruct (loop_ok_pop P a s s1 s2 HPa Hl Hc H2 k b Hb Hs) as [Hs2 _].
  eapply IH; [exact Hs2| |exact H]. lia.
Qed.

Lemma read_loop_ends n rr uid d s x s' k (b : Z -> Prop) :
  b a -> seq_ok k b (sq s) -> pending_work s < Z.of_nat n ->
  read_loop setFlagsPreIssueRequest hit n a rr uid d s = Ok (x, s') -> x.1 = true.
Proof.
  intros Hb. revert rr uid d s. induction n as [|n IH]; intros rr uid d s Hs Hn H;
    [pose proof (total_nonneg (m_RequestTable (sq s))); unfold pending_work in Hn; lia|].
  cbn [read_loop] in H. step H as w s0 H0. apply get_ok in H0 as [-> ->].
  destruct (requests a (sq s)) as [|r l] eqn:Hr; [by m_inv; subst|].
  pose proof (front_waits _ _ _ _ _ _ Hs Hr) as Hw. step H as u s1 H1.
  assert (s1 = s) as -> by (destruct rr; by m_inv). clear H1.
  destruct (_ || _) in H; [by m_inv; subst|].
  step H as u1 s1 H1. assert (s1 = s) as -> by (destruct rr; cbn [when] in H1; by m_inv). clear H1.
  step H as u2 s1 H1. step H as d2 s2 H2. step H as u3 s3 H3. destruct u3.
  assert (0 < len a s)%nat as Hl by (unfold len; rewrite Hr; cbn; lia).
  assert ((do* markRemoved; hit r d true (negb rr)) s = Ok (d2, s2)) as H12
    by by rewrite (bind_run _ _ _ _ _ H1).
  pose proof (completed_hit _ _ _ Hok _ _ _ _ _ _ _ Hw H12) as Hc.
  kept (within 0) in H12 by (keeps).
  pose proof (iteration_strict _ _ _ _ _ _ Hs Hl Hc H12 H3) as Hlt.
  destruct (loop_ok_pop P a s s2 s3 HPa Hl Hc H3 k b Hb Hs) as [Hs3 _].
  eapply IH; [exact Hs3| |exact H]. lia.
Qed.
End loop.

Lemma hitCallback_within nested r d l c :
  (forall b d', keeps (within 0) (nested b d')) ->
  keeps (within 0) (hitCallback trySendRetries nested r d l c).
Proof.
  intros Hn. unfold hitCallback, handleFailedCallback, failure_reason, failedCallbackCleanup,
    handleStoresToLog, store_logged, transactional_callback, base_hitCallback, ruby_hit_callback.
  keeps.
Qed.

Lemma storeCallback_within a d : keeps (within 0) (storeCallback trySendRetries a d).
Proof.
  apply base_writeCallback_within. intros. apply hitCallback_within. intros. apply keeps_throw.
Qed.

Lemma bound_enough s : pending_work s < Z.of_nat (loop_bound (sq s)).
Proof.
  unfold pending_work, loop_bound. pose proof (total_nonneg (m_RequestTable (sq s))). lia.
Qed.
End loops.

(** ** Log writes find their room *)

Section log.
Context `{E : Env} `{SE : SeqEnv}.

(** A log write for a store to line [a], to a line that is not blocked and on
    which no transactional access waits. *)
Record log_ready (a : Z) p s : Prop := {
  lr_for : log_write_for a p;
  lr_write : pkt_isWrite p = true;
  lr_plain : pkt_isLLSC p = false /\ req_isLockedRMW p = false;
  lr_open : isBlocked (line p) (sq s) = false;
  lr_alone r : last (requests (line p) (sq s)) = Some r -> isHtmTransactional (sr_pkt r) = false
}.

Lemma canMake_log a p s :
  lazy_vm params = false -> log_write_for a p -> m_pendingLogging (sq s) !! a = Some true ->
  roomy 1 (unreserved a (sq s)) -> canMakeRequest p s = Ok (true, s).
Proof.
  intros Hlz (_ & Ht & _ & v & Hv & Hva) Hpe Hr. unfold roomy, unreserved in Hr. cbn in Hr.
  rewrite map_size_delete_Some in Hr by eauto.
  pose proof (map_size_ne_0_lookup_2 (m_pendingLogging (sq s)) a ltac:(eauto)) as Hne.
  unfold canMakeRequest, num_reserved_mshrs. rewrite Hlz. run. rewrite Ht, andb_false_r, Hv. run.
  rewrite Hva, Hpe. run.
  rewrite (proj2 (Z.leb_gt (m_max_outstanding_requests (sq s)) _)) by lia. cbn [andb negb].
  by rewrite orb_true_r.
Qed.

(** The table with a log write in it. *)
Definition with_log p x : Seq :=
  x <| deadlockCheckEvent := deadlockCheckEvent x || negb draining |>
    <| m_RequestTable ::= <[line p := requests (line p) x ++
         [MkSequencerRequest p ST ST curCycle 0 false]]> |>
    <| m_outstanding_count ::= Z.add 1 |>.

Lemma base_insert_log a p s :
  log_ready a p s ->
  exists st, base_insertRequest p ST ST s = Ok (st, s <| sq := with_log p (sq s) |>) /\
    (st = RequestStatus_Ready \/ st = RequestStatus_Aliased).
Proof.
  intros [(_ & Ht & _) _ _ _ Hal].
  exists (if Nat.ltb 1 (length (requests (line p) (sq s) ++ [MkSequencerRequest p ST ST curCycle 0 false]))
          then RequestStatus_Aliased else RequestStatus_Ready). split.
  - unfold base_insertRequest. run. fold (line p).
    assert ((match last (requests (line p) (sq s)) with
             | Some r => canCoalesceRequest p r | None => true end) = true) as ->.
    { destruct (last _) as [r|]; [|done]. unfold canCoalesceRequest. by rewrite Ht, (Hal r eq_refl). }
    cbn [negb]. unfold set_requests, with_log. destruct s as [[] ? ?]. cbn.
    destruct deadlockCheckEvent, draining; cbn; reflexivity.
  - destruct (Nat.ltb _ _); auto.
Qed.

Lemma insert_log a p s :
  lazy_vm params = false -> m_failedStorePkt (sq s) = None -> log_ready a p s ->
  exists st, insertRequest p ST ST s = Ok (st, s <| sq := with_log p (sq s) |>) /\
    (st = RequestStatus_Ready \/ st = RequestStatus_Aliased).
Proof.
  intros Hlz Hf Hl. destruct (base_insert_log a p s Hl) as (st & Hb & Hst). exists st.
  split; [|done]. destruct Hl as [(_ & Ht & _) _ _ _ _].
  unfold insertRequest. run. rewrite Hf, bool_decide_eq_false_2 by done. run_with Hb.
  rewrite Ht, Hlz. cbn [andb when unless]. run. unfold reserve_logging, isolate_issued.
  rewrite Ht, andb_false_r. cbn [andb when unless]. run. by destruct (precise_read_set_tracking _).
Qed.

Lemma issue_plain p s :
  config_allowEarlyValueFwd = false -> 0 < mandatoryQueueLatency ST -> isHtmTransactional p = false ->
  exists o, issueRequest setFlagsPreIssueRequest p ST s = Ok (tt, s <| sq := (sq s) <| sq_out := o |> |>).
Proof.
  intros Hfwd Hq Ht. eexists. unfold issueRequest, setFlagsPreIssueRequest,
    base_setFlagsPreIssueRequest. rewrite Ht, Hfwd. run.
  rewrite (proj2 (Z.ltb_lt 0 _) Hq). run. reflexivity.
Qed.

Lemma log_admitted a p s :
  lazy_vm params = false -> config_allowEarlyValueFwd = false -> 0 < mandatoryQueueLatency ST ->
  m_failedStorePkt (sq s) = None -> log_ready a p s -> m_pendingLogging (sq s) !! a = Some true ->
  roomy 1 (unreserved a (sq s)) ->
  exists o, base_makeRequest canMakeRequest insertRequest setFlagsPreIssueRequest p s =
    Ok (RequestStatus_Issued, s <| sq := (with_log p (sq s)) <| sq_out := o |> |>).
Proof.
  intros Hlz Hfwd Hq Hf Hl Hpe Hr. destruct (insert_log a p s Hlz Hf Hl) as (st & Hi & Hst).
  destruct Hl as [Hp Hw [Hll Hrm] Hop _].
  unfold base_makeRequest. run_with (canMake_log a p s Hlz Hp Hpe Hr). cbn [negb].
  unfold request_types. rewrite Hll, Hrm, Hw. run. fold (line p). rewrite Hop. cbn [andb].
  run_with Hi. destruct Hp as (_ & Ht & _).
  destruct (issue_plain p (s <| sq := with_log p (sq s) |>) Hfwd Hq Ht) as [o Ho].
  destruct Hst as [-> | ->].
  - exists o. run_with Ho. reflexivity.
  - exists (sq_out (sq s)). run. destruct s as [[] ? ?]. reflexivity.
Qed.

(** The second log write, after the first one entered the table. *)
Lemma log_ready_next a p q s o :
  log_ready a p s -> log_ready a q s -> log_ready a q (s <| sq := (with_log p (sq s)) <| sq_out := o |> |>).
Proof.
  intros [(_ & Ht & _) _ _ _ _] [Hq Hw Hpl Hop Hal]. split; try done. cbn. intros r.
  unfold requests at 1. cbn. destruct (decide (line q = line p)) as [He|Hne].
  - rewrite He, lookup_insert_eq. cbn. rewrite last_snoc. by intros [= <-].
  - rewrite lookup_insert_ne by done. apply Hal.
Qed.

Lemma roomy_next a p s o :
  roomy 2 (unreserved a (sq s)) ->
  roomy 1 (unreserved a (sq (s <| sq := (with_log p (sq s)) <| sq_out := o |> |>))).
Proof. unfold roomy, unreserved. cbn. lia. Qed.
End log.

(** ** Aborted transactions, nacks and commits *)

Section transactions.
Context `{E : Env} `{SE : SeqEnv}.

Lemma no_retries s : retries (sq s) = [] -> trySendRetries s = Ok (tt, s).
Proof. intros H. unfold trySendRetries. run. by rewrite H. Qed.

Lemma release_locked_run s u s' :
  release_locked s = Ok (u, s') ->
  outstandingTransLockedRMWAccesses (sq s') = ∅ /\ m_RequestTable (sq s') = m_RequestTable (sq s) /\
  m_outstanding_count (sq s') = m_outstanding_count (sq s) /\ m_stalled (sq s') = m_stalled (sq s) /\
  m_lastAbortHtmUid (sq s') = m_lastAbortHtmUid (sq s) /\
  m_block_map (sq s') = m_block_map (sq s) ∖ dom (outstandingTransLockedRMWAccesses (sq s)).
Proof.
  unfold release_locked. intros H. step H as w s0 H0. apply get_ok in H0 as [-> ->].
  destruct (std_keys _) as [|k [|]] eqn:Hk; [|unfold unblock in H|done].
  - m_inv. apply std_keys_nil in Hk. rewrite Hk, dom_empty_L, difference_empty_L. done.
  - assert (dom (outstandingTransLockedRMWAccesses (sq s)) = {[k]}) as Hd.
    { apply set_eq. intros j. rewrite elem_of_dom, elem_of_singleton, <- elem_of_std_keys, Hk.
      apply list_elem_of_singleton. }
    step H as u1 s1 H1. apply on_sq_ok in H1 as ->. apply on_sq_ok in H as ->. cbn.
    rewrite Hd. split; [|done]. apply dom_empty_inv_L. rewrite dom_delete_L, Hd. set_solver.
Qed.

(** An access of a transaction that is gone. *)
Lemma lingering_bounces q s code :
  m_lastAbortHtmUid (sq s) = uid_of q -> isHTMCmd q = false -> isHtmTransactional q = true ->
  m_commitPending (sq s) = false -> m_failedStorePkt (sq s) = None ->
  getHtmTransactionalReqResponseCode (wd s) = Ok code ->
  let c := if isRead q && negb (isInstFetch q) then code else NO_FAIL in
  makeRequest trySendRetries q s = (do* trySendRetries; ret RequestStatus_Issued)
    (if pkt_needsResponse q
     then s <| sq := (sq s) <| sq_out ::= cons (HtmResponse (q <| pkt_htmReturnReason := c |>) c) |> |>
     else s).
Proof.
  intros Huid Hcmd Ht Hcp Hf Hcode c. unfold makeRequest. run.
  rewrite Hcmd, Ht, Huid, Z.eqb_refl, orb_true_r, Hcp, Hf. cbn [andb]. run.
  unfold rubyHtmCallback. run. rewrite Hcmd, Ht, Huid, Z.eqb_refl, orb_true_r. cbn [unless]. run.
  assert (is_cmd HTMStart q = false) as ->.
  { unfold isHTMCmd in Hcmd. apply bool_decide_eq_false, dec_stable in Hcmd. unfold is_cmd. by rewrite Hcmd. }
  destruct (pkt_needsResponse q); cbn [when]; run; [|done].
  rewrite Hcp, andb_true_r. unfold c, ask, emit, on_sq.
  destruct (isRead q && negb (isInstFetch q)); run; rewrite ?Hcode; run; done.
Qed.
End transactions.

(** C5: The requests are accounted for: from the initial state, after any sequence of requests,
    completions, nacks, retries and events, interleaved with arbitrary changes of the
    transactional state, the counter of outstanding requests is the number of requests in the
    table (the assertion of the deadlock check); no line has an empty list; the requests of a
    line are accesses to that line and belong to one transaction or to none (so the checks in
    the completion loops hold); and the counter plus two entries for every store that still has
    to log its block never exceeds the maximum. It is assumed that the ports send no
    log writes of their own, and that a line which completes a transactional store under LogTM is
    not in the pages of the undo log. *)
Theorem requests_accounted v max th ports x w ps s :
  Seq_init v max th ports = Ok x -> Forall from_port (concat ports) ->
  rtc seq_step (MkSeqWorld x w ps) s ->
  m_outstanding_count (sq s) = total_requests (m_RequestTable (sq s)) /\
  (forall a l, m_RequestTable (sq s) !! a = Some l ->
     l <> [] /\ (forall r, r ∈ l -> line (sr_pkt r) = a) /\
     (forall r r', r ∈ l -> r' ∈ l -> key (sr_pkt r) = key (sr_pkt r'))) /\
  m_outstanding_count (sq s) + 2 * Z.of_nat (size (m_pendingLogging (sq s))) <=
    m_max_outstanding_requests (sq s).
Proof.
  intros Hi Hp Hr. pose proof (steps_ok _ _ _ _ Hr (init_ok _ _ _ _ _ Hi Hp)) as Hok.
  split; [pose proof (ok_count _ _ _ Hok); lia|]. split; [|exact (ok_room _ _ _ Hok)].
  intros a l Ha. split; [by intros ->; apply (ok_full _ _ _ Hok a)|].
  split; [|intros r r'; by apply (ok_key _ _ _ Hok a)].
  intros r Hin. by destruct (ok_waits _ _ _ Hok a l r Ha Hin).
Qed.

(** C15: The loops that complete the requests of a line end by themselves: in
    every state that the invariant of the table allows (also inside another
    completion, with [k] requests completed and not removed), a run of the
    write loop, of the loop for a store whose log writes are done, and of the
    read loop, with as many iterations as there are requests in the table and
    packets the ports can still send, is never cut short by that bound,
    although each completion may make the ports send new requests to the same
    line. *)
Theorem callback_loops_finish `{E : Env} `{SE : SeqEnv} k (busy : Z -> Prop) a nc rr uid d s x s' :
  seq_ok k busy (sq s) ->
  (write_loop setFlagsPreIssueRequest (hitCallback trySendRetries (storeCallback trySendRetries))
     (loop_bound (sq s)) a nc rr uid d s = Ok (x, s') \/
   write_loop setFlagsPreIssueRequest (hitCallback trySendRetries (fun _ _ => throw EUndef))
     (loop_bound (sq s)) a nc rr uid d s = Ok (x, s') \/
   read_loop setFlagsPreIssueRequest (hitCallback trySendRetries (storeCallback trySendRetries))
     (loop_bound (sq s)) a rr uid d s = Ok (x, s')) ->
  x.1 = true.
Proof.
  intros Hs H. pose proof (bound_enough s) as Hb. pose proof safe_trySendRetries as Hr.
  apply (seq_ok_weaken _ _ (fun a' => busy a' \/ a' = a)) in Hs; [|by left].
  assert (forall r d l c, keeps (within 0)
    (hitCallback trySendRetries (storeCallback trySendRetries) r d l c)) as Hw
    by (intros; apply hitCallback_within, storeCallback_within).
  destruct H as [H|[H|H]].
  - eapply (write_loop_ends _ Hw (fun a' => a' = a) a eq_refl) with (b := fun a' => busy a' \/ a' = a);
      [|by right|exact Hs|exact Hb|exact H].
    intros. by apply hit_ok.
  - eapply (write_loop_ends _) with (P := fun _ => True) (a := a) (b := fun a' => busy a' \/ a' = a);
      [|done| |by right|exact Hs|exact Hb|exact H].
    + intros. apply hitCallback_within. intros. apply keeps_throw.
    + intros r d' l c Hwa. apply (hitCallback_ok _ Hr _ _ a); [|done]. intros. apply keeps_throw.
  - eapply (read_loop_ends _ Hw (fun a' => a' = a) a eq_refl) with (b := fun a' => busy a' \/ a' = a);
      [|by right|exact Hs|exact Hb|exact H].
    intros. by apply hit_ok.
Qed.

(** C21: Under LogTM the two log writes of a transactional store are always
    admitted: the store reserved their room when it was inserted, so once its
    block arrives both writes enter the table and are issued (the panic on a
    refused log write is unreachable), whatever other requests are waiting;
    only a blocked log line or a transactional access to it could stand in
    the way. *)
Theorem log_writes_admitted `{E : Env} `{SE : SeqEnv} k (busy : Z -> Prop) a log s :
  lazy_vm params = false -> config_allowEarlyValueFwd = false -> 0 < mandatoryQueueLatency ST ->
  seq_ok k busy (sq s) -> m_pendingLogging (sq s) !! a = Some true ->
  m_failedStorePkt (sq s) = None ->
  log_ready a (logAddrPkt log) s -> log_ready a (logDataPkt log) s ->
  logAddrPktStatus log = RequestStatus_NULL -> logDataPktStatus log = RequestStatus_NULL ->
  exists log' s', makeLogRequests log s = Ok ((true, log'), s') /\
    outstanding log' = outstanding log + 2 /\
    m_outstanding_count (sq s') = m_outstanding_count (sq s) + 2 /\
    seq_ok k busy (unreserved a (sq s')).
Proof.
  intros Hlz Hfwd Hq Hok Hpe Hf Ha Hd Hsa Hsd.
  destruct (unreserved_ok _ _ a _ Hok ltac:(eauto)) as [_ Hr].
  destruct (log_admitted a _ s Hlz Hfwd Hq Hf Ha Hpe) as [o Ho]; [unfold roomy in *; lia|].
  pose proof (log_ready_next _ _ _ _ o Ha Hd) as Hd1.
  pose proof (roomy_next _ (logAddrPkt log) _ o Hr) as Hr1.
  edestruct (log_admitted a (logDataPkt log)) as [o' Ho'];
    [exact Hlz|exact Hfwd|exact Hq| |exact Hd1|exact Hpe|exact Hr1|]; [exact Hf|].
  assert (exists log' s', makeLogRequests log s = Ok ((true, log'), s') /\
    outstanding log' = outstanding log + 2 /\
    m_outstanding_count (sq s') = m_outstanding_count (sq s) + 2) as (log' & s' & Hm & H1 & H2).
  { remember (s <| sq := (with_log (logAddrPkt log) (sq s)) <| sq_out := o |> |>) as s1 eqn:Es.
    eexists _, _. split.
    - unfold makeLogRequests, issue_log. rewrite Hsa, bool_decide_eq_false_2 by done.
      run. run_with Ho. cbn. rewrite Hsd.
      change (bool_decide (RequestStatus_Issued = RequestStatus_Issued)) with true.
      change (bool_decide (RequestStatus_NULL = RequestStatus_Issued)) with false. cbn [negb].
      run. run_with Ho'. reflexivity.
    - subst s1. split; [|cbn; lia].
      trans (1 + (1 + outstanding log)); [reflexivity|lia]. }
  exists log', s'. repeat (split; [done|]).
  refine (makeLogRequests_ok k busy a log s _ s' _ _ Hm Hok _ _); try done; try apply Ha; try apply Hd.
Qed.

(** C13: An abort cuts the transaction off from the table.  When the abort returns, every
    transactional request that waits is marked as suppressed and stays, the other requests are
    unchanged, no locked access of the transaction is outstanding any more, and exactly the
    lines those accesses had blocked in the controller are unblocked.  From then on, an access
    that still carries the identity of the aborted transaction, as long as that is the last one
    aborted, does not enter the table, and neither the caches nor the transaction's state see
    it: it only adds its answer, if it needs one, and gives waiting ports the chance to retry.
    The conditions are those under which the sequencer gets that far: no commit pending, no
    failed store noted, and a cause of abort that has a response code. *)
Theorem abort_isolates `{E : Env} `{SE : SeqEnv} pkt s u s1 :
  abortTransaction pkt s = Ok (u, s1) ->
  (forall a, requests a (sq s1) =
     map (fun r => if isHtmTransactional (sr_pkt r) then r <| suppressed := true |> else r)
       (requests a (sq s))) /\
  m_outstanding_count (sq s1) = m_outstanding_count (sq s) /\
  outstandingTransLockedRMWAccesses (sq s1) = ∅ /\
  m_block_map (sq s1) = m_block_map (sq s) ∖ dom (outstandingTransLockedRMWAccesses (sq s)) /\
  m_stalled (sq s1) = false /\
  forall q s2 code,
    m_lastAbortHtmUid (sq s2) = m_lastAbortHtmUid (sq s1) ->
    isHTMCmd q = false -> isHtmTransactional q = true -> uid_of q = uid_of pkt ->
    m_commitPending (sq s2) = false -> m_failedStorePkt (sq s2) = None ->
    getHtmTransactionalReqResponseCode (wd s2) = Ok code ->
    let c := if isRead q && negb (isInstFetch q) then code else NO_FAIL in
    makeRequest trySendRetries q s2 = (do* trySendRetries; ret RequestStatus_Issued)
      (if pkt_needsResponse q
       then s2 <| sq := (sq s2) <| sq_out ::= cons (HtmResponse (q <| pkt_htmReturnReason := c |>) c) |> |>
       else s2).
Proof.
  intros H. unfold abortTransaction in H. step H as w s0 H0. apply get_ok in H0 as [-> ->].
  step H as u1 s0 H0. apply massert_ok in H0 as [_ ->].
  step H as u2 s2 H2. step H as u3 s3 H3. step H as u4 s4 H4. step H as uid s5 H5.
  step H as u6 s6 H6. step H as u7 s7 H7. step H as w s8 H8. apply get_ok in H8 as [-> ->].
  step H as u9 s9 H9. assert (s9 = s7) as -> by (destruct (lazy_vm params); cbn [unless] in H9; by m_inv).
  apply on_sq_ok in H2. apply on_sq_ok in H3. apply mgr_run in H4 as [H4 _].
  apply lift_ok in H5 as [Huid ->]. apply on_sq_ok in H6. apply on_sq_ok in H7.
  assert (uid = uid_of pkt) as ->.
  { unfold getHtmTransactionUid, rassert in Huid. by destruct (isHtmTransactional pkt); simplify_eq/=. }
  apply release_locked_run in H as (Hlock & Ht & Hc & Hst & Hl & Hbm).
  assert (sq s7 = (sq s) <| m_stalled := false |> <| m_lastStateBeforeStall := XactProfiler.INVALID |>
    <| m_lastAbortHtmUid := uid_of pkt |> <| m_RequestTable ::= fmap (map suppress) |>) as H7'
    by (subst; cbn; by rewrite H4).
  rewrite H7' in *. split; [|do 4 (split; [done|])].
  - intros a. unfold requests. rewrite Ht. cbn. rewrite lookup_fmap.
    by destruct (m_RequestTable (sq s) !! a).
  - intros q s8 code Hla Hcmd Htr Hq. rewrite Hl in Hla. intros. apply lingering_bounces; [|done..].
    by rewrite Hla, Hq.
Qed.

(** C39: A nacked access that is not transactional stops the simulator: unless
    the block was consumed from another transaction, the callback asks the
    packet for its transaction, which only a transactional packet has. *)
Theorem nacked_nontransactional_fails `{E : Env} `{SE : SeqEnv} a d ts tr pr sw n w r l s :
  requests a (sq s) = r :: l -> isHtmTransactional (sr_pkt r) = false ->
  config_allowEarlyValueFwd && isBlockConsumed a (wd s) = false ->
  failedCallback trySendRetries a d ts tr pr sw n w s = Err EAssert.
Proof.
  intros Hr Ht Hc. unfold failedCallback, on_sq. run. cbn [sq wd].
  change (requests a (sq _)) with (requests a (sq s)). rewrite Hr. cbn. rewrite Hc.
  run. unfold getHtmTransactionUid. by rewrite Ht.
Qed.

(** C28: A commit that has to wait is not answered. When no abort is pending, no check of the
    commit is scheduled and no port waits for a retry, and the call returns, the command leaves
    no request in the table and no answer, only the mark that a commit is pending and the event
    that tries the same command again. *)
Theorem commit_deferred `{E : Env} `{SE : SeqEnv} p s st s' :
  is_cmd HTMCommit p = true -> isRead p = true -> isInstFetch p = false ->
  isAborting (wd s) = false ->
  InterfaceManager.canCommitTransaction (wd s) = Ok false ->
  lazyCommitCheckEvent (sq s) = None -> retries (sq s) = [] ->
  makeRequest trySendRetries p s = Ok (st, s') ->
  st = RequestStatus_Issued /\
  sq s' = (sq s) <| m_commitPending := true |> <| lazyCommitCheckEvent := Some p |> /\
  lazyCommitEvent trySendRetries s' =
    (let* _ := makeRequest trySendRetries p in ret tt) (s' <| sq ::= fun x => x <| lazyCommitCheckEvent := None |> |>).
Proof.
  intros Hp Hrd Hif Hab Hcan Hev Hr H. apply bool_decide_eq_true in Hp.
  assert (isHTMCmd p = true) as Hcmd by (unfold isHTMCmd; by rewrite Hp).
  unfold makeRequest in H. step H as w s0 H0. apply get_ok in H0 as [-> ->]. rewrite Hcmd in H.
  step H as u s1 H1. step H as u2 s2 H2. m_inv.
  unfold notifyXactionEvent in H1. step H1 as w s0 H0. apply get_ok in H0 as [-> ->].
  rewrite Hab, Hp in H1. unfold command_commit in H1.
  step H1 as can s0 H0. apply ask_ok in H0 as [-> H0]. rewrite Hcan in H0. injection H0 as <-.
  step H1 as w s0 H0. apply get_ok in H0 as [-> ->].
  step H1 as others s3 H3. apply mgr_run in H3 as [H3 _].
  step H1 as u4 s4 H4. injection H4 as _ <-. step H1 as u5 s5 H5. apply on_sq_ok in H5.
  unfold schedule_commit_check in H1. step H1 as w s0 H0. apply get_ok in H0 as [-> ->].
  assert (lazyCommitCheckEvent (sq s5) = None) as Hev5 by (subst s5; cbn; by rewrite H3).
  rewrite Hev5 in H1. apply on_sq_ok in H1.
  assert (sq s1 = (sq s) <| m_commitPending := true |> <| lazyCommitCheckEvent := Some p |>) as Hs1
    by (subst s1 s5; cbn; by rewrite H3).
  assert (s2 = s1) as ->.
  { unfold rubyHtmCallback in H2. step H2 as w s0 H0. apply get_ok in H0 as [-> ->].
    step H2 as u6 s6 H6. rewrite Hcmd in H6. cbn [negb unless] in H6. injection H6 as _ <-.
    step H2 as u7 s7 H7. assert (s7 = s1) as ->; [|rewrite no_retries in H2; [by simplify_eq|by rewrite Hs1]].
    rewrite Hs1, Hrd, Hif in H7. cbn in H7. clear H2.
    assert (is_cmd HTMStart p = false) as Hst by (unfold is_cmd; by rewrite Hp).
    rewrite Hst in H7. destruct (pkt_needsResponse p); cbn [negb when] in H7; m_inv; reflexivity. }
  split; [done|]. split; [done|]. unfold lazyCommitEvent, on_sq. run. by rewrite Hs1.
Qed.
End ops.

(** ** A transactional store under LogTM

    A port begins a transaction; the retry of another port asks for a line;
    the transaction stores to a line that has to be logged first. *)

#[local] Existing Instance ruby64.
#[local] Existing Instance Chain.demo_wrap.
#[local] Existing Instance Lifecycle.demo_logtm.

#[local] Instance demo_seqenv : SeqEnv := {|
  draining := false;
  isX86 := true;
  mandatoryQueueLatency _ := 1
|}.

Definition demo_access (id addr : Z) (read trans : bool) (cmd : option HtmCmd) (bytes : list Z)
    : SPacket :=
  MkSPacket id
    (MkPacket addr (Z.of_nat (length bytes)) bytes read trans 7 3 false false EXCEPTION 1 1000 10)
    (negb read) false false true None false None false false false cmd (Some (addr + 2 ^ 20))
    (Some 64) None false false false None false NO_FAIL.

Definition demo_start : SPacket := demo_access 1 0 true true (Some HTMStart) [].
Definition demo_store : SPacket := demo_access 2 8 false true None [9].
Definition demo_load : SPacket := demo_access 3 128 true false None [0].
Definition demo_load' : SPacket := demo_access 4 132 true false None [0].
Definition demo_abort : SPacket := demo_access 5 0 true true (Some HTMAbort) [].
Definition demo_commit : SPacket := demo_access 6 0 true true (Some HTMCommit) [].

Definition demo_ports : list (list SPacket) := [[demo_load]; [demo_load']].

Definition demo_init (w : World CacheMemory) : SeqWorld CacheMemory :=
  match Seq_init 0 8 500 demo_ports with
  | Ok x => MkSeqWorld x w []
  | Err _ => MkSeqWorld (MkSeq 0 ∅ 0 0 0 false ∅ false false false None false XactProfiler.INVALID
                           0 ∅ ∅ ∅ None None 0 [] []) w []
  end.

(** Line 0 is program data; the log is at the page 4096. *)
Definition legalb (o : seq_op) (s : SeqWorld CacheMemory) : bool :=
  match o with
  | DoRequest p => bool_decide (pkt_htmStoreToLog p = None)
  | DoWrite a _ _ | DoScFail a _ =>
      forallb (fun r => negb (isHtmTransactional (sr_pkt r))) (requests a (sq s)) ||
      ((a =? 0) && bool_decide (EagerVM.m_logTLB (evm (wd s)) = {[0 := 4096]}))
  | _ => true
  end.

Lemma legalb_ok o (s : SeqWorld CacheMemory) : legalb o s = true -> legal o s.
Proof.
  assert (forall a, forallb (fun r => negb (isHtmTransactional (sr_pkt r))) (requests a (sq s)) ||
      ((a =? 0) && bool_decide (EagerVM.m_logTLB (evm (wd s)) = {[0 := 4096]})) = true ->
    forall r, r ∈ requests a (sq s) -> isHtmTransactional (sr_pkt r) = true ->
      log_apart a (evm (wd s))) as Hw.
  { intros a [H|H]%orb_true_iff r Hr Ht.
    - rewrite forallb_forall in H. apply list_elem_of_In in Hr. specialize (H r Hr). by rewrite Ht in H.
    - apply andb_true_iff in H as [Ha%Z.eqb_eq Htlb%bool_decide_eq_true]. subst a.
      intros vp pp off Hl Ho. rewrite Htlb in Hl. apply lookup_singleton_Some in Hl as [_ <-].
      split; [lia|]. split; [done|]. rewrite makeLineAddress_eq by lia.
      change getBlockSizeBytes with 64. pose proof (Z.mod_pos_bound (4096 + off) 64). lia. }
  destruct o; cbn; try done; intros H.
  - by apply bool_decide_eq_true in H.
  - intros _. by apply Hw.
  - intros _. by apply Hw.
Qed.

Fixpoint demo_run (l : list seq_op) (s : SeqWorld CacheMemory) : res (SeqWorld CacheMemory) :=
  match l with
  | [] => Ok s
  | o :: l =>
      let? _ := rassert (legalb o s) in
      let? r := run_op o s in
      demo_run l r.2
  end.

Lemma demo_run_steps l s s' : demo_run l s = Ok s' -> rtc seq_step s s'.
Proof.
  revert s. induction l as [|o l IH]; intros s; cbn; [by intros [= <-]|].
  unfold rassert. destruct (legalb o s) eqn:Hl; [|done]. cbn.
  destruct (run_op o s) as [[[] s1]|] eqn:Ho; [|done]. cbn. intros H.
  eapply rtc_l; [|by apply IH]. eapply step_op; [by apply legalb_ok|exact Ho].
Qed.

Definition demo_seq0 : SeqWorld CacheMemory := demo_init Lifecycle.demo_log_idle.
Definition demo_state (l : list seq_op) : SeqWorld CacheMemory :=
  match demo_run l demo_seq0 with Ok s => s | Err _ => demo_seq0 end.

Lemma demo_reached l : rtc seq_step demo_seq0 (demo_state l).
Proof.
  unfold demo_state. destruct (demo_run l demo_seq0) as [s|] eqn:H; [|done].
  by eapply demo_run_steps.
Qed.

Definition demo_stored : list seq_op := [DoRequest demo_start; DoRequest demo_store].
Definition demo_logged : list seq_op :=
  demo_stored ++ [DoWrite 0 DataBlock.alloc false; DoWrite 4096 DataBlock.alloc false].

Lemma requests_accounted_witness :
  m_outstanding_count (sq (demo_state demo_logged)) = 4 /\
  m_outstanding_count (sq (demo_state demo_logged)) =
    total_requests (m_RequestTable (sq (demo_state demo_logged))).
Proof.
  split; [vm_compute; reflexivity|].
  refine (proj1 (requests_accounted 0 8 500 demo_ports (sq demo_seq0) Lifecycle.demo_log_idle []
    (demo_state demo_logged) _ _ _)).
  - reflexivity.
  - repeat constructor.
  - exact (demo_reached demo_logged).
Defined.

Lemma demo_ok l : seq_ok 0 (fun _ => False) (sq (demo_state l)).
Proof.
  eapply steps_ok; [apply demo_reached|].
  eapply (init_ok 0 8 500 demo_ports); [reflexivity|repeat constructor].
Qed.

(** The second load arrives while the first one of the same line completes. *)
Lemma callback_loops_finish_witness :
  exists d s', read_loop setFlagsPreIssueRequest
      (hitCallback trySendRetries (storeCallback trySendRetries))
      (loop_bound (sq (demo_state demo_stored))) 128 true 0 DataBlock.alloc
      (demo_state demo_stored) = Ok ((true, d), s') /\
    requests 128 (sq s') = [] /\ length (sq_out (sq s')) = 5%nat.
Proof.
  destruct (read_loop setFlagsPreIssueRequest
      (hitCallback trySendRetries (storeCallback trySendRetries))
      (loop_bound (sq (demo_state demo_stored))) 128 true 0 DataBlock.alloc
      (demo_state demo_stored)) as [[[fin d] s']|e] eqn:H.
  - assert (fin = true) as ->.
    { refine (callback_loops_finish 0 (fun _ => False) 128 false true 0 DataBlock.alloc
        (demo_state demo_stored) (fin, d) s' (demo_ok _) (or_intror (or_intror H))). }
    exists d, s'. split; [reflexivity|].
    vm_compute in H. injection H as <- <-. vm_compute. split; reflexivity.
  - vm_compute in H. discriminate H.
Defined.

Definition demo_log : option LogRequestInfo :=
  match buildLogPackets demo_store DataBlock.alloc (demo_state demo_stored) with
  | Ok (log, _) => Some log
  | Err _ => None
  end.
Definition demo_log_info : LogRequestInfo :=
  default (MkLogRequestInfo demo_store demo_store RequestStatus_NULL RequestStatus_NULL 0 0 0 0 0)
    demo_log.

Lemma demo_log_ready p :
  p = logAddrPkt demo_log_info \/ p = logDataPkt demo_log_info ->
  log_ready 0 p (demo_state demo_stored).
Proof.
  intros [-> | ->]; (split; [|vm_compute; reflexivity|vm_compute; split; reflexivity
    |vm_compute; reflexivity|vm_compute; intros r; discriminate]);
    (split; [vm_compute; reflexivity|]); (split; [vm_compute; reflexivity|]);
    (split; [vm_compute; discriminate|]); exists 8; split; vm_compute; reflexivity.
Qed.

Lemma log_writes_admitted_witness :
  is_ok (buildLogPackets demo_store DataBlock.alloc (demo_state demo_stored)) = true /\
  exists log' s', makeLogRequests demo_log_info (demo_state demo_stored) = Ok ((true, log'), s') /\
    outstanding log' = 2.
Proof.
  split; [vm_compute; reflexivity|].
  destruct (log_writes_admitted 0 (fun _ => False) 0 demo_log_info (demo_state demo_stored))
    as (log' & s' & H & Ho & _).
  - reflexivity.
  - reflexivity.
  - reflexivity.
  - exact (demo_ok _).
  - vm_compute. reflexivity.
  - vm_compute. reflexivity.
  - apply demo_log_ready. left. reflexivity.
  - apply demo_log_ready. right. reflexivity.
  - vm_compute. reflexivity.
  - vm_compute. reflexivity.
  - exists log', s'. split; [exact H|]. rewrite Ho. vm_compute. reflexivity.
Defined.

Definition demo_aborted : SeqWorld CacheMemory :=
  match abortTransaction demo_abort (demo_state demo_stored) with
  | Ok (_, s) => s
  | Err _ => demo_seq0
  end.

(** The waiting store is suppressed, and another store of the transaction is
    answered at once. *)
Lemma abort_isolates_witness :
  map suppressed (requests 0 (sq demo_aborted)) = [true] /\
  map suppressed (requests 128 (sq demo_aborted)) = [false] /\
  exists s', makeRequest trySendRetries demo_store
    (demo_aborted <| sq := (sq demo_aborted) <| retries := [] |> |>) =
    Ok (RequestStatus_Issued, s').
Proof.
  destruct (abort_isolates demo_abort (demo_state demo_stored) tt demo_aborted)
    as (Hr & _ & _ & _ & _ & Hb).
  - vm_compute. reflexivity.
  - split; [rewrite (Hr 0); vm_compute; reflexivity|].
    split; [rewrite (Hr 128); vm_compute; reflexivity|].
    eexists. rewrite (Hb demo_store _ NO_FAIL); vm_compute; reflexivity.
Defined.

Lemma nacked_nontransactional_fails_witness :
  failedCallback trySendRetries 128 DataBlock.alloc 90 Trans 0 false
    (MkMachineID MachineType_L1Cache 1) false (demo_state demo_stored) = Err EAssert.
Proof.
  refine (nacked_nontransactional_fails 128 DataBlock.alloc 90 Trans 0 false _ false
    (MkSequencerRequest demo_load LD LD 100 0 false) [] (demo_state demo_stored) _ _ _);
    vm_compute; reflexivity.
Defined.

(** A transaction of CHATS that consumed uncommitted data has to wait. *)
Definition demo_waiting : SeqWorld CacheMemory :=
  (demo_init Chain.demo_consumed) <| sq ::= fun x => x <| retries := [] |> |>.

Lemma commit_deferred_witness :
  exists st s', makeRequest (CF := Chain.demo_chats) (trySendRetries (CF := Chain.demo_chats))
      demo_commit demo_waiting = Ok (st, s') /\
    sq s' = (sq demo_waiting) <| m_commitPending := true |>
              <| lazyCommitCheckEvent := Some demo_commit |>.
Proof.
  destruct (makeRequest (CF := Chain.demo_chats) (trySendRetries (CF := Chain.demo_chats))
    demo_commit demo_waiting) as [[st s']|e] eqn:H; [|vm_compute in H; discriminate H].
  exists st, s'. split; [reflexivity|].
  refine (proj1 (proj2 (commit_deferred (CF := Chain.demo_chats) demo_commit demo_waiting st s'
    _ _ _ _ _ _ _ H))); vm_compute; reflexivity.
Defined.
