(* ===== verification/AbortStatus.v ===== *)
(** * Abort status: from the fault to the abort handler

    The path an abort takes from the processor to the software handler:
    [XABORT] raises a fault ([arch/x86/isa/formats/xaction.isa]), the fault
    restores the register checkpoint ([sim/faults.cc], [arch/x86/htm.cc]) with
    a status word in [RAX], and the abort handler decodes that word with the
    macros of [gem5_path/benchmarks/benchmarks-htm/libs]
    ([handlers/htm.h], [handlers/abort_codes.h], [isa/x86/abort_status.h]).
    What the checkpoint asks of the system is [cpu/thread_context.cc]. *)

From S2P Require Import Prelude Address HTM.

(** ** [base/bitfield.hh] *)

Definition mask_range (first last : Z) : Z := mbits (u64_not 0) first last.

Definition insertBits (val first last bit_val : Z) : res Z :=
  let? _ := rassert (last <=? first) in
  let bmask := mask_range first last in
  let val := Z.land val (u64_not bmask) in
  Ok (Z.lor val (Z.land (u64 (Z.shiftl bit_val last)) bmask)).

(** [replaceBits] assigns through its first argument. *)
Definition replaceBits := insertBits.

(** ** The program counter of [arch/x86/pcstate.hh] *)

Record PCState := MkPCState {
  _pc : Z;
  _npc : Z;
  _upc : Z;
  _nupc : Z;
  _size : Z
}.
#[global] Instance PCState_eta : Eta PCState :=
  fun r => MkPCState (_pc r) (_npc r) (_upc r) (_nupc r) (_size r).

(** [PCState()] leaves [_size] uninitialised. *)
Definition PCState_new (uninit_size : Z) : PCState := MkPCState 0 0 0 1 uninit_size.

Definition uReset (p : PCState) : PCState := p <| _upc := 0 |> <| _nupc := 1 |>.

(** The width of an instruction is 8. *)
Definition pc_advance (p : PCState) : PCState :=
  p <| _pc := _npc p |> <| _npc := u64 (_npc p + 8) |> <| _size := 0 |>.

(** ** What the checkpoint asks of the system: [cpu/thread_context.cc] *)

Inductive LockStepMode := lockstep_record | lockstep_replay | lockstep_disabled.

#[global] Instance LockStepMode_eq_dec : EqDecision LockStepMode.
Proof. solve_decision. Defined.

(** The object [getSystemPtr()->getHTM()] as the processor [cpuId()] sees
    it. *)
Record HtmView := MkHtmView {
  disable_speculation : bool;
  htm_params : HTMParams;
  getLogNumEntries : Z;
  isTransactionAbortedByRemotePower : bool
}.

Record SystemView := MkSystemView {
  getLockstepMode : LockStepMode;
  getHTM : option HtmView;
  canReplay : bool
}.

Definition forceHtmDisabled (sys : SystemView) : res bool :=
  if decide (getLockstepMode sys = lockstep_replay) then
    let? _ := rassert (bool_decide (is_Some (getHTM sys))) in
    Ok true
  else match getHTM sys with
       | Some h => Ok (disable_speculation h)
       | None => Ok false
       end.

Definition forceHtmRetryStatusBit (sys : SystemView) : res bool :=
  if match getHTM sys with Some h => disable_speculation h | None => true end then
    let? _ := rassert (bool_decide (getLockstepMode sys = lockstep_disabled)) in
    Ok false
  else if decide (getLockstepMode sys = lockstep_replay) then
    Ok (negb (canReplay sys))
  else Ok false.

Definition getHtmUndoLogSize (sys : SystemView) : Z :=
  match getHTM sys with
  | Some h => if lazy_vm (htm_params h) then 0 else getLogNumEntries h
  | None => 0
  end.

(** The call goes through the pointer without a test. *)
Definition isHtmFailureFaultCauseMemoryPower (sys : SystemView) : res bool :=
  match getHTM sys with
  | Some h => Ok (isTransactionAbortedByRemotePower h)
  | None => Err EUndef
  end.

(** ** [arch/x86/htm.cc] *)

Definition NumIntRegs : Z := 39.
Definition NumFloatRegs : Z := 56.
Definition INTREG_RAX : Z := 0.

(** The registers of the processor that the checkpoint covers. *)
Record ThreadContext := MkThreadContext {
  intRegs : list Z;
  floatRegs : list Z;
  pcState : PCState
}.
#[global] Instance ThreadContext_eta : Eta ThreadContext :=
  fun r => MkThreadContext (intRegs r) (floatRegs r) (pcState r).

Record HTMCheckpoint := MkHTMCheckpoint {
  nPc : Z;
  shadowIntRegs : list Z;
  shadowFPRegs : list Z;
  abortReason : Z;
  pcstateckpt : PCState;
  _valid : bool
}.
#[global] Instance HTMCheckpoint_eta : Eta HTMCheckpoint :=
  fun r => MkHTMCheckpoint (nPc r) (shadowIntRegs r) (shadowFPRegs r)
             (abortReason r) (pcstateckpt r) (_valid r).

(** [for (n = 0; n < num; n++) dst[n] = src[n]]. *)
Definition copy_regs (src dst : list Z) (num : Z) : res (list Z) :=
  foldR (fun dst n => let? v := vec_at EUndef src n in vec_set dst n v)
    dst (seqZ 0 num).

Module HTMCheckpoint.

Definition reset (uninit_size : Z) (c : HTMCheckpoint) : HTMCheckpoint :=
  c <| nPc := 0 |> <| abortReason := 0 |>
    <| shadowIntRegs := replicate (Z.to_nat NumIntRegs) 0 |>
    <| shadowFPRegs := replicate (Z.to_nat NumFloatRegs) 0 |>
    <| pcstateckpt := PCState_new uninit_size |> <| _valid := false |>.

Definition save (c : HTMCheckpoint) (tc : ThreadContext) : res HTMCheckpoint :=
  let? ints := copy_regs (intRegs tc) (shadowIntRegs c) NumIntRegs in
  let? fps := copy_regs (floatRegs tc) (shadowFPRegs c) NumFloatRegs in
  Ok (c <| shadowIntRegs := ints |> <| shadowFPRegs := fps |>
        <| pcstateckpt := pcState tc |> <| _valid := true |>).

(** The parameter is an [uint16_t]. *)
Definition setAbortReason (reason : Z) (c : HTMCheckpoint) : HTMCheckpoint :=
  c <| abortReason := reason mod 2 ^ 16 |>.

(** The status word: the switch on the cause gives [error_code] and
    [retry]. *)
Definition abort_cause_bits (sys : SystemView) (c : HTMCheckpoint)
    (cause : HtmFailureFaultCause) : res (Z * bool) :=
  let error_code := 0 in
  match cause with
  | EXPLICIT =>
      let? error_code := replaceBits error_code 31 24 (abortReason c) in
      let? error_code := replaceBits error_code 0 0 1 in
      Ok (error_code, false)
  | MEMORY =>
      let? error_code := replaceBits error_code 2 2 1 in
      let? by_power := isHtmFailureFaultCauseMemoryPower sys in
      if by_power then
        let? error_code := replaceBits error_code 8 8 1 in Ok (error_code, true)
      else Ok (error_code, true)
  | SIZE => let? error_code := replaceBits error_code 3 3 1 in Ok (error_code, false)
  | EXCEPTION => Ok (error_code, false)
  | OTHER => Ok (error_code, true)
  | DISABLED =>
      let? error_code := replaceBits error_code 6 6 1 in
      let? disabled := forceHtmDisabled sys in
      let? _ := rassert disabled in
      let? set_retry := forceHtmRetryStatusBit sys in
      Ok (error_code, set_retry)
  | _ => Err EPanic
  end.

(** The size of the undo log, when there is one. *)
Definition log_status (sys : SystemView) (error_code : Z) : res Z :=
  if 0 <? getHtmUndoLogSize sys then
    let? error_code := replaceBits error_code 7 7 1 in
    replaceBits error_code 63 32 (u64 (getHtmUndoLogSize sys))
  else Ok error_code.

Definition abort_status (sys : SystemView) (c : HTMCheckpoint)
    (cause : HtmFailureFaultCause) : res Z :=
  let? (error_code, set_retry) := abort_cause_bits sys c cause in
  let? error_code :=
    if (set_retry : bool) then replaceBits error_code 1 1 1 else Ok error_code in
  log_status sys error_code.

Definition restore (uninit_size : Z) (sys : SystemView) (c : HTMCheckpoint)
    (tc : ThreadContext) (cause : HtmFailureFaultCause)
    : res (HTMCheckpoint * ThreadContext) :=
  let? ints := copy_regs (shadowIntRegs c) (intRegs tc) NumIntRegs in
  let? fps := copy_regs (shadowFPRegs c) (floatRegs tc) NumFloatRegs in
  let? error_code := abort_status sys c cause in
  let? ints := vec_set ints INTREG_RAX error_code in
  Ok (reset uninit_size c,
      MkThreadContext ints fps (pc_advance (uReset (pcstateckpt c)))).
End HTMCheckpoint.

(** ** [XABORT] and the fault *)

(** [XabortCompleteAcc]: the code is in [RDI]. *)
Definition xabort_completeAcc (abortCode : Z) (c : HTMCheckpoint)
    : HTMCheckpoint * HtmFailureFaultCause :=
  (HTMCheckpoint.setAbortReason abortCode c,
   if abortCode =? 255 then EXPLICIT_FALLBACKLOCK else EXPLICIT).

(** [GenericHtmFailureFault::invoke]: the registers. *)
Definition invoke (uninit_size : Z) (sys : SystemView) (c : HTMCheckpoint)
    (tc : ThreadContext) (cause : HtmFailureFaultCause)
    : res (HTMCheckpoint * ThreadContext) :=
  let? _ := rassert (_valid c) in
  let? isaVisibleCause := getIsaVisibleHtmFailureCause cause in
  HTMCheckpoint.restore uninit_size sys c tc isaVisibleCause.

(** [htm_start] passes the tag and the flags in [RDI]; [XbeginInitiateAcc]
    takes them apart. *)
Definition xbegin_rdi (tag flags : Z) : Z :=
  Z.lor (u64 (Z.shiftl tag 16)) flags.

Definition xbegin_initiateAcc (xbeginFlags : Z) : bool * Z :=
  (Z.land xbeginFlags 65535 =? 1, Z.shiftr xbeginFlags 16).

(** ** The macros of the abort handler *)

Definition XBEGIN_STARTED : Z := 2 ^ 32 - 1.
Definition XABORT_EXPLICIT : Z := Z.shiftl 1 0.
Definition XABORT_RETRY : Z := Z.shiftl 1 1.
Definition XABORT_CONFLICT : Z := Z.shiftl 1 2.
Definition XABORT_DISABLED : Z := Z.shiftl 1 6.
Definition XABORT_UNDO_LOG : Z := Z.shiftl 1 7.
Definition XABORT_CONFLICT_POWER : Z := Z.shiftl 1 8.

Definition CANCEL_TRANSACTION_DEFAULT_CODE : Z := 254.
Definition XABORT_CODE_FALLBACK_LOCK_LOCKED : Z := 255.

(** [status & bit] as a condition. *)
Definition status_has (status bit : Z) : bool := negb (Z.land status bit =? 0).

Definition htm_started (status : Z) : bool := status =? XBEGIN_STARTED.
Definition htm_abort_undo_log (status : Z) := status_has status XABORT_UNDO_LOG.
Definition htm_abort_cause_conflict (status : Z) := status_has status XABORT_CONFLICT.
Definition htm_abort_cause_conflict_power (status : Z) :=
  status_has status XABORT_CONFLICT_POWER.
Definition htm_abort_cause_explicit (status : Z) := status_has status XABORT_EXPLICIT.
Definition htm_abort_cause_explicit_code (status : Z) : Z :=
  Z.land (Z.shiftr status 24) 255.
Definition htm_abort_code_is_lock_acquired (abort_code : Z) : bool :=
  abort_code =? XABORT_CODE_FALLBACK_LOCK_LOCKED.
Definition htm_abort_code_is_default (abort_code : Z) : bool :=
  abort_code =? CANCEL_TRANSACTION_DEFAULT_CODE.
Definition htm_may_succeed_on_retry (status : Z) := status_has status XABORT_RETRY.
Definition htm_abort_cause_disabled (status : Z) := status_has status XABORT_DISABLED.

(** [uint32_t log_size = M5_ABORTSTATUS_LOGSIZE_DECODE(ret)]. *)
Definition M5_ABORTSTATUS_LOGSIZE_DECODE (status : Z) : Z := u32 (Z.shiftr status 32).

(** ** Bit fields *)

Lemma mask_range_testbit first last i :
  0 <= last <= first -> first < 64 ->
  Z.testbit (mask_range first last) i = (last <=? i) && (i <=? first).
Proof.
  intros Hl Hf. unfold mask_range, mbits, u64_not. rewrite !mask_ones by lia.
  change (2 ^ 64 - 1) with (Z.ones 64).
  destruct (Z.ltb_spec i 0).
  { rewrite Z.testbit_neg_r by done.
    destruct (Z.leb_spec last i); [lia|done]. }
  rewrite !Z.land_spec, !Z.lxor_spec, !Z.testbit_ones_nonneg, Z.testbit_0_l by lia.
  destruct (Z.ltb_spec i 64), (Z.ltb_spec i (first + 1)), (Z.ltb_spec i last),
    (Z.leb_spec last i), (Z.leb_spec i first); try done; lia.
Qed.

(** A 64-bit word by its bits. *)
Definition has_bits (v : Z) (f : Z -> bool) : Prop :=
  0 <= v < 2 ^ 64 /\ forall i, 0 <= i -> Z.testbit v i = (i <? 64) && f i.

Lemma has_bits_range v f :
  (forall i, 0 <= i -> Z.testbit v i = (i <? 64) && f i) -> has_bits v f.
Proof.
  intros Hv. split; [|done].
  assert (v = v mod 2 ^ 64) as ->; [|apply Z.mod_pos_bound; lia].
  apply Z.bits_inj'. intros i Hi. destruct (Z.ltb_spec i 64).
  - by rewrite Z.mod_pow2_bits_low by lia.
  - rewrite Z.mod_pow2_bits_high, Hv by lia. by destruct (Z.ltb_spec i 64); [lia|].
Qed.

Lemma has_bits_ext v f g :
  has_bits v f -> (forall i, 0 <= i < 64 -> f i = g i) -> has_bits v g.
Proof.
  intros [Hv Hf] He. split; [done|]. intros i Hi. rewrite Hf by done.
  destruct (Z.ltb_spec i 64); [|done]. cbn. apply He. lia.
Qed.

Lemma has_bits_0 : has_bits 0 (fun _ => false).
Proof. apply has_bits_range. intros i Hi. by rewrite Z.testbit_0_l, andb_false_r. Qed.

Lemma insertBits_ok val f first last b :
  has_bits val f -> 0 <= last <= first -> first < 64 ->
  exists v, insertBits val first last b = Ok v /\
    has_bits v (fun i => if (last <=? i) && (i <=? first) then Z.testbit b (i - last)
                         else f i).
Proof.
  intros [_ Hf] Hl H64. unfold insertBits.
  rewrite (proj2 (Z.leb_le _ _) (proj2 Hl)). cbn [rassert rbind].
  eexists. split; [reflexivity|]. apply has_bits_range. intros i Hi.
  unfold u64_not, u64. change (2 ^ 64 - 1) with (Z.ones 64).
  rewrite Z.lor_spec, !Z.land_spec, Z.lxor_spec, mask_range_testbit,
    Z.testbit_ones_nonneg, Hf by lia.
  destruct (Z.ltb_spec i 64); cbn [andb].
  - rewrite Z.mod_pow2_bits_low, Z.shiftl_spec by lia.
    destruct (last <=? i), (i <=? first); cbn [andb xorb];
      by rewrite ?andb_false_r, ?andb_true_r, ?orb_false_r.
  - rewrite Z.mod_pow2_bits_high by lia. done.
Qed.

Lemma status_has_bit v k :
  0 <= k -> status_has v (Z.shiftl 1 k) = Z.testbit v k.
Proof.
  intros Hk. unfold status_has. rewrite Z.shiftl_1_l. destruct (Z.testbit v k) eqn:E.
  - destruct (Z.eqb_spec (Z.land v (2 ^ k)) 0) as [H0|]; [|done].
    apply (f_equal (fun z => Z.testbit z k)) in H0.
    by rewrite Z.land_spec, E, Z.pow2_bits_true, Z.testbit_0_l in H0 by lia.
  - replace (Z.land v (2 ^ k)) with 0; [done|]. apply Z.bits_inj'. intros i Hi.
    rewrite Z.land_spec, Z.testbit_0_l, Z.pow2_bits_eqb by lia.
    destruct (Z.eqb_spec k i) as [->|]; [by rewrite E|by rewrite andb_false_r].
Qed.

(** A field of [n] bits at bit [k] reads back what was written. *)
Lemma field_read v f k n b :
  has_bits v f -> 0 <= k -> 0 <= n -> k + n <= 64 ->
  (forall i, k <= i < k + n -> f i = Z.testbit b (i - k)) ->
  Z.shiftr v k mod 2 ^ n = b mod 2 ^ n.
Proof.
  intros [_ Hv] Hk Hn H64 Hf. apply Z.bits_inj'. intros i Hi.
  destruct (Z.ltb_spec i n).
  - rewrite !Z.mod_pow2_bits_low, Z.shiftr_spec, Hv, Hf by lia.
    destruct (Z.ltb_spec (i + k) 64); [|lia]. cbn. f_equal. lia.
  - by rewrite !Z.mod_pow2_bits_high by lia.
Qed.

(** ** The status word *)

(** Whether the fault sets the retry bit. *)
Definition fault_retries (sys : SystemView) (cause : HtmFailureFaultCause) : bool :=
  match cause with
  | MEMORY | OTHER => true
  | DISABLED => match forceHtmRetryStatusBit sys with Ok b => b | Err _ => false end
  | _ => false
  end.

Definition fault_by_power (sys : SystemView) (cause : HtmFailureFaultCause) : bool :=
  match cause, getHTM sys with
  | MEMORY, Some h => isTransactionAbortedByRemotePower h
  | _, _ => false
  end.

(** The bits of the status word. *)
Definition status_bits (sys : SystemView) (reason : Z) (cause : HtmFailureFaultCause)
    (i : Z) : bool :=
  if 32 <=? i then Z.testbit (getHtmUndoLogSize sys) (i - 32)
  else if 24 <=? i then bool_decide (cause = EXPLICIT) && Z.testbit reason (i - 24)
  else if i =? 8 then fault_by_power sys cause
  else if i =? 7 then 0 <? getHtmUndoLogSize sys
  else if i =? 6 then bool_decide (cause = DISABLED)
  else if i =? 3 then bool_decide (cause = SIZE)
  else if i =? 2 then bool_decide (cause = MEMORY)
  else if i =? 1 then fault_retries sys cause
  else if i =? 0 then bool_decide (cause = EXPLICIT)
  else false.

(** The causes that reach the handler: an abort for nesting too deep has no
    status, [restore] panics. *)
Definition reportable (sys : SystemView) (cause : HtmFailureFaultCause) : Prop :=
  match cause with
  | EXPLICIT | SIZE | EXCEPTION | OTHER => True
  | MEMORY => is_Some (getHTM sys)
  | DISABLED => forceHtmDisabled sys = Ok true /\ is_ok (forceHtmRetryStatusBit sys) = true
  | _ => False
  end.

(** Write the next field of the status word. *)
Ltac next_field :=
  match goal with
  | H : has_bits ?v ?f |- context [insertBits ?v ?a ?b ?x] =>
      let E := fresh "E" in
      destruct (insertBits_ok v f a b x H) as (? & E & ?);
      [lia|lia|]; rewrite E; clear E; cbn [rbind]
  end.

(** Compare two descriptions of the bits of a word. *)
Ltac bit_cases :=
  repeat match goal with
  | |- context [?a <=? ?b] => destruct (Z.leb_spec a b); cbn [andb]; try lia
  | |- context [?a =? ?b] => destruct (Z.eqb_spec a b); cbn [andb]; try lia
  end.

Lemma log_status_ok sys v f reason cause :
  has_bits v f -> 0 <= getHtmUndoLogSize sys < 2 ^ 31 ->
  (forall i, 0 <= i < 64 -> f i = if (32 <=? i) || (i =? 7) then false
     else status_bits sys reason cause i) ->
  exists v', HTMCheckpoint.log_status sys v = Ok v' /\
    has_bits v' (status_bits sys reason cause).
Proof.
  intros Hv Hn Hf. unfold HTMCheckpoint.log_status, replaceBits.
  destruct (Z.ltb_spec 0 (getHtmUndoLogSize sys)).
  - repeat next_field. eexists. split; [reflexivity|].
    eapply has_bits_ext; [eassumption|]. intros i Hi. cbn beta. rewrite Hf by lia.
    unfold status_bits, u64. rewrite Z.mod_small by lia.
    rewrite (proj2 (Z.ltb_lt 0 (getHtmUndoLogSize sys))) by done.
    bit_cases; subst; try done.
  - eexists. split; [reflexivity|]. eapply has_bits_ext; [eassumption|].
    intros i Hi. rewrite Hf by lia. unfold status_bits.
    replace (getHtmUndoLogSize sys) with 0 by lia. rewrite Z.testbit_0_l.
    bit_cases; subst; done.
Qed.

(** Close a cause: write its fields, then compare the bits. *)
Ltac cause_fields :=
  repeat next_field; cbn [rbind]; repeat next_field;
  eapply log_status_ok; [eassumption|done|]; intros i Hi;
  unfold status_bits, fault_by_power, fault_retries; cbn beta;
  bit_cases; subst; try done.

Lemma abort_status_ok sys c cause :
  reportable sys cause -> 0 <= getHtmUndoLogSize sys < 2 ^ 31 ->
  exists v, HTMCheckpoint.abort_status sys c cause = Ok v /\
    has_bits v (status_bits sys (abortReason c) cause).
Proof.
  intros Hr Hn. pose proof has_bits_0.
  unfold HTMCheckpoint.abort_status, replaceBits.
  destruct cause; try done; cbn [HTMCheckpoint.abort_cause_bits]; unfold replaceBits.
  - cause_fields.
  - cause_fields.
  - cause_fields.
  - destruct Hr as [h Hh]. unfold isHtmFailureFaultCauseMemoryPower. rewrite Hh. cbn [rbind].
    destruct (isTransactionAbortedByRemotePower h) eqn:Ep; cause_fields; by rewrite Hh, Ep.
  - cause_fields.
  - destruct Hr as [Hd Hs]. rewrite Hd. cbn [rassert rbind].
    destruct (forceHtmRetryStatusBit sys) as [[]|] eqn:Es; try done; cbn [rbind];
      cause_fields; by rewrite Es.
Qed.

Lemma abort_status_reportable sys c cause v :
  HTMCheckpoint.abort_status sys c cause = Ok v -> reportable sys cause.
Proof.
  unfold HTMCheckpoint.abort_status. destruct cause; try done; cbn.
  - unfold isHtmFailureFaultCauseMemoryPower. by destruct (getHTM sys); [eexists|].
  - destruct (forceHtmDisabled sys) as [[]|]; try done. cbn.
    by destruct (forceHtmRetryStatusBit sys).
Qed.

(** ** Registers *)

Lemma copy_regs_ok src dst num :
  Z.of_nat (length src) = num -> Z.of_nat (length dst) = num ->
  copy_regs src dst num = Ok src.
Proof.
  intros Hs Hd. unfold copy_regs.
  destruct (foldR_range (fun dst n => let? v := vec_at EUndef src n in vec_set dst n v)
    (fun i d => 0 <= i /\ length d = length src /\
                take (Z.to_nat i) d = take (Z.to_nat i) src) 0 num dst)
    as (d & -> & _ & Hlen & Htake).
  - lia.
  - split; [lia|]. split; [lia|done].
  - intros i d Hi (_ & Hlen & Htake).
    destruct (lookup_lt_is_Some_2 src (Z.to_nat i)) as [v Hv]; [lia|].
    exists (<[Z.to_nat i := v]> d).
    rewrite (vec_at_ok _ _ _ v) by (done || lia). cbn [rbind].
    rewrite vec_set_ok by lia. split; [done|].
    rewrite length_insert. split; [lia|]. split; [done|].
    replace (Z.to_nat (i + 1)) with (S (Z.to_nat i)) by lia.
    rewrite (take_S_r src _ v) by done.
    rewrite (take_S_r _ _ v) by (apply list_lookup_insert_eq; lia).
    by rewrite take_insert_ge, Htake by lia.
  - rewrite !take_ge in Htake by lia. by rewrite Htake.
Qed.

(** The register files have their sizes. *)
Definition regs_ok (c : HTMCheckpoint) (tc : ThreadContext) : Prop :=
  Z.of_nat (length (intRegs tc)) = NumIntRegs /\
  Z.of_nat (length (floatRegs tc)) = NumFloatRegs /\
  Z.of_nat (length (shadowIntRegs c)) = NumIntRegs /\
  Z.of_nat (length (shadowFPRegs c)) = NumFloatRegs.

Lemma save_ok c tc :
  regs_ok c tc ->
  HTMCheckpoint.save c tc =
    Ok (MkHTMCheckpoint (nPc c) (intRegs tc) (floatRegs tc) (abortReason c)
          (pcState tc) true).
Proof.
  intros (H1 & H2 & H3 & H4). unfold HTMCheckpoint.save.
  by rewrite !copy_regs_ok by done.
Qed.

Lemma restore_ok u sys c tc cause status :
  regs_ok c tc -> HTMCheckpoint.abort_status sys c cause = Ok status ->
  HTMCheckpoint.restore u sys c tc cause =
    Ok (HTMCheckpoint.reset u c,
        MkThreadContext (<[0%nat := status]> (shadowIntRegs c)) (shadowFPRegs c)
          (pc_advance (uReset (pcstateckpt c)))).
Proof.
  intros (H1 & H2 & H3 & H4) Hs. unfold HTMCheckpoint.restore.
  rewrite !copy_regs_ok by done. cbn [rbind]. rewrite Hs. cbn [rbind].
  rewrite vec_set_ok; [done|]. rewrite H3. done.
Qed.

(** What the handler reads in a status word with these bits. *)
Lemma status_decode sys reason cause v :
  has_bits v (status_bits sys reason cause) ->
  0 <= getHtmUndoLogSize sys < 2 ^ 31 ->
  htm_started v = false /\
  htm_abort_cause_explicit v = bool_decide (cause = EXPLICIT) /\
  (cause = EXPLICIT -> htm_abort_cause_explicit_code v = reason mod 256) /\
  htm_abort_cause_conflict v = bool_decide (cause = MEMORY) /\
  htm_abort_cause_conflict_power v = fault_by_power sys cause /\
  htm_may_succeed_on_retry v = fault_retries sys cause /\
  htm_abort_cause_disabled v = bool_decide (cause = DISABLED) /\
  htm_abort_undo_log v = (0 <? getHtmUndoLogSize sys) /\
  M5_ABORTSTATUS_LOGSIZE_DECODE v = getHtmUndoLogSize sys.
Proof.
  intros Hv Hn. pose proof (proj2 Hv) as Hb.
  unfold htm_abort_cause_explicit, htm_abort_cause_conflict,
    htm_abort_cause_conflict_power, htm_may_succeed_on_retry,
    htm_abort_cause_disabled, htm_abort_undo_log, XABORT_EXPLICIT, XABORT_CONFLICT,
    XABORT_CONFLICT_POWER, XABORT_RETRY, XABORT_DISABLED, XABORT_UNDO_LOG.
  rewrite !status_has_bit, !Hb by lia.
  repeat split; try done.
  - unfold htm_started. apply Z.eqb_neq. intros ->.
    specialize (Hb 4 ltac:(lia)). done.
  - intros ->. unfold htm_abort_cause_explicit_code.
    change 255 with (Z.ones 8). change 256 with (2 ^ 8). rewrite Z.land_ones by lia.
    apply (field_read _ _ _ _ _ Hv); [lia..|]. intros i Hi. unfold status_bits.
    destruct (Z.leb_spec 32 i), (Z.leb_spec 24 i); try lia. done.
  - unfold M5_ABORTSTATUS_LOGSIZE_DECODE, u32.
    rewrite (field_read v _ 32 32 (getHtmUndoLogSize sys) Hv); [|lia..|].
    { apply Z.mod_small. lia. }
    intros i Hi. unfold status_bits. by destruct (Z.leb_spec 32 i); [|lia].
Qed.

(** C18: An abort reaches the handler, for every cause that has a status: not for nesting too
    deep, where the code panics, for a conflict only with transactional memory configured, and
    for disabled transactions only with a recorded execution. Whatever the transaction did to
    the registers, the fault puts back the integer and floating-point registers that [XBEGIN]
    saved and continues after it, except for [RAX], which holds a status word that the handler's
    macros decode to the facts of the abort: never a started transaction; explicit, conflict,
    disabled and retry exactly for the visible causes that mean them; the low byte of the code
    given to [XABORT]; and the number of undo-log entries to unroll, below 2^31. *)
Theorem abort_reported u sys c0 c tc0 tc cause vis code :
  regs_ok c0 tc0 -> regs_ok c0 tc ->
  HTMCheckpoint.save c0 tc0 = Ok c ->
  getIsaVisibleHtmFailureCause cause = Ok vis -> reportable sys vis ->
  0 <= getHtmUndoLogSize sys < 2 ^ 31 -> 0 <= code ->
  exists v c' tc',
    invoke u sys (HTMCheckpoint.setAbortReason code c) tc cause = Ok (c', tc') /\
    intRegs tc' = <[0%nat := v]> (intRegs tc0) /\
    floatRegs tc' = floatRegs tc0 /\
    _pc (pcState tc') = _npc (pcState tc0) /\ _upc (pcState tc') = 0 /\
    _valid c' = false /\
    htm_started v = false /\
    htm_abort_cause_explicit v = bool_decide (vis = EXPLICIT) /\
    (vis = EXPLICIT -> htm_abort_cause_explicit_code v = code mod 256) /\
    htm_abort_cause_conflict v = bool_decide (vis = MEMORY) /\
    htm_abort_cause_conflict_power v = fault_by_power sys vis /\
    htm_may_succeed_on_retry v = fault_retries sys vis /\
    htm_abort_cause_disabled v = bool_decide (vis = DISABLED) /\
    htm_abort_undo_log v = (0 <? getHtmUndoLogSize sys) /\
    M5_ABORTSTATUS_LOGSIZE_DECODE v = getHtmUndoLogSize sys.
Proof.
  intros H0 Htc Hs Hvis Hr Hn Hc. rewrite save_ok in Hs by done. injection Hs as <-.
  set (c1 := HTMCheckpoint.setAbortReason code _).
  destruct (abort_status_ok sys c1 vis Hr Hn) as (v & Hv & Hbits).
  pose proof (status_decode _ _ _ _ Hbits Hn) as Hd.
  exists v. unfold invoke. cbn [c1 HTMCheckpoint.setAbortReason upd _valid rassert rbind].
  rewrite Hvis. cbn [rbind]. rewrite (restore_ok u sys c1 tc vis v); [|..|done].
  - do 2 eexists. split; [reflexivity|]. do 5 (split; [done|]).
    destruct Hd as (? & ? & Hcode & Hd). repeat (split; [done|]). split; [|done].
    intros He. rewrite Hcode by done. cbn.
    change 256 with (2 ^ 8). change (2 ^ 16) with (2 ^ 8 * 2 ^ 8).
    by rewrite Z.rem_mul_r, Z.mul_comm, Z.mod_add, Z.mod_mod by lia.
  - destruct H0 as (? & ? & ? & ?), Htc as (? & ? & ? & ?). done.
Qed.

(** A processor with LogTM, five blocks logged, and a transaction that
    overwrote the registers it began with. *)
Definition demo_sys : SystemView :=
  MkSystemView lockstep_disabled
    (Some (MkHtmView false (default_params <| lazy_vm := false |>) 5 false)) false.
Definition demo_tc (r : Z) : ThreadContext :=
  MkThreadContext (replicate 39 r) (replicate 56 r) (MkPCState 4096 4102 1 2 6).
Definition demo_ckpt (r : Z) : HTMCheckpoint :=
  MkHTMCheckpoint 0 (replicate 39 r) (replicate 56 r) 0 (MkPCState 4096 4102 1 2 6) true.

Lemma abort_reported_witness :
  exists v c' tc',
    invoke 0 demo_sys (HTMCheckpoint.setAbortReason 254 (demo_ckpt 7)) (demo_tc 9) EXPLICIT
      = Ok (c', tc') /\
    intRegs tc' = v :: replicate 38 7 /\ htm_abort_cause_explicit v = true /\
    htm_abort_cause_explicit_code v = 254 /\ M5_ABORTSTATUS_LOGSIZE_DECODE v = 5.
Proof.
  destruct (abort_reported 0 demo_sys (demo_ckpt 3) (demo_ckpt 7) (demo_tc 7) (demo_tc 9)
    EXPLICIT EXPLICIT 254) as (v & c' & tc' & H1 & H2 & _ & _ & _ & _ & _ & H3 & H4 & H5).
  1-5: done.
  1: vm_compute; split; congruence.
  1: lia.
  exists v, c', tc'. repeat split; [exact H1|exact H2|exact H3|by apply H4|apply H5].
Defined.

(** Nesting too deep has no status word: the simulator panics. *)
Lemma nest_abort_panics u sys c tc :
  _valid c = true -> regs_ok c tc -> invoke u sys c tc NEST = Err EPanic.
Proof.
  intros Hv (H1 & H2 & H3 & H4). unfold invoke. rewrite Hv. cbn [rassert rbind].
  cbn. unfold HTMCheckpoint.restore. by rewrite !copy_regs_ok by done.
Qed.

(** C38: The handler does not learn that the lock was taken. When the
    transaction cancels itself because it found the fallback lock taken
    ([XABORT] with code 0xff), the status word says conflict and retry; the
    explicit bit is clear, so the branch of the handler that recognises the
    code is never entered. *)
Theorem lock_acquired_abort_is_conflict u sys c tc :
  _valid c = true -> regs_ok c tc -> is_Some (getHTM sys) ->
  0 <= getHtmUndoLogSize sys < 2 ^ 31 ->
  exists v c' tc',
    (let (c1, cause) := xabort_completeAcc XABORT_CODE_FALLBACK_LOCK_LOCKED c in
     invoke u sys c1 tc cause) = Ok (c', tc') /\
    intRegs tc' !! 0%nat = Some v /\
    htm_abort_cause_explicit v = false /\
    htm_abort_cause_conflict v = true /\ htm_may_succeed_on_retry v = true.
Proof.
  intros Hv Hr Hh Hn.
  set (c1 := HTMCheckpoint.setAbortReason XABORT_CODE_FALLBACK_LOCK_LOCKED c).
  change (xabort_completeAcc _ c) with (c1, EXPLICIT_FALLBACKLOCK).
  destruct (abort_status_ok sys c1 MEMORY Hh Hn) as (v & Hs & Hbits).
  destruct (status_decode _ _ _ _ Hbits Hn) as (_ & He & _ & Hc & _ & Ht & _).
  exists v. unfold invoke. change (_valid c1) with (_valid c). rewrite Hv. cbn [rassert rbind].
  cbn [getIsaVisibleHtmFailureCause rbind].
  rewrite (restore_ok u sys c1 tc MEMORY v); [|done..].
  do 2 eexists. split; [reflexivity|]. split; [|done]. cbn [intRegs].
  apply list_lookup_insert_eq. destruct Hr as (_ & _ & Hl & _).
  change (shadowIntRegs c1) with (shadowIntRegs c). unfold NumIntRegs in Hl. lia.
Qed.

Lemma lock_acquired_abort_is_conflict_witness :
  exists v c' tc',
    invoke 0 demo_sys (HTMCheckpoint.setAbortReason 255 (demo_ckpt 7)) (demo_tc 9)
      EXPLICIT_FALLBACKLOCK = Ok (c', tc') /\
    intRegs tc' !! 0%nat = Some v /\
    htm_abort_cause_explicit v = false /\ htm_abort_cause_conflict v = true.
Proof.
  destruct (lock_acquired_abort_is_conflict 0 demo_sys (demo_ckpt 7) (demo_tc 9))
    as (v & c' & tc' & H1 & H2 & H3 & H4 & _).
  - done.
  - done.
  - by eexists.
  - vm_compute. split; congruence.
  - exists v, c', tc'. repeat split; assumption.
Defined.

(** [XBEGIN] gets the tag and the power flag that the handler passed. *)
Lemma xbegin_roundtrip tag (power_flag : bool) :
  0 <= tag < 2 ^ 48 ->
  xbegin_initiateAcc (xbegin_rdi tag (if power_flag then 1 else 0)) = (power_flag, tag).
Proof.
  intros Ht. unfold xbegin_rdi, xbegin_initiateAcc, u64.
  rewrite Z.shiftl_mul_pow2, Z.mod_small by lia.
  rewrite <- Z.shiftl_mul_pow2 by lia. change 65535 with (Z.ones 16).
  rewrite Z.land_ones, Z.shiftr_lor, Z.shiftr_shiftl_l by lia.
  replace (Z.shiftr (if power_flag then 1 else 0) 16) with 0 by by destruct power_flag.
  rewrite Z.lor_0_r, Z.shiftl_0_r. f_equal.
  replace (Z.lor (Z.shiftl tag 16) (if power_flag then 1 else 0) mod 2 ^ 16)
    with (if power_flag then 1 else 0); [by destruct power_flag|].
  apply Z.bits_inj'. intros i Hi. destruct (Z.ltb_spec i 16).
  - rewrite Z.mod_pow2_bits_low, Z.lor_spec, Z.shiftl_spec_low by lia. done.
  - rewrite Z.mod_pow2_bits_high by lia. destruct power_flag; [|apply Z.testbit_0_l].
    change 1 with (2 ^ 0). by rewrite Z.pow2_bits_false by lia.
Qed.
