(* ===== verification/Runtime.v ===== *)
(** * The transactional runtime library

    [gem5_path/benchmarks/benchmarks-htm/libs/handlers]: the retry loop of
    [abort_handlers.c], which runs a critical section as a hardware
    transaction and falls back to a global lock, with the locks of
    [spinlock.h], the back-off of [logtm.c] and the variants that the
    [Makefile] selects: a single global lock, the fallback lock, the fallback
    lock acquired in two phases, and power transactions with imprecise or
    precise detection of aborts caused by the power transaction.

    Threads interleave at their accesses to shared memory: a thread is a
    program counter ([pc], one constructor for each access to a lock and each
    transactional instruction), its local variables, and the hardware
    transaction it runs.  What the library relies on in the hardware is
    written out in [exec] and is the contract documented in
    [arch/generic/htm.hh]: a write to a line that a transaction has read
    makes the transaction fail; a failed transaction performs no further
    access, it ends with an abort; an abort restores the registers and
    delivers a status word of [AbortStatus].  Otherwise a transaction may
    abort at any time, for any cause.

    Memory is sequentially consistent.  What touches no lock is not a step of
    a thread: the unroll of the undo log after an abort is [unroll_after_abort];
    the set-up of the log, the prefault of the heap and the annotations for
    the simulator are left out.  The locks are those of x86; the variant without
    synchronisation has nothing to model. *)

From S2P Require Import Prelude Address HTM AbortStatus.
From S2P Require EagerVM.

(** ** Configuration *)

(** The values of [HANDLER] in the [Makefile]; [empty] has no
    synchronisation. *)
Inductive Handler :=
| handler_sgl
| handler_fallbacklock
| handler_fallbacklock2phase
| handler_powertm
| handler_powertmplus.

Definition HANDLER_FALLBACKLOCK (h : Handler) : bool :=
  match h with handler_sgl => false | _ => true end.
Definition HANDLER_FALLBACKLOCK_2PHASE (h : Handler) : bool :=
  match h with handler_fallbacklock2phase => true | _ => false end.
Definition HANDLER_POWERTM (h : Handler) : bool :=
  match h with handler_powertm | handler_powertmplus => true | _ => false end.
Definition HANDLER_POWERTM_PRECISEABORTS (h : Handler) : bool :=
  match h with handler_powertmplus => true | _ => false end.

(** [_env_config_t]: the fields the handler reads. *)
Record EnvConfig := MkEnvConfig {
  htm_max_retries : Z;
  backoff : bool
}.

Definition POWER_TM_FLAG : Z := 1.

(** ** Shared state: the locks of [spinlock.h] *)

Record Locks := MkLocks {
  fallbackLock : Z;
  preFallbackLock : Z;
  powerFlag : Z
}.
#[global] Instance Locks_eta : Eta Locks :=
  fun r => MkLocks (fallbackLock r) (preFallbackLock r) (powerFlag r).

Definition spinlock_init : Locks := MkLocks 0 0 (-1).

Definition spinlock_isLocked (k : Locks) : bool := negb (fallbackLock k =? 0).
Definition spinlock_prefb_isLocked (k : Locks) : bool := negb (preFallbackLock k =? 0).
Definition spinlock_unlock (k : Locks) : Locks := k <| fallbackLock := 0 |>.
Definition spinlock_prefb_unlock (k : Locks) : Locks := k <| preFallbackLock := 0 |>.

(** [__sync_bool_compare_and_swap] on each of the three words. *)
Definition cas_fallbackLock (k : Locks) : bool * Locks :=
  if fallbackLock k =? 0 then (true, k <| fallbackLock := 1 |>) else (false, k).
Definition cas_preFallbackLock (k : Locks) : bool * Locks :=
  if preFallbackLock k =? 0 then (true, k <| preFallbackLock := 1 |>) else (false, k).
Definition cas_powerFlag (threadId : Z) (k : Locks) : bool * Locks :=
  if powerFlag k =? -1 then (true, k <| powerFlag := threadId |>) else (false, k).

(** ** Local variables of [beginTransaction_fallbackLock] *)

(** [ret] is [status]; [jcong] is the state of the generator that the
    back-off uses. *)
Record Locals := MkLocals {
  status : Z;
  retryWithLock : bool;
  nretries : Z;
  flags : Z;
  txExecOnPower : bool;
  nRetriesPowerMode : Z;
  jcong : Z
}.
#[global] Instance Locals_eta : Eta Locals :=
  fun r => MkLocals (status r) (retryWithLock r) (nretries r) (flags r)
             (txExecOnPower r) (nRetriesPowerMode r) (jcong r).

Definition begin_locals (l : Locals) : Locals :=
  MkLocals (status l) false 0 0 false 0 (jcong l).

(** ** The undo log *)

(** The first thing the handler does with the status of an abort. *)
Definition unroll_after_abort (log_base status : Z) (m : EagerVM.Mem) : EagerVM.Mem :=
  if htm_abort_undo_log status then
    EagerVM.logtm_log_unroll log_base (Z.to_nat (M5_ABORTSTATUS_LOGSIZE_DECODE status)) m
  else m.

(** ** Back-off ([logtm.c]) *)

Definition power_of_2 (a : Z) : Z := u64 (Z.shiftl 1 a).

Definition compute_backoff (num_retries : Z) : Z :=
  if 16 <? num_retries then u64 (64 * 1024 + (num_retries - 16))
  else power_of_2 num_retries.

(** The number of iterations of the delay loop, and the generator. *)
Definition randomized_backoff (num_retries : Z) (l : Locals) : res (Z * Locals) :=
  let l := l <| jcong := u64 (69069 * jcong l + 1234567) |> in
  let max := compute_backoff num_retries in
  if max =? 0 then Err EUndef else Ok (jcong l mod max, l).

(** The [int] becomes an [unsigned long]. *)
Definition doBackoff (n : Z) (l : Locals) : res Locals :=
  let? (_, l) := randomized_backoff (u64 n) l in Ok l.

Section handler.
Context (h : Handler) (env : EnvConfig).

(** ** One iteration of the retry loop, between shared accesses *)

Definition count_retry (d : Z) (l : Locals) : res Locals :=
  let? n := int_add (nretries l) d in Ok (l <| nretries := n |>).

(** From the head of the loop to [htm_start]; [power] is the value read
    from [powerFlag]. *)
Definition loop_head (threadId power : Z) (l : Locals) : res Locals :=
  let? l := count_retry 1 l in
  if HANDLER_POWERTM h then
    let l := l <| txExecOnPower := false |> in
    if power =? threadId then
      Ok (l <| txExecOnPower := true |> <| flags := Z.lor (flags l) POWER_TM_FLAG |>)
    else Ok l
  else Ok (l <| flags := 0 |>).

(** The heuristic after an abort; [locked] is the lock as it is read. *)
Definition lemming_check (locked : bool) (l : Locals) : res Locals :=
  if htm_abort_cause_conflict (status l) && locked then count_retry (-1) l else Ok l.

(** The retries of a power transaction; the flag is [continue]. *)
Definition power_retry (l : Locals) : res (Locals * bool) :=
  if HANDLER_POWERTM h && txExecOnPower l then
    let? n := int_add (nRetriesPowerMode l) 1 in
    let l := l <| nRetriesPowerMode := n |> in
    if htm_may_succeed_on_retry (status l) then
      if htm_max_retries env <? n then Ok (l <| retryWithLock := true |>, false)
      else Ok (l, true)
    else Ok (l, false)
  else Ok (l, false).

(** Which aborts are not counted; [power] as above. *)
Definition classify_abort (power : Z) (l : Locals) : res Locals :=
  if htm_abort_cause_explicit (status l) then
    if htm_abort_code_is_lock_acquired (htm_abort_cause_explicit_code (status l)) then
      count_retry (-1) l
    else
      let? _ := rassert (htm_abort_code_is_default
                           (htm_abort_cause_explicit_code (status l))) in
      Ok l
  else if htm_abort_cause_disabled (status l) then
    if htm_may_succeed_on_retry (status l) then
      let? l := count_retry (-1) l in
      let? _ := rassert ((nretries l <? htm_max_retries env) && (0 <=? nretries l)) in
      Ok l
    else Ok l
  else if HANDLER_POWERTM_PRECISEABORTS h then
    if htm_abort_cause_conflict_power (status l) then count_retry (-1) l else Ok l
  else if HANDLER_POWERTM h && negb (txExecOnPower l) && negb (power =? -1) then
    count_retry (-1) l
  else Ok l.

(** Retry, take the lock, or go for power mode (the flag). *)
Definition decide_retry (l : Locals) : res (Locals * bool) :=
  let explicit := htm_abort_cause_explicit (status l) in
  if negb explicit && negb (htm_may_succeed_on_retry (status l)) then
    Ok (l <| retryWithLock := true |>, false)
  else if (htm_max_retries env <=? nretries l) && negb (retryWithLock l) then
    if HANDLER_POWERTM h then
      let? _ := rassert (negb (txExecOnPower l)) in Ok (l, true)
    else Ok (l <| retryWithLock := true |>, false)
  else Ok (l, false).

Definition backoff_step (l : Locals) : res Locals :=
  if negb (retryWithLock l) && backoff env &&
     negb (HANDLER_POWERTM h && txExecOnPower l) then
    doBackoff (nretries l) l
  else Ok l.

(** The assertions before the power flag is released. *)
Definition release_asserts (l : Locals) : res unit :=
  let? _ := rassert (txExecOnPower l) in
  rassert (negb (htm_may_succeed_on_retry (status l)) ||
           (htm_max_retries env <? nRetriesPowerMode l)).

(** ** Threads *)

(** The program points at which a thread accesses shared memory or executes
    a transactional instruction. *)
Inductive pc :=
| Outside            (** before [beginTransaction] *)
| LoopHead           (** the read of [powerFlag] *)
| Start              (** [htm_start] *)
| Subscribe          (** the read of the lock in the transaction *)
| Cancel             (** [htm_cancel_lock_acquired] *)
| Body               (** returned: the critical section, speculative *)
| AbortCheck         (** [htm_start] returned a status; the read of the lock *)
| WaitLock           (** [spinlock_whileIsLocked] *)
| Classify           (** from there to the decision *)
| CasPower
| WaitPrefb
| LoopEnd
| ReleasePower       (** the read of [powerFlag] *)
| ReleasePowerWrite
| PrefbWait          (** [spinlock_prefb_lock] *)
| PrefbCas
| LockWait           (** [spinlock_lock] *)
| LockCas
| PrefbUnlock
| Critical           (** returned: the critical section with the lock *)
| CommitCheck        (** [commitTransaction]: the read of the lock *)
| Unlock
| XEnd               (** [htm_commit] *)
| PowerRead
| PowerWrite
| Failed (e : err).  (** an assertion failed *)

#[global] Instance pc_eq_dec : EqDecision pc.
Proof. solve_decision. Defined.

(** The hardware transaction of a thread: whether the lock is in its read
    set, and whether it has failed. *)
Record Tx := MkTx { lock_read : bool; doomed : bool }.
#[global] Instance Tx_eta : Eta Tx := fun r => MkTx (lock_read r) (doomed r).

Record Thread := MkThread {
  th_pc : pc;
  th_locals : Locals;
  th_tx : option Tx
}.
#[global] Instance Thread_eta : Eta Thread :=
  fun r => MkThread (th_pc r) (th_locals r) (th_tx r).

(** Continue at [p], or stop at a failed assertion. *)
Definition goto (p : pc) (r : res Locals) (th : Thread) : Thread :=
  match r with
  | Ok l => MkThread p l (th_tx th)
  | Err e => th <| th_pc := Failed e |>
  end.

(** After the loop: the next lock to take. *)
Definition to_lock : pc := if HANDLER_FALLBACKLOCK_2PHASE h then PrefbWait else LockWait.

Definition after_wait (power : Z) (th : Thread) : Thread :=
  match power_retry (th_locals th) with
  | Err e => th <| th_pc := Failed e |>
  | Ok (l, true) => MkThread LoopHead l (th_tx th)
  | Ok (l, false) =>
      match (let? l := classify_abort power l in decide_retry l) with
      | Err e => th <| th_pc := Failed e |>
      | Ok (l, true) => MkThread CasPower l (th_tx th)
      | Ok (l, false) =>
          MkThread (if HANDLER_FALLBACKLOCK_2PHASE h then WaitPrefb else LoopEnd) l (th_tx th)
      end
  end.

(** The commit of a thread that is not speculative, or of one that is. *)
Definition commit_entry : pc := if HANDLER_FALLBACKLOCK h then CommitCheck else Unlock.

(** One step of a thread at its program point.  The flag says that the lock
    was written; [None] is a thread that waits. *)
Definition thread_step (threadId : Z) (k : Locks) (th : Thread)
    : option (Thread * Locks * bool) :=
  let l := th_locals th in
  let at_pc p := th <| th_pc := p |> in
  match th_pc th with
  | Outside =>
      if HANDLER_FALLBACKLOCK h
      then Some (MkThread LoopHead (begin_locals l) (th_tx th), k, false)
      else Some (at_pc LockWait, k, false)
  | LoopHead => Some (goto Start (loop_head threadId (powerFlag k) l) th, k, false)
  | Start => Some (MkThread Subscribe l (Some (MkTx false false)), k, false)
  | Subscribe =>
      Some (MkThread (if spinlock_isLocked k then Cancel else Body) l
              (upd lock_read (fun _ => true) <$> th_tx th), k, false)
  | Cancel => None
  | Body => Some (at_pc CommitCheck, k, false)
  | AbortCheck => Some (goto WaitLock (lemming_check (spinlock_isLocked k) l) th, k, false)
  | WaitLock => if spinlock_isLocked k then None else Some (at_pc Classify, k, false)
  | Classify => Some (after_wait (powerFlag k) th, k, false)
  | CasPower =>
      let (b, k) := cas_powerFlag threadId k in
      Some (MkThread (if HANDLER_FALLBACKLOCK_2PHASE h then WaitPrefb else LoopEnd)
              (l <| txExecOnPower := b |>) (th_tx th), k, false)
  | WaitPrefb => if spinlock_prefb_isLocked k then None else Some (at_pc LoopEnd, k, false)
  | LoopEnd =>
      Some (goto (if retryWithLock l then
                    if HANDLER_POWERTM h then ReleasePower else to_lock
                  else LoopHead) (backoff_step l) th, k, false)
  | ReleasePower =>
      if powerFlag k =? threadId then
        Some (goto ReleasePowerWrite (let? _ := release_asserts l in Ok l) th, k, false)
      else Some (at_pc to_lock, k, false)
  | ReleasePowerWrite => Some (at_pc to_lock, k <| powerFlag := -1 |>, false)
  | PrefbWait => if spinlock_prefb_isLocked k then None else Some (at_pc PrefbCas, k, false)
  | PrefbCas =>
      let (b, k) := cas_preFallbackLock k in
      Some (at_pc (if b then LockWait else PrefbWait), k, false)
  | LockWait => if spinlock_isLocked k then None else Some (at_pc LockCas, k, false)
  | LockCas =>
      let (b, k) := cas_fallbackLock k in
      Some (at_pc (if b then
                     if HANDLER_FALLBACKLOCK_2PHASE h then PrefbUnlock else Critical
                   else LockWait), k, b)
  | PrefbUnlock => Some (at_pc Critical, spinlock_prefb_unlock k, false)
  | Critical => Some (at_pc commit_entry, k, false)
  | CommitCheck =>
      Some (at_pc (if spinlock_isLocked k then Unlock else XEnd), k, false)
  | Unlock => Some (at_pc Outside, spinlock_unlock k, true)
  | XEnd =>
      Some (MkThread (if HANDLER_POWERTM h then PowerRead else Outside) l None, k, false)
  | PowerRead =>
      Some (at_pc (if powerFlag k =? threadId then PowerWrite else Outside), k, false)
  | PowerWrite => Some (at_pc Outside, k <| powerFlag := -1 |>, false)
  | Failed _ => None
  end.

(** ** The system *)

Record State := MkState {
  locks : Locks;
  threads : gmap Z Thread
}.
#[global] Instance State_eta : Eta State := fun r => MkState (locks r) (threads r).

(** A write to the lock makes every other transaction fail that has read
    it. *)
Definition doom (th : Thread) : Thread :=
  th <| th_tx ::= fmap (fun x => x <| doomed := doomed x || lock_read x |>) |>.

Definition doom_others (t : Z) (ths : gmap Z Thread) : gmap Z Thread :=
  map_imap (fun u th => Some (if u =? t then th else doom th)) ths.

Definition is_doomed (th : Thread) : bool :=
  match th_tx th with Some x => doomed x | None => false end.

(** The program points whose step is a memory access or a commit of the
    transaction: not available to a failed one. *)
Definition accesses (p : pc) : bool :=
  match p with Subscribe | CommitCheck | XEnd => true | _ => false end.

(** The status word of an abort, for a fault with its cause, in a state of
    the processor. *)
Definition fault_status (sys : SystemView) (c : HTMCheckpoint)
    (cause : HtmFailureFaultCause) : res Z :=
  if (0 <=? getHtmUndoLogSize sys) && (getHtmUndoLogSize sys <? 2 ^ 31) then
    let? vis := getIsaVisibleHtmFailureCause cause in
    HTMCheckpoint.abort_status sys c vis
  else Err EUndef.

Inductive event :=
| Go
| Fault (sys : SystemView) (c : HTMCheckpoint) (cause : HtmFailureFaultCause).

(** [Fault] at [Start]: [htm_start] does not start a transaction. *)
Definition can_fault (th : Thread) : bool :=
  match th_pc th, th_tx th with
  | Start, _ => true
  | _, Some _ => true
  | _, None => false
  end.

Definition abort_thread (v : Z) (th : Thread) : Thread :=
  MkThread AbortCheck ((th_locals th) <| status := v |>) None.

Definition exec (t : Z) (ev : event) (s : State) : option State :=
  th ← threads s !! t;
  match ev with
  | Go =>
      if is_doomed th && accesses (th_pc th) then None
      else
        '(th', k, wrote) ← thread_step t (locks s) th;
        Some (MkState k (<[t := th']> (if (wrote : bool) then doom_others t (threads s)
                                       else threads s)))
  | Fault sys c cause =>
      if can_fault th then
        match fault_status sys c cause with
        | Ok v => Some (s <| threads ::= <[t := abort_thread v th]> |>)
        | Err _ => None
        end
      else None
  end.

Fixpoint run (l : list (Z * event)) (s : State) : option State :=
  match l with
  | [] => Some s
  | (t, ev) :: l => s' ← exec t ev s; run l s'
  end.

Definition idle_thread (seed : Z) : Thread :=
  MkThread Outside (MkLocals 0 false 0 0 false 0 seed) None.

(** The locks after [spinlock_init], every thread outside a transaction,
    thread identifiers from zero. *)
Definition initial (s : State) : Prop :=
  locks s = spinlock_init /\
  forall t th, threads s !! t = Some th -> 0 <= t /\ th_pc th = Outside /\ th_tx th = None.

(** Faults the assertions of the handler allow for: a critical section
    cancels itself with the default code only, and not at all with power
    transactions; the processor does not replay a recorded execution. *)
Definition benign (ev : event) : bool :=
  match ev with
  | Go => true
  | Fault sys c cause =>
      match fault_status sys c cause with
      | Ok v =>
          (negb (htm_abort_cause_explicit v) ||
           negb (HANDLER_POWERTM h) &&
           htm_abort_code_is_default (htm_abort_cause_explicit_code v)) &&
          (negb (htm_abort_cause_disabled v) || negb (htm_may_succeed_on_retry v))
      | Err _ => true
      end
  end.

(** The states of all executions; with [strict], of those with benign faults
    only. *)
Inductive reachable (strict : bool) : State -> Prop :=
| reachable_init s : initial s -> reachable strict s
| reachable_step s t ev s' :
    reachable strict s -> (strict = true -> benign ev = true) ->
    exec t ev s = Some s' -> reachable strict s'.
End handler.
