(* ===== verification/RuntimeInv.v ===== *)
(** * Invariants of the runtime library

    What holds in every state that the interleaved threads of [Runtime]
    reach: who has the fallback lock and what the transactions that read it
    can still do ([lock_inv]), who has the power flag and with which counters
    ([power_inv]), and who acquires the lock in two phases ([prefb_inv]). *)

From S2P Require Import Prelude Address HTM AbortStatus Runtime.

Section props.
Context (h : Handler) (env : EnvConfig).
Implicit Types (s : State) (th : Thread) (k : Locks) (l : Locals).

(** ** Steps of the system *)

Lemma exec_inv t ev s s' :
  exec h env t ev s = Some s' ->
  exists th, threads s !! t = Some th /\
    ((exists th' k w, ev = Go /\
        is_doomed th && accesses (th_pc th) = false /\
        thread_step h env t (locks s) th = Some (th', k, w) /\
        s' = MkState k (<[t := th']> (if w then doom_others t (threads s) else threads s))) \/
     (exists sys c cause v, ev = Fault sys c cause /\
        can_fault th = true /\ fault_status sys c cause = Ok v /\
        s' = MkState (locks s) (<[t := abort_thread v th]> (threads s)))).
Proof.
  unfold exec. intros H. destruct (threads s !! t) as [th|] eqn:Et; [|done].
  exists th. split; [done|]. cbn in H. destruct ev as [|sys c cause].
  - left. destruct (is_doomed th && accesses (th_pc th)) eqn:Ed; [done|].
    destruct (thread_step h env t (locks s) th) as [[[th' k] w]|] eqn:Es; [|done].
    injection H as <-. by exists th', k, w.
  - right. destruct (can_fault th) eqn:Ec; [|done].
    destruct (fault_status sys c cause) as [v|] eqn:Ef; [|done].
    injection H as <-. by exists sys, c, cause, v.
Qed.

Lemma lookup_doom_others t u (ths : gmap Z Thread) :
  doom_others t ths !! u = (fun th => if u =? t then th else doom th) <$> ths !! u.
Proof. unfold doom_others. rewrite map_lookup_imap. by destruct (ths !! u). Qed.

(** The thread of [u] after a step of [t]: the new thread of [t], or the old
    one, failed when the lock was written. *)
Lemma step_lookup t u th' w (ths : gmap Z Thread) thu :
  <[t := th']> (if w : bool then doom_others t ths else ths) !! u = Some thu ->
  (u = t /\ thu = th') \/
  (u <> t /\ exists th, ths !! u = Some th /\ thu = if w then doom th else th).
Proof.
  intros H. destruct (decide (u = t)) as [->|Hne].
  - rewrite lookup_insert_eq in H. left. split; congruence.
  - rewrite lookup_insert_ne in H by done. right. split; [done|]. destruct w.
    + rewrite lookup_doom_others in H. destruct (ths !! u) as [th|]; [|done].
      injection H as <-. exists th. split; [done|].
      destruct (Z.eqb_spec u t); done.
    + by exists thu.
Qed.

(** ** The lock and the transactions *)

(** The thread that has the lock. *)
Definition holds_lock th : bool :=
  match th_pc th, th_tx th with
  | (PrefbUnlock | Critical | Unlock), _ => true
  | CommitCheck, None => true
  | _, _ => false
  end.

(** The thread runs its critical section as a transaction. *)
Definition speculates th : bool :=
  match th_pc th, th_tx th with
  | (Body | CommitCheck | XEnd), Some _ => true
  | _, _ => false
  end.

(** Where a thread has a transaction, and whether the lock is in its read
    set. *)
Definition control_ok th : Prop :=
  match th_pc th with
  | Subscribe => exists d, th_tx th = Some (MkTx false d)
  | Cancel | Body | XEnd => exists d, th_tx th = Some (MkTx true d)
  | CommitCheck => th_tx th = None \/ exists d, th_tx th = Some (MkTx true d)
  | _ => th_tx th = None
  end.

(** A transaction that read the lock and has not failed read it free, unless
    it is about to cancel itself. *)
Definition sub_ok (lock : Z) th : Prop :=
  match th_pc th, th_tx th with
  | Cancel, _ => True
  | _, Some (MkTx true false) => lock = 0
  | _, _ => True
  end.

Record lock_inv s : Prop := {
  li_value : fallbackLock (locks s) = 0 \/ fallbackLock (locks s) = 1;
  li_thread t th : threads s !! t = Some th ->
    control_ok th /\ sub_ok (fallbackLock (locks s)) th /\
    (holds_lock th = true -> fallbackLock (locks s) = 1);
  li_unique t u th thu : threads s !! t = Some th -> threads s !! u = Some thu ->
    holds_lock th = true -> holds_lock thu = true -> t = u;
  li_held : fallbackLock (locks s) = 1 ->
    exists t th, threads s !! t = Some th /\ holds_lock th = true
}.

(** What a step does to the lock: nothing, acquire, or release. *)
Inductive lock_effect (k k' : Locks) th th' : bool -> Prop :=
| le_same : fallbackLock k' = fallbackLock k -> holds_lock th' = holds_lock th ->
    lock_effect k k' th th' false
| le_acquire : fallbackLock k = 0 -> fallbackLock k' = 1 ->
    holds_lock th = false -> holds_lock th' = true -> lock_effect k k' th th' true
| le_release : fallbackLock k' = 0 ->
    holds_lock th = true -> holds_lock th' = false -> lock_effect k k' th th' true.

Lemma goto_cases p r th :
  (exists l, r = Ok l /\ goto p r th = MkThread p l (th_tx th)) \/
  (exists e, r = Err e /\ goto p r th = MkThread (Failed e) (th_locals th) (th_tx th)).
Proof. destruct r as [l|e]; [left|right]; eauto. Qed.

(** The thread after the decision: it retries, goes for power, or leaves the
    loop; never in a transaction when it was in none. *)
Lemma after_wait_cases power th :
  th_tx (after_wait h env power th) = th_tx th /\
  match th_pc (after_wait h env power th) with
  | LoopHead | CasPower | WaitPrefb | LoopEnd | Failed _ => True
  | _ => False
  end.
Proof.
  unfold after_wait. destruct (power_retry h env (th_locals th)) as [[l []]|e]; [done| |done].
  destruct (let? l := classify_abort h env power l in decide_retry h env l) as [[l' []]|e];
    [done| |done].
  by destruct (HANDLER_FALLBACKLOCK_2PHASE h).
Qed.

Lemma isLocked_spec k : spinlock_isLocked k = true <-> fallbackLock k <> 0.
Proof. unfold spinlock_isLocked. rewrite negb_true_iff, Z.eqb_neq. done. Qed.

(** Program points outside the critical section and the transaction. *)
Definition plain (p : pc) : bool :=
  match p with
  | Subscribe | Cancel | Body | CommitCheck | XEnd | PrefbUnlock | Critical | Unlock => false
  | _ => true
  end.

Lemma plain_ok lock th :
  plain (th_pc th) = true -> th_tx th = None ->
  control_ok th /\ sub_ok lock th /\ holds_lock th = false.
Proof. destruct th as [[] l x]; cbn; intros ? ->; done. Qed.

Lemma plain_goto p r th :
  plain p = true -> th_tx th = None ->
  plain (th_pc (goto p r th)) = true /\ th_tx (goto p r th) = None.
Proof. by destruct r. Qed.

(** A step between two plain points leaves the lock alone. *)
Lemma plain_effect k k' th th' :
  fallbackLock k' = fallbackLock k ->
  plain (th_pc th) = true -> th_tx th = None ->
  plain (th_pc th') = true -> th_tx th' = None ->
  control_ok th' /\ sub_ok (fallbackLock k') th' /\ lock_effect k k' th th' false.
Proof.
  intros Hk H1 H2 H3 H4. destruct (plain_ok (fallbackLock k') th H1 H2) as (_ & _ & Hh).
  destruct (plain_ok (fallbackLock k') th' H3 H4) as (Hc & Hs & Hh').
  split; [done|]. split; [done|]. apply le_same; congruence.
Qed.

Lemma to_lock_plain : plain (to_lock h) = true.
Proof. unfold to_lock. by destruct (HANDLER_FALLBACKLOCK_2PHASE h). Qed.

(** The steps that start at a plain point and do not take the lock. *)
Lemma thread_step_plain t k th th' k' w :
  plain (th_pc th) = true -> th_tx th = None ->
  th_pc th <> Start -> th_pc th <> LockCas ->
  thread_step h env t k th = Some (th', k', w) ->
  w = false /\ fallbackLock k' = fallbackLock k /\
  plain (th_pc th') = true /\ th_tx th' = None.
Proof.
  intros Hp Hx Hs Hl. pose proof to_lock_plain as Htl.
  destruct th as [p l x]. cbn in Hx. subst x.
  unfold thread_step, cas_powerFlag, cas_preFallbackLock.
  destruct p; cbn in Hp, Hs, Hl |- *; try done; clear Hp Hs Hl; intros H;
    repeat case_match; simplify_eq; try done;
    try (split; [done|]; split; [done|];
         first [by apply plain_goto | by apply plain_goto; repeat case_match | done]).
  destruct (after_wait_cases (powerFlag k') (MkThread Classify l None)) as [Hx Hp].
  split; [done|]. split; [done|]. split; [|exact Hx].
  by destruct (th_pc (after_wait _ _ _ _)).
Qed.

(** [commitTransaction] takes the branch of the mode it runs in: the holder
    finds the lock taken, a transaction that has not failed finds it free. *)
Lemma commit_branch k l x :
  control_ok (MkThread CommitCheck l x) -> sub_ok (fallbackLock k) (MkThread CommitCheck l x) ->
  (holds_lock (MkThread CommitCheck l x) = true -> fallbackLock k = 1) ->
  is_doomed (MkThread CommitCheck l x) = false ->
  (x = None /\ spinlock_isLocked k = true) \/
  (x = Some (MkTx true false) /\ spinlock_isLocked k = false).
Proof.
  intros [Hx|[d Hx]] Hs Hh Hd; cbn in Hx; subst x.
  - left. split; [done|]. apply isLocked_spec. specialize (Hh eq_refl). lia.
  - right. cbn in Hd. subst d. split; [done|]. unfold spinlock_isLocked. cbn in Hs. by rewrite Hs.
Qed.

Lemma thread_step_lock t k th th' k' w :
  control_ok th -> sub_ok (fallbackLock k) th ->
  (holds_lock th = true -> fallbackLock k = 1) ->
  is_doomed th && accesses (th_pc th) = false ->
  thread_step h env t k th = Some (th', k', w) ->
  control_ok th' /\ sub_ok (fallbackLock k') th' /\ lock_effect k k' th th' w.
Proof.
  intros Hc Hs Hh Hd Hstep.
  destruct (decide (plain (th_pc th) = true /\ th_pc th <> Start /\ th_pc th <> LockCas))
    as [(Hp & H1 & H2)|Hp].
  { assert (th_tx th = None) as Hx.
    { unfold control_ok in Hc. destruct (th_pc th); done. }
    destruct (thread_step_plain t k th th' k' w) as (-> & Hk & Hp' & Hx'); [done..|].
    by apply plain_effect. }
  destruct th as [p l x]. cbn in Hp.
  destruct p; try (exfalso; apply Hp; done); clear Hp; cbn in Hc, Hs, Hh, Hd, Hstep.
  - injection Hstep as <- <- <-. split; [by exists false|]. split; [done|]. by apply le_same.
  - destruct Hc as [d ->]. cbn in Hd. rewrite andb_true_r in Hd. subst d.
    injection Hstep as <- <- <-. destruct (spinlock_isLocked k) eqn:El.
    + split; [by exists false|]. split; [done|]. by apply le_same.
    + split; [by exists false|]. split; [|by apply le_same].
      cbn. destruct (Z.eq_dec (fallbackLock k) 0) as [|Hn]; [done|].
      apply isLocked_spec in Hn. congruence.
  - injection Hstep as <- <- <-. destruct Hc as [d ->]. split; [right; by exists d|].
    split; [done|]. by apply le_same.
  - unfold cas_fallbackLock in Hstep. subst x. destruct (Z.eqb_spec (fallbackLock k) 0).
    + injection Hstep as <- <- <-.
      destruct (HANDLER_FALLBACKLOCK_2PHASE h); repeat split; by apply le_acquire.
    + injection Hstep as <- <- <-. repeat split; by apply le_same.
  - injection Hstep as <- <- <-. subst x. repeat split. by apply le_same.
  - injection Hstep as <- <- <-. subst x. unfold commit_entry.
    destruct (HANDLER_FALLBACKLOCK h); repeat split; try (by left); by apply le_same.
  - injection Hstep as <- <- <-. rewrite andb_true_r in Hd.
    destruct (commit_branch k l x) as [[-> ->]| [-> ->]]; [done..| |].
    + repeat split. by apply le_same.
    + split; [by exists false|]. split; [done|]. by apply le_same.
  - injection Hstep as <- <- <-. subst x. repeat split. by apply le_release.
  - injection Hstep as <- <- <-. destruct Hc as [d ->].
    destruct (HANDLER_POWERTM h); repeat split; by apply le_same.
Qed.

Lemma doom_tx th : th_tx (doom th) =
  (fun x => MkTx (lock_read x) (doomed x || lock_read x)) <$> th_tx th.
Proof. by destruct th as [p l [[]|]]. Qed.

Lemma doom_control th : control_ok th -> control_ok (doom th).
Proof.
  destruct th as [[] l x]; cbn; intros H; rewrite ?H; try done;
    try (destruct H as [d ->]; eexists; done).
  destruct H as [->|[d ->]]; [by left|right; by eexists].
Qed.

Lemma doom_sub lock th : sub_ok lock (doom th).
Proof. destruct th as [[] l [[[] []]|]]; done. Qed.

Lemma doom_holds th : holds_lock (doom th) = holds_lock th.
Proof. by destruct th as [[] l []]. Qed.

Lemma fault_no_lock th : control_ok th -> can_fault th = true -> holds_lock th = false.
Proof. destruct th as [[] l []]; try done; cbn; naive_solver. Qed.

(** ** Induction *)

Lemma lock_inv_init s : initial s -> lock_inv s.
Proof.
  intros [Hk Ht]. split.
  - left. by rewrite Hk.
  - intros t th Hth. destruct (Ht t th Hth) as (_ & Hp & Hx).
    destruct th as [p l x]. cbn in Hp, Hx. by subst.
  - intros t u th thu Hth _ Hh. destruct (Ht t th Hth) as (_ & Hp & Hx).
    destruct th as [p l x]. cbn in Hp, Hx. by subst.
  - by rewrite Hk.
Qed.

(** A step keeps what it does not touch: the other threads. *)
Lemma lock_inv_others s t th k' th' w u thu :
  lock_inv s -> threads s !! t = Some th -> lock_effect (locks s) k' th th' w ->
  u <> t -> threads s !! u = Some thu ->
  let thu' := if w then doom thu else thu in
  control_ok thu' /\ sub_ok (fallbackLock k') thu' /\
  holds_lock thu' = holds_lock thu /\
  (holds_lock thu = true -> w = false /\ fallbackLock k' = 1).
Proof.
  intros I Ht He Hne Hu. destruct (li_thread s I u thu Hu) as (Hc & Hs & Hh).
  destruct He as [Hk _|H0 H1 _ _|H0 H1 _]; cbn.
  - rewrite Hk. naive_solver.
  - split; [by apply doom_control|]. split; [apply doom_sub|]. split; [apply doom_holds|].
    intros Hu'. specialize (Hh Hu'). lia.
  - split; [by apply doom_control|]. split; [apply doom_sub|]. split; [apply doom_holds|].
    intros Hu'. by destruct (Hne (li_unique s I u t thu th Hu Ht Hu' H1)).
Qed.

Lemma lock_inv_go s t th th' k' w :
  lock_inv s -> threads s !! t = Some th ->
  control_ok th' -> sub_ok (fallbackLock k') th' -> lock_effect (locks s) k' th th' w ->
  lock_inv (MkState k' (<[t := th']> (if w then doom_others t (threads s) else threads s))).
Proof.
  intros I Ht Hc Hs He. pose proof (li_thread s I t th Ht) as (_ & _ & Hh).
  assert (forall u thu, u <> t ->
    <[t := th']> (if w then doom_others t (threads s) else threads s) !! u = Some thu ->
    exists thu0, threads s !! u = Some thu0 /\ control_ok thu /\
      sub_ok (fallbackLock k') thu /\ holds_lock thu = holds_lock thu0 /\
      (holds_lock thu = true -> w = false /\ fallbackLock k' = 1)) as Ho.
  { intros u thu Hne Hu. apply step_lookup in Hu as [[-> _]|(_ & thu0 & Hu & ->)]; [done|].
    destruct (lock_inv_others s t th k' th' w u thu0) as (H1 & H2 & H3 & H4); try done.
    exists thu0. rewrite H3. auto. }
  split; cbn [locks threads].
  - destruct He as [-> _| _ -> _ _ |  -> _ _]; [apply I|by right|by left].
  - intros u thu Hu. destruct (decide (u = t)) as [->|Hne].
    + rewrite lookup_insert_eq in Hu. injection Hu as <-. split; [done|]. split; [done|].
      destruct He as [-> ->| _ -> _ _ | _ _ ->]; [done|done|done].
    + destruct (Ho u thu Hne Hu) as (thu0 & _ & H1 & H2 & _ & H4). naive_solver.
  - assert (forall v thv, v <> t -> holds_lock thv = true -> holds_lock th' = true ->
      <[t := th']> (if w then doom_others t (threads s) else threads s) !! v = Some thv ->
      False) as Hone.
    { intros v thv Hne Hv Ht' Hl. destruct (Ho v thv Hne Hl) as (thv0 & H1 & _ & _ & H2 & H3).
      destruct (H3 Hv) as [-> _]. inversion He as [_ Hs'| |].
      rewrite Hs' in Ht'. rewrite H2 in Hv. by destruct (Hne (li_unique s I v t thv0 th H1 Ht Hv Ht')). }
    intros u v thu thv Hu Hv Hhu Hhv.
    destruct (decide (u = t)) as [->|Hu']; destruct (decide (v = t)) as [->|Hv']; [done|..].
    + rewrite lookup_insert_eq in Hu. injection Hu as <-. by destruct (Hone v thv).
    + rewrite lookup_insert_eq in Hv. injection Hv as <-. by destruct (Hone u thu).
    + destruct (Ho u thu Hu' Hu) as (thu0 & H1 & _ & _ & H2 & _).
      destruct (Ho v thv Hv' Hv) as (thv0 & H3 & _ & _ & H4 & _).
      apply (li_unique s I u v thu0 thv0); congruence.
  - intros H1. destruct He as [Hk Hsame|_ _ _ Hnew|H0 _ _]; [|exists t, th'; by rewrite lookup_insert_eq|lia].
    rewrite Hk in H1. destruct (li_held s I H1) as (u & thu & Hu & Hhu).
    destruct (decide (u = t)) as [->|Hne].
    + exists t, th'. rewrite lookup_insert_eq, Hsame. split; [done|]. congruence.
    + exists u, thu. by rewrite lookup_insert_ne by done.
Qed.

Lemma lock_inv_exec s t ev s' : lock_inv s -> exec h env t ev s = Some s' -> lock_inv s'.
Proof.
  intros I H. apply exec_inv in H
    as (th & Ht & [(th' & k & w & _ & Hd & Hstep & ->)|(sys & c & cause & v & _ & Hf & _ & ->)]).
  - destruct (li_thread s I t th Ht) as (Hc & Hs & Hh).
    destruct (thread_step_lock t (locks s) th th' k w) as (Hc' & Hs' & He); [done..|].
    by apply (lock_inv_go s t th).
  - destruct (li_thread s I t th Ht) as (Hc & Hs & Hh).
    apply (lock_inv_go s t th _ _ false); [done..|].
    apply le_same; [done|]. by rewrite (fault_no_lock th).
Qed.

(** ** Statuses the hardware delivers *)

Context (strict : bool).

(** An explicit abort is neither a conflict nor worth a retry; with benign
    faults, what [benign] says. *)
Record status_ok (v : Z) : Prop := {
  so_explicit : htm_abort_cause_explicit v = true ->
    htm_abort_cause_conflict v = false /\ htm_may_succeed_on_retry v = false;
  so_code : strict = true -> htm_abort_cause_explicit v = true ->
    HANDLER_POWERTM h = false /\
    htm_abort_code_is_default (htm_abort_cause_explicit_code v) = true;
  so_disabled : strict = true -> htm_abort_cause_disabled v = true ->
    htm_may_succeed_on_retry v = false
}.

Lemma fault_status_ok sys c cause v : fault_status sys c cause = Ok v ->
  exists vis, getIsaVisibleHtmFailureCause cause = Ok vis /\
    htm_started v = false /\
    htm_abort_cause_explicit v = bool_decide (vis = EXPLICIT) /\
    (vis = EXPLICIT -> htm_abort_cause_explicit_code v = abortReason c mod 256) /\
    htm_abort_cause_conflict v = bool_decide (vis = MEMORY) /\
    htm_abort_cause_disabled v = bool_decide (vis = DISABLED) /\
    htm_abort_cause_conflict_power v = fault_by_power sys vis /\
    htm_may_succeed_on_retry v = fault_retries sys vis.
Proof.
  unfold fault_status. intros H. destruct (_ && _) eqn:E; [|done].
  apply andb_true_iff in E as [E1%Z.leb_le E2%Z.ltb_lt].
  destruct (getIsaVisibleHtmFailureCause cause) as [vis|]; [|done]. cbn [rbind] in H.
  pose proof (abort_status_reportable _ _ _ _ H) as Hr.
  destruct (abort_status_ok sys c vis Hr) as (v' & Hv & Hb); [lia|].
  replace v' with v in * by congruence.
  destruct (status_decode _ _ _ _ Hb) as (H1 & H2 & H7 & H3 & H4 & H5 & H6 & _); [lia|].
  exists vis. auto 10.
Qed.

Lemma fault_status_status_ok sys c cause v :
  fault_status sys c cause = Ok v ->
  (strict = true -> benign h (Fault sys c cause) = true) -> status_ok v.
Proof.
  intros Hv Hb. split.
  - apply fault_status_ok in Hv as (vis & _ & _ & H1 & _ & H2 & _ & _ & H3).
    rewrite H1, H2, H3. intros He%bool_decide_eq_true. by subst.
  - intros Hs He. specialize (Hb Hs). cbn in Hb. rewrite Hv, He in Hb. cbn in Hb.
    apply andb_true_iff in Hb as [[Hp%negb_true_iff Hc]%andb_true_iff _]. done.
  - intros Hs He. specialize (Hb Hs). cbn in Hb. rewrite Hv, He in Hb. cbn in Hb.
    by apply andb_true_iff in Hb as [_ Hr%negb_true_iff].
Qed.

(** ** The counters of the loop *)

Lemma count_retry_inv d l l' :
  count_retry d l = Ok l' -> l' = l <| nretries := nretries l + d |>.
Proof.
  unfold count_retry, int_add, int_of. destruct (in_int _); [|done]. by intros [= <-].
Qed.

(** An abort that is not counted takes back the increment of the loop
    head. *)
Lemma classify_abort_inv power l l' :
  classify_abort h env power l = Ok l' ->
  exists n, l' = l <| nretries := n |> /\ nretries l - 1 <= n <= nretries l.
Proof.
  assert (Ok l = Ok l' ->
    exists n, l' = l <| nretries := n |> /\ nretries l - 1 <= n <= nretries l) as Hsame.
  { intros [= <-]. exists (nretries l). split; [by destruct l|lia]. }
  assert (count_retry (-1) l = Ok l' ->
    exists n, l' = l <| nretries := n |> /\ nretries l - 1 <= n <= nretries l) as Hback.
  { intros ->%count_retry_inv. eexists. split; [done|lia]. }
  unfold classify_abort, rassert.
  destruct (htm_abort_cause_explicit _).
  { destruct (htm_abort_code_is_lock_acquired _); [done|].
    destruct (htm_abort_code_is_default _); [done|discriminate]. }
  destruct (htm_abort_cause_disabled _).
  { destruct (htm_may_succeed_on_retry _); [|done].
    destruct (count_retry (-1) l) as [l1|] eqn:E; [|discriminate]. cbn [rbind].
    destruct (_ && _); [|discriminate]. cbn [rbind]. intros [= <-]. by apply Hback. }
  destruct (HANDLER_POWERTM_PRECISEABORTS h).
  { by destruct (htm_abort_cause_conflict_power _). }
  by destruct (_ && _).
Qed.

(** ** Power mode *)

(** The condition under which a power transaction gives up its mode. *)
Definition gives_up l : Prop :=
  htm_may_succeed_on_retry (status l) = false \/
  htm_max_retries env < nRetriesPowerMode l.

(** In the loop, before the decision to leave it. *)
Definition in_loop l : Prop :=
  retryWithLock l = false /\ 0 <= nRetriesPowerMode l <= htm_max_retries env.

(** Back at the head of the loop; [own] says that the thread has the power
    flag. *)
Definition head_ok (own : bool) l : Prop :=
  in_loop l /\ (flags l = 0 \/ flags l = 1 /\ own = true) /\
  (own = true -> htm_max_retries env <= nretries l) /\
  (HANDLER_POWERTM h = false -> txExecOnPower l = false).

Definition mode_ok (own : bool) l : Prop :=
  in_loop l /\ txExecOnPower l = own /\ flags l = (if own then POWER_TM_FLAG else 0).

Definition power_ok (own : bool) th : Prop :=
  let l := th_locals th in
  match th_pc th with
  | Outside | PrefbWait | PrefbCas | LockWait | LockCas | PrefbUnlock | Critical | Unlock =>
      own = false
  | CommitCheck =>
      match th_tx th with
      | None => own = false
      | Some _ => mode_ok own l /\ (own = true -> htm_max_retries env < nretries l)
      end
  | LoopHead => head_ok own l
  | Start | Subscribe | Cancel | Body | XEnd =>
      mode_ok own l /\ (own = true -> htm_max_retries env < nretries l)
  | AbortCheck =>
      mode_ok own l /\ status_ok (status l) /\ (own = true -> htm_max_retries env < nretries l)
  | WaitLock | Classify =>
      mode_ok own l /\ status_ok (status l) /\
      (own = true -> htm_max_retries env <= nretries l /\
         (htm_abort_cause_conflict (status l) = false -> htm_max_retries env < nretries l))
  | CasPower =>
      mode_ok own l /\ own = false /\ htm_max_retries env <= nretries l /\
      HANDLER_POWERTM h = true
  | WaitPrefb | LoopEnd =>
      if retryWithLock l then own = true -> txExecOnPower l = true /\ gives_up l
      else head_ok own l
  | ReleasePower => own = true -> txExecOnPower l = true /\ gives_up l
  | ReleasePowerWrite | PowerWrite => own = true
  | PowerRead => True
  | Failed e => strict = true -> e <> EAssert
  end.

Context (Hmax : 0 < htm_max_retries env < 255).

Lemma int_add_inv a b c : int_add a b = Ok c -> c = a + b.
Proof. unfold int_add, int_of. destruct (in_int _); congruence. Qed.

Lemma int_add_err a b e : int_add a b = Err e -> e <> EAssert.
Proof. unfold int_add, int_of. destruct (in_int _); congruence. Qed.

Lemma count_retry_err d l e : count_retry d l = Err e -> e <> EAssert.
Proof.
  unfold count_retry. destruct (int_add _ _) eqn:E; [done|]. cbn.
  intros [= <-]. by eapply int_add_err.
Qed.

(** A retry in power mode: it goes on, or has been tried too often. *)
Lemma power_retry_on l :
  HANDLER_POWERTM h = true -> txExecOnPower l = true -> in_loop l ->
  match power_retry h env l with
  | Ok (l', true) => exists n, l' = l <| nRetriesPowerMode := n |> /\ 0 <= n <= htm_max_retries env
  | Ok (l', false) => exists n b,
      l' = l <| nRetriesPowerMode := n |> <| retryWithLock := b |> /\
      (if (b : bool) then htm_max_retries env < n
       else htm_may_succeed_on_retry (status l) = false)
  | Err e => e <> EAssert
  end.
Proof.
  intros Hp Hx [Hr Hn]. unfold power_retry. rewrite Hp, Hx. cbn [andb].
  destruct (int_add _ 1) as [n|e] eqn:E; [|by apply int_add_err in E]. cbn [rbind].
  apply int_add_inv in E.
  change (status (l <| nRetriesPowerMode := n |>)) with (status l). destruct (htm_may_succeed_on_retry (status l)) eqn:Es.
  - destruct (Z.ltb_spec (htm_max_retries env) n).
    + by exists n, true.
    + exists n. split; [done|lia].
  - exists n, false. split; [|done]. rewrite <- Hr. by destruct l.
Qed.

Lemma power_retry_off l :
  HANDLER_POWERTM h && txExecOnPower l = false -> power_retry h env l = Ok (l, false).
Proof. unfold power_retry. by intros ->. Qed.

Lemma classify_abort_err power l e :
  status_ok (status l) -> strict = true ->
  classify_abort h env power l = Err e -> e <> EAssert.
Proof.
  intros Hs Hst. unfold classify_abort, rassert.
  destruct (htm_abort_cause_explicit _) eqn:He.
  { destruct (so_code _ Hs Hst He) as [_ ->].
    case_match; [apply count_retry_err|done]. }
  destruct (htm_abort_cause_disabled _) eqn:Hd.
  { by rewrite (so_disabled _ Hs Hst Hd). }
  repeat case_match; try done; apply count_retry_err.
Qed.

(** The thread with the power flag decides: retry in power mode, or give up
    and take the lock. *)
Lemma after_wait_power_on power l :
  HANDLER_POWERTM h = true -> power_ok true (MkThread Classify l None) ->
  power_ok true (after_wait h env power (MkThread Classify l None)).
Proof.
  intros Hp (((Hr & Hn) & Hx & Hf) & Hs & Ho). cbn [th_locals] in *.
  destruct (Ho eq_refl) as [Hge Hgt].
  unfold after_wait. cbn [th_locals th_tx].
  pose proof (power_retry_on l Hp Hx (conj Hr Hn)) as Hpr.
  destruct (power_retry h env l) as [[l1 []]|e]; [| |by intros _].
  { destruct Hpr as (n & -> & Hn'). split; [done|]. split; [right; done|].
    split; [by intros _|congruence]. }
  destruct Hpr as (n & b & -> & Hb).
  set (l1 := l <| nRetriesPowerMode := n |> <| retryWithLock := b |>).
  destruct (classify_abort h env power l1) as [l2|e] eqn:Ec; cbn [rbind].
  2:{ intros Hst. by apply (classify_abort_err power l1). }
  apply classify_abort_inv in Ec as (m & -> & Hm).
  unfold decide_retry, rassert.
  change (status (l1 <| nretries := m |>)) with (status l).
  change (txExecOnPower (l1 <| nretries := m |>)) with (txExecOnPower l).
  change (nretries (l1 <| nretries := m |>)) with m.
  change (retryWithLock (l1 <| nretries := m |>)) with b.
  change (nretries l1) with (nretries l) in Hm.
  rewrite Hp, Hx. destruct b.
  - rewrite andb_false_r. destruct (negb _ && negb _);
      destruct (HANDLER_FALLBACKLOCK_2PHASE h); intros _; (split; [done|by right]).
  - rewrite Hb. destruct (htm_abort_cause_explicit (status l)) eqn:He; cbn [negb andb].
    + destruct (so_explicit _ Hs He) as [Hc _]. specialize (Hgt Hc).
      rewrite (proj2 (Z.leb_le _ _)) by lia. cbn [andb rbind].
      intros Hst. destruct (so_code _ Hs Hst He) as [Hp' _]. congruence.
    + destruct (HANDLER_FALLBACKLOCK_2PHASE h); intros _; (split; [done|by left]).
Qed.

Lemma after_wait_power_off power l :
  power_ok false (MkThread Classify l None) ->
  power_ok false (after_wait h env power (MkThread Classify l None)).
Proof.
  intros (((Hr & Hn) & Hx & Hf) & Hs & _). cbn [th_locals] in *.
  unfold after_wait. cbn [th_locals th_tx].
  rewrite power_retry_off by by rewrite Hx, andb_false_r.
  destruct (classify_abort h env power l) as [l2|e] eqn:Ec; cbn [rbind].
  2:{ intros Hst. by apply (classify_abort_err power l). }
  apply classify_abort_inv in Ec as (m & -> & Hm).
  unfold decide_retry, rassert.
  change (status (l <| nretries := m |>)) with (status l).
  change (txExecOnPower (l <| nretries := m |>)) with (txExecOnPower l).
  change (nretries (l <| nretries := m |>)) with m.
  change (retryWithLock (l <| nretries := m |>)) with (retryWithLock l).
  rewrite Hx, Hr. destruct (negb _ && negb _).
  { by destruct (HANDLER_FALLBACKLOCK_2PHASE h). }
  destruct (Z.leb_spec (htm_max_retries env) m); cbn [andb negb rbind].
  - destruct (HANDLER_POWERTM h) eqn:Hp.
    + split; [done|]. split; [done|]. split; [exact H|done].
    + by destruct (HANDLER_FALLBACKLOCK_2PHASE h).
  - assert (head_ok false (l <| nretries := m |>)) as Hh.
    { split; [done|]. split; [by left|]. split; [done|]. by intros _. }
    destruct (HANDLER_FALLBACKLOCK_2PHASE h); cbn; by rewrite Hr.
Qed.

Record power_inv s : Prop := {
  pi_off : HANDLER_POWERTM h = false -> powerFlag (locks s) = -1;
  pi_thread t th : threads s !! t = Some th ->
    0 <= t /\ power_ok (powerFlag (locks s) =? t) th
}.

Lemma power_inv_init s : initial s -> power_inv s.
Proof.
  intros [Hk Ht]. split.
  - by rewrite Hk.
  - intros t th Hth. destruct (Ht t th Hth) as (Hpos & Hp & Hx).
    split; [done|]. destruct th as [p l x]. cbn in Hp. subst p. rewrite Hk.
    apply Z.eqb_neq. cbn. lia.
Qed.

Lemma backoff_step_keeps l l' : backoff_step h env l = Ok l' ->
  exists j, l' = l <| jcong := j |>.
Proof.
  unfold backoff_step, doBackoff, randomized_backoff. destruct (_ && _).
  - destruct (_ =? 0); cbn; [done|]. intros [= <-]. by eexists.
  - intros [= <-]. exists (jcong l). by destruct l.
Qed.

Lemma backoff_step_err l e : backoff_step h env l = Err e -> e <> EAssert.
Proof.
  unfold backoff_step, doBackoff, randomized_backoff. destruct (_ && _); [|done].
  destruct (_ =? 0); cbn; congruence.
Qed.

Lemma loop_head_power t own l p :
  (p =? t) = own -> (own = true -> HANDLER_POWERTM h = true) -> head_ok own l ->
  match loop_head h t p l with
  | Ok l' => mode_ok own l' /\ (own = true -> htm_max_retries env < nretries l')
  | Err e => e <> EAssert
  end.
Proof.
  intros Hp Hpow ((Hr & Hn) & Hf & Hge & Hx). unfold loop_head.
  destruct (count_retry 1 l) as [l1|e] eqn:E; cbn [rbind]; [|by apply count_retry_err in E].
  apply count_retry_inv in E as ->. rewrite Hp.
  destruct (HANDLER_POWERTM h) eqn:Ep.
  - destruct own.
    + specialize (Hge eq_refl). split; [|intros _; cbn; lia].
      split; [done|]. split; [done|]. cbn. by destruct Hf as [->|[-> _]].
    + split; [|done]. split; [done|]. split; [done|]. cbn. by destruct Hf as [->|[_ ?]].
  - destruct own; [by specialize (Hpow eq_refl)|]. split; [|done].
    split; [done|]. split; [by apply Hx|done].
Qed.

(** What a step does to the power flag: nothing, take it, or give it up. *)
Definition power_effect (t : Z) (k k' : Locks) : Prop :=
  powerFlag k' = powerFlag k \/
  (powerFlag k = -1 /\ powerFlag k' = t) \/ (powerFlag k = t /\ powerFlag k' = -1).

Lemma power_goto own p r l0 x :
  (forall l, r = Ok l -> power_ok own (MkThread p l x)) ->
  (forall e, r = Err e -> strict = true -> e <> EAssert) ->
  forall p0, power_ok own (goto p r (MkThread p0 l0 x)).
Proof. intros H1 H2 p0. destruct r as [l|e]; cbn; [by apply H1|by apply (H2 e)]. Qed.

Lemma release_asserts_ok l :
  txExecOnPower l = true -> gives_up l -> release_asserts env l = Ok tt.
Proof.
  unfold release_asserts, rassert. intros -> [Hr|Hn]; cbn [rbind].
  - by rewrite Hr.
  - by rewrite (proj2 (Z.ltb_lt _ _) Hn), orb_true_r.
Qed.

Lemma power_ok_to_lock l x : power_ok false (MkThread (to_lock h) l x).
Proof. unfold to_lock. by destruct (HANDLER_FALLBACKLOCK_2PHASE h). Qed.

(** The lemming heuristic takes back at most the increment of this
    attempt. *)
Lemma lemming_power own locked l x :
  power_ok own (MkThread AbortCheck l x) ->
  power_ok own (goto WaitLock (lemming_check locked l) (MkThread AbortCheck l x)).
Proof.
  intros (Hm & Hs & Hgt). unfold lemming_check. apply power_goto.
  - intros l' El. destruct (htm_abort_cause_conflict (status l)) eqn:Ecf; cbn [andb] in El.
    + destruct locked; [apply count_retry_inv in El as ->|injection El as <-];
        (split; [exact Hm|]; split; [exact Hs|]; intros Ho; specialize (Hgt Ho);
         cbn in Hgt |- *; rewrite ?Ecf; split; [lia|done]).
    + injection El as <-. split; [exact Hm|]. split; [exact Hs|].
      intros Ho. specialize (Hgt Ho). cbn in Hgt |- *. split; [lia|done].
  - intros e Ee _. destruct (_ && _) in Ee; [by apply count_retry_err in Ee|done].
Qed.

(** The program points at which a thread is outside the retry loop and does
    not have the flag. *)
Definition unpowered (p : pc) : bool :=
  match p with
  | Outside | PrefbWait | PrefbCas | LockWait | LockCas | PrefbUnlock | Critical | Unlock => true
  | _ => false
  end.

Lemma thread_step_unpowered t k th th' k' w :
  unpowered (th_pc th) = true -> control_ok th -> power_ok (powerFlag k =? t) th ->
  thread_step h env t k th = Some (th', k', w) ->
  powerFlag k' = powerFlag k /\ power_ok (powerFlag k =? t) th'.
Proof.
  intros Hp Hc Hok Hstep. destruct th as [p l x].
  destruct p; cbn in Hp, Hc, Hok, Hstep; try done; rewrite Hok.
  - destruct (HANDLER_FALLBACKLOCK h); injection Hstep as <- <- <-; split; try done.
    split; [split; [done|cbn; lia]|]. split; [by left|]. done.
  - destruct (spinlock_prefb_isLocked k); [done|]. by injection Hstep as <- <- <-.
  - unfold cas_preFallbackLock in Hstep.
    destruct (_ =? 0); injection Hstep as <- <- <-; done.
  - destruct (spinlock_isLocked k); [done|]. by injection Hstep as <- <- <-.
  - unfold cas_fallbackLock in Hstep.
    destruct (_ =? 0), (HANDLER_FALLBACKLOCK_2PHASE h); injection Hstep as <- <- <-; done.
  - by injection Hstep as <- <- <-.
  - injection Hstep as <- <- <-. subst x. unfold commit_entry.
    by destruct (HANDLER_FALLBACKLOCK h).
  - by injection Hstep as <- <- <-.
Qed.

(** The end of an iteration. *)
Lemma loop_end_power own l x :
  (own = true -> HANDLER_POWERTM h = true) -> power_ok own (MkThread LoopEnd l x) ->
  power_ok own (goto (if retryWithLock l then
                        if HANDLER_POWERTM h then ReleasePower else to_lock h
                      else LoopHead) (backoff_step h env l) (MkThread LoopEnd l x)).
Proof.
  intros Hpow Hok. apply power_goto; [|intros e Ee _; by apply backoff_step_err in Ee].
  cbn in Hok. intros l' (j & ->)%backoff_step_keeps.
  destruct (retryWithLock l) eqn:Er; [|exact Hok].
  destruct (HANDLER_POWERTM h) eqn:Ep; [exact Hok|].
  destruct own; [by specialize (Hpow eq_refl)|apply power_ok_to_lock].
Qed.

(** The steps that leave the power flag alone. *)
Lemma thread_step_power_same t k th th' k' w :
  0 <= t -> control_ok th -> sub_ok (fallbackLock k) th ->
  (holds_lock th = true -> fallbackLock k = 1) ->
  is_doomed th && accesses (th_pc th) = false ->
  (HANDLER_POWERTM h = false -> powerFlag k = -1) ->
  power_ok (powerFlag k =? t) th ->
  match th_pc th with CasPower | ReleasePowerWrite | PowerWrite => False | _ => True end ->
  thread_step h env t k th = Some (th', k', w) ->
  powerFlag k' = powerFlag k /\ power_ok (powerFlag k =? t) th'.
Proof.
  intros Ht Hc Hsub Hh Hd Hoff Hok Hpc Hstep.
  destruct (unpowered (th_pc th)) eqn:Eu; [by apply (thread_step_unpowered t k th _ _ w)|].
  assert ((powerFlag k =? t) = true -> HANDLER_POWERTM h = true) as Hpow.
  { intros E%Z.eqb_eq. destruct (HANDLER_POWERTM h); [done|]. specialize (Hoff eq_refl). lia. }
  remember (powerFlag k =? t) as own eqn:Eown. symmetry in Eown.
  destruct th as [p l x].
  destruct p; cbn in Eu, Hc, Hsub, Hh, Hd, Hok, Hpc, Hstep; try done; clear Hpc Eu;
    try (injection Hstep as <- <- <-; split; [done|]).
  - pose proof (loop_head_power t own l (powerFlag k) Eown Hpow Hok) as Hl.
    apply power_goto; intros r E; rewrite E in Hl; [exact Hl|by intros _].
  - exact Hok.
  - by destruct (spinlock_isLocked k).
  - destruct Hc as [d ->]. exact Hok.
  - by apply lemming_power.
  - destruct (spinlock_isLocked k); [done|]. injection Hstep as <- <- <-. split; [done|exact Hok].
  - subst x. destruct own; [by apply after_wait_power_on; [apply Hpow|]|by apply after_wait_power_off].
  - destruct (spinlock_prefb_isLocked k); [done|]. injection Hstep as <- <- <-.
    split; [done|exact Hok].
  - by apply loop_end_power.
  - rewrite Eown in Hstep. destruct own; injection Hstep as <- <- <-; (split; [done|]).
    + destruct (Hok eq_refl) as [Hx Hg]. by rewrite release_asserts_ok by done.
    + apply power_ok_to_lock.
  - rewrite andb_true_r in Hd. by destruct (commit_branch k l x) as [[-> ->]| [-> ->]].
  - destruct (HANDLER_POWERTM h) eqn:Ep; [done|]. destruct own; [by specialize (Hpow eq_refl)|done].
  - by rewrite Eown; destruct own.
Qed.

Lemma thread_step_power t k th th' k' w :
  0 <= t -> control_ok th -> sub_ok (fallbackLock k) th ->
  (holds_lock th = true -> fallbackLock k = 1) ->
  is_doomed th && accesses (th_pc th) = false ->
  (HANDLER_POWERTM h = false -> powerFlag k = -1) ->
  power_ok (powerFlag k =? t) th ->
  thread_step h env t k th = Some (th', k', w) ->
  (HANDLER_POWERTM h = false -> powerFlag k' = -1) /\ power_effect t k k' /\
  power_ok (powerFlag k' =? t) th'.
Proof.
  intros Ht Hc Hsub Hh Hd Hoff Hok Hstep.
  destruct (decide (th_pc th = CasPower \/ th_pc th = ReleasePowerWrite \/ th_pc th = PowerWrite))
    as [Hpc|Hpc].
  2:{ destruct (thread_step_power_same t k th th' k' w) as [Hk Hok']; try done.
      { destruct (th_pc th); naive_solver. }
      rewrite Hk. split; [done|]. split; [by left|done]. }
  assert ((-1 =? t) = false) as Hneg by (apply Z.eqb_neq; lia).
  destruct th as [p l x]. cbn in Hpc. destruct Hpc as [->|[->| ->]]; cbn in Hok, Hstep.
  - destruct Hok as (((Hr & Hn) & Hx & Hf) & Hown & Hge & Hp).
    assert (head_ok (powerFlag k' =? t) (th_locals th') /\ power_effect t k k' /\
      retryWithLock (th_locals th') = false /\ (th_pc th' = WaitPrefb \/ th_pc th' = LoopEnd))
      as (Hh' & He & Hr' & Hp').
    { rewrite Hown in Hf. unfold cas_powerFlag in Hstep.
      assert (forall b own, head_ok own (l <| txExecOnPower := b |>)) as Hhead.
      { intros b own. split; [done|]. split; [by left|]. split; [done|]. by rewrite Hp. }
      destruct (Z.eqb_spec (powerFlag k) (-1)); injection Hstep as <- <- <-;
        (split; [apply Hhead|]; split; [|split; [done|]]).
      - right. left. done.
      - destruct (HANDLER_FALLBACKLOCK_2PHASE h); auto.
      - by left.
      - destruct (HANDLER_FALLBACKLOCK_2PHASE h); auto. }
    split; [by rewrite Hp|]. split; [done|]. destruct th' as [p' l' x']. cbn in Hh', Hr', Hp'.
    destruct Hp' as [->| ->]; cbn; by rewrite Hr'.
  - injection Hstep as <- <- <-. cbn [powerFlag upd]. rewrite Hneg.
    split; [done|]. split; [|apply power_ok_to_lock]. right. right. split; [lia|done].
  - injection Hstep as <- <- <-. cbn [powerFlag upd]. rewrite Hneg.
    split; [done|]. split; [|done]. right. right. split; [lia|done].
Qed.

Lemma power_ok_doom own th : power_ok own th -> power_ok own (doom th).
Proof. by destruct th as [[] l [[]|]]. Qed.

Lemma power_ok_abort own th v :
  control_ok th -> can_fault th = true -> power_ok own th -> status_ok v ->
  power_ok own (abort_thread v th).
Proof.
  intros Hc Hf Hok Hs. destruct th as [[] l []]; cbn in Hc, Hf, Hok |- *; try done;
    try (by destruct Hc); destruct Hok as [Hm Hgt]; (split; [exact Hm|]; split; done).
Qed.

Lemma power_inv_exec s t ev s' :
  lock_inv s -> power_inv s -> (strict = true -> benign h ev = true) ->
  exec h env t ev s = Some s' -> power_inv s'.
Proof.
  intros I P Hb Hex. apply exec_inv in Hex
    as (th & Ht & [(th' & k & w & _ & Hd & Hstep & ->)|(sys & c & cause & v & -> & Hf & Hv & ->)]).
  - destruct (li_thread s I t th Ht) as (Hc & Hs & Hh).
    destruct (pi_thread s P t th Ht) as [Hpos Hok].
    destruct (thread_step_power t (locks s) th th' k w) as (Hoff & He & Hok'); try done.
    { apply P. }
    split; cbn; [done|]. intros u thu Hu.
    apply step_lookup in Hu as [[-> ->]|(Hne & thu0 & Hu & ->)]; [done|].
    destruct (pi_thread s P u thu0 Hu) as [Hupos Huok]. split; [done|].
    assert ((powerFlag k =? u) = (powerFlag (locks s) =? u)) as ->.
    { destruct He as [->|[[-> ->]| [-> ->]]]; [done|..];
        apply eq_true_iff_eq; rewrite !Z.eqb_eq; lia. }
    destruct w; [by apply power_ok_doom|done].
  - destruct (pi_thread s P t th Ht) as [Hpos Hok].
    destruct (li_thread s I t th Ht) as (Hc & _ & _).
    split; cbn; [apply P|]. intros u thu Hu. destruct (decide (u = t)) as [->|Hne].
    2:{ rewrite lookup_insert_ne in Hu by done. by apply P. }
    rewrite lookup_insert_eq in Hu. injection Hu as <-. split; [done|].
    apply power_ok_abort; [done..|]. by eapply fault_status_status_ok.
Qed.

(** ** The two-phase acquisition *)

(** Between the acquisition and the release of the pre-fallback lock. *)
Definition acquires th : bool :=
  match th_pc th with
  | LockWait | LockCas | PrefbUnlock => HANDLER_FALLBACKLOCK_2PHASE h
  | _ => false
  end.

(** The program points of the two-phase variant. *)
Definition two_phase_ok th : Prop :=
  match th_pc th with
  | PrefbWait | PrefbCas | PrefbUnlock => HANDLER_FALLBACKLOCK_2PHASE h = true
  | _ => True
  end.

Record prefb_inv s : Prop := {
  pf_value : preFallbackLock (locks s) = 0 \/ preFallbackLock (locks s) = 1;
  pf_thread t th : threads s !! t = Some th -> two_phase_ok th;
  pf_held : preFallbackLock (locks s) = 1 ->
    exists t th, threads s !! t = Some th /\ acquires th = true
}.

Lemma prefb_inv_init s : initial s -> prefb_inv s.
Proof.
  intros [Hk Ht]. split; rewrite ?Hk; [by left| |done].
  intros t th Hth. destruct (Ht t th Hth) as (_ & Hp & _). unfold two_phase_ok. by rewrite Hp.
Qed.

(** The program points at which the pre-fallback lock changes, or its
    holder moves. *)
Definition prefb_pc (p : pc) : bool :=
  match p with
  | PrefbCas | LockWait | LockCas | PrefbUnlock => true
  | _ => false
  end.

Lemma to_lock_two_phase l x : two_phase_ok (MkThread (to_lock h) l x).
Proof. unfold to_lock. by destruct (HANDLER_FALLBACKLOCK_2PHASE h) eqn:E. Qed.

Lemma goto_two_phase p r th :
  (forall l, two_phase_ok (MkThread p l (th_tx th))) -> two_phase_ok (goto p r th).
Proof. intros H. destruct r as [l|e]; [apply H|done]. Qed.

Lemma thread_step_prefb_same t k th th' k' w :
  two_phase_ok th ->
  prefb_pc (th_pc th) = false -> thread_step h env t k th = Some (th', k', w) ->
  preFallbackLock k' = preFallbackLock k /\ acquires th = false /\ two_phase_ok th'.
Proof.
  pose proof to_lock_two_phase as Htl.
  destruct th as [p l x]. destruct p; cbn; intros Hok Hp H; try done;
    try (injection H as <- <- <-; split; [done|]; split; [done|];
         first [done | by apply goto_two_phase]).
  - destruct (HANDLER_FALLBACKLOCK h); by injection H as <- <- <-.
  - injection H as <- <- <-. split; [done|]. split; [done|].
    by destruct (spinlock_isLocked k).
  - destruct (spinlock_isLocked k); by simplify_eq.
  - injection H as <- <- <-. split; [done|]. split; [done|].
    destruct (after_wait_cases (powerFlag k) (MkThread Classify l x)) as [_ Hc].
    unfold two_phase_ok. by destruct (th_pc (after_wait _ _ _ _)).
  - unfold cas_powerFlag in H. destruct (_ =? -1); injection H as <- <- <-;
      by destruct (HANDLER_FALLBACKLOCK_2PHASE h).
  - destruct (spinlock_prefb_isLocked k); by simplify_eq.
  - injection H as <- <- <-. split; [done|]. split; [done|]. apply goto_two_phase. intros l'.
    destruct (retryWithLock l); [|done]. by destruct (HANDLER_POWERTM h).
  - destruct (_ =? t); injection H as <- <- <-; (split; [done|]; split; [done|]);
      [by apply goto_two_phase|apply Htl].
  - injection H as <- <- <-. split; [done|]. split; [done|]. apply Htl.
  - destruct (spinlock_prefb_isLocked k); by simplify_eq.
  - injection H as <- <- <-. split; [done|]. split; [done|].
    unfold commit_entry. by destruct (HANDLER_FALLBACKLOCK h).
  - injection H as <- <- <-. by destruct (spinlock_isLocked k).
  - injection H as <- <- <-. by destruct (HANDLER_POWERTM h).
  - injection H as <- <- <-. by destruct (_ =? t).
Qed.

(** A step takes the pre-fallback lock, leaves it free, or keeps it with the
    thread that has it. *)
Lemma thread_step_prefb t k th th' k' w :
  two_phase_ok th -> thread_step h env t k th = Some (th', k', w) ->
  two_phase_ok th' /\
  ((preFallbackLock k' = preFallbackLock k /\ (acquires th = true -> acquires th' = true)) \/
   (preFallbackLock k' = 1 /\ acquires th' = true) \/ preFallbackLock k' = 0).
Proof.
  intros Hok H. destruct (prefb_pc (th_pc th)) eqn:Ep.
  2:{ destruct (thread_step_prefb_same t k th th' k' w) as (H1 & H2 & H3); [done..|].
      split; [done|]. left. by rewrite H2. }
  destruct th as [p l x]. destruct p; try done; cbn in Hok, H.
  - unfold cas_preFallbackLock in H.
    destruct (_ =? 0); injection H as <- <- <-; (split; [done|]); [right; left|left]; done.
  - destruct (spinlock_isLocked k); [done|]. injection H as <- <- <-. split; [done|]. by left.
  - unfold cas_fallbackLock in H. destruct (_ =? 0); injection H as <- <- <-.
    + unfold two_phase_ok. cbn. destruct (HANDLER_FALLBACKLOCK_2PHASE h) eqn:E2;
        (split; [done|]); left; (split; [done|]); unfold acquires; cbn; by rewrite ?E2.
    + split; [done|]. by left.
  - injection H as <- <- <-. split; [done|]. by right; right.
Qed.

Lemma prefb_inv_exec s t ev s' :
  lock_inv s -> prefb_inv s -> exec h env t ev s = Some s' -> prefb_inv s'.
Proof.
  intros I P Hex. apply exec_inv in Hex
    as (th & Ht & [(th' & k & w & _ & Hd & Hstep & ->)|(sys & c & cause & v & _ & Hf & Hv & ->)]).
  - destruct (thread_step_prefb t (locks s) th th' k w (pf_thread s P t th Ht) Hstep)
      as [Hok He].
    split; cbn [locks threads].
    + destruct He as [[-> _]|[[-> _]| ->]]; [apply P|by right|by left].
    + intros u thu Hu. apply step_lookup in Hu as [[_ ->]|(_ & thu0 & Hu & ->)]; [done|].
      apply (pf_thread s P) in Hu. destruct w; [by destruct thu0|done].
    + intros H1. destruct He as [[Hk Ha]|[[_ Ha]|H0]]; [|exists t, th'; by rewrite lookup_insert_eq|lia].
      rewrite Hk in H1. destruct (pf_held s P H1) as (u & thu & Hu & Hau).
      destruct (decide (u = t)) as [->|Hne].
      { exists t, th'. rewrite lookup_insert_eq. split; [done|]. apply Ha. congruence. }
      exists u. rewrite lookup_insert_ne by done. destruct w; [|by exists thu].
      exists (doom thu). rewrite lookup_doom_others, Hu. cbn.
      destruct (Z.eqb_spec u t); [done|]. by destruct thu.
  - split; cbn [locks threads]; [apply P|..].
    + intros u thu Hu. destruct (decide (u = t)) as [->|Hne].
      * rewrite lookup_insert_eq in Hu. by injection Hu as <-.
      * rewrite lookup_insert_ne in Hu by done. by apply (pf_thread s P) in Hu.
    + intros H1. destruct (pf_held s P H1) as (u & thu & Hu & Hau). exists u, thu. split; [|done].
      rewrite lookup_insert_ne; [done|]. intros ->. replace thu with th in * by congruence.
      destruct (li_thread s I u th Hu) as (Hc & _ & _).
      destruct th as [p l x]. by destruct p, x.
Qed.

(** ** All reachable states *)

Lemma reachable_locks s : reachable h env strict s -> lock_inv s /\ prefb_inv s.
Proof.
  induction 1 as [s Hs|s t ev s' _ [I F] Hb Hex].
  - split; [by apply lock_inv_init|by apply prefb_inv_init].
  - split; [by eapply lock_inv_exec|by eapply prefb_inv_exec].
Qed.

Lemma reachable_power s : reachable h env strict s -> power_inv s.
Proof.
  intros Hr. induction Hr as [s Hs|s t ev s' Hr P Hb Hex]; [by apply power_inv_init|].
  destruct (reachable_locks s Hr) as [I _]. by eapply power_inv_exec.
Qed.

(** A run from an initial state gives a reachable one. *)
Lemma run_reachable evs s s' :
  reachable h env strict s -> (strict = true -> forallb (fun e => benign h e.2) evs = true) ->
  run h env evs s = Some s' -> reachable h env strict s'.
Proof.
  revert s. induction evs as [|[t ev] evs IH]; cbn; intros s Hr Hb Hrun; [by injection Hrun as <-|].
  destruct (exec h env t ev s) as [s1|] eqn:E; [|done]. cbn in Hrun.
  apply (IH s1); [|intros Hs; by apply Hb, andb_true_iff in Hs as [_ ?]|done].
  apply (reachable_step h env strict s t ev); [done| |done].
  intros Hs. by apply Hb, andb_true_iff in Hs as [? _].
Qed.
End props.
