(* ===== verification/RuntimeProps.v ===== *)
(** * Theorems about the runtime library

    The lock and the transactions exclude each other, power mode is exclusive
    and always given up, the assertions of the handler hold as long as no
    critical section cancels itself in power mode, a thread that waits is
    released by a few steps of the others, and the retry loop ends after the
    configured number of counted aborts. *)

From S2P Require Import Prelude Address HTM AbortStatus Runtime RuntimeInv.
From S2P Require EagerVM.

(** ** Recovery from an abort *)

(** C8: An abort of a LogTM transaction is undone completely, for every cause that has a status
    (nesting too deep has none). Whatever the transaction did to the registers, and whatever
    blocks it logged and stored to, the fault restores the registers that [XBEGIN] saved, apart
    from the status in [RAX], and the unroll that the handler performs with the number of
    entries decoded from that status puts back every word of memory outside the log, which
    starts at a page boundary. *)
Theorem logtm_abort_recovers u sys c0 c tc0 tc cause vis base m0 os m l :
  regs_ok c0 tc0 -> regs_ok c0 tc -> HTMCheckpoint.save c0 tc0 = Ok c ->
  getIsaVisibleHtmFailureCause cause = Ok vis -> reportable sys vis ->
  base mod 4096 = 0 -> EagerVM.xrun base (m0, []) os (m, l) ->
  getHtmUndoLogSize sys = Z.of_nat (length l) ->
  exists v c' tc', invoke u sys c tc cause = Ok (c', tc') /\
    intRegs tc' = <[0%nat := v]> (intRegs tc0) /\ floatRegs tc' = floatRegs tc0 /\
    _pc (pcState tc') = _npc (pcState tc0) /\
    forall w, w mod 8 = 0 -> ~ EagerVM.in_log base w ->
      EagerVM.mread (unroll_after_abort base v m) w = EagerVM.mread m0 w.
Proof.
  intros H0 Htc Hs Hvis Hr Hb Hx Hl. pose proof (EagerVM.xrun_room base Hb _ _ _ _ Hx) as Hroom.
  change EagerVM.MAX_ENTRIES with 14336 in Hroom.
  rewrite save_ok in Hs by done. injection Hs as <-.
  set (c := MkHTMCheckpoint _ _ _ _ _ _).
  assert (0 <= getHtmUndoLogSize sys < 2 ^ 31) as Hn by lia.
  destruct (abort_status_ok sys c vis Hr Hn) as (v & Hv & Hbits).
  destruct (status_decode _ _ _ _ Hbits Hn) as (_ & _ & _ & _ & _ & _ & _ & Hlog & Hsize).
  exists v. unfold invoke. cbn [c _valid rassert rbind]. rewrite Hvis. cbn [rbind].
  rewrite (restore_ok u sys c tc vis v); [|..|done].
  2:{ destruct H0 as (? & ? & ? & ?), Htc as (? & ? & ? & ?). done. }
  do 2 eexists. split; [reflexivity|]. do 3 (split; [done|]). intros w Hw Hout.
  rewrite <- (EagerVM.log_unroll_restores base Hb m0 os m l w Hx Hw Hout).
  unfold unroll_after_abort. rewrite Hlog, Hsize, Hl, Nat2Z.id.
  destruct l; done.
Qed.

(** ** Exclusion *)

(** C14: Critical sections exclude each other. In every state that the threads
    reach, with any interleaving and any aborts, while one thread has the
    fallback lock no other thread has it, every other thread in a speculative
    critical section has failed, and none of them commits. *)
Theorem critical_sections_exclusive h env strict s t u th thu :
  reachable h env strict s -> t <> u ->
  threads s !! t = Some th -> threads s !! u = Some thu -> holds_lock th = true ->
  holds_lock thu = false /\
  (speculates thu = true -> is_doomed thu = true) /\
  (th_pc thu = XEnd -> exec h env u Go s = None).
Proof.
  intros Hr Hne Ht Hu Hh. destruct (reachable_locks h env strict s Hr) as [I _].
  destruct (li_thread s I t th Ht) as (_ & _ & Hlock). specialize (Hlock Hh).
  destruct (li_thread s I u thu Hu) as (Hc & Hs & _).
  assert (speculates thu = true -> is_doomed thu = true) as Hd.
  { rewrite Hlock in Hs. destruct thu as [[] l [[[] []]|]]; try done; cbn in Hc; naive_solver. }
  split; [|split; [done|]].
  - destruct (holds_lock thu) eqn:E; [|done]. by destruct (Hne (li_unique s I t u th thu Ht Hu Hh E)).
  - intros Hp. unfold exec. rewrite Hu. cbn. rewrite Hd, Hp; [done|].
    unfold control_ok in Hc. unfold speculates. rewrite Hp in Hc |- *. by destruct Hc as [d ->].
Qed.

(** C25: Power mode is exclusive and is given back. A transaction runs with
    the power flag exactly if its thread is the one named in the shared
    power flag, so at most one does; a thread outside the handler, or one
    that took the fallback lock, does not have the flag. *)
Theorem power_mode_exclusive h env strict s t th :
  0 < htm_max_retries env < 255 -> reachable h env strict s -> threads s !! t = Some th ->
  (is_Some (th_tx th) ->
     (flags (th_locals th) = POWER_TM_FLAG <-> powerFlag (locks s) = t)) /\
  (th_pc th = Outside \/ holds_lock th = true -> powerFlag (locks s) <> t).
Proof.
  intros Hmax Hr Ht. pose proof (reachable_power h env strict Hmax s Hr) as P.
  destruct (reachable_locks h env strict s Hr) as [I _].
  destruct (pi_thread _ _ _ _ P t th Ht) as [Hpos Hok].
  destruct (li_thread s I t th Ht) as (Hc & _ & _).
  destruct (Z.eqb_spec (powerFlag (locks s)) t) as [Ho|Ho]; split.
  - intros [x Hx]. destruct th as [p l x']. cbn in Hx. subst x'.
    destruct p; cbn in Hc, Hok |- *; try done; by destruct Hok as ((_ & _ & ->) & _).
  - destruct th as [[] l []]; cbn in Hok, Hc |- *; naive_solver.
  - intros [x Hx]. destruct th as [p l x']. cbn in Hx. subst x'.
    destruct p; cbn in Hc, Hok |- *; try done; by destruct Hok as ((_ & _ & ->) & _).
  - done.
Qed.

(** C24: The assertions of the handler hold. With benign faults (a critical
    section cancels itself with the default code only, and not in the power
    variants; no lockstep replay), no thread ever fails an assertion of the
    retry loop, in any variant and any interleaving. *)
Theorem handler_assertions_hold h env s t th :
  0 < htm_max_retries env < 255 -> reachable h env true s -> threads s !! t = Some th ->
  th_pc th <> Failed EAssert.
Proof.
  intros Hmax Hr Ht Hp. pose proof (reachable_power h env true Hmax s Hr) as P.
  destruct (pi_thread _ _ _ _ P t th Ht) as [_ Hok]. unfold power_ok in Hok.
  rewrite Hp in Hok. by apply Hok.
Qed.

(** ** Waiting *)

Lemma exec_go h env t s th th' k w :
  threads s !! t = Some th -> is_doomed th && accesses (th_pc th) = false ->
  thread_step h env t (locks s) th = Some (th', k, w) ->
  exec h env t Go s =
    Some (MkState k (<[t := th']> (if w then doom_others t (threads s) else threads s))).
Proof. intros Ht Hd Hs. unfold exec. rewrite Ht. cbn. by rewrite Hd, Hs. Qed.

Lemma exec_fault h env t s th sys c cause v :
  threads s !! t = Some th -> can_fault th = true -> fault_status sys c cause = Ok v ->
  exec h env t (Fault sys c cause) s =
    Some (MkState (locks s) (<[t := abort_thread v th]> (threads s))).
Proof. intros Ht Hc Hv. unfold exec. rewrite Ht. cbn. by rewrite Hc, Hv. Qed.

Lemma run_app h env l1 l2 s s1 :
  run h env l1 s = Some s1 -> run h env (l1 ++ l2) s = run h env l2 s1.
Proof.
  revert s. induction l1 as [|[t ev] l1 IH]; cbn; intros s H; [by injection H as ->|].
  destruct (exec h env t ev s) as [s'|]; [|done]. by apply IH.
Qed.

(** [u] alone takes the system, in at most [n] steps, from [s] to a state
    with [P]; the program points of the others stay. *)
Definition alone (h : Handler) (env : EnvConfig) (u : Z) (n : nat) (s : State)
    (P : Locks -> Prop) : Prop :=
  exists m s', (m <= n)%nat /\ run h env (replicate m (u, Go)) s = Some s' /\ P (locks s') /\
    forall v th, v <> u -> threads s !! v = Some th -> exists x,
      threads s' !! v = Some (MkThread (th_pc th) (th_locals th) x) /\
      (th_tx th = None -> x = None).

Lemma alone_now h env u n s P : P (locks s) -> alone h env u n s P.
Proof.
  intros HP. exists 0%nat, s. split; [lia|]. split; [done|]. split; [done|].
  intros v th _ Hv. exists (th_tx th). rewrite Hv. by destruct th.
Qed.

Lemma alone_mono h env u n n' s P :
  (n <= n')%nat -> alone h env u n s P -> alone h env u n' s P.
Proof. intros Hn (m & s' & Hm & H). exists m, s'. split; [lia|done]. Qed.

Lemma alone_step h env u n s s1 P :
  exec h env u Go s = Some s1 -> alone h env u n s1 P -> alone h env u (S n) s P.
Proof.
  intros Hex (m & s' & Hm & Hrun & HP & Ho). exists (S m), s'.
  split; [lia|]. split; [cbn; by rewrite Hex|]. split; [done|].
  intros v th Hne Hv. apply exec_inv in Hex
    as (thu & Hu & [(th' & k & w & _ & _ & _ & ->)|(? & ? & ? & ? & ? & _)]); [|done].
  assert (exists thv, <[u := th']> (if w then doom_others u (threads s) else threads s) !! v
     = Some thv /\ th_pc thv = th_pc th /\ th_locals thv = th_locals th /\
     (th_tx th = None -> th_tx thv = None)) as (thv & Hv1 & Hp & Hl & Hx).
  { rewrite lookup_insert_ne by done. destruct w; [|by exists th].
    exists (doom th). rewrite lookup_doom_others, Hv. cbn.
    destruct (Z.eqb_spec v u); [done|]. destruct th as [p l [x|]]; done. }
  destruct (Ho v thv Hne Hv1) as (x & Hv' & Hx'). exists x. rewrite <- Hp, <- Hl. auto.
Qed.

Section waiting.
Context (h : Handler) (env : EnvConfig).
Implicit Types s : State.

(** The lock is free and the pre-fallback lock not newly taken. *)
Definition freed (k k' : Locks) : Prop :=
  fallbackLock k' = 0 /\
  (preFallbackLock k' = preFallbackLock k \/ preFallbackLock k' = 0).

(** The holder of the lock releases it within four steps. *)
Lemma unlock_frees s u l x k0 :
  threads s !! u = Some (MkThread Unlock l x) ->
  preFallbackLock (locks s) = preFallbackLock k0 \/ preFallbackLock (locks s) = 0 ->
  alone h env u 1 s (freed k0).
Proof.
  intros Hu Hk. eapply alone_step; [eapply exec_go; [done|by rewrite andb_false_r|done]|].
  by apply alone_now.
Qed.

Lemma commit_frees s u l k0 :
  threads s !! u = Some (MkThread CommitCheck l None) -> fallbackLock (locks s) = 1 ->
  preFallbackLock (locks s) = preFallbackLock k0 \/ preFallbackLock (locks s) = 0 ->
  alone h env u 2 s (freed k0).
Proof.
  intros Hu H1 Hk. eapply alone_step.
  { eapply exec_go; [done|done|]. cbn. unfold spinlock_isLocked. by rewrite H1. }
  apply (unlock_frees _ u l None); [apply lookup_insert_eq|done].
Qed.

Lemma critical_frees s u l k0 :
  threads s !! u = Some (MkThread Critical l None) -> fallbackLock (locks s) = 1 ->
  preFallbackLock (locks s) = preFallbackLock k0 \/ preFallbackLock (locks s) = 0 ->
  alone h env u 3 s (freed k0).
Proof.
  intros Hu H1 Hk. eapply alone_step; [eapply exec_go; done|]. unfold commit_entry.
  destruct (HANDLER_FALLBACKLOCK h).
  - apply (commit_frees _ u l); [apply lookup_insert_eq|done..].
  - eapply alone_mono; [|apply (unlock_frees _ u l None); [apply lookup_insert_eq|done]]. lia.
Qed.

Lemma holder_frees s u th :
  lock_inv s -> threads s !! u = Some th -> holds_lock th = true ->
  alone h env u 4 s (freed (locks s)).
Proof.
  intros I Hu Hh. destruct (li_thread s I u th Hu) as (Hc & _ & Hl). specialize (Hl Hh).
  destruct th as [p l x]. destruct p; try done; cbn in Hc, Hh.
  - subst x. eapply alone_step; [eapply exec_go; done|].
    apply (critical_frees _ u l); [apply lookup_insert_eq|done|by right].
  - subst x. eapply alone_mono; [|apply (critical_frees _ u l); [done..|by left]]. lia.
  - destruct x; [done|]. eapply alone_mono; [|apply (commit_frees _ u l); [done..|by left]]. lia.
  - eapply alone_mono; [|apply (unlock_frees _ u l x); [done|by left]]. lia.
Qed.

(** With the lock free, the thread in the second phase releases the
    pre-fallback lock within three steps. *)
Lemma acquirer_frees s u th :
  fallbackLock (locks s) = 0 \/ th_pc th = PrefbUnlock ->
  threads s !! u = Some th -> th_tx th = None -> acquires h th = true ->
  alone h env u 3 s (fun k => preFallbackLock k = 0).
Proof.
  intros H0 Hu Hx Ha. destruct th as [p l x]. cbn in Hx. subst x.
  assert (forall s1 x, threads s1 !! u = Some (MkThread PrefbUnlock l x) ->
    alone h env u 1 s1 (fun k => preFallbackLock k = 0)) as Hunlock.
  { intros s1 x1 Hs1. eapply alone_step; [eapply exec_go; [done|by rewrite andb_false_r|done]|].
    by apply alone_now. }
  assert (forall s1, threads s1 !! u = Some (MkThread LockCas l None) ->
    fallbackLock (locks s1) = 0 -> HANDLER_FALLBACKLOCK_2PHASE h = true ->
    alone h env u 2 s1 (fun k => preFallbackLock k = 0)) as Hcas.
  { intros s1 Hs1 H1 H2. eapply alone_step.
    { eapply exec_go; [done|done|]. cbn. unfold cas_fallbackLock. by rewrite H1, H2. }
    eapply Hunlock. apply lookup_insert_eq. }
  destruct p; try done; cbn in H0, Ha.
  - destruct H0 as [H0|H0]; [|done]. eapply alone_step.
    { eapply exec_go; [done|done|]. cbn. unfold spinlock_isLocked. by rewrite H0. }
    apply Hcas; [apply lookup_insert_eq|done..].
  - destruct H0 as [H0|H0]; [|done]. eapply alone_mono; [|by apply Hcas]. lia.
  - eapply alone_mono; [|by eapply Hunlock]. lia.
Qed.

Lemma waits_inv t k th :
  thread_step h env t k th = None ->
  match th_pc th with
  | WaitLock | LockWait => fallbackLock k <> 0
  | WaitPrefb | PrefbWait => preFallbackLock k <> 0
  | Cancel | Failed _ => True
  | _ => False
  end.
Proof.
  destruct th as [[] l x]; cbn; try done; unfold cas_powerFlag, cas_preFallbackLock,
    cas_fallbackLock, spinlock_isLocked, spinlock_prefb_isLocked;
    try (destruct (Z.eqb_spec (fallbackLock k) 0); done);
    try (destruct (Z.eqb_spec (preFallbackLock k) 0); done);
    try (destruct (powerFlag k =? _); done).
  by destruct (HANDLER_FALLBACKLOCK h).
Qed.

(** The schedule of a release: steps of other threads. *)
Definition others_go (t : Z) (evs : list (Z * event)) : Prop :=
  Forall (fun e => e.1 <> t /\ e.2 = Go) evs.

Lemma others_go_replicate t u n : u <> t -> others_go t (replicate n (u, Go)).
Proof. intros Hne. apply Forall_replicate. done. Qed.

Lemma wait_resumes t s th x :
  threads s !! t = Some (MkThread (th_pc th) (th_locals th) x) -> x = None ->
  match th_pc th with
  | WaitLock | LockWait => fallbackLock (locks s) = 0
  | WaitPrefb | PrefbWait => preFallbackLock (locks s) = 0
  | _ => False
  end -> exists s', exec h env t Go s = Some s'.
Proof.
  intros Ht -> Hk. destruct (th_pc th) eqn:Ep; try done; eexists;
    (eapply exec_go; [done|done|]); cbn; unfold spinlock_isLocked, spinlock_prefb_isLocked;
    by rewrite Hk.
Qed.
End waiting.

Section released.
Context (h : Handler) (env : EnvConfig) (strict : bool) (s : State) (t : Z) (th : Thread).
Context (Hr : reachable h env strict s) (Ht : threads s !! t = Some th).
Context (Hnh : holds_lock th = false).

(** The others free [P], and [t] stays where it is. *)
Definition ends (P : Locks -> Prop) : Prop :=
  exists evs s1, (length evs <= 7)%nat /\ others_go t evs /\ run h env evs s = Some s1 /\
    (exists x, threads s1 !! t = Some (MkThread (th_pc th) (th_locals th) x) /\
       (th_tx th = None -> x = None)) /\ P (locks s1).

Lemma alone_ends u n (P Q : Locks -> Prop) :
  (n <= 7)%nat -> u <> t -> (forall k, P k -> Q k) -> alone h env u n s P -> ends Q.
Proof.
  intros Hn Hne HPQ (m & s1 & Hm & Hrun & HP & Ho). exists (replicate m (u, Go)), s1.
  rewrite length_replicate. split; [lia|]. split; [by apply others_go_replicate|].
  split; [done|]. split; [|by apply HPQ]. by apply Ho.
Qed.

Lemma lock_wait_ends :
  fallbackLock (locks s) <> 0 -> ends (fun k => fallbackLock k = 0).
Proof.
  intros Hk. destruct (reachable_locks h env strict s Hr) as [I _].
  destruct (li_held s I) as (u & thu & Hu & Hh); [destruct (li_value s I); done|].
  apply (alone_ends u 4 (freed (locks s))); [lia|congruence|by intros k []|].
  by apply (holder_frees h env s u thu).
Qed.

Lemma prefb_wait_ends :
  acquires h th = false ->
  preFallbackLock (locks s) <> 0 -> ends (fun k => preFallbackLock k = 0).
Proof.
  intros Hna Hk. destruct (reachable_locks h env strict s Hr) as [I F].
  destruct (pf_held h s F) as (u & thu & Hu & Ha); [destruct (pf_value h s F); done|].
  destruct (li_thread s I u thu Hu) as (Hcu & _ & _).
  assert (th_tx thu = None) as Hxu.
  { unfold acquires, control_ok in Ha, Hcu. by destruct (th_pc thu). }
  destruct (decide (fallbackLock (locks s) = 0 \/ th_pc thu = PrefbUnlock)) as [H0|H0].
  { apply (alone_ends u 3 (fun k => preFallbackLock k = 0)); [lia|congruence|done|].
    by apply (acquirer_frees h env s u thu). }
  destruct (li_held s I) as (v & thv & Hv & Hh); [destruct (li_value s I); tauto|].
  assert (v <> u) as Hvu.
  { intros ->. replace thv with thu in * by congruence. apply H0. right.
    unfold acquires, holds_lock in Ha, Hh. by destruct (th_pc thu). }
  destruct (holder_frees h env s v thv I Hv Hh) as (n & s1 & Hn & Hrun & [Hf Hpf] & Ho).
  assert (v <> t) as Hvt by congruence. assert (u <> t) as Hut by congruence.
  destruct (Ho u thu) as (x & Hu1 & Hx); [done..|]. specialize (Hx Hxu). subst x.
  destruct (Ho t th) as (x & Ht1 & Hx1); [done..|].
  destruct (acquirer_frees h env s1 u (MkThread (th_pc thu) (th_locals thu) None))
    as (m & s2 & Hm & Hrun2 & Hfree & Ho2); [by left|done..|].
  exists (replicate n (v, Go) ++ replicate m (u, Go)), s2.
  split; [rewrite length_app, !length_replicate; lia|].
  split; [apply Forall_app; split; by apply others_go_replicate|].
  split; [by rewrite (run_app _ _ _ _ _ s1)|]. split; [|done].
  destruct (Ho2 t _ (not_eq_sym Hut) Ht1) as (x' & Ht2 & Hx2). exists x'. split; [done|].
  intros Hx. by apply Hx2, Hx1.
Qed.
End released.

(** C20: A waiting thread is released. In every reachable state, a thread that
    spins on one of the locks can go on after at most seven steps of the
    thread that holds the fallback lock and, in the two-phase variant, of the
    one that is about to acquire it. *)
Theorem waiting_released h env strict s t th :
  reachable h env strict s -> threads s !! t = Some th ->
  thread_step h env t (locks s) th = None -> plain (th_pc th) = true ->
  (forall e, th_pc th <> Failed e) ->
  exists evs s' s'', (length evs <= 7)%nat /\ others_go t evs /\
    run h env evs s = Some s' /\ exec h env t Go s' = Some s''.
Proof.
  intros Hr Ht Hw Hp Hf. destruct (reachable_locks h env strict s Hr) as [I F].
  destruct (li_thread s I t th Ht) as (Hc & _ & _).
  assert (th_tx th = None) as Hx by (unfold control_ok in Hc; by destruct (th_pc th)).
  assert (holds_lock th = false) as Hnh by by apply (plain_ok 0).
  pose proof (waits_inv h env t (locks s) th Hw) as Hwait.
  assert (ends h env s t th (fun k => match th_pc th with
    | WaitLock | LockWait => fallbackLock k = 0
    | WaitPrefb | PrefbWait => preFallbackLock k = 0
    | _ => False
    end)) as (evs & s1 & Hn & Ho & Hrun & (x & Ht1 & Hx1) & Hk).
  { destruct (th_pc th) eqn:Ep; try done; try (by destruct (Hf e));
      first [by apply (lock_wait_ends h env strict s t th)
            |apply (prefb_wait_ends h env strict s t th)]; try done;
      unfold acquires; by rewrite Ep. }
  destruct (wait_resumes h env t s1 th x Ht1 (Hx1 Hx)) as [s2 Hs2]; [done|].
  exists evs, s1, s2. done.
Qed.

(** ** The retry loop ends *)

Definition fault : Type := SystemView * HTMCheckpoint * HtmFailureFaultCause.

Definition fault_of (e : event) : option fault :=
  match e with Go => None | Fault sys c cause => Some (sys, c, cause) end.

(** An abort that counts as a retry: a conflict or an interrupt, and with
    precise aborts not one caused by the power transaction. *)
Definition counted (h : Handler) (v : Z) : Prop :=
  htm_may_succeed_on_retry v = true /\ htm_abort_cause_explicit v = false /\
  htm_abort_cause_disabled v = false /\
  (HANDLER_POWERTM_PRECISEABORTS h = true -> htm_abort_cause_conflict_power v = false).

Definition counted_fault (h : Handler) (f : fault) : Prop :=
  let '(sys, c, cause) := f in
  exists v, fault_status sys c cause = Ok v /\ counted h v.

(** The runs of [t] alone inside one call: it never executes the step that
    ends its critical section. *)
Definition leaves (ev : event) (th : Thread) : bool :=
  match ev, th_pc th with
  | Go, (XEnd | Critical) => true
  | _, _ => false
  end.

Fixpoint section_run (h : Handler) (env : EnvConfig) (t : Z) (evs : list event) (s : State)
    : option State :=
  match evs with
  | [] => Some s
  | ev :: evs =>
      th ← threads s !! t;
      if leaves ev th then None
      else s' ← exec h env t ev s; section_run h env t evs s'
  end.

Definition faults (evs : list event) : list fault := omap fault_of evs.

(** The number of counted aborts before power mode or the lock, and before
    the lock. *)
Definition first_aborts (env : EnvConfig) : Z := Z.max 1 (htm_max_retries env).
Definition max_aborts (h : Handler) (env : EnvConfig) : Z :=
  if HANDLER_POWERTM h then first_aborts env + htm_max_retries env + 1 else first_aborts env.

Section retry.
Context (h : Handler) (env : EnvConfig) (t : Z).
Context (Hmax : 0 <= htm_max_retries env < 255) (Ht : 0 <= t).
Context (Hfb : HANDLER_FALLBACKLOCK h = true).
Implicit Types (n : Z) (k : Locks) (l : Locals) (th : Thread).

(** After [n] aborts the thread tries again, first without and then with the
    power flag. *)
Definition tries n k l : Prop :=
  0 <= n /\ retryWithLock l = false /\
  if n <? first_aborts env then k = MkLocks 0 0 (-1) /\ nRetriesPowerMode l = 0
  else HANDLER_POWERTM h = true /\ k = MkLocks 0 0 t /\
       nRetriesPowerMode l = n - first_aborts env /\ n < max_aborts h env.

(** At the head of the loop, and once the attempt is counted. *)
Definition at_head n k l : Prop :=
  tries n k l /\ nretries l = n /\ (n < first_aborts env -> txExecOnPower l = false).

Definition attempt n k l : Prop :=
  tries n k l /\ nretries l = n + 1 /\ txExecOnPower l = negb (n <? first_aborts env).

(** After the last abort. *)
Definition giving_up n k l : Prop :=
  n = max_aborts h env /\ retryWithLock l = true /\ nretries l = n /\
  if HANDLER_POWERTM h
  then k = MkLocks 0 0 t /\ txExecOnPower l = true /\
       nRetriesPowerMode l = htm_max_retries env + 1
  else k = MkLocks 0 0 (-1).

Definition loop_inv n k th : Prop :=
  let l := th_locals th in
  match th_pc th with
  | Outside => n = 0 /\ k = MkLocks 0 0 (-1) /\ th_tx th = None
  | LoopHead => at_head n k l /\ th_tx th = None
  | Start => attempt n k l /\ th_tx th = None
  | Subscribe => attempt n k l /\ th_tx th = Some (MkTx false false)
  | Body | CommitCheck | XEnd => attempt n k l /\ th_tx th = Some (MkTx true false)
  | AbortCheck | WaitLock | Classify =>
      attempt (n - 1) k l /\ counted h (status l) /\ th_tx th = None
  | CasPower =>
      attempt (n - 1) k l /\ n = first_aborts env /\ HANDLER_POWERTM h = true /\ th_tx th = None
  | WaitPrefb | LoopEnd => 0 < n /\ (at_head n k l \/ giving_up n k l) /\ th_tx th = None
  | ReleasePower | ReleasePowerWrite =>
      giving_up n k l /\ HANDLER_POWERTM h = true /\ th_tx th = None
  | PrefbWait | PrefbCas =>
      n = max_aborts h env /\ HANDLER_FALLBACKLOCK_2PHASE h = true /\ k = MkLocks 0 0 (-1) /\
      th_tx th = None
  | LockWait | LockCas =>
      n = max_aborts h env /\ k = MkLocks 0 (Z.b2z (HANDLER_FALLBACKLOCK_2PHASE h)) (-1) /\
      th_tx th = None
  | PrefbUnlock => n = max_aborts h env /\ k = MkLocks 1 1 (-1) /\ th_tx th = None
  | Critical => n = max_aborts h env /\ k = MkLocks 1 0 (-1) /\ th_tx th = None
  | _ => False
  end.

(** A bound on the steps to the critical section. *)
Definition rank (p : pc) : nat :=
  match p with
  | Body | CommitCheck | XEnd | Critical => 0
  | Subscribe | PrefbUnlock => 1
  | Start | LockCas => 2
  | LoopHead | LockWait => 3
  | Outside | PrefbCas => 4
  | PrefbWait => 5
  | ReleasePowerWrite => 6
  | ReleasePower => 7
  | LoopEnd => 8
  | WaitPrefb => 9
  | CasPower => 10
  | Classify => 11
  | WaitLock => 12
  | _ => 13
  end.

Lemma first_aborts_bounds :
  1 <= first_aborts env < 255 /\ htm_max_retries env <= first_aborts env /\
  first_aborts env <= max_aborts h env < 1000.
Proof. unfold max_aborts, first_aborts. destruct (HANDLER_POWERTM h); lia. Qed.

Lemma tries_locks n k l : tries n k l ->
  spinlock_isLocked k = false /\ spinlock_prefb_isLocked k = false /\ 0 <= n < max_aborts h env.
Proof.
  pose proof first_aborts_bounds. intros (Hn & _ & H1). destruct (Z.ltb_spec n (first_aborts env)).
  - destruct H1 as [-> _]. split; [done|]. split; [done|lia].
  - destruct H1 as (_ & -> & _ & ?). split; [done|]. split; [done|lia].
Qed.

(** The counters are far from their limits. *)
Lemma count_retry_ok l : 0 <= nretries l < 1000 ->
  count_retry 1 l = Ok (l <| nretries := nretries l + 1 |>).
Proof.
  intros Hn. unfold count_retry, int_add. by rewrite int_of_ok by (unfold INT_MIN, INT_MAX; lia).
Qed.

Lemma backoff_ok l : 0 < nretries l < 1000 ->
  exists j, backoff_step h env l = Ok (l <| jcong := j |>).
Proof.
  intros Hn. unfold backoff_step. destruct (_ && _).
  2:{ exists (jcong l). by destruct l. }
  unfold doBackoff, randomized_backoff, u64 at 1. rewrite Z.mod_small by lia.
  destruct (Z.eqb_spec (compute_backoff (nretries l)) 0) as [H0|]; [|by eexists].
  exfalso. revert H0. unfold compute_backoff, power_of_2, u64.
  destruct (Z.ltb_spec 16 (nretries l)); [rewrite Z.mod_small; lia|].
  assert (0 < 2 ^ nretries l <= 2 ^ 16) as Hp.
  { split; [apply Z.pow_pos_nonneg; lia|apply Z.pow_le_mono_r; lia]. }
  rewrite Z.shiftl_1_l, Z.mod_small; lia.
Qed.

(** A counted abort is not taken back. *)
Lemma classify_counted power l :
  counted h (status l) -> (txExecOnPower l = true \/ power = -1) ->
  classify_abort h env power l = Ok l.
Proof.
  intros (_ & He & Hd & Hp) Hx. unfold classify_abort. rewrite He, Hd.
  destruct (HANDLER_POWERTM_PRECISEABORTS h); [by rewrite Hp|].
  destruct (HANDLER_POWERTM h); [|done]. by destruct Hx as [->| ->]; rewrite ?andb_false_r.
Qed.

Lemma head_attempt n k l : at_head n k l ->
  exists l1, loop_head h t (powerFlag k) l = Ok l1 /\ attempt n k l1.
Proof.
  intros (Htr & Hr & Hx). pose proof (tries_locks _ _ _ Htr). pose proof first_aborts_bounds.
  unfold loop_head. rewrite count_retry_ok by lia. cbn [rbind].
  destruct Htr as (Hn & Hw & Hph). unfold attempt, tries.
  destruct (Z.ltb_spec n (first_aborts env)) as [Hlt|Hge].
  - destruct Hph as [-> Hp]. cbn [powerFlag].
    assert ((-1 =? t) = false) as -> by (apply Z.eqb_neq; lia). specialize (Hx Hlt).
    destruct (HANDLER_POWERTM h); eexists; (split; [reflexivity|]); cbn;
      rewrite ?Hr; split_and!; done.
  - destruct Hph as (Hp & -> & Hj & Hlt). cbn [powerFlag]. rewrite Hp, Z.eqb_refl.
    eexists. split; [reflexivity|]. cbn. rewrite Hr. split_and!; done.
Qed.

(** The decision after abort number [n], without and with the power flag. *)
Lemma decide_first n k l :
  attempt (n - 1) k l -> counted h (status l) -> n <= first_aborts env ->
  loop_inv n k (after_wait h env (powerFlag k) (MkThread Classify l None)).
Proof.
  pose proof first_aborts_bounds as Hb. intros ((Hn & Hw & Hph) & Hr & Hx) Hc Hle.
  rewrite (proj2 (Z.ltb_lt _ _)) in Hph, Hx by lia. destruct Hph as [-> Hp]. cbn [negb] in Hx.
  unfold after_wait. cbn [th_locals th_tx powerFlag].
  rewrite power_retry_off by (by rewrite Hx, andb_false_r).
  rewrite classify_counted by (done || by right). cbn [rbind]. unfold decide_retry.
  pose proof Hc as (Hs & He & _). rewrite He, Hs, Hw, Hr. cbn [negb andb]. rewrite andb_true_r.
  replace (n - 1 + 1) with n in * by lia.
  destruct (Z.leb_spec (htm_max_retries env) n) as [Hlast|Hmore].
  - assert (n = first_aborts env) as En by (unfold first_aborts in *; lia).
    destruct (HANDLER_POWERTM h) eqn:Ep.
    + rewrite Hx. cbn. split; [|done]. unfold attempt, tries.
      rewrite (proj2 (Z.ltb_lt _ _)) by lia. split_and!; try done; lia.
    + assert (max_aborts h env = n) as Em by (unfold max_aborts; by rewrite Ep).
      assert (giving_up n (MkLocks 0 0 (-1)) (l <| retryWithLock := true |>)) as Hg.
      { unfold giving_up. rewrite Ep. cbn. done. }
      destruct (HANDLER_FALLBACKLOCK_2PHASE h); cbn; (split; [lia|]; split; [by right|done]).
  - assert (n < first_aborts env) as Hlt by (unfold first_aborts; lia).
    assert (at_head n (MkLocks 0 0 (-1)) l) as Hh.
    { unfold at_head, tries. rewrite (proj2 (Z.ltb_lt _ _)) by done. split_and!; try done; lia. }
    destruct (HANDLER_FALLBACKLOCK_2PHASE h); cbn; (split; [lia|]; split; [by left|done]).
Qed.

Lemma decide_power n k l :
  attempt (n - 1) k l -> counted h (status l) -> first_aborts env < n ->
  loop_inv n k (after_wait h env (powerFlag k) (MkThread Classify l None)).
Proof.
  pose proof first_aborts_bounds as Hb. intros ((Hn & Hw & Hph) & Hr & Hx) Hc Hlt.
  rewrite (proj2 (Z.ltb_ge _ _)) in Hph, Hx by lia. cbn [negb] in Hx.
  destruct Hph as (Hp & -> & Hj & Hm). pose proof Hm as Hm'.
  unfold max_aborts in Hm'. rewrite Hp in Hm'. replace (n - 1 + 1) with n in Hr by lia.
  unfold after_wait, power_retry. cbn [th_locals th_tx powerFlag]. rewrite Hp, Hx, Hj. unfold int_add.
  rewrite int_of_ok by (unfold INT_MIN, INT_MAX; lia). cbn [andb rbind].
  pose proof Hc as (Hs & He & _). change (status (l <| nRetriesPowerMode := _ |>)) with (status l).
  rewrite Hs. destruct (Z.ltb_spec (htm_max_retries env) (n - 1 - first_aborts env + 1)).
  - set (l2 := l <| nRetriesPowerMode := _ |> <| retryWithLock := true |>).
    rewrite (classify_counted t l2) by (done || by left). cbn [rbind]. unfold decide_retry.
    change (status l2) with (status l). change (retryWithLock l2) with true.
    rewrite He, Hs. cbn [negb andb]. rewrite andb_false_r.
    assert (giving_up n (MkLocks 0 0 t) l2) as Hg.
    { unfold giving_up, max_aborts. rewrite Hp. cbn. split_and!; try done; lia. }
    destruct (HANDLER_FALLBACKLOCK_2PHASE h); cbn; (split; [lia|]; split; [by right|done]).
  - cbn. split; [|done]. unfold at_head, tries, max_aborts. rewrite (proj2 (Z.ltb_ge _ _)) by lia.
    rewrite Hp. cbn. split_and!; try done; lia.
Qed.

Lemma after_wait_inv n k l :
  attempt (n - 1) k l -> counted h (status l) ->
  loop_inv n k (after_wait h env (powerFlag k) (MkThread Classify l None)) /\
  (rank (th_pc (after_wait h env (powerFlag k) (MkThread Classify l None))) < 11)%nat.
Proof.
  intros Ha Hc. assert (loop_inv n k (after_wait h env (powerFlag k) (MkThread Classify l None))) as Hi.
  { destruct (Z.le_gt_cases n (first_aborts env)); [by apply decide_first|by apply decide_power]. }
  split; [done|]. revert Hi. unfold after_wait.
  destruct (power_retry _ _ _) as [[l1 []]|e]; [cbn; lia| |done].
  destruct (let? l2 := _ in _) as [[l2 []]|e]; [cbn; lia| |done].
  destruct (HANDLER_FALLBACKLOCK_2PHASE h); cbn; lia.
Qed.

(** The end of an iteration. *)
Lemma loop_end_inv n k l :
  0 < n -> at_head n k l \/ giving_up n k l ->
  exists th', thread_step h env t k (MkThread LoopEnd l None) = Some (th', k, false) /\
    loop_inv n k th' /\ (rank (th_pc th') < 8)%nat.
Proof.
  pose proof first_aborts_bounds as Hb. intros Hn Hl.
  assert (nretries l = n /\ n < 1000) as [Hr Hlt].
  { destruct Hl as [(Htr & Hr & _)|(-> & _ & Hr & _)]; [|by split; [|lia]].
    pose proof (tries_locks _ _ _ Htr). split; [done|lia]. }
  destruct (backoff_ok l) as [j Hj]; [lia|]. cbn. rewrite Hj. cbn [goto].
  destruct Hl as [(Htr & _ & Hx)|(Hm & Hw & _ & Hp)].
  - pose proof Htr as (_ & Hw & _). rewrite Hw. eexists. split; [reflexivity|]. cbn. split; [|lia].
    by split; [split; [done|by split]|].
  - rewrite Hw. destruct (HANDLER_POWERTM h) eqn:Ep; eexists; (split; [reflexivity|]).
    + cbn. split; [|lia]. split; [|done]. unfold giving_up. by rewrite Ep.
    + unfold to_lock. destruct (HANDLER_FALLBACKLOCK_2PHASE h) eqn:E2; cbn;
        rewrite ?E2; (split; [done|lia]).
Qed.

(** A step keeps the invariant, and comes closer to the critical section. *)
Definition advances n k th : Prop :=
  is_doomed th && accesses (th_pc th) = false /\
  exists th' k' w, thread_step h env t k th = Some (th', k', w) /\ loop_inv n k' th' /\
    (rank (th_pc th) = 0 \/ rank (th_pc th') < rank (th_pc th))%nat.

(** From the end of the loop to the acquisition of the lock. *)
Definition acquires (p : pc) : bool :=
  match p with
  | ReleasePower | ReleasePowerWrite | PrefbWait | PrefbCas | LockWait | LockCas
  | PrefbUnlock => true
  | _ => false
  end.

Lemma acquire_inv n k th :
  loop_inv n k th -> acquires (th_pc th) = true -> advances n k th.
Proof.
  destruct th as [p l x]. unfold loop_inv, advances, is_doomed. cbn [th_pc th_locals th_tx].
  destruct p; intros Hi Hac; try done.
  - destruct Hi as ((Hm & Hw & Hr & Hp) & Ep & ->). rewrite Ep in Hp.
    destruct Hp as (-> & Hx & Hj). split; [done|]. cbn. rewrite Z.eqb_refl.
    rewrite (release_asserts_ok env) by (done || (right; lia)). cbn. do 3 eexists.
    split; [reflexivity|]. split; [|cbn; lia]. split; [|done]. unfold giving_up. by rewrite Ep.
  - destruct Hi as ((Hm & Hw & Hr & Hp) & Ep & ->). rewrite Ep in Hp.
    destruct Hp as (-> & Hx & Hj). split; [done|]. cbn. do 3 eexists. split; [reflexivity|].
    unfold to_lock. destruct (HANDLER_FALLBACKLOCK_2PHASE h) eqn:E2; cbn; rewrite ?E2;
      (split; [done|lia]).
  - destruct Hi as (Hm & E2 & -> & ->). split; [done|]. do 3 eexists. split; [reflexivity|].
    split; [done|cbn; lia].
  - destruct Hi as (Hm & E2 & -> & ->). split; [done|]. do 3 eexists. split; [reflexivity|].
    cbn. rewrite E2. split; [done|lia].
  - destruct Hi as (Hm & -> & ->). split; [done|]. do 3 eexists. split; [reflexivity|].
    split; [done|cbn; lia].
  - destruct Hi as (Hm & -> & ->). split; [done|]. cbn. do 3 eexists. split; [reflexivity|].
    destruct (HANDLER_FALLBACKLOCK_2PHASE h); cbn; (split; [done|lia]).
  - destruct Hi as (Hm & -> & ->). split; [done|]. do 3 eexists. split; [reflexivity|].
    split; [done|cbn; lia].
Qed.

Lemma step_inv n k th :
  loop_inv n k th -> leaves Go th = false -> advances n k th.
Proof.
  destruct (acquires (th_pc th)) eqn:Hac; [by intros ? _; apply acquire_inv|].
  destruct th as [p l x]. unfold loop_inv, leaves, advances. cbn [th_pc th_locals th_tx] in *.
  pose proof first_aborts_bounds as Hb.
  assert (forall n, attempt n k l -> spinlock_isLocked k = false) as Hfree
    by (intros ? [Htr%tries_locks _]; tauto).
  destruct p; intros Hi Hlv; try done; unfold is_doomed; cbn [th_tx].
  - destruct Hi as (-> & -> & ->). split; [done|]. cbn. rewrite Hfb. do 3 eexists.
    split; [reflexivity|]. split; [|cbn; lia]. split; [|done]. unfold at_head, tries.
    rewrite (proj2 (Z.ltb_lt _ _)) by lia. split_and!; done.
  - destruct Hi as [Hh ->]. split; [done|]. destruct (head_attempt n k l Hh) as (l1 & E & Ha).
    cbn. rewrite E. do 3 eexists. split; [reflexivity|]. split; [done|cbn; lia].
  - destruct Hi as [Ha ->]. split; [done|]. do 3 eexists. split; [reflexivity|]. split; [done|cbn; lia].
  - destruct Hi as [Ha ->]. split; [done|]. cbn. rewrite (Hfree _ Ha). do 3 eexists.
    split; [reflexivity|]. split; [done|cbn; lia].
  - destruct Hi as [Ha ->]. split; [done|]. do 3 eexists. split; [reflexivity|]. split; [done|by left].
  - destruct Hi as (Ha & Hc & ->). split; [done|]. cbn. unfold lemming_check.
    rewrite (Hfree _ Ha), andb_false_r. do 3 eexists. split; [reflexivity|]. split; [done|cbn; lia].
  - destruct Hi as (Ha & Hc & ->). split; [done|]. cbn. rewrite (Hfree _ Ha).
    do 3 eexists. split; [reflexivity|]. split; [done|cbn; lia].
  - destruct Hi as (Ha & Hc & ->). split; [done|]. cbn. do 3 eexists. split; [reflexivity|].
    destruct (after_wait_inv n k l Ha Hc). split; [done|by right].
  - destruct Hi as (((Hn & Hw & Hph) & Hr & _) & En & Hp & ->). split; [done|].
    rewrite (proj2 (Z.ltb_lt _ _)) in Hph by lia. destruct Hph as [-> Hj].
    cbn. unfold cas_powerFlag. cbn. do 3 eexists. split; [reflexivity|].
    assert (at_head n (MkLocks 0 0 t) (l <| txExecOnPower := true |>)) as Hh.
    { unfold at_head, tries, max_aborts. rewrite (proj2 (Z.ltb_ge _ _)), Hp by lia.
      cbn. split_and!; try done; lia. }
    destruct (HANDLER_FALLBACKLOCK_2PHASE h); cbn; (split; [|lia]; split; [lia|]; by split; [left|]).
  - destruct Hi as (Hn & Hl & ->). split; [done|].
    assert (spinlock_prefb_isLocked k = false) as E.
    { destruct Hl as [[Htr%tries_locks _]|(_ & _ & _ & Hk)]; [tauto|].
      destruct (HANDLER_POWERTM h); [by destruct Hk as [-> _]|by subst]. }
    cbn. rewrite E. do 3 eexists. split; [reflexivity|]. split; [done|cbn; lia].
  - destruct Hi as (Hn & Hl & ->). split; [done|].
    destruct (loop_end_inv n k l Hn Hl) as (th' & E & Hi' & Hrk).
    do 3 eexists. split; [exact E|]. split; [done|by right].
  - destruct Hi as [Ha ->]. split; [done|]. cbn. rewrite (Hfree _ Ha). do 3 eexists.
    split; [reflexivity|]. split; [done|by left].
Qed.

Lemma fault_inv n k th v :
  loop_inv n k th -> can_fault th = true -> counted h v ->
  loop_inv (n + 1) k (abort_thread v th).
Proof.
  destruct th as [p l x]. unfold can_fault, loop_inv. cbn [th_pc th_locals th_tx abort_thread].
  intros Hi Hcf Hc. replace (n + 1 - 1) with n by lia.
  enough (attempt n k l) as Ha by (by split; [|split]).
  destruct p; try done; try (destruct Hi as [Hi _]; exact Hi); exfalso; cbn in Hcf;
    destruct_and? Hi; subst x; discriminate.
Qed.

Lemma section_inv evs n s th s' :
  threads s !! t = Some th -> loop_inv n (locks s) th ->
  Forall (counted_fault h) (faults evs) -> section_run h env t evs s = Some s' ->
  exists th', threads s' !! t = Some th' /\
    loop_inv (n + Z.of_nat (length (faults evs))) (locks s') th'.
Proof.
  revert n s th. induction evs as [|ev evs IH]; intros n s th Hth Hi Hf Hrun; cbn [section_run] in Hrun.
  { injection Hrun as <-. exists th. by rewrite Z.add_0_r. }
  rewrite Hth in Hrun. cbn in Hrun. destruct (leaves ev th) eqn:Hlv; [done|].
  destruct ev as [|sys c cause].
  - destruct (step_inv n (locks s) th Hi Hlv) as (Hd & th1 & k1 & w & Hs & Hi1 & _).
    rewrite (exec_go h env t s th th1 k1 w) in Hrun by done. cbn in Hrun.
    refine (IH n _ th1 _ _ Hf Hrun); [apply lookup_insert_eq|done].
  - cbn in Hf. apply Forall_cons in Hf as [(v & Hv & Hc) Hf].
    unfold exec in Hrun. rewrite Hth in Hrun. cbn in Hrun.
    destruct (can_fault th) eqn:Hcf; [|done]. rewrite Hv in Hrun. cbn in Hrun.
    edestruct (IH (n + 1)) as (th' & Hth' & Hi'); [| |done|exact Hrun|];
      [apply lookup_insert_eq|by apply fault_inv|].
    exists th'. split; [done|]. cbn [faults omap list_omap fault_of length] in *.
    replace (n + Z.of_nat (S (length (omap fault_of evs))))
      with (n + 1 + Z.of_nat (length (omap fault_of evs))) by lia. done.
Qed.

(** Without further aborts, the thread reaches its critical section. *)
Lemma section_reached r n s th :
  threads s !! t = Some th -> loop_inv n (locks s) th -> (rank (th_pc th) <= r)%nat ->
  exists go s' th', (go <= r)%nat /\ run h env (replicate go (t, Go)) s = Some s' /\
    threads s' !! t = Some th' /\ loop_inv n (locks s') th' /\ rank (th_pc th') = 0%nat.
Proof.
  revert s th. induction r as [|r IH]; intros s th Hth Hi Hr.
  { exists 0%nat, s, th. split_and!; try done; lia. }
  destruct (decide (rank (th_pc th) = 0%nat)) as [H0|H0].
  { exists 0%nat, s, th. split_and!; try done; lia. }
  destruct (step_inv n (locks s) th Hi) as (Hd & th1 & k1 & w & Hs & Hi1 & Hrk).
  { destruct th as [[]]; done. }
  destruct (IH (MkState k1 (<[t := th1]> (if w then doom_others t (threads s) else threads s))) th1)
    as (go & s' & th' & Hgo & Hrun & Hrest); [apply lookup_insert_eq|done|lia|].
  exists (S go), s', th'. split; [lia|]. split; [|done]. cbn [replicate run].
  by rewrite (exec_go h env t s th th1 k1 w).
Qed.

Lemma inv_aborts n k th : loop_inv n k th -> n <= max_aborts h env.
Proof.
  pose proof first_aborts_bounds as Hb.
  assert (forall m l, attempt m k l -> m < max_aborts h env) as Ha
    by (intros ?? [?%tries_locks _]; lia).
  assert (forall m l, at_head m k l -> m < max_aborts h env) as Hh
    by (intros ?? [?%tries_locks _]; lia).
  unfold loop_inv, giving_up. destruct (th_pc th); intros Hi; try done;
    first [destruct Hi as (_ & [Hi|[Hi _]] & _); [apply Hh in Hi|]; lia
          |destruct Hi as [Hi _];
           first [lia|apply Ha in Hi; lia|apply Hh in Hi; lia|destruct Hi as [Hi _]; lia]].
Qed.
End retry.

(** C16: The retry loop ends after exactly the configured number of aborts.  A thread calls the
    handler with the locks free and runs alone, in any variant with speculation and with any
    setting of [htm_max_retries] below 255, zero included; it meets counted aborts (retry is
    possible, no explicit cancellation, no lockstep replay, and with precise aborts no conflict
    with a power transaction), at any point of the attempts, and has not committed.  Then it has
    met no more than [max_aborts] of them.  With fewer, at most 13 steps without an abort bring
    it to the speculative critical section, and the lock is free.  With all of them it can only
    take the lock: at most 13 steps bring it to the critical section with the fallback lock held,
    and the other locks are free.  The number is [htm_max_retries], at least one, and in the
    power variants [htm_max_retries + 1] more in power mode. *)
Theorem retry_loop_ends h env s t l evs s' :
  0 <= htm_max_retries env < 255 -> 0 <= t -> HANDLER_FALLBACKLOCK h = true ->
  locks s = spinlock_init -> threads s !! t = Some (MkThread Outside l None) ->
  section_run h env t evs s = Some s' -> Forall (counted_fault h) (faults evs) ->
  let n := Z.of_nat (length (faults evs)) in
  n <= max_aborts h env /\
  exists go s'' th, (go <= 13)%nat /\ run h env (replicate go (t, Go)) s' = Some s'' /\
    threads s'' !! t = Some th /\
    if n <? max_aborts h env
    then th_pc th ∈ [Body; CommitCheck; XEnd] /\ th_tx th = Some (MkTx true false) /\
         fallbackLock (locks s'') = 0
    else th_pc th = Critical /\ th_tx th = None /\ locks s'' = MkLocks 1 0 (-1).
Proof.
  intros Hmax Ht Hfb Hk Hth Hrun Hf n.
  destruct (section_inv h env t Hmax Ht Hfb evs 0 s _ s' Hth) as (th' & Hth' & Hi); [done..|].
  split; [by apply (inv_aborts h env t) in Hi|].
  destruct (section_reached h env t Hmax Ht Hfb 13 _ s' th' Hth' Hi)
    as (go & s'' & th & Hgo & Hrun2 & Hth2 & Hi2 & H0).
  { destruct (th_pc th'); cbn; lia. }
  exists go, s'', th. do 3 (split; [done|]). rewrite Z.add_0_l in Hi2. fold n in Hi2.
  assert (forall l, attempt h env t n (locks s'') l ->
    n < max_aborts h env /\ fallbackLock (locks s'') = 0) as Ha.
  { intros l' [(Hl & _ & Hn)%tries_locks _]; [|done]. split; [lia|].
    unfold spinlock_isLocked in Hl. lia. }
  unfold loop_inv in Hi2. destruct (th_pc th) eqn:Epc; try done; destruct Hi2 as [Hn Hi2];
    try (destruct (Ha _ Hn) as [Hlt Hfl]; rewrite (proj2 (Z.ltb_lt _ _) Hlt);
         split; [set_solver|by split]).
  rewrite (proj2 (Z.ltb_ge _ _)) by lia. by destruct Hi2.
Qed.

(** ** Power transactions that cancel themselves *)

Lemma after_wait_cancelled h env power l :
  HANDLER_POWERTM h = true -> txExecOnPower l = true -> retryWithLock l = false ->
  0 <= nRetriesPowerMode l <= htm_max_retries env -> htm_max_retries env < 255 ->
  htm_max_retries env < nretries l ->
  htm_abort_cause_explicit (status l) = true ->
  htm_abort_cause_explicit_code (status l) = CANCEL_TRANSACTION_DEFAULT_CODE ->
  htm_may_succeed_on_retry (status l) = false ->
  after_wait h env power (MkThread Classify l None) = MkThread (Failed EAssert) l None.
Proof.
  intros Hp Hx Hr Hn Hmax Hge He Hco Hre. unfold after_wait, power_retry. cbn [th_locals th_tx].
  rewrite Hp, Hx. unfold int_add. rewrite int_of_ok by (unfold INT_MIN, INT_MAX; lia).
  cbn [andb rbind]. set (l1 := l <| nRetriesPowerMode := nRetriesPowerMode l + 1 |>).
  change (status l1) with (status l). rewrite Hre. unfold classify_abort.
  change (status l1) with (status l). rewrite He, Hco. cbn [rbind].
  change (htm_abort_code_is_lock_acquired CANCEL_TRANSACTION_DEFAULT_CODE) with false.
  change (htm_abort_code_is_default CANCEL_TRANSACTION_DEFAULT_CODE) with true.
  cbn [rassert rbind]. unfold decide_retry.
  change (status l1) with (status l). change (nretries l1) with (nretries l).
  change (retryWithLock l1) with (retryWithLock l). change (txExecOnPower l1) with (txExecOnPower l).
  rewrite He, Hr, Hx, Hp, (proj2 (Z.leb_le _ _)) by lia. done.
Qed.

(** C37: Cancelling a power transaction stops the program. In the power
    variants, whenever the thread with the power flag cancels its transaction
    ([cancelTransaction], the default code) while the fallback lock is free,
    its next three steps lead to the failing assertion that the thread is not
    in power mode: an explicit abort is not worth a retry, so the handler
    neither retries in power mode nor gives up, and goes for power mode
    again. *)
Theorem power_cancel_fails h env strict s t th sys c v :
  0 < htm_max_retries env < 255 -> reachable h env strict s ->
  threads s !! t = Some th -> is_Some (th_tx th) ->
  powerFlag (locks s) = t -> fallbackLock (locks s) = 0 ->
  fault_status sys c EXPLICIT = Ok v -> abortReason c = CANCEL_TRANSACTION_DEFAULT_CODE ->
  exists s' l, run h env [(t, Fault sys c EXPLICIT); (t, Go); (t, Go); (t, Go)] s = Some s' /\
    threads s' !! t = Some (MkThread (Failed EAssert) l None).
Proof.
  intros Hmax Hr Ht Htx Hp Hlock Hv Hcode.
  pose proof (reachable_power h env strict Hmax s Hr) as P.
  destruct (reachable_locks h env strict s Hr) as [I _].
  destruct (pi_thread _ _ _ _ P t th Ht) as [Hpos Hok].
  destruct (li_thread s I t th Ht) as (Hc & _ & _).
  assert (HANDLER_POWERTM h = true) as Hpow.
  { destruct (HANDLER_POWERTM h) eqn:E; [done|]. pose proof (pi_off _ _ _ _ P E). lia. }
  assert (mode_ok env true (th_locals th) /\ htm_max_retries env < nretries (th_locals th))
    as [((Hrl & Hn) & Hx & Hf) Hge].
  { rewrite Hp, Z.eqb_refl in Hok. destruct th as [p l x]. cbn in Htx. destruct Htx as [x' ->].
    destruct p; cbn in Hc, Hok; try done; destruct Hok as [Hm Hgt]; auto. }
  pose proof Hv as (vis & [= <-] & _ & He & Hco & Hcf & _ & _ & Hre)%fault_status_ok.
  specialize (Hco eq_refl). rewrite Hcode in Hco.
  set (l := (th_locals th) <| status := v |>).
  assert (spinlock_isLocked (locks s) = false) as Hfree.
  { unfold spinlock_isLocked. by rewrite Hlock. }
  eexists _, l. cbn [run].
  rewrite (exec_fault h env t s th sys c EXPLICIT v); [|done| |done].
  2:{ destruct Htx as [x Htx]. unfold can_fault. rewrite Htx. by destruct (th_pc th). }
  cbn [mbind option_bind]. rewrite (exec_go h env t _ (MkThread AbortCheck l None)
    (MkThread WaitLock l None) (locks s) false); [|apply lookup_insert_eq|done|].
  2:{ cbn. unfold lemming_check. change (status l) with v. by rewrite Hcf. }
  cbn [mbind option_bind]. rewrite (exec_go h env t _ (MkThread WaitLock l None)
    (MkThread Classify l None) (locks s) false); [|apply lookup_insert_eq|done|].
  2:{ cbn [thread_step th_pc locks]. by rewrite Hfree. }
  cbn [mbind option_bind]. rewrite (exec_go h env t _ (MkThread Classify l None)
    (MkThread (Failed EAssert) l None) (locks s) false); [|apply lookup_insert_eq|done|].
  2:{ cbn [thread_step th_pc locks]. rewrite after_wait_cancelled; try done; try lia. }
  split; [done|apply lookup_insert_eq].
Qed.

(** ** Counting aborts twice *)

(** With imprecise power aborts, an abort by a conflict while another thread
    has the fallback lock and the power flag is taken back twice: the counter
    of retries is one lower after the attempt than before it. *)
Lemma abort_taken_back_twice h env t power l v l1 l2 :
  HANDLER_POWERTM h = true -> HANDLER_POWERTM_PRECISEABORTS h = false ->
  power <> -1 -> power <> t ->
  htm_abort_cause_conflict v = true -> htm_abort_cause_explicit v = false ->
  htm_abort_cause_disabled v = false ->
  loop_head h t power l = Ok l1 -> lemming_check true (l1 <| status := v |>) = Ok l2 ->
  forall l3, classify_abort h env power l2 = Ok l3 -> nretries l3 = nretries l - 1.
Proof.
  intros Hp Hpr Hpow Hne Hc He Hd H1 H2 l3. unfold loop_head in H1.
  destruct (count_retry 1 l) as [l0|] eqn:E0; [|done]. apply count_retry_inv in E0 as ->.
  cbn [rbind] in H1. rewrite Hp in H1. apply Z.eqb_neq in Hne, Hpow. rewrite Hne in H1.
  injection H1 as <-. unfold lemming_check in H2. cbn in H2. rewrite Hc in H2.
  apply count_retry_inv in H2 as ->. unfold classify_abort. cbn.
  rewrite He, Hd, Hp, Hpr, Hpow. cbn. intros ->%count_retry_inv. cbn. lia.
Qed.

(** A counter below zero gives the longest back-off. *)
Lemma negative_backoff : compute_backoff (u64 (-1)) = 65519 /\ compute_backoff (u64 0) = 1.
Proof. done. Qed.

(** ** Witnesses *)

Definition demo_env : EnvConfig := MkEnvConfig 1 true.
Definition demo_start : State :=
  MkState spinlock_init {[ 0 := idle_thread 5; 1 := idle_thread 7 ]}.
Definition demo_fault (cause : HtmFailureFaultCause) : event :=
  Fault demo_sys (demo_ckpt 0) cause.
Definition demo_state (h : Handler) (evs : list (Z * event)) : State :=
  default demo_start (run h demo_env evs demo_start).

Lemma demo_start_initial : initial demo_start.
Proof.
  split; [done|]. intros t th. cbn [demo_start threads]. rewrite lookup_insert_Some.
  intros [[<- <-]|[_ [<- <-]%lookup_singleton_Some]]; (split; [lia|done]).
Qed.

Lemma demo_reachable h strict evs :
  (strict = true -> forallb (fun e => benign h e.2) evs = true) ->
  is_Some (run h demo_env evs demo_start) -> reachable h demo_env strict (demo_state h evs).
Proof.
  intros Hb [s Hs]. unfold demo_state. rewrite Hs. cbn.
  by apply (run_reachable _ _ _ evs demo_start); [apply reachable_init, demo_start_initial|..].
Qed.

(** Thread 1 speculates up to its commit; thread 0 aborts for an exception
    and takes the lock. *)
Definition demo_lock : list (Z * event) :=
  replicate 6 (1, Go) ++ replicate 2 (0, Go) ++ [(0, demo_fault EXCEPTION)] ++ replicate 6 (0, Go).

Lemma logtm_abort_recovers_witness :
  exists v c' tc',
    invoke 0 (MkSystemView lockstep_disabled
      (Some (MkHtmView false (default_params <| lazy_vm := false |>) 2 false)) false)
      (demo_ckpt 7) (demo_tc 9) MEMORY = Ok (c', tc') /\
    intRegs tc' = v :: replicate 38 7 /\
    EagerVM.mread (fst EagerVM.demo_x) 4104 = 99 /\
    EagerVM.mread (unroll_after_abort 1048576 v (fst EagerVM.demo_x)) 4104 = 1.
Proof.
  destruct (logtm_abort_recovers 0 (MkSystemView lockstep_disabled
      (Some (MkHtmView false (default_params <| lazy_vm := false |>) 2 false)) false)
    (demo_ckpt 3) (demo_ckpt 7) (demo_tc 7) (demo_tc 9) MEMORY MEMORY 1048576
    {[ 4104 := 1; 4160 := 2 ]} EagerVM.demo_ops (fst EagerVM.demo_x) (snd EagerVM.demo_x))
    as (v & c' & tc' & H1 & H2 & _ & _ & H3).
  - done.
  - done.
  - done.
  - done.
  - by eexists.
  - done.
  - rewrite <- (surjective_pairing EagerVM.demo_x).
    apply (EagerVM.xrunb_run 1048576 EagerVM.demo_ops ({[ 4104 := 1; 4160 := 2 ]}, [])).
    by vm_compute.
  - by vm_compute.
  - exists v, c', tc'. split; [exact H1|]. split; [exact H2|]. split; [by vm_compute|].
    rewrite H3; [by vm_compute|done|].
    unfold EagerVM.in_log. change EagerVM.MAX_LOG_SIZE_BYTES with 1048576. lia.
Defined.

Lemma critical_sections_exclusive_witness :
  exists th0 th1,
    threads (demo_state handler_fallbacklock demo_lock) !! 0 = Some th0 /\
    threads (demo_state handler_fallbacklock demo_lock) !! 1 = Some th1 /\
    th_pc th0 = Critical /\ th_pc th1 = XEnd /\
    exec handler_fallbacklock demo_env 1 Go (demo_state handler_fallbacklock demo_lock) = None.
Proof.
  do 2 eexists. split; [by vm_compute|]. split; [by vm_compute|]. split; [done|]. split; [done|].
  eapply (critical_sections_exclusive handler_fallbacklock demo_env false
    (demo_state handler_fallbacklock demo_lock) 0 1).
  - apply demo_reachable; [done|]. vm_compute. by eexists.
  - done.
  - by vm_compute.
  - by vm_compute.
  - done.
  - done.
Defined.

(** Thread 0 aborts once, gets the power flag and starts again. *)
Definition demo_power : list (Z * event) :=
  replicate 2 (0, Go) ++ [(0, demo_fault MEMORY)] ++ replicate 7 (0, Go).

Lemma power_mode_exclusive_witness :
  exists th, threads (demo_state handler_powertm demo_power) !! 0 = Some th /\
    th_pc th = Subscribe /\ flags (th_locals th) = POWER_TM_FLAG.
Proof.
  eexists. split; [by vm_compute|]. split; [done|].
  eapply (power_mode_exclusive handler_powertm demo_env false
    (demo_state handler_powertm demo_power) 0).
  - done.
  - apply demo_reachable; [done|]. vm_compute. by eexists.
  - by vm_compute.
  - by eexists.
  - by vm_compute.
Defined.

Lemma handler_assertions_hold_witness :
  exists th, threads (demo_state handler_powertm demo_power) !! 0 = Some th /\
    th_pc th <> Failed EAssert.
Proof.
  eexists. split; [by vm_compute|].
  eapply (handler_assertions_hold handler_powertm demo_env
    (demo_state handler_powertm demo_power) 0).
  - done.
  - apply demo_reachable; [by vm_compute|]. vm_compute. by eexists.
  - by vm_compute.
Defined.

(** Thread 0 has the lock in two phases, and thread 1 waits for it. *)
Definition demo_wait : list (Z * event) :=
  replicate 2 (1, Go) ++ [(1, demo_fault MEMORY); (1, Go)] ++
  replicate 2 (0, Go) ++ [(0, demo_fault EXCEPTION)] ++ replicate 9 (0, Go).

Lemma waiting_released_witness :
  exists th evs s' s'',
    threads (demo_state handler_fallbacklock2phase demo_wait) !! 1 = Some th /\
    th_pc th = WaitLock /\ (length evs <= 7)%nat /\
    run handler_fallbacklock2phase demo_env evs
      (demo_state handler_fallbacklock2phase demo_wait) = Some s' /\
    exec handler_fallbacklock2phase demo_env 1 Go s' = Some s''.
Proof.
  destruct (threads (demo_state handler_fallbacklock2phase demo_wait) !! 1) as [th|] eqn:E;
    [|by vm_compute in E].
  destruct (waiting_released handler_fallbacklock2phase demo_env false
    (demo_state handler_fallbacklock2phase demo_wait) 1 th) as (evs & s' & s'' & H1 & _ & H2 & H3).
  - apply demo_reachable; [done|]. vm_compute. by eexists.
  - exact E.
  - vm_compute in E. injection E as <-. by vm_compute.
  - vm_compute in E. by injection E as <-.
  - vm_compute in E. by injection E as <-.
  - exists th, evs, s', s''. split; [done|]. split; [|by split; [|split]].
    vm_compute in E. by injection E as <-.
Defined.

(** One abort without and two with the power flag, each in the transaction. *)
Definition demo_aborts : list event :=
  let attempt := [Go; Go; Go; demo_fault MEMORY] in
  Go :: attempt ++ replicate 5 Go ++ attempt ++ replicate 3 Go ++ attempt.

Lemma retry_loop_ends_witness :
  exists s' go s'' th, section_run handler_powertm demo_env 0 demo_aborts demo_start = Some s' /\
    run handler_powertm demo_env (replicate go (0, Go)) s' = Some s'' /\
    threads s'' !! 0 = Some th /\ th_pc th = Critical /\ locks s'' = MkLocks 1 0 (-1).
Proof.
  destruct (section_run handler_powertm demo_env 0 demo_aborts demo_start) as [s'|] eqn:E;
    [|by vm_compute in E].
  assert (faults demo_aborts = replicate 3 (demo_sys, demo_ckpt 0, MEMORY)) as Hf
    by (vm_compute; reflexivity).
  destruct (retry_loop_ends handler_powertm demo_env demo_start 0
    (MkLocals 0 false 0 0 false 0 5) demo_aborts s')
    as (_ & go & s'' & th & _ & H1 & H2 & H3).
  - cbn. lia.
  - lia.
  - reflexivity.
  - reflexivity.
  - vm_compute. reflexivity.
  - exact E.
  - rewrite Hf. clear E. apply Forall_replicate. eexists.
    split; [by vm_compute|]. split; [done|]. split; [done|]. by split.
  - rewrite Hf in H3. change (Z.of_nat 3 <? max_aborts handler_powertm demo_env) with false in H3.
    destruct H3 as (H3 & _ & H4). exists s', go, s'', th.
    split; [reflexivity|]. split; [exact H1|]. split; [exact H2|]. split; [exact H3|exact H4].
Defined.

Lemma power_cancel_fails_witness :
  exists s' l,
    run handler_powertm demo_env
      ((0, Fault demo_sys (HTMCheckpoint.setAbortReason 254 (demo_ckpt 0)) EXPLICIT) ::
       replicate 3 (0, Go)) (demo_state handler_powertm demo_power) = Some s' /\
    threads s' !! 0 = Some (MkThread (Failed EAssert) l None).
Proof.
  destruct (threads (demo_state handler_powertm demo_power) !! 0) as [th|] eqn:E;
    [|by vm_compute in E].
  eapply (power_cancel_fails handler_powertm demo_env false
    (demo_state handler_powertm demo_power) 0 th).
  - done.
  - apply demo_reachable; [done|]. vm_compute. by eexists.
  - exact E.
  - vm_compute in E. injection E as <-. by eexists.
  - by vm_compute.
  - by vm_compute.
  - by vm_compute.
  - done.
Defined.
